(** * Courier: a shallow embedding of the transport and reliability engine

    The development follows the Python package [courier]:
    - [protocol.py]        message constructors and the SACK digest,
    - [network_io.py]      the binary codec of the five wire messages,
    - [storage.py]         the SQLite store, as a journal of commits,
    - [send_engine.py]     chunking, XOR parity, window and SACK handling,
    - [receive_engine.py]  reassembly, SACK emission and XOR reconstruction,
    - [custody_manager.py] custody acceptance.

    Python integers are [Z]; [bytes] are [list byte]; dictionaries are
    [gmap]; sets are [gset]; floating point milliseconds and seconds are
    exact rationals [Q] (every value used in a concrete run below is a
    small dyadic rational, on which binary floating point is exact).
    Logging has no effect on the state and is left out. *)

From Stdlib Require Import ZArith QArith Qabs Qminmax Lia List.
From Stdlib Require Import Strings.Byte.
From stdpp Require Import base gmap sets list strings sorting.
Import ListNotations.
Local Open Scope Z_scope.

(** ** Bytes *)

Abbreviation bytes := (list byte).

Definition byte_val (b : byte) : Z := Z.of_N (Byte.to_N b).

Definition byte_of (z : Z) : byte :=
  match Byte.of_N (Z.to_N (z mod 256)) with
  | Some b => b
  | None => x00
  end.

(** [result[i] ^= payload[i]] on one octet. *)
Definition byte_xor (a b : byte) : byte :=
  byte_of (Z.lxor (byte_val a) (byte_val b)).

Definition b (s : string) : bytes := String.list_byte_of_string s.

Definition str (bs : bytes) : string := String.string_of_list_byte bs.

(** Python's [len], as an integer. *)
Definition len {A} (l : list A) : Z := Z.of_nat (length l).

(** Python's index normalisation for slices: a negative index counts from
    the end, and the result is clamped to [0, n]. *)
Definition slice_index (n i : Z) : Z :=
  Z.max 0 (Z.min n (if i <? 0 then i + n else i)).

(** Python's slice [l[lo:hi]]. *)
Definition slice {A} (l : list A) (lo hi : Z) : list A :=
  let lo := slice_index (len l) lo in
  let hi := slice_index (len l) hi in
  take (Z.to_nat (hi - lo)) (drop (Z.to_nat lo) l).

(** [range(n)]. *)
Definition range (n : Z) : list Z := Z.of_nat <$> seq 0 (Z.to_nat n).

(** [range(lo, hi)]. *)
Definition range2 (lo hi : Z) : list Z :=
  (fun i => lo + Z.of_nat i) <$> seq 0 (Z.to_nat (hi - lo)).

(** [range(lo, hi, step)] for a positive [step]. *)
Definition range3 (lo hi step : Z) : list Z :=
  (fun i => lo + Z.of_nat i * step) <$> seq 0 (Z.to_nat ((hi - lo + step - 1) / step)).

(** Python's [max(a, b)] and [min(a, b)] on numbers: the first argument
    unless the second is strictly beyond it. *)
Definition Qlt_bool (a c : Q) : bool := negb (Qle_bool c a).

Definition pymax (a c : Q) : Q := if Qlt_bool a c then c else a.

Definition pymin (a c : Q) : Q := if Qlt_bool c a then c else a.

(** ** zlib.crc32

    The standard reflected CRC-32 (polynomial [0xEDB88320], initial value
    and final xor [0xFFFFFFFF]) that [zlib.crc32] computes. *)
Module zlib.

Definition crc32_bit (c : Z) : Z :=
  if Z.testbit c 0 then Z.lxor (Z.shiftr c 1) 0xEDB88320 else Z.shiftr c 1.

Definition crc32_byte (c : Z) (x : byte) : Z :=
  Nat.iter 8 crc32_bit (Z.lxor c (byte_val x)).

Definition crc32 (data : bytes) : Z :=
  Z.lxor (fold_left crc32_byte data 0xFFFFFFFF) 0xFFFFFFFF.

End zlib.

(** ** json

    [json.loads] and [json.dumps] on the fragment the wire format uses:
    integers, strings without escapes, arrays, objects and the three
    literals, with insignificant white space.  Text outside the fragment
    (floats, escapes) is reported as a parse failure. *)
Module json.

#[warnings="-register-all"]
Inductive value :=
| JNull
| JBool (x : bool)
| JInt (z : Z)
| JStr (s : bytes)
| JArr (l : list value)
| JObj (l : list (bytes * value)).

Definition is_ws (c : byte) : bool :=
  let v := byte_val c in (v =? 32) || (v =? 9) || (v =? 10) || (v =? 13).

Definition is_digit (c : byte) : bool :=
  let v := byte_val c in (48 <=? v) && (v <=? 57).

Fixpoint skip_ws (s : bytes) : bytes :=
  match s with
  | c :: r => if is_ws c then skip_ws r else s
  | [] => []
  end.

Fixpoint digits (s : bytes) (acc : Z) : Z * bytes :=
  match s with
  | c :: r => if is_digit c then digits r (10 * acc + (byte_val c - 48)) else (acc, s)
  | [] => (acc, [])
  end.

(** A JSON integer: no leading zero unless the number is zero itself. *)
Definition number (s : bytes) : option (Z * bytes) :=
  match s with
  | c :: r =>
      if is_digit c then
        if (byte_val c =? 48) && (match r with d :: _ => is_digit d | [] => false end)
        then None
        else Some (digits s 0)
      else None
  | [] => None
  end.

Fixpoint chars (s : bytes) (acc : bytes) : option (bytes * bytes) :=
  match s with
  | c :: r =>
      if byte_val c =? 34 then Some (rev acc, r)
      else if (byte_val c =? 92) || (byte_val c <? 32) then None
      else chars r (c :: acc)
  | [] => None
  end.

Fixpoint literal (w : bytes) (s : bytes) : option bytes :=
  match w, s with
  | [], _ => Some s
  | x :: w, c :: s => if Byte.eqb x c then literal w s else None
  | _ :: _, [] => None
  end.

Fixpoint parse_value (fuel : nat) (s : bytes) : option (value * bytes) :=
  match fuel with
  | O => None
  | S fuel =>
      match skip_ws s with
      | [] => None
      | c :: r =>
          let v := byte_val c in
          if v =? 91 then
            match skip_ws r with
            | d :: r' => if byte_val d =? 93 then Some (JArr [], r')
                         else parse_items fuel r []
            | [] => None
            end
          else if v =? 123 then
            match skip_ws r with
            | d :: r' => if byte_val d =? 125 then Some (JObj [], r')
                         else parse_members fuel r []
            | [] => None
            end
          else if v =? 34 then
            match chars r [] with
            | Some (t, r') => Some (JStr t, r')
            | None => None
            end
          else if v =? 45 then
            match number r with
            | Some (n, r') => Some (JInt (- n), r')
            | None => None
            end
          else if is_digit c then
            match number (c :: r) with
            | Some (n, r') => Some (JInt n, r')
            | None => None
            end
          else
            match literal (b "null") (c :: r) with
            | Some r' => Some (JNull, r')
            | None =>
                match literal (b "true") (c :: r) with
                | Some r' => Some (JBool true, r')
                | None =>
                    match literal (b "false") (c :: r) with
                    | Some r' => Some (JBool false, r')
                    | None => None
                    end
                end
            end
      end
  end
with parse_items (fuel : nat) (s : bytes) (acc : list value)
    : option (value * bytes) :=
  match fuel with
  | O => None
  | S fuel =>
      match parse_value fuel s with
      | Some (x, r) =>
          match skip_ws r with
          | d :: r' =>
              if byte_val d =? 44 then parse_items fuel r' (x :: acc)
              else if byte_val d =? 93 then Some (JArr (rev (x :: acc)), r')
              else None
          | [] => None
          end
      | None => None
      end
  end
with parse_members (fuel : nat) (s : bytes) (acc : list (bytes * value))
    : option (value * bytes) :=
  match fuel with
  | O => None
  | S fuel =>
      match skip_ws s with
      | q :: r =>
          if byte_val q =? 34 then
            match chars r [] with
            | Some (key, r1) =>
                match skip_ws r1 with
                | c :: r2 =>
                    if byte_val c =? 58 then
                      match parse_value fuel r2 with
                      | Some (x, r3) =>
                          match skip_ws r3 with
                          | d :: r' =>
                              if byte_val d =? 44
                              then parse_members fuel r' ((key, x) :: acc)
                              else if byte_val d =? 125
                              then Some (JObj (rev ((key, x) :: acc)), r')
                              else None
                          | [] => None
                          end
                      | None => None
                      end
                    else None
                | [] => None
                end
            | None => None
            end
          else None
      | [] => None
      end
  end.

(** [json.loads(data.decode("utf-8"))]: one value, then only white space. *)
Definition loads (data : bytes) : option value :=
  match parse_value (S (length data)) data with
  | Some (x, r) => match skip_ws r with [] => Some x | _ => None end
  | None => None
  end.

Fixpoint nat_digits (fuel : nat) (n : Z) (acc : bytes) : bytes :=
  match fuel with
  | O => acc
  | S fuel =>
      let acc := byte_of (48 + n mod 10) :: acc in
      if n / 10 =? 0 then acc else nat_digits fuel (n / 10) acc
  end.

Definition dumps_int (z : Z) : bytes :=
  if z <? 0 then b "-" ++ nat_digits (Z.to_nat (- z)) (- z) []
  else nat_digits (S (Z.to_nat z)) z [].

(** [json.dumps] of a list of integer pairs: ["[[0, 10], [20, 30]]"]. *)
Definition dumps_pair (p : Z * Z) : bytes :=
  b "[" ++ dumps_int p.1 ++ b ", " ++ dumps_int p.2 ++ b "]".

Fixpoint dumps_pairs_tail (l : list (Z * Z)) : bytes :=
  match l with
  | [] => b "]"
  | p :: l => b ", " ++ dumps_pair p ++ dumps_pairs_tail l
  end.

Definition dumps_ranges (l : list (Z * Z)) : bytes :=
  match l with
  | [] => b "[]"
  | p :: l => b "[" ++ dumps_pair p ++ dumps_pairs_tail l
  end.

End json.

(** ** config.py *)
Module config.

Record TransferConfig := {
  chunk_size : Z;
  window_size : Z;
  base_rto_ms : Z;
  ttl_sec : Z;
  max_rto_ms : Z;
  pacing_delay_ms : Z;
}.

Record FECConfig := {
  enabled : bool;
  k : Z;
  r : Z;
}.

Record CustodyConfig := {
  max_retries : Z;
  backoff_base_sec : Z;
}.

(** The dataclass defaults. *)
Definition default_transfer : TransferConfig :=
  {| chunk_size := 1150; window_size := 1024; base_rto_ms := 900;
     ttl_sec := 300; max_rto_ms := 500; pacing_delay_ms := 0 |}.

Definition default_fec : FECConfig := {| enabled := true; k := 4; r := 2 |}.

Definition default_custody : CustodyConfig :=
  {| max_retries := 10; backoff_base_sec := 2 |}.

End config.

(** A peer address [(host, port)]. *)
Abbreviation addr := (string * Z)%type.

(** ** The chunk dictionary

    The dictionary with keys [bundle_id], [chunk_id], [is_parity],
    [block_id], [k], [r], [payload], [checksum], [flags] that the engines
    build and the store persists. *)
Module Chunk.

Record t := {
  bundle_id : string;
  chunk_id : Z;
  is_parity : bool;
  block_id : Z;
  k : Z;
  r : Z;
  payload : bytes;
  checksum : Z;
  flags : Z;
}.

End Chunk.

(** ** The message dictionaries, one record per [msg_type] *)
Module DataMsg.
Record t := {
  bundle_id : string;
  chunk_id : Z;
  total_chunks : Z;
  block_id : Z;
  k : Z;
  r : Z;
  checksum : Z;
  payload : bytes;
}.
End DataMsg.

Module SackMsg.
(** [acked_chunks] is the key the decoder adds; a message without the
    key reads as the empty list, as [msg.get("acked_chunks", [])]. *)
Record t := {
  bundle_id : string;
  recv_watermark : Z;
  sack_bitmap : bytes;
  acked_chunks : list Z;
}.
End SackMsg.

Module CustodyReqMsg.
Record t := {
  bundle_id : string;
  ranges : list (Z * Z);
  ttl_remaining : Q;
}.
End CustodyReqMsg.

Module CustodyAckMsg.
Record t := {
  bundle_id : string;
  ranges : list (Z * Z);
  ack_nonce : Z;
}.
End CustodyAckMsg.

Module DeliveredMsg.
Record t := {
  bundle_id : string;
}.
End DeliveredMsg.

Inductive message :=
| DATA (m : DataMsg.t)
| SACK (m : SackMsg.t)
| CUSTODY_REQ (m : CustodyReqMsg.t)
| CUSTODY_ACK (m : CustodyAckMsg.t)
| DELIVERED (m : DeliveredMsg.t)
| OTHER (v : json.value).

(** ** The network send function

    [network_send(msg, addr)] is [NetworkIO.send_message] in the node and a
    recording stub in the tests.  [calls] records every invocation in
    order; the boolean the [n]-th invocation returns is [accept n]. *)
Module Net.

Record t := {
  calls : list (message * addr);
  accept : nat -> bool;
}.

Definition send (net : t) (msg : message) (to : addr) : bool * t :=
  (accept net (length (calls net)),
   {| calls := calls net ++ [(msg, to)]; accept := accept net |}).

(** A link on which every send succeeds. *)
Definition reliable : t := {| calls := []; accept := fun _ => true |}.

End Net.

(** ** secrets.randbits

    The entropy source is an infinite stream of bits read from position
    [pos]; [randbits n] consumes the next [n] bits. *)
Module secrets.

Record t := {
  bits : nat -> bool;
  pos : nat;
}.

Fixpoint take_bits (f : nat -> bool) (from n : nat) : Z :=
  match n with
  | O => 0
  | S n => Z.b2z (f from) + 2 * take_bits f (S from) n
  end.

Definition randbits (n : nat) (e : t) : Z * t :=
  (take_bits (bits e) (pos e) n, {| bits := bits e; pos := (pos e + n)%nat |}).

End secrets.

(** ** protocol.py *)
Module protocol.

Definition MAX_SACK_WINDOW_BITS : Z := 2048.

Definition make_data_msg (bundle_id : string)
    (chunk_id total_chunks block_id k r checksum : Z) (payload : bytes)
    : message :=
  DATA {| DataMsg.bundle_id := bundle_id;
          DataMsg.chunk_id := chunk_id;
          DataMsg.total_chunks := total_chunks;
          DataMsg.block_id := block_id;
          DataMsg.k := k;
          DataMsg.r := r;
          DataMsg.checksum := checksum;
          DataMsg.payload := payload |}.

(** [sorted(s)] for a set of integers. *)
Definition sorted (s : gset Z) : list Z := merge_sort Z.le (elements s).

(** The [for c in sorted(acked_set)] loop with its [break]: the state is
    [(watermark, next_expected, stopped)]. *)
Definition watermark_step (st : Z * Z * bool) (c : Z) : Z * Z * bool :=
  let '(watermark, next_expected, stopped) := st in
  if stopped then st
  else if c =? next_expected then (c, next_expected + 1, false)
  else if next_expected <? c then (watermark, next_expected, true)
  else st.

(** [max(l)] of a non-empty collection. *)
Definition max_of (l : list Z) : Z :=
  match l with
  | [] => 0
  | x :: l => fold_left Z.max l x
  end.

Definition byte_or (x y : byte) : byte := byte_of (Z.lor (byte_val x) (byte_val y)).

(** [bitmap[byte_index] |= 1 << (7 - bit_pos)] for one acked id. *)
Definition set_bit (watermark max_high : Z) (bitmap : bytes) (c : Z) : bytes :=
  if c <=? watermark then bitmap
  else if max_high <? c then bitmap
  else
    let bit_index := c - (watermark + 1) in
    let byte_index := Z.to_nat (bit_index / 8) in
    let bit_pos := bit_index mod 8 in
    alter (fun x => byte_or x (byte_of (Z.shiftl 1 (7 - bit_pos)))) byte_index bitmap.

Definition _compute_sack_window (acked_chunks : list Z) : Z * bytes :=
  let acked_set : gset Z := list_to_set (filter (fun c => 0 <= c) acked_chunks) in
  if decide (acked_set = ∅) then (-1, [])
  else
    let '(watermark, _, _) :=
      fold_left watermark_step (sorted acked_set) (-1, 0, false) in
    let max_acked := max_of (elements acked_set) in
    if max_acked <=? watermark then (watermark, [])
    else
      let max_high := Z.min max_acked (watermark + MAX_SACK_WINDOW_BITS) in
      let num_bits := max_high - (watermark + 1) + 1 in
      let num_bytes := (num_bits + 7) / 8 in
      let bitmap := replicate (Z.to_nat num_bytes) x00 in
      (watermark, fold_left (set_bit watermark max_high) (elements acked_set) bitmap).

Definition make_sack_msg (bundle_id : string) (acked_chunks_list : list Z)
    : message :=
  let '(recv_watermark, bitmap) := _compute_sack_window acked_chunks_list in
  SACK {| SackMsg.bundle_id := bundle_id;
          SackMsg.recv_watermark := recv_watermark;
          SackMsg.sack_bitmap := bitmap;
          SackMsg.acked_chunks := [] |}.

Definition make_custody_req_msg (bundle_id : string) (ranges : list (Z * Z))
    (ttl_remaining : Q) : message :=
  CUSTODY_REQ {| CustodyReqMsg.bundle_id := bundle_id;
                 CustodyReqMsg.ranges := ranges;
                 CustodyReqMsg.ttl_remaining := ttl_remaining |}.

(** [ack_nonce] is [None] when the caller leaves it out; the nonce is
    then drawn with [secrets.randbits(64)]. *)
Definition make_custody_ack_msg (bundle_id : string) (ranges : list (Z * Z))
    (ack_nonce : option Z) (e : secrets.t) : message * secrets.t :=
  let ranges_norm := (fun p : Z * Z => (p.1, p.2)) <$> ranges in
  let '(nonce, e) :=
    match ack_nonce with
    | None => secrets.randbits 64 e
    | Some n => (n, e)
    end in
  (CUSTODY_ACK {| CustodyAckMsg.bundle_id := bundle_id;
                  CustodyAckMsg.ranges := ranges_norm;
                  CustodyAckMsg.ack_nonce := nonce |}, e).

Definition make_delivered_msg (bundle_id : string) : message :=
  DELIVERED {| DeliveredMsg.bundle_id := bundle_id |}.

End protocol.

(** ** storage.py

    The SQLite database is modelled by its journal: the list of committed
    transactions, oldest first.  Each [self.conn.commit()] appends one
    transaction; the tables are what replaying the journal gives.  A
    process that stops after [n] commits leaves the first [n] transactions
    durable. *)
Module Bundle.

Record t := {
  bundle_id : string;
  src : string;
  dst : string;
  ttl : Z;
  state : string;
  total_chunks : Z;
  bytes_sent : Z;
  chunks_retransmitted : Z;
  fec_enabled : bool;
  k : Z;
  r : Z;
  file_path : string;
  file_size : Z;
}.

Definition with_state (s : string) (x : t) : t :=
  {| bundle_id := bundle_id x; src := src x; dst := dst x; ttl := ttl x;
     state := s; total_chunks := total_chunks x; bytes_sent := bytes_sent x;
     chunks_retransmitted := chunks_retransmitted x;
     fec_enabled := fec_enabled x; k := k x; r := r x;
     file_path := file_path x; file_size := file_size x |}.

Definition with_bytes_sent (n : Z) (x : t) : t :=
  {| bundle_id := bundle_id x; src := src x; dst := dst x; ttl := ttl x;
     state := state x; total_chunks := total_chunks x; bytes_sent := n;
     chunks_retransmitted := chunks_retransmitted x;
     fec_enabled := fec_enabled x; k := k x; r := r x;
     file_path := file_path x; file_size := file_size x |}.

Definition with_chunks_retransmitted (n : Z) (x : t) : t :=
  {| bundle_id := bundle_id x; src := src x; dst := dst x; ttl := ttl x;
     state := state x; total_chunks := total_chunks x;
     bytes_sent := bytes_sent x; chunks_retransmitted := n;
     fec_enabled := fec_enabled x; k := k x; r := r x;
     file_path := file_path x; file_size := file_size x |}.

End Bundle.

Module CustodyRow.

Record t := {
  bundle_id : string;
  owner_node : string;
  chunk_ranges : list (Z * Z);
  retry_timer : Q;
  retry_count : Z;
  max_retries : Z;
  state : string;
}.

End CustodyRow.

Module storage.

(** One SQL statement of a transaction. *)
Inductive stmt :=
| PutBundle (x : Bundle.t)
| SetBundleState (bundle_id : string) (new_state : string)
| SetBytesSent (bundle_id : string) (n : Z)
| SetChunksRetransmitted (bundle_id : string) (n : Z)
| PutChunk (c : Chunk.t)
| PutCustody (x : CustodyRow.t).

Record tables := {
  bundles : gmap string Bundle.t;
  chunks : gmap (string * Z) Chunk.t;
  custody_records : gmap string CustodyRow.t;
}.

Definition no_tables : tables :=
  {| bundles := ∅; chunks := ∅; custody_records := ∅ |}.

Definition exec (t : tables) (s : stmt) : tables :=
  match s with
  | PutBundle x =>
      {| bundles := <[Bundle.bundle_id x := x]> (bundles t);
         chunks := chunks t; custody_records := custody_records t |}
  | SetBundleState id st =>
      {| bundles := alter (Bundle.with_state st) id (bundles t);
         chunks := chunks t; custody_records := custody_records t |}
  | SetBytesSent id n =>
      {| bundles := alter (Bundle.with_bytes_sent n) id (bundles t);
         chunks := chunks t; custody_records := custody_records t |}
  | SetChunksRetransmitted id n =>
      {| bundles := alter (Bundle.with_chunks_retransmitted n) id (bundles t);
         chunks := chunks t; custody_records := custody_records t |}
  | PutChunk c =>
      {| bundles := bundles t;
         chunks := <[(Chunk.bundle_id c, Chunk.chunk_id c) := c]> (chunks t);
         custody_records := custody_records t |}
  | PutCustody x =>
      {| bundles := bundles t; chunks := chunks t;
         custody_records := <[CustodyRow.bundle_id x := x]> (custody_records t) |}
  end.

(** The database: its committed transactions. *)
Record t := {
  journal : list (list stmt);
}.

Definition empty : t := {| journal := [] |}.

Definition replay (j : list (list stmt)) : tables :=
  fold_left (fun t txn => fold_left exec txn t) j no_tables.

Definition view (db : t) : tables := replay (journal db).

(** [self.conn.commit()] of the statements executed since the last one. *)
Definition commit (txn : list stmt) (db : t) : t :=
  {| journal := journal db ++ [txn] |}.

(** What is on disk if the process stops after [n] commits. *)
Definition durable_after (n : nat) (db : t) : t :=
  {| journal := take n (journal db) |}.

Definition save_bundle (bundle_dict : Bundle.t) (db : t) : t :=
  commit [PutBundle bundle_dict] db.

Definition load_bundle (bundle_id : string) (db : t) : option Bundle.t :=
  bundles (view db) !! bundle_id.

Definition update_bundle_state (bundle_id new_state : string) (db : t) : t :=
  commit [SetBundleState bundle_id new_state] db.

Definition update_bundle_stats (bundle_id : string)
    (bytes_sent chunks_retransmitted : option Z) (db : t) : t :=
  commit
    (match bytes_sent with
     | Some n => [SetBytesSent bundle_id n]
     | None => []
     end ++
     match chunks_retransmitted with
     | Some n => [SetChunksRetransmitted bundle_id n]
     | None => []
     end) db.

(** One [BEGIN TRANSACTION ... commit] for the whole list; nothing at all
    for the empty list.  Every row here is well formed, so the [except]
    branch with its rollback is never taken. *)
Definition save_chunks_bulk (chunks : list Chunk.t) (db : t) : t :=
  match chunks with
  | [] => db
  | _ => commit (PutChunk <$> chunks) db
  end.

Definition save_chunk (chunk_dict : Chunk.t) (db : t) : t :=
  save_chunks_bulk [chunk_dict] db.

Definition chunk_le (x y : Chunk.t) : Prop := Chunk.chunk_id x <= Chunk.chunk_id y.

#[global] Instance chunk_le_dec : RelDecision chunk_le.
Proof. intros x y. unfold chunk_le. apply _. Defined.

(** [SELECT * FROM chunks WHERE bundle_id = ? ORDER BY chunk_id]. *)
Definition load_chunks_for_bundle (bundle_id : string) (db : t) : list Chunk.t :=
  merge_sort chunk_le
    (filter (fun c => Chunk.bundle_id c = bundle_id)
            (snd <$> map_to_list (chunks (view db)))).

Definition save_custody_record (custody_dict : CustodyRow.t) (db : t) : t :=
  commit [PutCustody custody_dict] db.

Definition load_custody_record (bundle_id : string) (db : t)
    : option CustodyRow.t :=
  custody_records (view db) !! bundle_id.

(** The chunk rows a journal holds, in the order they were written. *)
Definition chunk_rows (db : t) : list Chunk.t :=
  omap (fun s => match s with PutChunk c => Some c | _ => None end)
       (concat (journal db)).

(** [SELECT * FROM bundles WHERE state = ? ORDER BY created_at DESC].  The
    column [created_at] is not part of the model, so the rows come in the
    order of the table; the callers modelled here build a dictionary keyed
    by [bundle_id] from them, which does not depend on the order. *)
Definition list_bundles_by_state (state : string) (db : t) : list Bundle.t :=
filter (fun x => Bundle.state x = state)
       (snd <$> map_to_list (bundles (view db))).

End storage.

(** ** network_io.py: the decoder *)
Module network_io.

(** A big-endian unsigned field of [struct.unpack]. *)
Definition be_uint (bs : bytes) : Z :=
fold_left (fun acc x => acc * 256 + byte_val x) bs 0.

Fixpoint lstrip_nul (bs : bytes) : bytes :=
match bs with
| x :: r => if byte_val x =? 0 then lstrip_nul r else bs
| [] => []
end.

(** [bs.rstrip(b"\0")]. *)
Definition rstrip_nul (bs : bytes) : bytes := rev (lstrip_nul (rev bs)).

Definition is_cont (x : byte) : bool :=
(0x80 <=? byte_val x) && (byte_val x <=? 0xBF).

Definition in_range (lo hi : Z) (x : byte) : bool :=
(lo <=? byte_val x) && (byte_val x <=? hi).

(** Whether [bs.decode("utf-8")] succeeds: well-formed UTF-8 without
    overlong forms, surrogates or code points above U+10FFFF. *)
Fixpoint utf8_valid (bs : bytes) : bool :=
match bs with
| [] => true
| c0 :: r =>
    let v := byte_val c0 in
    if v <? 0x80 then utf8_valid r
    else if (0xC2 <=? v) && (v <=? 0xDF) then
      match r with
      | c1 :: r => is_cont c1 && utf8_valid r
      | _ => false
      end
    else if (0xE0 <=? v) && (v <=? 0xEF) then
      match r with
      | c1 :: c2 :: r =>
          (if v =? 0xE0 then in_range 0xA0 0xBF c1
           else if v =? 0xED then in_range 0x80 0x9F c1
           else is_cont c1)
          && is_cont c2 && utf8_valid r
      | _ => false
      end
    else if (0xF0 <=? v) && (v <=? 0xF4) then
      match r with
      | c1 :: c2 :: c3 :: r =>
          (if v =? 0xF0 then in_range 0x90 0xBF c1
           else if v =? 0xF4 then in_range 0x80 0x8F c1
           else is_cont c1)
          && is_cont c2 && is_cont c3 && utf8_valid r
      | _ => false
      end
    else false
end.

(** [bs.decode("utf-8")]; the text keeps its UTF-8 octets. *)
Definition decode_utf8 (bs : bytes) : option string :=
if utf8_valid bs then Some (str bs) else None.

(** [struct.unpack(fmt, data[:n])] raises unless the slice has exactly
    [n] octets, that is unless [len(data) >= n]. *)
Definition header (n : Z) (data : bytes) : option bytes :=
if len data <? n then None else Some (slice data 0 n).

(** The field read from octets [lo, hi) of a header. *)
Definition field (h : bytes) (lo hi : Z) : Z := be_uint (slice h lo hi).

Definition _deserialize_data_message (data : bytes) : option message :=
h ← header 40 data;
bundle_id ← decode_utf8 (rstrip_nul (slice h 1 17));
let payload_len := field h 38 40 in
let payload := slice data 40 (40 + payload_len) in
Some (DATA {| DataMsg.bundle_id := bundle_id;
              DataMsg.chunk_id := field h 17 21;
              DataMsg.total_chunks := field h 21 25;
              DataMsg.block_id := field h 25 29;
              DataMsg.k := field h 29 31;
              DataMsg.r := field h 31 33;
              DataMsg.checksum := field h 33 37;
              DataMsg.payload := payload |}).

(** The ids one bitmap octet contributes: bit [7 - bit_pos] set means
    [base + byte_index * 8 + bit_pos]. *)
Definition bitmap_byte_ids (base : Z) (byte_index : Z) (x : byte) : list Z :=
omap (fun bit_pos =>
        if Z.testbit (byte_val x) (7 - bit_pos)
        then Some (base + byte_index * 8 + bit_pos) else None)
     (range 8).

Definition bitmap_ids (base : Z) (bitmap : bytes) : list Z :=
concat (imap (fun i x => bitmap_byte_ids base (Z.of_nat i) x) bitmap).

Definition _deserialize_sack_message (data : bytes) : option message :=
h ← header 23 data;
bundle_id ← decode_utf8 (rstrip_nul (slice h 1 17));
let raw_watermark := field h 17 21 in
let bitmap_len := field h 21 23 in
let recv_watermark := if raw_watermark =? 0xFFFFFFFF then -1 else raw_watermark in
let bitmap := slice data 23 (23 + bitmap_len) in
let acked_chunks : gset Z :=
  (if 0 <=? recv_watermark then list_to_set (range (recv_watermark + 1)) else ∅)
  ∪ list_to_set (bitmap_ids (recv_watermark + 1) bitmap) in
Some (SACK {| SackMsg.bundle_id := bundle_id;
              SackMsg.recv_watermark := recv_watermark;
              SackMsg.sack_bitmap := bitmap;
              SackMsg.acked_chunks := protocol.sorted acked_chunks |}).

(** [[tuple(r) for r in ranges_raw]] for ranges that are [lo, hi] pairs of
    integers, the shape [List[Tuple[int, int]]] of the protocol module.
    JSON of any other shape has no counterpart in [message] and is
    reported as undecodable. *)
Definition ranges_of_json (v : json.value) : option (list (Z * Z)) :=
match v with
| json.JArr l =>
    mapM (fun x => match x with
                   | json.JArr [json.JInt lo; json.JInt hi] => Some (lo, hi)
                   | _ => None
                   end) l
| _ => None
end.

Definition loads_utf8 (data : bytes) : option json.value :=
if utf8_valid data then json.loads data else None.

Definition _deserialize_custody_req_message (data : bytes) : option message :=
h ← header 23 data;
bundle_id ← decode_utf8 (rstrip_nul (slice h 1 17));
let ttl_remaining := field h 17 21 in
let ranges_len := field h 21 23 in
let ranges_data := slice data 23 (23 + ranges_len) in
ranges_raw ← loads_utf8 ranges_data;
ranges ← ranges_of_json ranges_raw;
Some (CUSTODY_REQ {| CustodyReqMsg.bundle_id := bundle_id;
                     CustodyReqMsg.ranges := ranges;
                     CustodyReqMsg.ttl_remaining := inject_Z ttl_remaining |}).

Definition _deserialize_custody_ack_message (data : bytes) : option message :=
h ← header 27 data;
bundle_id ← decode_utf8 (rstrip_nul (slice h 1 17));
let ack_nonce := field h 17 25 in
let ranges_len := field h 25 27 in
let ranges_data := slice data 27 (27 + ranges_len) in
ranges_raw ← loads_utf8 ranges_data;
ranges ← ranges_of_json ranges_raw;
Some (CUSTODY_ACK {| CustodyAckMsg.bundle_id := bundle_id;
                     CustodyAckMsg.ranges := ranges;
                     CustodyAckMsg.ack_nonce := ack_nonce |}).

Definition _deserialize_delivered_message (data : bytes) : option message :=
h ← header 17 data;
bundle_id ← decode_utf8 (rstrip_nul (slice h 1 17));
Some (DELIVERED {| DeliveredMsg.bundle_id := bundle_id |}).

(** [None] is both the explicit [return None] and the one of the
    [except Exception] handler. *)
Definition _deserialize_message (data : bytes) : option message :=
match data with
| [] => None
| t :: _ =>
    let msg_type := byte_val t in
    if msg_type =? 1 then _deserialize_data_message data
    else if msg_type =? 2 then _deserialize_sack_message data
    else if msg_type =? 3 then _deserialize_custody_req_message data
    else if msg_type =? 4 then _deserialize_custody_ack_message data
    else if msg_type =? 5 then _deserialize_delivered_message data
    else OTHER <$> loads_utf8 data
end.

(** The octets [struct.pack] writes for an unsigned field of [n] octets. *)
Fixpoint be_bytes (n : nat) (z : Z) : bytes :=
match n with
| O => []
| S n => byte_of (Z.shiftr z (8 * Z.of_nat n)) :: be_bytes n z
end.

(** [s[:16].encode("utf-8").ljust(16, b"\0")] for an ASCII identifier. *)
Definition pad16 (bundle_id : string) : bytes :=
let raw := take 16 (b bundle_id) in
raw ++ replicate (16 - length raw) x00.

Definition _serialize_data_message (m : DataMsg.t) : bytes :=
[byte_of 1] ++ pad16 (DataMsg.bundle_id m)
++ be_bytes 4 (DataMsg.chunk_id m) ++ be_bytes 4 (DataMsg.total_chunks m)
++ be_bytes 4 (DataMsg.block_id m) ++ be_bytes 2 (DataMsg.k m)
++ be_bytes 2 (DataMsg.r m) ++ be_bytes 4 (DataMsg.checksum m)
++ [byte_of 0] ++ be_bytes 2 (len (DataMsg.payload m))
++ DataMsg.payload m.

Definition _serialize_sack_message (m : SackMsg.t) : bytes :=
let raw_watermark :=
  if SackMsg.recv_watermark m <? 0 then 0xFFFFFFFF else SackMsg.recv_watermark m in
let bitmap := take (Z.to_nat (protocol.MAX_SACK_WINDOW_BITS / 8)) (SackMsg.sack_bitmap m) in
[byte_of 2] ++ pad16 (SackMsg.bundle_id m)
++ be_bytes 4 raw_watermark ++ be_bytes 2 (len bitmap) ++ bitmap.

(** [int(x)] of a float: truncation toward zero. *)
Definition int_of (q : Q) : Z := Z.quot (Qnum q) (Z.pos (Qden q)).

(** The three control messages; [ranges] is a list of pairs of integers,
    which [json.dumps] writes as ["[[0, 10], [20, 30]]"]. *)
Definition _serialize_custody_req_message (m : CustodyReqMsg.t) : bytes :=
let ranges_data := json.dumps_ranges (CustodyReqMsg.ranges m) in
[byte_of 3] ++ pad16 (CustodyReqMsg.bundle_id m)
++ be_bytes 4 (int_of (CustodyReqMsg.ttl_remaining m))
++ be_bytes 2 (len ranges_data) ++ ranges_data.

Definition _serialize_custody_ack_message (m : CustodyAckMsg.t) : bytes :=
let ranges_data := json.dumps_ranges (CustodyAckMsg.ranges m) in
[byte_of 4] ++ pad16 (CustodyAckMsg.bundle_id m)
++ be_bytes 8 (CustodyAckMsg.ack_nonce m)
++ be_bytes 2 (len ranges_data) ++ ranges_data.

Definition _serialize_delivered_message (m : DeliveredMsg.t) : bytes :=
[byte_of 5] ++ pad16 (DeliveredMsg.bundle_id m).

End network_io.

(** ** The XOR stripe

    [SendEngine._xor_chunks] and [ReceiveEngine._xor_bytes] share one inner
    loop: xor the common prefix in place, then append what the payload has
    beyond the end of [result]. *)
Fixpoint xor_into (result payload : bytes) : bytes :=
match result, payload with
| [], _ => payload
| _, [] => result
| x :: result, y :: payload => byte_xor x y :: xor_into result payload
end.

(** ** send_engine.py *)
Module SendState.

(** The fields [srtt], [rttvar], [rto] and [send_times] are written only
    by [_update_rto], which nothing calls; they are left out. *)
Record t := {
  bundle_id : string;
  window_start : Z;
  window_end : Z;
  window_size : Z;
  acked_chunks : gset Z;
  retransmit_queue : list Z;
  chunk_timers : gmap Z Q;
  send_timestamps : gmap Z Q;
  retransmitted_chunks : gset Z;
  timeout_interval : Q;
  smoothed_rtt : Q;
  rtt_variance : Q;
  total_chunks : Z;
  bytes_sent : Z;
  chunks_retransmitted : Z;
  completed : bool;
}.

(** [SendState(bundle_id=..., window_size=..., timeout_interval=...,
    total_chunks=...)] with the dataclass defaults elsewhere. *)
Definition new (bundle_id : string) (window_size : Z) (timeout_interval : Q)
    (total_chunks : Z) : t :=
{| bundle_id := bundle_id; window_start := 0; window_end := 0;
   window_size := window_size; acked_chunks := ∅; retransmit_queue := [];
   chunk_timers := ∅; send_timestamps := ∅; retransmitted_chunks := ∅;
   timeout_interval := timeout_interval; smoothed_rtt := 300; rtt_variance := 150;
   total_chunks := total_chunks; bytes_sent := 0; chunks_retransmitted := 0;
   completed := false |}.

Definition set_window (ws we : Z) (s : t) : t :=
{| bundle_id := bundle_id s; window_start := ws; window_end := we;
   window_size := window_size s; acked_chunks := acked_chunks s;
   retransmit_queue := retransmit_queue s; chunk_timers := chunk_timers s;
   send_timestamps := send_timestamps s;
   retransmitted_chunks := retransmitted_chunks s;
   timeout_interval := timeout_interval s; smoothed_rtt := smoothed_rtt s;
   rtt_variance := rtt_variance s; total_chunks := total_chunks s;
   bytes_sent := bytes_sent s; chunks_retransmitted := chunks_retransmitted s;
   completed := completed s |}.

Definition set_acked_chunks (a : gset Z) (s : t) : t :=
{| bundle_id := bundle_id s; window_start := window_start s;
   window_end := window_end s; window_size := window_size s;
   acked_chunks := a; retransmit_queue := retransmit_queue s;
   chunk_timers := chunk_timers s; send_timestamps := send_timestamps s;
   retransmitted_chunks := retransmitted_chunks s;
   timeout_interval := timeout_interval s; smoothed_rtt := smoothed_rtt s;
   rtt_variance := rtt_variance s; total_chunks := total_chunks s;
   bytes_sent := bytes_sent s; chunks_retransmitted := chunks_retransmitted s;
   completed := completed s |}.

(** The three per-chunk collections [chunk_timers], [send_timestamps] and
    [retransmitted_chunks]. *)
Definition set_tracking (timers stamps : gmap Z Q) (retx : gset Z) (s : t) : t :=
{| bundle_id := bundle_id s; window_start := window_start s;
   window_end := window_end s; window_size := window_size s;
   acked_chunks := acked_chunks s; retransmit_queue := retransmit_queue s;
   chunk_timers := timers; send_timestamps := stamps;
   retransmitted_chunks := retx;
   timeout_interval := timeout_interval s; smoothed_rtt := smoothed_rtt s;
   rtt_variance := rtt_variance s; total_chunks := total_chunks s;
   bytes_sent := bytes_sent s; chunks_retransmitted := chunks_retransmitted s;
   completed := completed s |}.

Definition set_timeout_interval (x : Q) (s : t) : t :=
{| bundle_id := bundle_id s; window_start := window_start s;
   window_end := window_end s; window_size := window_size s;
   acked_chunks := acked_chunks s; retransmit_queue := retransmit_queue s;
   chunk_timers := chunk_timers s; send_timestamps := send_timestamps s;
   retransmitted_chunks := retransmitted_chunks s;
   timeout_interval := x; smoothed_rtt := smoothed_rtt s;
   rtt_variance := rtt_variance s; total_chunks := total_chunks s;
   bytes_sent := bytes_sent s; chunks_retransmitted := chunks_retransmitted s;
   completed := completed s |}.

Definition set_rtt (srtt var : Q) (s : t) : t :=
{| bundle_id := bundle_id s; window_start := window_start s;
   window_end := window_end s; window_size := window_size s;
   acked_chunks := acked_chunks s; retransmit_queue := retransmit_queue s;
   chunk_timers := chunk_timers s; send_timestamps := send_timestamps s;
   retransmitted_chunks := retransmitted_chunks s;
   timeout_interval := timeout_interval s; smoothed_rtt := srtt;
   rtt_variance := var; total_chunks := total_chunks s;
   bytes_sent := bytes_sent s; chunks_retransmitted := chunks_retransmitted s;
   completed := completed s |}.

Definition set_bytes_sent (n : Z) (s : t) : t :=
{| bundle_id := bundle_id s; window_start := window_start s;
   window_end := window_end s; window_size := window_size s;
   acked_chunks := acked_chunks s; retransmit_queue := retransmit_queue s;
   chunk_timers := chunk_timers s; send_timestamps := send_timestamps s;
   retransmitted_chunks := retransmitted_chunks s;
   timeout_interval := timeout_interval s; smoothed_rtt := smoothed_rtt s;
   rtt_variance := rtt_variance s; total_chunks := total_chunks s;
   bytes_sent := n; chunks_retransmitted := chunks_retransmitted s;
   completed := completed s |}.

Definition set_completed (c : bool) (s : t) : t :=
{| bundle_id := bundle_id s; window_start := window_start s;
   window_end := window_end s; window_size := window_size s;
   acked_chunks := acked_chunks s; retransmit_queue := retransmit_queue s;
   chunk_timers := chunk_timers s; send_timestamps := send_timestamps s;
   retransmitted_chunks := retransmitted_chunks s;
   timeout_interval := timeout_interval s; smoothed_rtt := smoothed_rtt s;
   rtt_variance := rtt_variance s; total_chunks := total_chunks s;
   bytes_sent := bytes_sent s; chunks_retransmitted := chunks_retransmitted s;
   completed := c |}.

Definition set_retransmit_queue (q : list Z) (s : t) : t :=
{| bundle_id := bundle_id s; window_start := window_start s;
   window_end := window_end s; window_size := window_size s;
   acked_chunks := acked_chunks s; retransmit_queue := q;
   chunk_timers := chunk_timers s; send_timestamps := send_timestamps s;
   retransmitted_chunks := retransmitted_chunks s;
   timeout_interval := timeout_interval s; smoothed_rtt := smoothed_rtt s;
   rtt_variance := rtt_variance s; total_chunks := total_chunks s;
   bytes_sent := bytes_sent s; chunks_retransmitted := chunks_retransmitted s;
   completed := completed s |}.

Definition set_chunks_retransmitted (n : Z) (s : t) : t :=
{| bundle_id := bundle_id s; window_start := window_start s;
   window_end := window_end s; window_size := window_size s;
   acked_chunks := acked_chunks s; retransmit_queue := retransmit_queue s;
   chunk_timers := chunk_timers s; send_timestamps := send_timestamps s;
   retransmitted_chunks := retransmitted_chunks s;
   timeout_interval := timeout_interval s; smoothed_rtt := smoothed_rtt s;
   rtt_variance := rtt_variance s; total_chunks := total_chunks s;
   bytes_sent := bytes_sent s; chunks_retransmitted := n;
   completed := completed s |}.

End SendState.

Module send_engine.

Record SendEngine := {
  config : config.TransferConfig;
  fec_config : config.FECConfig;
  storage : storage.t;
  network_send : Net.t;
  src_node_id : string;
  active_sends : gmap string SendState.t;
  _chunk_cache : gmap string (gmap Z Chunk.t);
}.

Definition set_state (bundle_id : string) (s : SendState.t) (net : Net.t)
    (self : SendEngine) : SendEngine :=
{| config := config self; fec_config := fec_config self;
   storage := storage self; network_send := net;
   src_node_id := src_node_id self;
   active_sends := <[bundle_id := s]> (active_sends self);
   _chunk_cache := _chunk_cache self |}.

Definition set_cache (c : gmap string (gmap Z Chunk.t)) (self : SendEngine)
    : SendEngine :=
{| config := config self; fec_config := fec_config self;
   storage := storage self; network_send := network_send self;
   src_node_id := src_node_id self; active_sends := active_sends self;
   _chunk_cache := c |}.

Definition set_storage (db : storage.t) (self : SendEngine) : SendEngine :=
{| config := config self; fec_config := fec_config self;
   storage := db; network_send := network_send self;
   src_node_id := src_node_id self; active_sends := active_sends self;
   _chunk_cache := _chunk_cache self |}.

(** What the engine can raise. *)
Inductive error :=
| FileNotFoundError
| ZeroDivisionError.

(** [_xor_chunks], on the payloads of the chunks. *)
Definition _xor_chunks (chunks : list Chunk.t) : bytes :=
match chunks with
| [] => []
| c :: rest => fold_left (fun result c => xor_into result (Chunk.payload c))
                         rest (Chunk.payload c)
end.

(** The [r] parity chunks of the block that starts at [block_start]. *)
Definition parity_block (k r : Z) (data_chunks : list Chunk.t)
    (bundle_id : string) (block_start : Z) : list Chunk.t :=
let num_data_chunks := len data_chunks in
let block_chunks := slice data_chunks block_start (block_start + k) in
let block_id := block_start / k in
match block_chunks with
| [] => []
| _ =>
    let parity_data := _xor_chunks block_chunks in
    (fun parity_idx =>
       {| Chunk.bundle_id := bundle_id;
          Chunk.chunk_id := num_data_chunks + block_id * r + parity_idx;
          Chunk.is_parity := true;
          Chunk.block_id := block_id;
          Chunk.k := k;
          Chunk.r := r;
          Chunk.payload := parity_data;
          Chunk.checksum := Z.land (zlib.crc32 parity_data) 0xFFFFFFFF;
          Chunk.flags := 0 |}) <$> range r
end.

Definition _generate_fec_chunks (fec : config.FECConfig)
    (data_chunks : list Chunk.t) (bundle_id : string) : list Chunk.t :=
let k := config.k fec in
let r := config.r fec in
if (k <=? 0) || (r <=? 0) then []
else
  concat (parity_block k r data_chunks bundle_id
            <$> range3 0 (len data_chunks) k).

(** The data chunk number [i] of the file. *)
Definition data_chunk (cfg : config.TransferConfig) (fec : config.FECConfig)
    (file_data : bytes) (bundle_id : string) (fec_enabled : bool) (i : Z)
    : Chunk.t :=
let chunk_size := config.chunk_size cfg in
let start := i * chunk_size in
let end_ := Z.min (start + chunk_size) (len file_data) in
let payload := slice file_data start end_ in
{| Chunk.bundle_id := bundle_id;
   Chunk.chunk_id := i;
   Chunk.is_parity := false;
   Chunk.block_id :=
     if fec_enabled && (0 <? config.k fec) then i / config.k fec else 0;
   Chunk.k := if fec_enabled then config.k fec else 0;
   Chunk.r := if fec_enabled then config.r fec else 0;
   Chunk.payload := payload;
   Chunk.checksum := Z.land (zlib.crc32 payload) 0xFFFFFFFF;
   Chunk.flags := 0 |}.

(** [_create_chunks], on the content [file_data] read from [file_path].
    The division by a zero [chunk_size] raises. *)
Definition _create_chunks (cfg : config.TransferConfig) (fec : config.FECConfig)
    (file_data : bytes) (bundle_id : string) (fec_enabled : bool)
    : error + list Chunk.t :=
let chunk_size := config.chunk_size cfg in
if chunk_size =? 0 then inl ZeroDivisionError
else
  let num_data_chunks := (len file_data + chunk_size - 1) / chunk_size in
  let chunks := data_chunk cfg fec file_data bundle_id fec_enabled
                  <$> range num_data_chunks in
  if fec_enabled && config.enabled fec && (0 <? config.k fec) && (0 <? config.r fec)
  then inr (chunks ++ _generate_fec_chunks fec chunks bundle_id)
  else inr chunks.

(** One turn of the loop of [_send_window] over [chunk_id]. *)
Definition send_one (chunk_dict : gmap Z Chunk.t) (dest_addr : addr)
    (current_time : Q) (acc : SendState.t * Net.t) (chunk_id : Z)
    : SendState.t * Net.t :=
let '(send_state, net) := acc in
if decide (chunk_id ∈ SendState.acked_chunks send_state) then acc
else
  let waiting :=
    match SendState.chunk_timers send_state !! chunk_id with
    | Some deadline => Qlt_bool current_time deadline
    | None => false
    end in
  if waiting then acc
  else
    match chunk_dict !! chunk_id with
    | None => acc
    | Some chunk =>
        let msg := protocol.make_data_msg
                     (Chunk.bundle_id chunk) (Chunk.chunk_id chunk)
                     (SendState.total_chunks send_state)
                     (Chunk.block_id chunk) (Chunk.k chunk) (Chunk.r chunk)
                     (Chunk.checksum chunk) (Chunk.payload chunk) in
        let '(ok, net) := Net.send net msg dest_addr in
        if ok then
          (SendState.set_bytes_sent
             (SendState.bytes_sent send_state + len (Chunk.payload chunk))
             (SendState.set_tracking
                (<[chunk_id := (current_time + SendState.timeout_interval send_state)%Q]>
                   (SendState.chunk_timers send_state))
                (<[chunk_id := current_time]> (SendState.send_timestamps send_state))
                (SendState.retransmitted_chunks send_state)
                send_state),
           net)
        else (send_state, net)
    end.

(** [{c["chunk_id"]: c for c in chunks}]: a later chunk replaces an earlier
    one with the same id. *)
Definition by_chunk_id (chunks : list Chunk.t) : gmap Z Chunk.t :=
fold_left (fun d c => <[Chunk.chunk_id c := c]> d) chunks ∅.

(** The dictionary [_send_window] works from: the cached one unless it is
    missing or empty, else the rows of the store, which are then cached. *)
Definition chunk_dict_for (bundle_id : string) (self : SendEngine)
    : gmap Z Chunk.t * SendEngine :=
let reload :=
  let d := by_chunk_id (storage.load_chunks_for_bundle bundle_id (storage self)) in
  (d, set_cache (<[bundle_id := d]> (_chunk_cache self)) self) in
match _chunk_cache self !! bundle_id with
| Some d => match map_to_list d with [] => reload | _ => (d, self) end
| None => reload
end.

(** [_send_window]; [current_time] is [time.time() * 1000.0].  The pacing
    [time.sleep] changes no state. *)
Definition _send_window (bundle_id : string) (dest_addr : addr)
    (current_time : Q) (self : SendEngine) : SendEngine :=
match active_sends self !! bundle_id with
| None => self
| Some send_state =>
    let '(chunk_dict, self) := chunk_dict_for bundle_id self in
    let '(send_state, net) :=
      fold_left (send_one chunk_dict dest_addr current_time)
                (range2 (SendState.window_start send_state)
                        (SendState.window_end send_state))
                (send_state, network_send self) in
    set_state bundle_id send_state net self
end.

(** [_update_rtt_estimates]; the new variance is computed from the old
    smoothed value, as the statement order has it. *)
Definition _update_rtt_estimates (cfg : config.TransferConfig)
    (send_state : SendState.t) (rtt : Q) : SendState.t :=
let srtt := SendState.smoothed_rtt send_state in
let var := SendState.rtt_variance send_state in
let send_state :=
  if Qeq_bool srtt 0 || Qeq_bool srtt 300
  then SendState.set_rtt rtt (rtt / 2) send_state
  else SendState.set_rtt ((7 # 8) * srtt + (1 # 8) * rtt)
                         ((3 # 4) * var + (1 # 4) * Qabs (srtt - rtt))
                         send_state in
let rto := (SendState.smoothed_rtt send_state
            + 4 * SendState.rtt_variance send_state)%Q in
SendState.set_timeout_interval
  (pymax 100 (pymin rto (inject_Z (config.max_rto_ms cfg)))) send_state.

(** One turn of [for chunk_id in newly_acked]. *)
Definition ack_one (cfg : config.TransferConfig) (current_time : Q)
    (send_state : SendState.t) (chunk_id : Z) : SendState.t :=
let send_state :=
  match SendState.send_timestamps send_state !! chunk_id with
  | Some sent_at =>
      if decide (chunk_id ∈ SendState.retransmitted_chunks send_state)
      then send_state
      else _update_rtt_estimates cfg send_state (current_time - sent_at)
  | None => send_state
  end in
SendState.set_tracking
  (delete chunk_id (SendState.chunk_timers send_state))
  (delete chunk_id (SendState.send_timestamps send_state))
  (SendState.retransmitted_chunks send_state ∖ {[chunk_id]})
  send_state.

(** The loop [while window_start < total_chunks and window_start in
    acked_chunks: window_start += 1], run for at most [fuel] turns. *)
Fixpoint advance (fuel : nat) (acked : gset Z) (total_chunks window_start : Z) : Z :=
match fuel with
| O => window_start
| S fuel =>
    if (window_start <? total_chunks) && bool_decide (window_start ∈ acked)
    then advance fuel acked total_chunks (window_start + 1)
    else window_start
end.

Definition _complete_transfer (bundle_id : string) (self : SendEngine)
    : SendEngine :=
match active_sends self !! bundle_id with
| None => self
| Some send_state =>
    if SendState.completed send_state then self
    else
      let send_state := SendState.set_completed true send_state in
      let db := storage.update_bundle_state bundle_id "delivered" (storage self) in
      let db := storage.update_bundle_stats bundle_id
                  (Some (SendState.bytes_sent send_state))
                  (Some (SendState.chunks_retransmitted send_state)) db in
      set_cache (delete bundle_id (_chunk_cache self))
        (set_storage db
           (set_state bundle_id send_state (network_send self) self))
end.

(** [handle_sack]; [current_time] is the clock it reads itself and
    [send_time] the one [_send_window] reads when the window has grown.
    The loop over [newly_acked] visits the set in the order [elements]
    lists it; Python fixes no order for a set either. *)
Definition handle_sack (msg : SackMsg.t) (sender_addr : addr)
    (current_time send_time : Q) (self : SendEngine) : SendEngine :=
let bundle_id := SackMsg.bundle_id msg in
match active_sends self !! bundle_id with
| None => self
| Some send_state =>
    let acked_chunks : gset Z := list_to_set (SackMsg.acked_chunks msg) in
    let newly_acked := acked_chunks ∖ SendState.acked_chunks send_state in
    let send_state :=
      SendState.set_acked_chunks
        (SendState.acked_chunks send_state ∪ acked_chunks) send_state in
    let send_state :=
      fold_left (ack_one (config self) current_time)
                (elements newly_acked) send_state in
    let send_state :=
      match elements newly_acked with
      | [] => send_state
      | _ =>
          SendState.set_timeout_interval
            (pymax (SendState.smoothed_rtt send_state
                    + 4 * SendState.rtt_variance send_state)
                   (inject_Z (config.base_rto_ms (config self))))
            send_state
      end in
    let total_chunks := SendState.total_chunks send_state in
    let window_start :=
      advance (Z.to_nat (total_chunks - SendState.window_start send_state))
              (SendState.acked_chunks send_state) total_chunks
              (SendState.window_start send_state) in
    let old_window_end := SendState.window_end send_state in
    let window_end :=
      Z.min (window_start + SendState.window_size send_state) total_chunks in
    let send_state := SendState.set_window window_start window_end send_state in
    let self := set_state bundle_id send_state (network_send self) self in
    if total_chunks <=? Z.of_nat (size (SendState.acked_chunks send_state))
    then _complete_transfer bundle_id self
    else if old_window_end <? window_end
         then _send_window bundle_id sender_addr send_time self
         else self
end.

Definition handle_delivered (msg : DeliveredMsg.t) (self : SendEngine)
    : SendEngine :=
match active_sends self !! DeliveredMsg.bundle_id msg with
| Some _ => _complete_transfer (DeliveredMsg.bundle_id msg) self
| None => self
end.

(** [send_file]: [fs] maps the paths that exist to their content,
    [bundle_id] is the identifier [uuid.uuid4().hex[:16]] yields and
    [current_time] the clock [_send_window] reads. *)
Definition send_file (fs : gmap string bytes) (file_path destination : string)
    (dest_addr : addr) (fec_enabled : option bool) (bundle_id : string)
    (current_time : Q) (self : SendEngine) : error + (string * SendEngine) :=
match fs !! file_path with
| None => inl FileNotFoundError
| Some file_data =>
    let use_fec :=
      match fec_enabled with
      | Some true => config.enabled (fec_config self)
      | _ => false
      end in
    match _create_chunks (config self) (fec_config self) file_data bundle_id use_fec with
    | inl e => inl e
    | inr chunks =>
        let self :=
          set_cache (<[bundle_id := by_chunk_id chunks]> (_chunk_cache self)) self in
        let bundle_data :=
          {| Bundle.bundle_id := bundle_id;
             Bundle.src := src_node_id self;
             Bundle.dst := destination;
             Bundle.ttl := config.ttl_sec (config self);
             Bundle.state := "sending";
             Bundle.total_chunks := len chunks;
             Bundle.bytes_sent := 0;
             Bundle.chunks_retransmitted := 0;
             Bundle.fec_enabled := use_fec;
             Bundle.k := if use_fec then config.k (fec_config self) else 0;
             Bundle.r := if use_fec then config.r (fec_config self) else 0;
             Bundle.file_path := file_path;
             Bundle.file_size := len file_data |} in
        let db := storage.save_bundle bundle_data (storage self) in
        let db := fold_left (fun db chunk => storage.save_chunk chunk db) chunks db in
        let self := set_storage db self in
        let send_state :=
          SendState.new bundle_id (config.window_size (config self))
            (inject_Z (config.base_rto_ms (config self))) (len chunks) in
        let send_state :=
          SendState.set_window 0
            (Z.min (SendState.window_size send_state)
                   (SendState.total_chunks send_state)) send_state in
        let self := set_state bundle_id send_state (network_send self) self in
        inr (bundle_id, _send_window bundle_id dest_addr current_time self)
    end
end.

(** A fresh engine, as [SendEngine.__init__] leaves it. *)
Definition init (cfg : config.TransferConfig) (fec : config.FECConfig)
    (db : storage.t) (net : Net.t) (src_node_id : string) : SendEngine :=
{| config := cfg; fec_config := fec; storage := db; network_send := net;
   src_node_id := src_node_id; active_sends := ∅; _chunk_cache := ∅ |}.

(** The chunks [check_timeouts] finds timed out in one bundle: the ids with
    a timer that are not acked and whose deadline has passed.  Python
    visits the timers in insertion order, which the map does not keep: the
    list comes in the order of the map. *)
Definition timed_out_chunks (current_time : Q) (send_state : SendState.t)
    : list Z :=
omap (fun item : Z * Q =>
        if decide (item.1 ∈ SendState.acked_chunks send_state) then None
        else if Qle_bool item.2 current_time then Some item.1 else None)
     (map_to_list (SendState.chunk_timers send_state)).

(** The body of the loop of [check_timeouts] for one bundle that is not
    completed: timers of acked chunks are deleted; the timed out chunks
    are queued, lose their timer, double the timeout up to [max_rto_ms]
    and are counted. *)
Definition check_timeouts_state (cfg : config.TransferConfig)
    (current_time : Q) (send_state : SendState.t) : SendState.t :=
let timed_out := timed_out_chunks current_time send_state in
let timers :=
  filter (fun item : Z * Q => item.1 ∉ SendState.acked_chunks send_state)
         (SendState.chunk_timers send_state) in
let send_state :=
  SendState.set_tracking timers (SendState.send_timestamps send_state)
    (SendState.retransmitted_chunks send_state) send_state in
match timed_out with
| [] => send_state
| _ =>
    let send_state :=
      SendState.set_retransmit_queue
        (SendState.retransmit_queue send_state ++ timed_out) send_state in
    let send_state :=
      SendState.set_tracking
        (foldr delete (SendState.chunk_timers send_state) timed_out)
        (SendState.send_timestamps send_state)
        (SendState.retransmitted_chunks send_state) send_state in
    let send_state :=
      SendState.set_timeout_interval
        (pymin (SendState.timeout_interval send_state * 2)
               (inject_Z (config.max_rto_ms cfg))) send_state in
    SendState.set_chunks_retransmitted
      (SendState.chunks_retransmitted send_state + len timed_out) send_state
end.

(** [check_timeouts]; [current_time] is [time.time() * 1000.0]. *)
Definition check_timeouts (current_time : Q) (self : SendEngine) : SendEngine :=
{| config := config self; fec_config := fec_config self;
   storage := storage self; network_send := network_send self;
   src_node_id := src_node_id self;
   active_sends :=
     (fun send_state =>
        if SendState.completed send_state then send_state
        else check_timeouts_state (config self) current_time send_state)
     <$> active_sends self;
   _chunk_cache := _chunk_cache self |}.

(** One turn of the [while send_state.retransmit_queue] loop, for the id
    popped from the front of the queue. *)
Definition retransmit_one (chunk_dict : gmap Z Chunk.t) (dest_addr : addr)
    (current_time : Q) (acc : SendState.t * Net.t) (chunk_id : Z)
    : SendState.t * Net.t :=
let '(send_state, net) := acc in
if decide (chunk_id ∈ SendState.acked_chunks send_state) then acc
else
  match chunk_dict !! chunk_id with
  | None => acc
  | Some chunk =>
      let msg := protocol.make_data_msg
                   (Chunk.bundle_id chunk) (Chunk.chunk_id chunk)
                   (SendState.total_chunks send_state)
                   (Chunk.block_id chunk) (Chunk.k chunk) (Chunk.r chunk)
                   (Chunk.checksum chunk) (Chunk.payload chunk) in
      let '(ok, net) := Net.send net msg dest_addr in
      if ok then
        (SendState.set_tracking
           (<[chunk_id := (current_time + SendState.timeout_interval send_state)%Q]>
              (SendState.chunk_timers send_state))
           (SendState.send_timestamps send_state)
           (SendState.retransmitted_chunks send_state ∪ {[chunk_id]})
           send_state,
         net)
      else (send_state, net)
  end.

(** [retransmit_chunks]: the chunks come from the store, not from the
    cache; the queue is empty when the loop ends. *)
Definition retransmit_chunks (bundle_id : string) (dest_addr : addr)
    (current_time : Q) (self : SendEngine) : SendEngine :=
match active_sends self !! bundle_id with
| None => self
| Some send_state =>
    if SendState.completed send_state then self
    else
      let chunk_dict :=
        by_chunk_id (storage.load_chunks_for_bundle bundle_id (storage self)) in
      let '(send_state, net) :=
        fold_left (retransmit_one chunk_dict dest_addr current_time)
                  (SendState.retransmit_queue send_state)
                  (send_state, network_send self) in
      set_state bundle_id (SendState.set_retransmit_queue [] send_state) net self
end.

(** [cleanup_completed_transfers]. *)
Definition cleanup_completed_transfers (self : SendEngine) : SendEngine :=
{| config := config self; fec_config := fec_config self;
   storage := storage self; network_send := network_send self;
   src_node_id := src_node_id self;
   active_sends :=
     filter (fun item : string * SendState.t =>
               SendState.completed item.2 = false) (active_sends self);
   _chunk_cache := _chunk_cache self |}.

(** The [SendState] that [resume_transfers] builds from a bundle row. *)
Definition resumed_state (cfg : config.TransferConfig) (bundle_data : Bundle.t)
    : SendState.t :=
let send_state :=
  SendState.set_chunks_retransmitted (Bundle.chunks_retransmitted bundle_data)
    (SendState.set_bytes_sent (Bundle.bytes_sent bundle_data)
       (SendState.new (Bundle.bundle_id bundle_data) (config.window_size cfg)
          (inject_Z (config.base_rto_ms cfg))
          (Bundle.total_chunks bundle_data))) in
SendState.set_window 0
  (Z.min (SendState.window_size send_state) (SendState.total_chunks send_state))
  send_state.

(** [resume_transfers]. *)
Definition resume_transfers (self : SendEngine) : SendEngine :=
fold_left (fun self bundle_data =>
             set_state (Bundle.bundle_id bundle_data)
                       (resumed_state (config self) bundle_data)
                       (network_send self) self)
          (storage.list_bundles_by_state "sending" (storage self)) self.

End send_engine.

(** ** receive_engine.py *)
Module ReceiveState.

Record t := {
  bundle_id : string;
  total_chunks : Z;
  fec_enabled : bool;
  k : Z;
  r : Z;
  output_path : string;
  num_data_chunks : Z;
  received_chunks : gset Z;
  data_chunks : gmap Z bytes;
  parity_chunks : gmap Z (list bytes);
  delivered : bool;
  write_buffer : list Chunk.t;
}.

Definition set_received_chunks (x : gset Z) (s : t) : t :=
{| bundle_id := bundle_id s; total_chunks := total_chunks s;
   fec_enabled := fec_enabled s; k := k s; r := r s;
   output_path := output_path s; num_data_chunks := num_data_chunks s;
   received_chunks := x; data_chunks := data_chunks s;
   parity_chunks := parity_chunks s; delivered := delivered s;
   write_buffer := write_buffer s |}.

Definition set_data_chunks (x : gmap Z bytes) (s : t) : t :=
{| bundle_id := bundle_id s; total_chunks := total_chunks s;
   fec_enabled := fec_enabled s; k := k s; r := r s;
   output_path := output_path s; num_data_chunks := num_data_chunks s;
   received_chunks := received_chunks s; data_chunks := x;
   parity_chunks := parity_chunks s; delivered := delivered s;
   write_buffer := write_buffer s |}.

Definition set_parity_chunks (x : gmap Z (list bytes)) (s : t) : t :=
{| bundle_id := bundle_id s; total_chunks := total_chunks s;
   fec_enabled := fec_enabled s; k := k s; r := r s;
   output_path := output_path s; num_data_chunks := num_data_chunks s;
   received_chunks := received_chunks s; data_chunks := data_chunks s;
   parity_chunks := x; delivered := delivered s;
   write_buffer := write_buffer s |}.

Definition set_delivered (x : bool) (s : t) : t :=
{| bundle_id := bundle_id s; total_chunks := total_chunks s;
   fec_enabled := fec_enabled s; k := k s; r := r s;
   output_path := output_path s; num_data_chunks := num_data_chunks s;
   received_chunks := received_chunks s; data_chunks := data_chunks s;
   parity_chunks := parity_chunks s; delivered := x;
   write_buffer := write_buffer s |}.

Definition set_write_buffer (x : list Chunk.t) (s : t) : t :=
{| bundle_id := bundle_id s; total_chunks := total_chunks s;
   fec_enabled := fec_enabled s; k := k s; r := r s;
   output_path := output_path s; num_data_chunks := num_data_chunks s;
   received_chunks := received_chunks s; data_chunks := data_chunks s;
   parity_chunks := parity_chunks s; delivered := delivered s;
   write_buffer := x |}.

End ReceiveState.

(** The file system the receiver writes to: the files, and whether
    [open(path, "wb")] and the writes succeed. *)
Module Disk.

Record t := {
  files : gmap string bytes;
  writable : string -> bool;
}.

Definition write (path : string) (content : bytes) (d : t) : option t :=
if writable d path
then Some {| files := <[path := content]> (files d); writable := writable d |}
else None.

Definition blank : t := {| files := ∅; writable := fun _ => true |}.

End Disk.

Module receive_engine.

Record ReceiveEngine := {
  transfer_config : config.TransferConfig;
  fec_config : config.FECConfig;
  storage : storage.t;
  network_send : Net.t;
  node_id : string;
  output_dir : string;
  active_receives : gmap string ReceiveState.t;
  disk : Disk.t;
  entropy : secrets.t;
}.

(** The world around one [ReceiveState]: the store, the link, the disk
    and the entropy source, threaded through the helpers. *)
Record env := {
  db : storage.t;
  net : Net.t;
  fs : Disk.t;
  rnd : secrets.t;
}.

Definition env_of (self : ReceiveEngine) : env :=
{| db := storage self; net := network_send self; fs := disk self;
   rnd := entropy self |}.

(** The engine once the state found or created under [bundle_id] has been
    mutated to [state] and the world around it has moved to [w]. *)
Definition put (bundle_id : string) (state : ReceiveState.t) (w : env)
    (self : ReceiveEngine) : ReceiveEngine :=
{| transfer_config := transfer_config self; fec_config := fec_config self;
   storage := db w; network_send := net w; node_id := node_id self;
   output_dir := output_dir self;
   active_receives := <[bundle_id := state]> (active_receives self);
   disk := fs w; entropy := rnd w |}.

Definition with_db (x : storage.t) (w : env) : env :=
{| db := x; net := net w; fs := fs w; rnd := rnd w |}.

Definition send (msg : message) (to : addr) (w : env) : env :=
{| db := db w; net := (Net.send (net w) msg to).2; fs := fs w; rnd := rnd w |}.

(** [_infer_block_and_data_count]: the first [B] in [1 .. total_chunks]
    with [k * (B - 1) < total_chunks - r * B <= k * B]. *)
Definition _infer_block_and_data_count (total_chunks k r : Z) : option (Z * Z) :=
match
  list_find (fun B =>
               let num_data := total_chunks - r * B in
               0 < num_data ∧ k * (B - 1) < num_data ∧ num_data <= k * B)
            (range2 1 (total_chunks + 1))
with
| Some (_, B) => Some (B, total_chunks - r * B)
| None => None
end.

(** [os.path.join(self.output_dir, f"bundle_{bundle_id}.bin")]. *)
Definition output_path_of (output_dir bundle_id : string) : string :=
(output_dir +:+ "/bundle_" +:+ bundle_id +:+ ".bin")%string.

(** [f"{sender_addr[0]}:{sender_addr[1]}"]. *)
Definition show_addr (a : addr) : string :=
(a.1 +:+ ":" +:+ str (json.dumps_int a.2))%string.

Definition _create_receive_state (self : ReceiveEngine) (bundle_id : string)
    (total_chunks k r : Z) (sender_addr : addr) (w : env)
    : ReceiveState.t * env :=
let fec_enabled :=
  negb (k =? 0) && negb (r =? 0) && config.enabled (fec_config self) in
let '(fec_enabled, k, r, num_data_chunks) :=
  if fec_enabled then
    match _infer_block_and_data_count total_chunks k r with
    | Some (_, inferred_data) => (true, k, r, inferred_data)
    | None => (false, 0, 0, total_chunks)
    end
  else (false, k, r, total_chunks) in
let output_path := output_path_of (output_dir self) bundle_id in
let bundle_record :=
  {| Bundle.bundle_id := bundle_id;
     Bundle.src := show_addr sender_addr;
     Bundle.dst := node_id self;
     Bundle.ttl := config.ttl_sec (transfer_config self);
     Bundle.state := "receiving";
     Bundle.total_chunks := total_chunks;
     Bundle.bytes_sent := 0;
     Bundle.chunks_retransmitted := 0;
     Bundle.fec_enabled := fec_enabled;
     Bundle.k := if fec_enabled then k else 0;
     Bundle.r := if fec_enabled then r else 0;
     Bundle.file_path := output_path;
     Bundle.file_size := 0 |} in
({| ReceiveState.bundle_id := bundle_id;
    ReceiveState.total_chunks := total_chunks;
    ReceiveState.fec_enabled := fec_enabled;
    ReceiveState.k := k;
    ReceiveState.r := r;
    ReceiveState.output_path := output_path;
    ReceiveState.num_data_chunks := num_data_chunks;
    ReceiveState.received_chunks := ∅;
    ReceiveState.data_chunks := ∅;
    ReceiveState.parity_chunks := ∅;
    ReceiveState.delivered := false;
    ReceiveState.write_buffer := [] |},
 with_db (storage.save_bundle bundle_record (db w)) w).

(** [_send_sack] for the bundle [bundle_id], whose state is [state]. *)
Definition _send_sack (bundle_id : string) (state : ReceiveState.t)
    (sender_addr : addr) (w : env) : env :=
let acked := protocol.sorted (ReceiveState.received_chunks state) in
send (protocol.make_sack_msg bundle_id acked) sender_addr w.

Definition _xor_bytes (base : bytes) (others : list bytes) : bytes :=
fold_left xor_into others base.

Definition _try_fec_reconstruct (state : ReceiveState.t) (block_id : Z)
    (w : env) : ReceiveState.t * env :=
if negb (ReceiveState.fec_enabled state) || (ReceiveState.k state <=? 0)
   || (ReceiveState.r state <=? 0)
then (state, w)
else
  match ReceiveState.parity_chunks state !! block_id with
  | None => (state, w)
  | Some parities =>
      let block_k := ReceiveState.k state in
      let start := block_id * block_k in
      let end_ := Z.min (start + block_k) (ReceiveState.num_data_chunks state) in
      let expected_ids := range2 start end_ in
      let present_ids :=
        filter (fun cid => is_Some (ReceiveState.data_chunks state !! cid))
               expected_ids in
      let missing_ids :=
        filter (fun cid => ¬ is_Some (ReceiveState.data_chunks state !! cid))
               expected_ids in
      match missing_ids, parities with
      | [missing_id], parity_payload :: _ =>
          let known_payloads :=
            omap (fun cid => ReceiveState.data_chunks state !! cid) present_ids in
          let recovered := _xor_bytes parity_payload known_payloads in
          let state :=
            ReceiveState.set_received_chunks
              (ReceiveState.received_chunks state ∪ {[missing_id]})
              (ReceiveState.set_data_chunks
                 (<[missing_id := recovered]> (ReceiveState.data_chunks state))
                 state) in
          let chunk_record :=
            {| Chunk.bundle_id := ReceiveState.bundle_id state;
               Chunk.chunk_id := missing_id;
               Chunk.is_parity := false;
               Chunk.block_id := block_id;
               Chunk.k := ReceiveState.k state;
               Chunk.r := ReceiveState.r state;
               Chunk.payload := recovered;
               Chunk.checksum := Z.land (zlib.crc32 recovered) 0xFFFFFFFF;
               Chunk.flags := 0 |} in
          (state, with_db (storage.save_chunk chunk_record (db w)) w)
      | _, _ => (state, w)
      end
  end.

Definition _maybe_deliver (state : ReceiveState.t) (sender_addr : addr)
    (w : env) : ReceiveState.t * env :=
if ReceiveState.delivered state then (state, w)
else
  let num_data :=
    if ReceiveState.num_data_chunks state =? 0
    then ReceiveState.total_chunks state
    else ReceiveState.num_data_chunks state in
  let missing :=
    filter (fun cid => ¬ is_Some (ReceiveState.data_chunks state !! cid))
           (range num_data) in
  match missing with
  | _ :: _ => (state, w)
  | [] =>
      let content :=
        concat (omap (fun cid => ReceiveState.data_chunks state !! cid)
                     (range num_data)) in
      match Disk.write (ReceiveState.output_path state) content (fs w) with
      | None => (state, w)
      | Some fs' =>
          let w := {| db := storage.update_bundle_state
                              (ReceiveState.bundle_id state) "delivered" (db w);
                      net := net w; fs := fs'; rnd := rnd w |} in
          let state := ReceiveState.set_delivered true state in
          let w := send (protocol.make_delivered_msg (ReceiveState.bundle_id state))
                        sender_addr w in
          let '(custody_msg, rnd') :=
            protocol.make_custody_ack_msg (ReceiveState.bundle_id state) []
                                          None (rnd w) in
          let w := {| db := db w; net := net w; fs := fs w; rnd := rnd' |} in
          (state, send custody_msg sender_addr w)
      end
  end.

(** [handle_data] once the [ReceiveState] is at hand, for a chunk that is
    not a duplicate. *)
Definition accept_chunk (msg : DataMsg.t) (sender_addr : addr)
    (state : ReceiveState.t) (w : env) : ReceiveState.t * env :=
let chunk_id := DataMsg.chunk_id msg in
let payload := DataMsg.payload msg in
let state :=
  ReceiveState.set_received_chunks
    (ReceiveState.received_chunks state ∪ {[chunk_id]}) state in
let block_id := DataMsg.block_id msg in
let state :=
  if ReceiveState.fec_enabled state && (0 <? ReceiveState.k state)
     && (0 <? ReceiveState.num_data_chunks state)
  then
    if chunk_id <? ReceiveState.num_data_chunks state
    then ReceiveState.set_data_chunks
           (<[chunk_id := payload]> (ReceiveState.data_chunks state)) state
    else ReceiveState.set_parity_chunks
           (<[block_id := default [] (ReceiveState.parity_chunks state !! block_id)
                          ++ [payload]]>
              (ReceiveState.parity_chunks state)) state
  else ReceiveState.set_data_chunks
         (<[chunk_id := payload]> (ReceiveState.data_chunks state)) state in
let chunk_record :=
  {| Chunk.bundle_id := DataMsg.bundle_id msg;
     Chunk.chunk_id := chunk_id;
     Chunk.is_parity :=
       ReceiveState.fec_enabled state
       && (ReceiveState.num_data_chunks state <=? chunk_id);
     Chunk.block_id := block_id;
     Chunk.k := ReceiveState.k state;
     Chunk.r := ReceiveState.r state;
     Chunk.payload := payload;
     Chunk.checksum := DataMsg.checksum msg;
     Chunk.flags := 0 |} in
let state :=
  ReceiveState.set_write_buffer
    (ReceiveState.write_buffer state ++ [chunk_record]) state in
let '(state, w) :=
  if ReceiveState.fec_enabled state
  then _try_fec_reconstruct state block_id w
  else (state, w) in
let complete :=
  bool_decide (Z.of_nat (size (ReceiveState.received_chunks state))
               = ReceiveState.total_chunks state) in
let '(state, w) :=
  if (500 <=? len (ReceiveState.write_buffer state)) || complete
  then (ReceiveState.set_write_buffer [] state,
        with_db (storage.save_chunks_bulk (ReceiveState.write_buffer state) (db w)) w)
  else (state, w) in
let w :=
  if (Z.of_nat (size (ReceiveState.received_chunks state)) mod 50 =? 0)
     || bool_decide (ReceiveState.write_buffer state = [])
     || complete
  then _send_sack (DataMsg.bundle_id msg) state sender_addr w
  else w in
_maybe_deliver state sender_addr w.

Definition handle_data (msg : DataMsg.t) (sender_addr : addr)
    (self : ReceiveEngine) : ReceiveEngine :=
let bundle_id := DataMsg.bundle_id msg in
let chunk_id := DataMsg.chunk_id msg in
let '(state, w) :=
  match active_receives self !! bundle_id with
  | Some state => (state, env_of self)
  | None =>
      _create_receive_state self bundle_id (DataMsg.total_chunks msg)
        (DataMsg.k msg) (DataMsg.r msg) sender_addr (env_of self)
  end in
if decide (chunk_id ∈ ReceiveState.received_chunks state)
then put bundle_id state (_send_sack bundle_id state sender_addr w) self
else
  let '(state, w) := accept_chunk msg sender_addr state w in
  put bundle_id state w self.

(** A fresh engine, as [ReceiveEngine.__init__] leaves it. *)
Definition init (cfg : config.TransferConfig) (fec : config.FECConfig)
    (db : storage.t) (net : Net.t) (node_id output_dir : string)
    (d : Disk.t) (e : secrets.t) : ReceiveEngine :=
{| transfer_config := cfg; fec_config := fec; storage := db;
   network_send := net; node_id := node_id; output_dir := output_dir;
   active_receives := ∅; disk := d; entropy := e |}.

End receive_engine.

(** ** custody_manager.py *)
Module CustodyRecord.

Record t := {
  bundle_id : string;
  owner_node : string;
  chunk_ranges : list (Z * Z);
  retry_timer : Q;
  retry_count : Z;
  max_retries : Z;
  state : string;
}.

(** [record.state = s]. *)
Definition set_state (s : string) (x : t) : t :=
{| bundle_id := bundle_id x; owner_node := owner_node x;
   chunk_ranges := chunk_ranges x; retry_timer := retry_timer x;
   retry_count := retry_count x; max_retries := max_retries x; state := s |}.

(** [record.retry_count = n; record.retry_timer = t]. *)
Definition set_retry (n : Z) (timer : Q) (x : t) : t :=
{| bundle_id := bundle_id x; owner_node := owner_node x;
   chunk_ranges := chunk_ranges x; retry_timer := timer;
   retry_count := n; max_retries := max_retries x; state := state x |}.

(** [record.state in ("complete", "failed")]. *)
Definition terminal (x : t) : bool :=
String.eqb (state x) "complete" || String.eqb (state x) "failed".

End CustodyRecord.

Module custody_manager.

Record CustodyManager := {
  config : config.CustodyConfig;
  storage : storage.t;
  network_send : Net.t;
  node_id : string;
  active_records : gmap string CustodyRecord.t;
  entropy : secrets.t;
}.

Definition _save_record (record : CustodyRecord.t) (self : CustodyManager)
    : CustodyManager :=
let data :=
  {| CustodyRow.bundle_id := CustodyRecord.bundle_id record;
     CustodyRow.owner_node := CustodyRecord.owner_node record;
     CustodyRow.chunk_ranges := CustodyRecord.chunk_ranges record;
     CustodyRow.retry_timer := CustodyRecord.retry_timer record;
     CustodyRow.retry_count := CustodyRecord.retry_count record;
     CustodyRow.max_retries := CustodyRecord.max_retries record;
     CustodyRow.state := CustodyRecord.state record |} in
{| config := config self;
   storage := storage.save_custody_record data (storage self);
   network_send := network_send self;
   node_id := node_id self;
   active_records :=
     <[CustodyRecord.bundle_id record := record]> (active_records self);
   entropy := entropy self |}.

(** [handle_custody_req]; [now] is [time.time()]. *)
Definition handle_custody_req (msg : CustodyReqMsg.t) (sender_addr : addr)
    (now : Q) (self : CustodyManager) : CustodyManager :=
let bundle_id := CustodyReqMsg.bundle_id msg in
let ranges := CustodyReqMsg.ranges msg in
let retry_timer := (now + inject_Z (config.backoff_base_sec (config self)))%Q in
let record :=
  {| CustodyRecord.bundle_id := bundle_id;
     CustodyRecord.owner_node := node_id self;
     CustodyRecord.chunk_ranges := (fun p : Z * Z => (p.1, p.2)) <$> ranges;
     CustodyRecord.retry_timer := retry_timer;
     CustodyRecord.retry_count := 0;
     CustodyRecord.max_retries := config.max_retries (config self);
     CustodyRecord.state := "accepted" |} in
let self := _save_record record self in
let '(ack_msg, e) :=
  protocol.make_custody_ack_msg bundle_id ranges None (entropy self) in
{| config := config self;
   storage := storage self;
   network_send := (Net.send (network_send self) ack_msg sender_addr).2;
   node_id := node_id self;
   active_records := active_records self;
   entropy := e |}.

Definition init (cfg : config.CustodyConfig) (db : storage.t) (net : Net.t)
    (node_id : string) (e : secrets.t) : CustodyManager :=
{| config := cfg; storage := db; network_send := net; node_id := node_id;
   active_records := ∅; entropy := e |}.

(** A record of [active_records] is an object shared between the
    dictionary and the loop that mutates it: [update] is the mutation of
    the object filed under [bundle_id], followed by [_save_record], which
    files it under its own [bundle_id] as well. *)
Definition update (bundle_id : string) (record : CustodyRecord.t)
    (self : CustodyManager) : CustodyManager :=
_save_record record
  {| config := config self; storage := storage self;
     network_send := network_send self; node_id := node_id self;
     active_records := <[bundle_id := record]> (active_records self);
     entropy := entropy self |}.

(** [handle_custody_ack]. *)
Definition handle_custody_ack (msg : CustodyAckMsg.t) (self : CustodyManager)
    : CustodyManager :=
{| config := config self;
   storage := storage.update_bundle_state (CustodyAckMsg.bundle_id msg)
                "custody_transferred" (storage self);
   network_send := network_send self; node_id := node_id self;
   active_records := active_records self; entropy := entropy self |}.

(** [handle_delivered]. *)
Definition handle_delivered (msg : DeliveredMsg.t) (self : CustodyManager)
    : CustodyManager :=
let bundle_id := DeliveredMsg.bundle_id msg in
match active_records self !! bundle_id with
| Some record =>
    if CustodyRecord.terminal record then self
    else update bundle_id (CustodyRecord.set_state "complete" record) self
| None => self
end.

(** What the body of the loop of [check_retry_timers] makes of one record
    before it saves it; [None] when the record is left alone. *)
Definition checked (cfg : config.CustodyConfig) (now : Q)
    (record : CustodyRecord.t) : option CustodyRecord.t :=
if CustodyRecord.terminal record then None
else if Qle_bool (CustodyRecord.retry_timer record) now then
  if CustodyRecord.max_retries record <=? CustodyRecord.retry_count record
  then Some (CustodyRecord.set_state "failed" record)
  else
    let retry_count := CustodyRecord.retry_count record + 1 in
    let backoff := (2 ^ retry_count * inject_Z (config.backoff_base_sec cfg))%Q in
    Some (CustodyRecord.set_retry retry_count (now + backoff)%Q record)
else None.

(** The body of the loop of [check_retry_timers] for one item of the
    snapshot [list(self.active_records.items())]. *)
Definition check_record (now : Q) (self : CustodyManager)
    (item : string * CustodyRecord.t) : CustodyManager :=
match checked (config self) now item.2 with
| Some record => update item.1 record self
| None => self
end.

(** [check_retry_timers]; [now] is [time.time()].  The items are visited
    in the order of the table, not in the insertion order of the Python
    dictionary: the commits of one call may be journaled in another
    order, the tables they produce are the same. *)
Definition check_retry_timers (now : Q) (self : CustodyManager)
    : CustodyManager :=
fold_left (check_record now) (map_to_list (active_records self)) self.

End custody_manager.

(** ** Vocabulary of the properties *)


(** The ceiling of [a / c]. *)
Definition ceil_div (a c : Z) : Z := - (- a / c).


(** One call of [handle_sack]: the message, the peer, and the two clock
    readings. *)
Record sack_call := {
  call_msg : SackMsg.t;
  call_addr : addr;
  call_time : Q;
  call_send_time : Q;
}.

(** A sequence of [handle_sack] calls, oldest first. *)
Definition handle_sacks (calls : list sack_call) (self : send_engine.SendEngine)
    : send_engine.SendEngine :=
fold_left (fun self c =>
             send_engine.handle_sack (call_msg c) (call_addr c)
                                     (call_time c) (call_send_time c) self)
          calls self.


(** Two send states agree on the window and on what is acknowledged. *)
Definition same_window (s s' : SendState.t) : Prop :=
SendState.acked_chunks s' = SendState.acked_chunks s
/\ SendState.window_start s' = SendState.window_start s
/\ SendState.window_end s' = SendState.window_end s
/\ SendState.window_size s' = SendState.window_size s
/\ SendState.total_chunks s' = SendState.total_chunks s
/\ SendState.completed s' = SendState.completed s.

(** Two send states agree on the round-trip estimator and the timeout. *)
Definition same_rtt (s s' : SendState.t) : Prop :=
SendState.timeout_interval s' = SendState.timeout_interval s
/\ SendState.smoothed_rtt s' = SendState.smoothed_rtt s
/\ SendState.rtt_variance s' = SendState.rtt_variance s.

(** *** A small sender, as the repository's timeout test sets it up

    An 8-octet file, [chunk_size = 4], [window_size = 4],
    [base_rto_ms = 50], [max_rto_ms = 1000], no FEC: two data chunks, both
    sent at time 0. *)
Definition lab_transfer : config.TransferConfig :=
{| config.chunk_size := 4; config.window_size := 4; config.base_rto_ms := 50;
   config.ttl_sec := 300; config.max_rto_ms := 1000;
   config.pacing_delay_ms := 0 |}.

Definition no_fec : config.FECConfig :=
{| config.enabled := false; config.k := 0; config.r := 0 |}.

Definition peer : addr := ("127.0.0.1"%string, 6000).

Definition lab_files : gmap string bytes := {[ "timeout.bin"%string := b "ABCDEFGH" ]}.

Definition sender_idle : send_engine.SendEngine :=
send_engine.init lab_transfer no_fec storage.empty Net.reliable "local".

Definition sender_started : send_engine.SendEngine :=
match
  send_engine.send_file lab_files "timeout.bin" "nodeB" peer (Some false)
                        "b1" 0 sender_idle
with
| inr (_, self) => self
| inl _ => sender_idle
end.

(** The send state of bundle [b1] once [send_file] has returned. *)
Definition started_state : SendState.t :=
default (SendState.new "b1" 0 0 0)
        (send_engine.active_sends sender_started !! "b1"%string).

(** The SACK that acknowledges chunk 0 alone. *)
Definition sack_zero : SackMsg.t :=
{| SackMsg.bundle_id := "b1"; SackMsg.recv_watermark := 0;
   SackMsg.sack_bitmap := []; SackMsg.acked_chunks := [0] |}.


(** [clamp(x, lo, hi)] as the RTO rule writes it. *)
Definition clamp (x lo hi : Q) : Q := Qmax lo (Qmin x hi).

(** FEC is on for a transfer: the caller asks for it, the configuration
    enables it, and [k] and [r] are positive. *)
Definition fec_on (fec_enabled : option bool) (fec : config.FECConfig) : bool :=
match fec_enabled with
| Some true => config.enabled fec && (0 <? config.k fec) && (0 <? config.r fec)
| _ => false
end.

(** [use_fec] as [send_file] computes it. *)
Definition use_fec (fec_enabled : option bool) (fec : config.FECConfig) : bool :=
match fec_enabled with
| Some true => config.enabled fec
| _ => false
end.

(** The commit [save_chunk] makes for one chunk. *)
Definition chunk_commit (c : Chunk.t) : list storage.stmt := [storage.PutChunk c].

(** *** A small FEC transfer

    A 6-octet file, [chunk_size = 4], [k = 2], [r = 1]: the data chunks
    [AAAA] and [BB] in one block, and one parity chunk. *)
Definition xor_fec : config.FECConfig :=
{| config.enabled := true; config.k := 2; config.r := 1 |}.

Definition fec_files : gmap string bytes := {[ "short.bin"%string := b "AAAABB" ]}.

Definition fec_sender_idle : send_engine.SendEngine :=
send_engine.init lab_transfer xor_fec storage.empty Net.reliable "local".

Definition fec_sender : send_engine.SendEngine :=
match
  send_engine.send_file fec_files "short.bin" "nodeB" peer (Some true)
                        "b2" 0 fec_sender_idle
with
| inr (_, self) => self
| inl _ => fec_sender_idle
end.

(** The DATA messages the sender put on the wire, in order. *)
Definition data_sent (self : send_engine.SendEngine) : list DataMsg.t :=
omap (fun call => match call.1 with DATA m => Some m | _ => None end)
     (Net.calls (send_engine.network_send self)).

(** The receiver of the small FEC transfer: it gets chunk 0 and the parity
    chunk; chunk 1 is lost on the way. *)
Definition fec_receiver_idle : receive_engine.ReceiveEngine :=
receive_engine.init lab_transfer xor_fec storage.empty Net.reliable "nodeB"
  "received" Disk.blank {| secrets.bits := fun _ => false; secrets.pos := 0 |}.

Definition fec_receiver : receive_engine.ReceiveEngine :=
match data_sent fec_sender with
| [chunk0; chunk1; parity] =>
    receive_engine.handle_data parity peer
      (receive_engine.handle_data chunk0 peer fec_receiver_idle)
| _ => fec_receiver_idle
end.

(** The payload of chunk [chunk_id] as the sender created it. *)
Definition sent_payload (self : send_engine.SendEngine) (bundle_id : string)
    (chunk_id : Z) : option bytes :=
d ← send_engine._chunk_cache self !! bundle_id;
Chunk.payload <$> (d !! chunk_id).

Definition sent_checksum (self : send_engine.SendEngine) (bundle_id : string)
    (chunk_id : Z) : option Z :=
d ← send_engine._chunk_cache self !! bundle_id;
Chunk.checksum <$> (d !! chunk_id).

(** *** A receiver and a DATA message with a wrong checksum *)
Definition plain_receiver_idle : receive_engine.ReceiveEngine :=
receive_engine.init lab_transfer no_fec storage.empty Net.reliable "nodeB"
  "received" Disk.blank {| secrets.bits := fun _ => false; secrets.pos := 0 |}.

Definition good_chunk : DataMsg.t :=
{| DataMsg.bundle_id := "b3"; DataMsg.chunk_id := 0; DataMsg.total_chunks := 3;
   DataMsg.block_id := 0; DataMsg.k := 0; DataMsg.r := 0;
   DataMsg.checksum := zlib.crc32 (b "good"); DataMsg.payload := b "good" |}.

Definition bad_chunk : DataMsg.t :=
{| DataMsg.bundle_id := "b3"; DataMsg.chunk_id := 1; DataMsg.total_chunks := 3;
   DataMsg.block_id := 0; DataMsg.k := 0; DataMsg.r := 0;
   DataMsg.checksum := 0; DataMsg.payload := b "evil" |}.

Definition plain_receiver : receive_engine.ReceiveEngine :=
receive_engine.handle_data good_chunk peer plain_receiver_idle.

(** The messages a receiver sends: the three acknowledgements. *)
Definition is_ack (m : message) : Prop :=
match m with
| SACK _ | DELIVERED _ | CUSTODY_ACK _ => True
| _ => False
end.

(** From [w] to [w'] the network was handed acknowledgements only. *)
Definition only_acks (w w' : receive_engine.env) : Prop :=
exists new,
  Net.calls (receive_engine.net w') = Net.calls (receive_engine.net w) ++ new
  /\ Forall (fun call : message * addr => is_ack call.1) new.

(** The payload sits in the receive state, as data chunk [chunk_id] or
    among the parity payloads of block [block_id]. *)
Definition holds_payload (state : ReceiveState.t) (chunk_id block_id : Z)
    (payload : bytes) : Prop :=
ReceiveState.data_chunks state !! chunk_id = Some payload
\/ exists l, ReceiveState.parity_chunks state !! block_id = Some l
             /\ payload ∈ l.

(** The same DATA message declaring the checksum [c]. *)
Definition with_checksum (c : Z) (m : DataMsg.t) : DataMsg.t :=
{| DataMsg.bundle_id := DataMsg.bundle_id m;
   DataMsg.chunk_id := DataMsg.chunk_id m;
   DataMsg.total_chunks := DataMsg.total_chunks m;
   DataMsg.block_id := DataMsg.block_id m;
   DataMsg.k := DataMsg.k m;
   DataMsg.r := DataMsg.r m;
   DataMsg.checksum := c;
   DataMsg.payload := DataMsg.payload m |}.

(** The XOR stripe of a list of payloads, and the length of the longest. *)
Definition stripe (payloads : list bytes) : bytes := fold_left xor_into payloads [].

Definition longest (payloads : list bytes) : nat :=
foldr Nat.max 0%nat (length <$> payloads).

(** The call [network_send(msg, dest)] where [msg] is the DATA message
    built from the chunk that [d] holds under [c], for a bundle in state
    [s]. *)
Definition sends_chunk (s : SendState.t) (d : gmap Z Chunk.t) (dest : addr)
    (c : Z) (call : message * addr) : Prop :=
call.2 = dest
/\ exists chunk,
     d !! c = Some chunk
     /\ call.1 = protocol.make_data_msg
                   (Chunk.bundle_id chunk) (Chunk.chunk_id chunk)
                   (SendState.total_chunks s) (Chunk.block_id chunk)
                   (Chunk.k chunk) (Chunk.r chunk) (Chunk.checksum chunk)
                   (Chunk.payload chunk).

(** A call that [_send_window] may make: a chunk of the window that is not
    acked and whose deadline, if it has one, has passed. *)
Definition window_send (s : SendState.t) (d : gmap Z Chunk.t) (dest : addr)
    (now : Q) (call : message * addr) : Prop :=
exists c,
  SendState.window_start s <= c < SendState.window_end s
  /\ (c ∉ SendState.acked_chunks s)
  /\ (forall deadline, SendState.chunk_timers s !! c = Some deadline ->
                       (deadline <= now)%Q)
  /\ sends_chunk s d dest c call.

(** A call that [retransmit_chunks] may make: a queued chunk that is not
    acked. *)
Definition queue_send (s : SendState.t) (d : gmap Z Chunk.t) (dest : addr)
    (call : message * addr) : Prop :=
exists c,
  c ∈ SendState.retransmit_queue s
  /\ (c ∉ SendState.acked_chunks s)
  /\ sends_chunk s d dest c call.

(** The sender of the small transfer after both chunks timed out at
    100 ms and were sent again. *)
Definition sender_retransmitted : send_engine.SendEngine :=
send_engine.retransmit_chunks "b1" peer 100
  (send_engine.check_timeouts 100 sender_started).

Definition retransmitted_state : SendState.t :=
default (SendState.new "b1" 0 0 0)
        (send_engine.active_sends sender_retransmitted !! "b1"%string).

(** The DATA message the sender builds from a chunk of a bundle of
    [total_chunks] chunks. *)
Definition wire_msg (total_chunks : Z) (c : Chunk.t) : message :=
protocol.make_data_msg (Chunk.bundle_id c) (Chunk.chunk_id c) total_chunks
  (Chunk.block_id c) (Chunk.k c) (Chunk.r c) (Chunk.checksum c)
  (Chunk.payload c).

(** The ids [0 .. n-1]. *)
Definition all_ids (n : Z) : gset Z := list_to_set (range n).

(** A receive state of bundle [id], of [n] chunks without FEC, that holds
    exactly the chunks with ids in [ids], chunk [j] with payload
    [payload j], and writes to [path]. *)
Definition receiving (id : string) (n : Z) (payload : Z -> bytes)
    (path : string) (ids : gset Z) (state : ReceiveState.t) : Prop :=
ReceiveState.bundle_id state = id
/\ ReceiveState.total_chunks state = n
/\ ReceiveState.num_data_chunks state = n
/\ ReceiveState.fec_enabled state = false
/\ ReceiveState.output_path state = path
/\ ReceiveState.received_chunks state = ids
/\ ids ⊆ all_ids n
/\ forall j, ReceiveState.data_chunks state !! j
             = if decide (j ∈ ids) then Some (payload j) else None.

(** The DELIVERED messages among the calls of a link. *)
Definition is_delivered_call (call : message * addr) : bool :=
match call.1 with
| DELIVERED _ => true
| _ => false
end.

Definition delivered_calls (net : Net.t) : list (message * addr) :=
List.filter is_delivered_call (Net.calls net).

(** A DATA message of chunk [chunk_id] of the bundle described by
    [receiving], for which a receiver whose FEC switch is [enabled] does
    not turn FEC on: it announces no [k] or no [r], or the switch is
    off. *)
Definition plain_msg (enabled : bool) (id : string) (n : Z)
    (payload : Z -> bytes) (m : DataMsg.t) : Prop :=
DataMsg.bundle_id m = id
/\ 0 <= DataMsg.chunk_id m < n
/\ DataMsg.total_chunks m = n
/\ (DataMsg.k m = 0 \/ DataMsg.r m = 0 \/ enabled = false)
/\ DataMsg.payload m = payload (DataMsg.chunk_id m).

(** What holds of a receiver's surroundings while bundle [id] is being
    received ([ids] is not yet all of it) and once it is complete: the
    file, the bundle row and the one DELIVERED message sent to [a] on top
    of the DELIVERED calls [base] made before. *)
Definition delivery (id : string) (n : Z) (payload : Z -> bytes)
    (path : string) (a : addr) (base : list (message * addr)) (ids : gset Z)
    (delivered : bool) (w : receive_engine.env) : Prop :=
Disk.writable (receive_engine.fs w) path = true
/\ (ids = all_ids n ->
    delivered = true
    /\ Disk.files (receive_engine.fs w) !! path
       = Some (concat (payload <$> range n))
    /\ Bundle.state <$> storage.load_bundle id (receive_engine.db w)
       = Some "delivered"%string
    /\ delivered_calls (receive_engine.net w)
       = base ++ [(protocol.make_delivered_msg id, a)])
/\ (ids <> all_ids n ->
    delivered = false
    /\ is_Some (storage.load_bundle id (receive_engine.db w))
    /\ delivered_calls (receive_engine.net w) = base).

(** A receiver that has been handed the chunks [ids] of bundle [id] so
    far, all from the peer [a], writes below [dir] and has its FEC switch
    at [enabled]. *)
Definition receiver_at (enabled : bool) (id : string) (n : Z)
    (payload : Z -> bytes) (dir : string) (a : addr)
    (base : list (message * addr)) (ids : gset Z)
    (self : receive_engine.ReceiveEngine) : Prop :=
let path := receive_engine.output_path_of dir id in
receive_engine.output_dir self = dir
/\ config.enabled (receive_engine.fec_config self) = enabled
/\ match receive_engine.active_receives self !! id with
   | None =>
       ids = ∅
       /\ Disk.writable (receive_engine.disk self) path = true
       /\ delivered_calls (receive_engine.network_send self) = base
   | Some state =>
       receiving id n payload path ids state
       /\ delivery id n payload path a base ids
            (ReceiveState.delivered state) (receive_engine.env_of self)
   end.

(** The chunks of the small file sent without FEC, and their DATA
    messages as they may arrive: last chunk first, then all of them
    again. *)
Definition plain_chunks : list Chunk.t :=
send_engine.data_chunk lab_transfer no_fec (b "ABCDEFGH") "b1" false <$> range 2.

Definition shuffled_msgs : list DataMsg.t :=
omap (fun c => match wire_msg (len plain_chunks) c with
               | DATA m => Some m
               | _ => None
               end)
     (rev plain_chunks ++ plain_chunks).

(** The row [_save_record] writes for a record. *)
Definition row_of (record : CustodyRecord.t) : CustodyRow.t :=
{| CustodyRow.bundle_id := CustodyRecord.bundle_id record;
   CustodyRow.owner_node := CustodyRecord.owner_node record;
   CustodyRow.chunk_ranges := CustodyRecord.chunk_ranges record;
   CustodyRow.retry_timer := CustodyRecord.retry_timer record;
   CustodyRow.retry_count := CustodyRecord.retry_count record;
   CustodyRow.max_retries := CustodyRecord.max_retries record;
   CustodyRow.state := CustodyRecord.state record |}.

(** Every custody record in memory is filed under its own bundle id. *)
Definition custody_keyed (self : custody_manager.CustodyManager) : Prop :=
forall id record,
  custody_manager.active_records self !! id = Some record ->
  CustodyRecord.bundle_id record = id.

(** Memory and store agree: every record in memory is filed under its own
    bundle id and its row is the one in the custody table. *)
Definition custody_synced (self : custody_manager.CustodyManager) : Prop :=
forall id record,
  custody_manager.active_records self !! id = Some record ->
  CustodyRecord.bundle_id record = id
  /\ storage.load_custody_record id (custody_manager.storage self)
     = Some (row_of record).

(** What may happen to a custody manager after it accepted custody: a
    timer tick, a DELIVERED or a CUSTODY_ACK message. *)
Inductive custody_event :=
| tick (now : Q)
| got_delivered (msg : DeliveredMsg.t)
| got_custody_ack (msg : CustodyAckMsg.t).

Definition custody_step (self : custody_manager.CustodyManager)
    (e : custody_event) : custody_manager.CustodyManager :=
match e with
| tick now => custody_manager.check_retry_timers now self
| got_delivered msg => custody_manager.handle_delivered msg self
| got_custody_ack msg => custody_manager.handle_custody_ack msg self
end.

(** A manager that accepted custody of bundle [b9] at time 10. *)
Definition custodian : custody_manager.CustodyManager :=
custody_manager.handle_custody_req
  {| CustodyReqMsg.bundle_id := "b9"; CustodyReqMsg.ranges := [(0, 3)];
     CustodyReqMsg.ttl_remaining := 60 |}
  peer 10
  (custody_manager.init config.default_custody storage.empty Net.reliable
     "nodeB" {| secrets.bits := fun _ => false; secrets.pos := 0 |}).

Definition custodian_record : CustodyRecord.t :=
{| CustodyRecord.bundle_id := "b9"; CustodyRecord.owner_node := "nodeB";
   CustodyRecord.chunk_ranges := [(0, 3)]; CustodyRecord.retry_timer := 12;
   CustodyRecord.retry_count := 0; CustodyRecord.max_retries := 10;
   CustodyRecord.state := "accepted" |}.

(** How a custody record may differ from an earlier version of itself:
    its identity and retry budget are the same, its retry count has not
    decreased and has stayed within the budget if it was within, and a
    record that was complete or failed has not changed at all. *)
Definition custody_progress (r r' : CustodyRecord.t) : Prop :=
CustodyRecord.bundle_id r' = CustodyRecord.bundle_id r
/\ CustodyRecord.owner_node r' = CustodyRecord.owner_node r
/\ CustodyRecord.chunk_ranges r' = CustodyRecord.chunk_ranges r
/\ CustodyRecord.max_retries r' = CustodyRecord.max_retries r
/\ CustodyRecord.retry_count r <= CustodyRecord.retry_count r'
/\ (CustodyRecord.retry_count r <= CustodyRecord.max_retries r ->
    CustodyRecord.retry_count r' <= CustodyRecord.max_retries r)
/\ (CustodyRecord.terminal r = true -> r' = r).

(** A bundle id that travels unchanged in the 16-octet field of the wire
    format: at most 16 characters, all ASCII and none of them NUL. *)
Definition wire_id (id : string) : Prop :=
(length (b id) <= 16)%nat
/\ Forall (fun x => 1 <= byte_val x < 128) (b id).

(** A DATA message whose fields fit the header [!B16sIIIHHIBH]. *)
Definition wire_data (m : DataMsg.t) : Prop :=
wire_id (DataMsg.bundle_id m)
/\ 0 <= DataMsg.chunk_id m < 2 ^ 32
/\ 0 <= DataMsg.total_chunks m < 2 ^ 32
/\ 0 <= DataMsg.block_id m < 2 ^ 32
/\ 0 <= DataMsg.k m < 2 ^ 16
/\ 0 <= DataMsg.r m < 2 ^ 16
/\ 0 <= DataMsg.checksum m < 2 ^ 32
/\ len (DataMsg.payload m) < 2 ^ 16.

(** Bit [j] of a SACK bitmap, the most significant bit of each octet
    first. *)
Definition bit_at (bitmap : bytes) (j : Z) : bool :=
match bitmap !! Z.to_nat (j / 8) with
| Some x => Z.testbit (byte_val x) (7 - j mod 8)
| None => false
end.

(** The two data chunks of an 8-octet file sent with XOR parity over
    blocks of two, and a receive state that holds chunk 0 and the parity
    of block 0 but not chunk 1. *)
Definition even_chunk (i : Z) : Chunk.t :=
send_engine.data_chunk lab_transfer xor_fec (b "AAAABBBB") "b3" true i.

Definition lossy_state : ReceiveState.t :=
{| ReceiveState.bundle_id := "b3";
   ReceiveState.total_chunks := 3;
   ReceiveState.fec_enabled := true;
   ReceiveState.k := 2;
   ReceiveState.r := 1;
   ReceiveState.output_path := "received/bundle_b3.bin";
   ReceiveState.num_data_chunks := 2;
   ReceiveState.received_chunks := {[0; 2]};
   ReceiveState.data_chunks := {[0 := Chunk.payload (even_chunk 0)]};
   ReceiveState.parity_chunks :=
     {[0 := [send_engine._xor_chunks [even_chunk 0; even_chunk 1]]]};
   ReceiveState.delivered := false;
   ReceiveState.write_buffer := [] |}.

(** The payload of the chunk at position [j] of a chunk list. *)
Definition payload_at (chunks : list Chunk.t) (j : Z) : bytes :=
default [] (Chunk.payload <$> chunks !! Z.to_nat j).

(** The chunks of an 8-octet file sent with XOR parity over blocks of
    two, parity chunk included, and their DATA messages in order. *)
Definition striped_chunks : list Chunk.t :=
match send_engine._create_chunks lab_transfer xor_fec (b "AAAABBBB") "b3" true with
| inr chunks => chunks
| inl _ => []
end.

Definition striped_msgs : list DataMsg.t :=
omap (fun c => match wire_msg (len striped_chunks) c with
               | DATA m => Some m
               | _ => None
               end)
     striped_chunks.

(** The value [json.loads] builds for a list of integer pairs. *)
Definition json_pair (p : Z * Z) : json.value :=
json.JArr [json.JInt p.1; json.JInt p.2].

Definition json_ranges (l : list (Z * Z)) : json.value :=
json.JArr (json_pair <$> l).

(** A control message whose fields fit its header: the identifier in 16
    octets, the JSON text of the ranges within the 16-bit length field. *)
Definition wire_ranges (id : string) (ranges : list (Z * Z)) : Prop :=
wire_id id /\ len (json.dumps_ranges ranges) < 2 ^ 16.

(** * Properties *)

(** ** The model against the repository's own tests *)

(** [test_crc32_known_value]. *)
Example crc32_known_value : zlib.crc32 (b "hello world") = 0x0D4A1185.
Proof. vm_compute. reflexivity. Qed.

(** [test_data_serialize_deserialize_roundtrip]. *)
Example data_roundtrip :
  let m := {| DataMsg.bundle_id := "bundle123"; DataMsg.chunk_id := 5;
              DataMsg.total_chunks := 10; DataMsg.block_id := 1;
              DataMsg.k := 4; DataMsg.r := 2;
              DataMsg.checksum := 0xDEADBEEF;
              DataMsg.payload := b "test-payload" |} in
  network_io._deserialize_message (network_io._serialize_data_message m)
  = Some (DATA m).
Proof. vm_compute. reflexivity. Qed.

(** [test_sack_serialize_deserialize_roundtrip]. *)
Example sack_roundtrip :
  match protocol.make_sack_msg "bundleS" [0; 1; 2; 5; 7; 10] with
  | SACK m =>
      match network_io._deserialize_message (network_io._serialize_sack_message m) with
      | Some (SACK m') => SackMsg.acked_chunks m'
      | _ => []
      end
  | _ => []
  end = [0; 1; 2; 5; 7; 10].
Proof. vm_compute. reflexivity. Qed.

(** [test_fec_xor_encode_decode_single_block]: payloads of equal length. *)
Example xor_single_block :
  receive_engine._xor_bytes (stripe [b "AAA"; b "BBB"; b "CCC"])
                            [b "AAA"; b "BBB"] = b "CCC".
Proof. vm_compute. reflexivity. Qed.

(** ** Auxiliary facts on the Python helpers *)

Lemma len_nonneg {A} (l : list A) : 0 <= len l.
Proof. unfold len. lia. Qed.

Lemma len_app {A} (l1 l2 : list A) : len (l1 ++ l2) = len l1 + len l2.
Proof. unfold len. rewrite length_app. lia. Qed.

Lemma range_length n : length (range n) = Z.to_nat n.
Proof. unfold range. by rewrite length_fmap, length_seq. Qed.

Lemma range_lookup n i :
  (i < Z.to_nat n)%nat -> range n !! i = Some (Z.of_nat i).
Proof.
  intros Hi. unfold range. rewrite list_lookup_fmap.
  by rewrite lookup_seq_lt.
Qed.


Lemma replay_app j1 j2 :
  storage.replay (j1 ++ j2)
  = fold_left (fun t txn => fold_left storage.exec txn t) j2 (storage.replay j1).
Proof. unfold storage.replay. apply fold_left_app. Qed.

(** ** Custody acceptance *)



(** ** The decoder *)





(** The empty datagram decodes to no message. *)
Lemma decoder_empty : network_io._deserialize_message [] = None.
Proof. reflexivity. Qed.

(** ** The sender's SACK handling *)

Lemma same_window_refl s : same_window s s.
Proof. by repeat split. Qed.

Lemma same_window_trans s1 s2 s3 :
  same_window s1 s2 -> same_window s2 s3 -> same_window s1 s3.
Proof.
  unfold same_window. intros (?&?&?&?&?&?) (?&?&?&?&?&?).
  repeat split; congruence.
Qed.

Lemma same_rtt_refl s : same_rtt s s.
Proof. by repeat split. Qed.

Lemma same_rtt_trans s1 s2 s3 :
  same_rtt s1 s2 -> same_rtt s2 s3 -> same_rtt s1 s3.
Proof.
  unfold same_rtt. intros (?&?&?) (?&?&?). repeat split; congruence.
Qed.

Lemma send_one_frame d a t s net cid :
  same_window s (send_engine.send_one d a t (s, net) cid).1
  /\ same_rtt s (send_engine.send_one d a t (s, net) cid).1.
Proof.
  unfold send_engine.send_one.
  repeat case_match; simplify_eq/=; split; by repeat split.
Qed.

Lemma send_loop_frame d a t ids s net :
  same_window s (fold_left (send_engine.send_one d a t) ids (s, net)).1
  /\ same_rtt s (fold_left (send_engine.send_one d a t) ids (s, net)).1.
Proof.
  revert s net. induction ids as [|cid ids IH]; intros s net.
  - split; [apply same_window_refl | apply same_rtt_refl].
  - cbn [fold_left].
    destruct (send_engine.send_one d a t (s, net) cid) as [s1 net1] eqn:E.
    pose proof (send_one_frame d a t s net cid) as [H1 H2].
    rewrite E in H1, H2. cbn in H1, H2.
    destruct (IH s1 net1) as [H3 H4].
    split; [eapply same_window_trans | eapply same_rtt_trans]; eauto.
Qed.

Lemma chunk_dict_for_sends id self :
  send_engine.active_sends (send_engine.chunk_dict_for id self).2
  = send_engine.active_sends self
  /\ send_engine.network_send (send_engine.chunk_dict_for id self).2
     = send_engine.network_send self
  /\ send_engine.storage (send_engine.chunk_dict_for id self).2
     = send_engine.storage self
  /\ send_engine.config (send_engine.chunk_dict_for id self).2
     = send_engine.config self.
Proof.
  unfold send_engine.chunk_dict_for.
  destruct (send_engine._chunk_cache self !! id) as [d|]; [|done].
  by destruct (map_to_list d).
Qed.

Lemma _send_window_same id a t self s :
  send_engine.active_sends self !! id = Some s ->
  exists s',
    send_engine.active_sends (send_engine._send_window id a t self) !! id = Some s'
    /\ same_window s s' /\ same_rtt s s'.
Proof.
  intros Hs. unfold send_engine._send_window. rewrite Hs.
  destruct (send_engine.chunk_dict_for id self) as [d self1] eqn:E.
  pose proof (chunk_dict_for_sends id self) as (_ & Hn & _). rewrite E in Hn.
  cbn in Hn.
  destruct (fold_left _ _ _) as [s' net'] eqn:F.
  exists s'. split.
  - cbn. apply lookup_insert_eq.
  - pose proof (send_loop_frame d a t
      (range2 (SendState.window_start s) (SendState.window_end s)) s
      (send_engine.network_send self1)) as H.
    rewrite F in H. exact H.
Qed.

Lemma _send_window_other id id' a t self :
  id <> id' ->
  send_engine.active_sends (send_engine._send_window id a t self) !! id'
  = send_engine.active_sends self !! id'.
Proof.
  intros Hne. unfold send_engine._send_window.
  destruct (send_engine.active_sends self !! id) as [s|] eqn:Hs; [|done].
  destruct (send_engine.chunk_dict_for id self) as [d self1] eqn:E.
  pose proof (chunk_dict_for_sends id self) as (Ha & _). rewrite E in Ha.
  cbn in Ha.
  destruct (fold_left _ _ _) as [s' net'].
  cbn. rewrite lookup_insert_ne by done. by rewrite Ha.
Qed.

Lemma _send_window_storage id a t self :
  send_engine.storage (send_engine._send_window id a t self)
  = send_engine.storage self.
Proof.
  unfold send_engine._send_window.
  destruct (send_engine.active_sends self !! id) as [s|]; [|done].
  destruct (send_engine.chunk_dict_for id self) as [d self1] eqn:E.
  pose proof (chunk_dict_for_sends id self) as (_ & _ & Hd & _).
  rewrite E in Hd. cbn in Hd.
  by destruct (fold_left _ _ _).
Qed.

Lemma _complete_transfer_same id self s :
  send_engine.active_sends self !! id = Some s ->
  send_engine.active_sends (send_engine._complete_transfer id self) !! id
  = Some (if SendState.completed s then s else SendState.set_completed true s).
Proof.
  intros Hs. unfold send_engine._complete_transfer. rewrite Hs.
  destruct (SendState.completed s); [done|].
  cbn. apply lookup_insert_eq.
Qed.

Lemma _complete_transfer_other id id' self :
  id <> id' ->
  send_engine.active_sends (send_engine._complete_transfer id self) !! id'
  = send_engine.active_sends self !! id'.
Proof.
  intros Hne. unfold send_engine._complete_transfer.
  destruct (send_engine.active_sends self !! id) as [s|]; [|done].
  destruct (SendState.completed s); [done|].
  cbn. by rewrite lookup_insert_ne.
Qed.

Lemma ack_one_frame cfg t s cid :
  same_window s (send_engine.ack_one cfg t s cid).
Proof.
  unfold send_engine.ack_one.
  destruct (SendState.send_timestamps s !! cid); [|by repeat split].
  destruct (decide _); [by repeat split|].
  unfold send_engine._update_rtt_estimates.
  destruct (_ || _); by repeat split.
Qed.

Lemma ack_loop_frame cfg t ids s :
  same_window s (fold_left (send_engine.ack_one cfg t) ids s).
Proof.
  revert s. induction ids as [|cid ids IH]; intros s.
  - apply same_window_refl.
  - cbn [fold_left]. eapply same_window_trans; [apply ack_one_frame | apply IH].
Qed.

(** The window loop stops on its own: with the fuel [handle_sack] gives
    it, the loop ends at a position where its guard is false. *)
Lemma advance_ge fuel acked total ws :
  ws <= send_engine.advance fuel acked total ws.
Proof.
  revert ws. induction fuel as [|fuel IH]; intros ws; cbn; [lia|].
  destruct (_ && _); [|lia]. specialize (IH (ws + 1)). lia.
Qed.

Lemma advance_exit fuel acked total ws :
  (Z.to_nat (total - ws) <= fuel)%nat ->
  let ws' := send_engine.advance fuel acked total ws in
  ~ (ws' < total /\ ws' ∈ acked).
Proof.
  revert ws. induction fuel as [|fuel IH]; intros ws Hfuel; cbn.
  - lia.
  - destruct (Z.ltb_spec ws total) as [Hlt|Hge]; cbn [andb].
    + destruct (bool_decide_reflect (ws ∈ acked)) as [Hin|Hout].
      * apply IH. lia.
      * tauto.
    + lia.
Qed.

Lemma advance_stay fuel acked total ws :
  ~ (ws < total /\ ws ∈ acked) ->
  send_engine.advance fuel acked total ws = ws.
Proof.
  intros H. destruct fuel as [|fuel]; [done|]. cbn.
  destruct (Z.ltb_spec ws total) as [Hlt|Hge]; cbn [andb]; [|done].
  destruct (bool_decide_reflect (ws ∈ acked)); [tauto | done].
Qed.

Lemma handle_sack_unknown msg a t t' self :
  send_engine.active_sends self !! SackMsg.bundle_id msg = None ->
  send_engine.handle_sack msg a t t' self = self.
Proof. intros H. unfold send_engine.handle_sack. by rewrite H. Qed.

Lemma handle_sack_other msg a t t' self id :
  id <> SackMsg.bundle_id msg ->
  send_engine.active_sends (send_engine.handle_sack msg a t t' self) !! id
  = send_engine.active_sends self !! id.
Proof.
  intros Hne. unfold send_engine.handle_sack.
  destruct (send_engine.active_sends self !! SackMsg.bundle_id msg) as [s|];
    [|done].
  repeat case_match;
    rewrite ?_complete_transfer_other, ?_send_window_other by done;
    cbn; by rewrite lookup_insert_ne.
Qed.

(** What one [handle_sack] does to the state of the bundle it names. *)
Lemma handle_sack_same msg a t t' self s :
  send_engine.active_sends self !! SackMsg.bundle_id msg = Some s ->
  let sacked : gset Z := list_to_set (SackMsg.acked_chunks msg) in
  let acked' := SendState.acked_chunks s ∪ sacked in
  exists s',
    send_engine.active_sends (send_engine.handle_sack msg a t t' self)
      !! SackMsg.bundle_id msg = Some s'
    /\ SendState.acked_chunks s' = acked'
    /\ SendState.window_start s'
       = send_engine.advance
           (Z.to_nat (SendState.total_chunks s - SendState.window_start s))
           acked' (SendState.total_chunks s) (SendState.window_start s)
    /\ SendState.total_chunks s' = SendState.total_chunks s
    /\ SendState.window_size s' = SendState.window_size s
    /\ SendState.completed s'
       = SendState.completed s
         || (SendState.total_chunks s <=? Z.of_nat (size acked'))
    /\ (elements (sacked ∖ SendState.acked_chunks s) <> [] ->
        SendState.timeout_interval s'
        = pymax (SendState.smoothed_rtt s' + 4 * SendState.rtt_variance s')
                (inject_Z (config.base_rto_ms (send_engine.config self)))).
Proof.
  intros Hs sacked acked'. unfold send_engine.handle_sack. rewrite Hs.
  fold sacked.
  set (s1 := SendState.set_acked_chunks _ s).
  set (s2 := fold_left _ _ s1).
  assert (H12 : same_window s1 s2) by apply ack_loop_frame.
  set (s3 := match elements (sacked ∖ SendState.acked_chunks s) with
             | [] => s2 | _ => _ end).
  assert (H23 : same_window s2 s3).
  { subst s3. destruct (elements _); by repeat split. }
  assert (Hto : elements (sacked ∖ SendState.acked_chunks s) <> [] ->
    SendState.timeout_interval s3
    = pymax (SendState.smoothed_rtt s3 + 4 * SendState.rtt_variance s3)
            (inject_Z (config.base_rto_ms (send_engine.config self)))
    ).
  { subst s3. destruct (elements _); [done|]. intros _. reflexivity. }
  pose proof (same_window_trans _ _ _ H12 H23) as (Ha & Hw & He & Hz & Ht & Hc).
  change (SendState.acked_chunks s1) with acked' in Ha.
  change (SendState.window_start s1) with (SendState.window_start s) in Hw.
  change (SendState.total_chunks s1) with (SendState.total_chunks s) in Ht.
  change (SendState.window_size s1) with (SendState.window_size s) in Hz.
  change (SendState.completed s1) with (SendState.completed s) in Hc.
  rewrite Ha, Hw, Ht, Hz.
  set (ws := send_engine.advance _ _ _ _).
  set (s4 := SendState.set_window ws _ s3).
  set (self1 := send_engine.set_state _ s4 _ self).
  assert (H1 : send_engine.active_sends self1 !! SackMsg.bundle_id msg = Some s4)
    by apply lookup_insert_eq.
  change (SendState.acked_chunks s4) with (SendState.acked_chunks s3).
  rewrite Ha.
  destruct (Z.leb_spec (SendState.total_chunks s) (Z.of_nat (size acked')))
    as [Hdone|Hmore].
  - rewrite (_complete_transfer_same _ _ _ H1).
    eexists. split; [reflexivity|].
    change (SendState.completed s4) with (SendState.completed s3).
    rewrite Hc. destruct (SendState.completed s); cbn;
      repeat split; try done; rewrite ?orb_true_r; done.
  - rewrite orb_false_r.
    destruct (_ <? _).
    + destruct (_send_window_same _ a t' _ _ H1)
        as (s5 & H5 & (Ha5 & Hw5 & _ & Hz5 & Ht5 & Hc5) & (Hto5 & Hsr5 & Hv5)).
      exists s5. split; [exact H5|].
      rewrite Ha5, Hw5, Ht5, Hz5, Hc5, Hto5, Hsr5, Hv5. cbn.
      repeat split; done.
    + exists s4. split; [exact H1|]. cbn. repeat split; done.
Qed.

Lemma handle_sack_step msg a t t' self id s :
  send_engine.active_sends self !! id = Some s ->
  exists s',
    send_engine.active_sends (send_engine.handle_sack msg a t t' self) !! id
    = Some s'
    /\ SendState.window_start s <= SendState.window_start s'
    /\ SendState.acked_chunks s ⊆ SendState.acked_chunks s'
    /\ (SackMsg.bundle_id msg = id ->
        SendState.acked_chunks s'
        = SendState.acked_chunks s ∪ list_to_set (SackMsg.acked_chunks msg)).
Proof.
  intros Hs. destruct (decide (id = SackMsg.bundle_id msg)) as [->|Hne].
  - destruct (handle_sack_same msg a t t' self s Hs)
      as (s' & H' & Ha & Hw & _).
    exists s'. split; [exact H'|]. rewrite Ha, Hw.
    split; [apply advance_ge|]. split; [apply union_subseteq_l | done].
  - exists s. rewrite handle_sack_other by done.
    split; [exact Hs|]. split; [lia|]. split; [done | congruence].
Qed.

(** C6. Across any sequence of [handle_sack] calls, the bundle's
    [window_start] never decreases and its acked set only grows: every id
    acked before the sequence is acked after it, and so is every id carried
    by a SACK of the sequence addressed to the bundle. *)
Theorem handle_sacks_monotone (calls : list sack_call)
    (self : send_engine.SendEngine) (id : string) (s : SendState.t)
    (Hs : send_engine.active_sends self !! id = Some s) :
  exists s',
    send_engine.active_sends (handle_sacks calls self) !! id = Some s'
    /\ SendState.window_start s <= SendState.window_start s'
    /\ SendState.acked_chunks s ⊆ SendState.acked_chunks s'
    /\ forall c, c ∈ calls -> SackMsg.bundle_id (call_msg c) = id ->
         list_to_set (SackMsg.acked_chunks (call_msg c))
         ⊆ SendState.acked_chunks s'.
Proof.
  revert self s Hs. induction calls as [|c calls IH]; intros self s Hs.
  - exists s. cbn. split; [done|]. split; [lia|]. split; [done|].
    intros c Hc. by apply elem_of_nil in Hc.
  - cbn [handle_sacks fold_left].
    destruct (handle_sack_step (call_msg c) (call_addr c) (call_time c)
                (call_send_time c) self id s Hs) as (s1 & H1 & Hw1 & Ha1 & Hor).
    destruct (IH _ s1 H1) as (s' & H' & Hw' & Ha' & Hall).
    exists s'. split; [exact H'|]. split; [lia|].
    split; [by etrans|].
    intros c' Hc' Hid. apply elem_of_cons in Hc' as [->|Hc'].
    + etrans; [|exact Ha']. rewrite (Hor Hid). apply union_subseteq_r.
    + by apply Hall.
Qed.

Lemma handle_sacks_monotone_witness :
  exists s',
    send_engine.active_sends
      (handle_sacks [ {| call_msg := sack_zero; call_addr := peer;
                         call_time := 10; call_send_time := 10 |} ]
                    sender_started) !! "b1"
    = Some s'
    /\ SendState.window_start started_state <= SendState.window_start s'
    /\ SendState.acked_chunks started_state ⊆ SendState.acked_chunks s'
    /\ forall c, c ∈ [ {| call_msg := sack_zero; call_addr := peer;
                          call_time := 10%Q; call_send_time := 10%Q |} ] ->
         SackMsg.bundle_id (call_msg c) = "b1"%string ->
         list_to_set (SackMsg.acked_chunks (call_msg c))
         ⊆ SendState.acked_chunks s'.
Proof.
  apply (handle_sacks_monotone _ sender_started "b1" started_state).
  vm_compute. reflexivity.
Defined.

(** C7. Replaying a SACK right after its first application changes
    neither [window_start] nor the acked set of any bundle, whatever the
    clock reads at the two applications. *)
Theorem handle_sack_idempotent (msg : SackMsg.t) (a : addr)
    (t1 t1' t2 t2' : Q) (self : send_engine.SendEngine) (id : string) :
  let once := send_engine.handle_sack msg a t1 t1' self in
  let twice := send_engine.handle_sack msg a t2 t2' once in
  SendState.window_start <$> send_engine.active_sends twice !! id
  = SendState.window_start <$> send_engine.active_sends once !! id
  /\ SendState.acked_chunks <$> send_engine.active_sends twice !! id
     = SendState.acked_chunks <$> send_engine.active_sends once !! id.
Proof.
  cbv zeta.
  destruct (decide (id = SackMsg.bundle_id msg)) as [->|Hne].
  2: { rewrite (handle_sack_other msg a t2 t2') by done. split; reflexivity. }
  destruct (send_engine.active_sends self !! SackMsg.bundle_id msg)
    as [s|] eqn:Hs.
  2: { rewrite (handle_sack_unknown msg a t1 t1' self Hs),
         (handle_sack_unknown msg a t2 t2' self Hs). split; reflexivity. }
  destruct (handle_sack_same msg a t1 t1' self s Hs)
    as (s1 & H1 & Ha1 & Hw1 & Ht1 & _).
  destruct (handle_sack_same msg a t2 t2' _ s1 H1)
    as (s2 & H2 & Ha2 & Hw2 & _).
  rewrite H2, H1. cbn.
  assert (Hacked : SendState.acked_chunks s2 = SendState.acked_chunks s1).
  { rewrite Ha2, Ha1. by rewrite <- (assoc_L (∪)), union_idemp_L. }
  split; [|by rewrite Hacked].
  f_equal. rewrite Hw2, <- Ha2, Hacked, Ht1.
  apply advance_stay. rewrite Hw1, Ha1. by apply advance_exit.
Qed.






(** ** The retransmission timeout on the SACK path *)

Lemma pymax_ge_r (x y : Q) : (y <= pymax x y)%Q.
Proof.
  unfold pymax, Qlt_bool. destruct (Qle_bool y x) eqn:E; cbn.
  - by apply Qle_bool_iff.
  - apply Qle_refl.
Qed.

Lemma pymax_ge_l (x y : Q) : (x <= pymax x y)%Q.
Proof.
  unfold pymax, Qlt_bool. destruct (Qle_bool y x) eqn:E; cbn.
  - apply Qle_refl.
  - destruct (Qlt_le_dec x y) as [H|H]; [by apply Qlt_le_weak|].
    apply Qle_bool_iff in H. congruence.
Qed.

(** After a SACK that newly acknowledges some chunk, the timeout is the
    larger of [sRTT + 4 RTTVAR] and [base_rto_ms]: floored, not capped. *)
Lemma sack_rto_floor msg a t t' self s :
  send_engine.active_sends self !! SackMsg.bundle_id msg = Some s ->
  elements ((list_to_set (SackMsg.acked_chunks msg) : gset Z)
            ∖ SendState.acked_chunks s) <> [] ->
  exists s',
    send_engine.active_sends (send_engine.handle_sack msg a t t' self)
      !! SackMsg.bundle_id msg = Some s'
    /\ SendState.timeout_interval s'
       = pymax (SendState.smoothed_rtt s' + 4 * SendState.rtt_variance s')
               (inject_Z (config.base_rto_ms (send_engine.config self)))
    /\ (inject_Z (config.base_rto_ms (send_engine.config self))
        <= SendState.timeout_interval s')%Q
    /\ (SendState.smoothed_rtt s' + 4 * SendState.rtt_variance s'
        <= SendState.timeout_interval s')%Q.
Proof.
  intros Hs Hnew.
  destruct (handle_sack_same msg a t t' self s Hs)
    as (s' & H' & _ & _ & _ & _ & _ & Hto).
  exists s'. split; [exact H'|]. rewrite (Hto Hnew).
  split; [reflexivity|]. split; [apply pymax_ge_r | apply pymax_ge_l].
Qed.

(** C3 at the failing input.  Chunk 0 of bundle [b1] was sent once at
    time 0 and never retransmitted; the SACK acknowledging it arrives at
    time 2000 ms.  [_update_rtt_estimates] seeds sRTT = 2000 and
    RTTVAR = 1000, and [handle_sack] then leaves the timeout at
    sRTT + 4 RTTVAR = 6000 ms, above [max_rto_ms] = 1000, where the
    clamp gives 1000. *)
Theorem sack_rto_exceeds_max :
  (0 ∉ SendState.acked_chunks started_state)
  /\ (0 ∉ SendState.retransmitted_chunks started_state)
  /\ SendState.send_timestamps started_state !! 0 = Some 0%Q
  /\ exists s',
       send_engine.active_sends
         (send_engine.handle_sack sack_zero peer 2000 2000 sender_started)
         !! "b1" = Some s'
       /\ (SendState.smoothed_rtt s' == 2000)%Q
       /\ (SendState.rtt_variance s' == 1000)%Q
       /\ (SendState.timeout_interval s' == 6000)%Q
       /\ (inject_Z (config.max_rto_ms lab_transfer)
           < SendState.timeout_interval s')%Q
       /\ (clamp (SendState.smoothed_rtt s' + 4 * SendState.rtt_variance s')
                 (inject_Z (config.base_rto_ms lab_transfer))
                 (inject_Z (config.max_rto_ms lab_transfer)) == 1000)%Q.
Proof.
  split; [apply (bool_decide_unpack _); vm_compute; exact I|].
  split; [apply (bool_decide_unpack _); vm_compute; exact I|].
  split; [vm_compute; reflexivity|].
  eexists. split; [vm_compute; reflexivity|].
  cbn [SendState.smoothed_rtt SendState.rtt_variance SendState.timeout_interval].
  repeat split; try reflexivity.
Qed.

(** ** Chunking *)

Lemma ceil_div_eq a c : 0 < c -> ceil_div a c = (a + c - 1) / c.
Proof.
  intros Hc. unfold ceil_div.
  pose proof (Z.div_mod (- a) c ltac:(lia)) as H1.
  pose proof (Z.mod_pos_bound (- a) c Hc) as H2.
  apply Z.div_unique with (r := a + c - 1 - c * - (- a / c)); nia.
Qed.

(** [ceil_div a c] is the least [q] with [a <= q * c]. *)
Lemma ceil_div_spec a c :
  0 < c -> (ceil_div a c - 1) * c < a <= ceil_div a c * c.
Proof.
  intros Hc. unfold ceil_div.
  pose proof (Z.div_mod (- a) c ltac:(lia)) as H1.
  pose proof (Z.mod_pos_bound (- a) c Hc) as H2. nia.
Qed.

Lemma ceil_div_nonneg a c : 0 < c -> 0 <= a -> 0 <= ceil_div a c.
Proof. intros Hc Ha. pose proof (ceil_div_spec a c Hc). nia. Qed.

Lemma len_fmap {A B} (f : A -> B) (l : list A) : len (f <$> l) = len l.
Proof. unfold len. by rewrite length_fmap. Qed.

Lemma len_range n : 0 <= n -> len (range n) = n.
Proof. intros Hn. unfold len. rewrite range_length. lia. Qed.

(** Blocks of equal size laid end to end. *)
Lemma concat_blocks_length {A} (f : nat -> list A) (m count : nat) :
  (forall i, (i < count)%nat -> length (f i) = m) ->
  length (concat (f <$> seq 0 count)) = (count * m)%nat.
Proof.
  induction count as [|count IH]; intros Hf; [done|].
  rewrite seq_S, fmap_app, concat_app, length_app.
  replace (concat (f <$> [(0 + count)%nat])) with (f count)
    by (cbn; by rewrite app_nil_r).
  rewrite IH by (intros; apply Hf; lia). rewrite Hf by lia. lia.
Qed.

Lemma concat_blocks_lookup {A} (f : nat -> list A) (m count i j : nat) :
  (forall i, (i < count)%nat -> length (f i) = m) ->
  (i < count)%nat -> (j < m)%nat ->
  concat (f <$> seq 0 count) !! (i * m + j)%nat = f i !! j.
Proof.
  induction count as [|count IH]; intros Hf Hi Hj; [lia|].
  rewrite seq_S, fmap_app, concat_app.
  replace (concat (f <$> [(0 + count)%nat])) with (f count)
    by (cbn; by rewrite app_nil_r).
  assert (Hlen : length (concat (f <$> seq 0 count)) = (count * m)%nat)
    by (apply concat_blocks_length; intros; apply Hf; lia).
  destruct (decide (i = count)) as [->|Hne].
  - rewrite lookup_app_r by lia. f_equal. lia.
  - rewrite lookup_app_l by nia. apply IH; [intros; apply Hf; lia | lia | lia].
Qed.

Lemma slice_nonempty {A} (l : list A) lo hi :
  0 <= lo < len l -> lo < hi -> slice l lo hi <> [].
Proof.
  intros Hlo Hhi. unfold slice, slice_index.
  destruct (Z.ltb_spec lo 0); [lia|]. destruct (Z.ltb_spec hi 0); [lia|].
  intros E. apply (f_equal length) in E. revert E.
  rewrite length_take, length_drop. unfold len in *. cbn. lia.
Qed.

Lemma parity_block_full k r (data : list Chunk.t) id (i : Z) :
  0 < k -> 0 <= i -> i * k < len data ->
  send_engine.parity_block k r data id (i * k)
  = (fun j =>
       {| Chunk.bundle_id := id;
          Chunk.chunk_id := len data + i * r + j;
          Chunk.is_parity := true;
          Chunk.block_id := i;
          Chunk.k := k;
          Chunk.r := r;
          Chunk.payload :=
            send_engine._xor_chunks (slice data (i * k) (i * k + k));
          Chunk.checksum :=
            Z.land (zlib.crc32
                      (send_engine._xor_chunks (slice data (i * k) (i * k + k))))
                   0xFFFFFFFF;
          Chunk.flags := 0 |}) <$> range r.
Proof.
  intros Hk Hi Hlt. unfold send_engine.parity_block.
  rewrite Z.div_mul by lia.
  pose proof (slice_nonempty data (i * k) (i * k + k)) as Hne.
  destruct (slice data (i * k) (i * k + k)) eqn:E; [|done].
  exfalso. apply Hne; [nia | lia | done].
Qed.

Lemma generate_fec_blocks fec (data : list Chunk.t) id :
  0 < config.k fec -> 0 < config.r fec ->
  send_engine._generate_fec_chunks fec data id
  = concat ((fun i : nat =>
               send_engine.parity_block (config.k fec) (config.r fec) data id
                 (Z.of_nat i * config.k fec))
            <$> seq 0 (Z.to_nat (ceil_div (len data) (config.k fec)))).
Proof.
  intros Hk Hr. unfold send_engine._generate_fec_chunks.
  destruct (Z.leb_spec (config.k fec) 0); [lia|].
  destruct (Z.leb_spec (config.r fec) 0); [lia|]. cbn [orb].
  unfold range3. rewrite <- list_fmap_compose.
  rewrite ceil_div_eq by done. by rewrite Z.sub_0_r.
Qed.

Lemma block_start_in_range n k (i : nat) :
  0 < k -> (i < Z.to_nat (ceil_div n k))%nat -> Z.of_nat i * k < n.
Proof.
  intros Hk Hi. pose proof (ceil_div_spec n k Hk). nia.
Qed.

Lemma generate_fec_length fec (data : list Chunk.t) id :
  0 < config.k fec -> 0 < config.r fec ->
  len (send_engine._generate_fec_chunks fec data id)
  = config.r fec * ceil_div (len data) (config.k fec).
Proof.
  intros Hk Hr. rewrite generate_fec_blocks by done. unfold len at 1.
  rewrite (concat_blocks_length _ (Z.to_nat (config.r fec))).
  - pose proof (ceil_div_nonneg (len data) (config.k fec) Hk (len_nonneg _)).
    lia.
  - intros i Hi. rewrite parity_block_full;
      [| lia | lia | by apply block_start_in_range].
    by rewrite length_fmap, range_length.
Qed.

Lemma generate_fec_lookup fec (data : list Chunk.t) id blk j :
  0 < config.k fec ->
  0 <= blk < ceil_div (len data) (config.k fec) ->
  0 <= j < config.r fec ->
  exists c,
    send_engine._generate_fec_chunks fec data id
      !! Z.to_nat (blk * config.r fec + j) = Some c
    /\ Chunk.chunk_id c = len data + blk * config.r fec + j
    /\ Chunk.is_parity c = true
    /\ Chunk.block_id c = blk.
Proof.
  intros Hk Hblk Hj. rewrite generate_fec_blocks by lia.
  replace (Z.to_nat (blk * config.r fec + j))
    with (Z.to_nat blk * Z.to_nat (config.r fec) + Z.to_nat j)%nat by nia.
  rewrite (concat_blocks_lookup _ (Z.to_nat (config.r fec))).
  - rewrite parity_block_full;
      [| lia | lia | apply block_start_in_range; lia].
    rewrite list_lookup_fmap, range_lookup by lia. cbn.
    eexists. split; [reflexivity|]. cbn. rewrite !Z2Nat.id by lia.
    repeat split; lia.
  - intros i Hi. rewrite parity_block_full;
      [| lia | lia | by apply block_start_in_range].
    by rewrite length_fmap, range_length.
  - lia.
  - lia.
Qed.

(** What [_create_chunks] returns for a positive [chunk_size]. *)
Lemma create_chunks_layout cfg fec (file_data : bytes) id use_fec :
  1 <= config.chunk_size cfg ->
  let n := ceil_div (len file_data) (config.chunk_size cfg) in
  let fec_on :=
    use_fec && config.enabled fec && (0 <? config.k fec) && (0 <? config.r fec) in
  exists chunks,
    send_engine._create_chunks cfg fec file_data id use_fec = inr chunks
    /\ len chunks
       = (if fec_on then n + config.r fec * ceil_div n (config.k fec) else n)
    /\ (forall i, 0 <= i < n ->
        exists c, chunks !! Z.to_nat i = Some c
                  /\ Chunk.chunk_id c = i /\ Chunk.is_parity c = false)
    /\ (fec_on = true ->
        forall blk j, 0 <= blk < ceil_div n (config.k fec) ->
                      0 <= j < config.r fec ->
        exists c, chunks !! Z.to_nat (n + blk * config.r fec + j) = Some c
                  /\ Chunk.chunk_id c = n + blk * config.r fec + j
                  /\ Chunk.is_parity c = true
                  /\ Chunk.block_id c = blk).
Proof.
  intros Hcs n fec_on. unfold send_engine._create_chunks.
  destruct (Z.eqb_spec (config.chunk_size cfg) 0); [lia|].
  rewrite <- ceil_div_eq by lia. fold n. fold fec_on.
  assert (Hn : 0 <= n) by (apply ceil_div_nonneg; [lia | apply len_nonneg]).
  set (data := send_engine.data_chunk cfg fec file_data id use_fec <$> range n).
  assert (Hlen : len data = n) by (unfold data; by rewrite len_fmap, len_range).
  assert (Hdata : forall i, 0 <= i < n ->
            exists c, data !! Z.to_nat i = Some c
                      /\ Chunk.chunk_id c = i /\ Chunk.is_parity c = false).
  { intros i Hi. unfold data. rewrite list_lookup_fmap, range_lookup by lia.
    eexists. split; [reflexivity|]. cbn. split; [lia | done]. }
  destruct fec_on eqn:Hon.
  - apply andb_prop in Hon as [Hon Hr]. apply andb_prop in Hon as [_ Hk].
    apply Z.ltb_lt in Hr, Hk.
    eexists. split; [reflexivity|]. split; [|split].
    + rewrite len_app, generate_fec_length, Hlen by done. done.
    + intros i Hi. destruct (Hdata i Hi) as (c & Hc & ?).
      exists c. split; [|done]. apply lookup_app_l_Some. exact Hc.
    + intros _ blk j Hblk Hj.
      destruct (generate_fec_lookup fec data id blk j Hk) as (c & Hc & ?);
        [by rewrite Hlen | done |].
      exists c. rewrite Hlen in *. split; [|done].
      rewrite lookup_app_r by (unfold len in Hlen; lia).
      rewrite <- Hc. f_equal. unfold len in Hlen. lia.
  - eexists. split; [reflexivity|]. split; [exact Hlen|].
    split; [exact Hdata | discriminate].
Qed.

(** ** What [send_file] persists *)

Lemma save_chunk_loop_journal (chunks : list Chunk.t) (db : storage.t) :
  storage.journal (fold_left (fun db c => storage.save_chunk c db) chunks db)
  = storage.journal db ++ (chunk_commit <$> chunks).
Proof.
  revert db. induction chunks as [|c chunks IH]; intros db; cbn [fold_left].
  - by rewrite app_nil_r.
  - rewrite IH. cbn. by rewrite <- app_assoc.
Qed.

Lemma chunk_commits_rows (chunks : list Chunk.t) :
  omap (fun s => match s with storage.PutChunk c => Some c | _ => None end)
       (concat (chunk_commit <$> chunks)) = chunks.
Proof. induction chunks as [|c chunks IH]; [done|]. cbn. by rewrite IH. Qed.

Lemma chunk_commits_bundles (chunks : list Chunk.t) (t : storage.tables) :
  storage.bundles
    (fold_left (fun t txn => fold_left storage.exec txn t)
               (chunk_commit <$> chunks) t)
  = storage.bundles t.
Proof.
  revert t. induction chunks as [|c chunks IH]; intros t; [done|].
  cbn [fmap list_fmap fold_left]. by rewrite IH.
Qed.

Lemma create_chunks_total cfg fec (file_data : bytes) id fec_enabled :
  config.chunk_size cfg <> 0 ->
  exists chunks,
    send_engine._create_chunks cfg fec file_data id fec_enabled = inr chunks.
Proof.
  intros Hcs. unfold send_engine._create_chunks.
  destruct (Z.eqb_spec (config.chunk_size cfg) 0); [done|].
  destruct (_ && _); eauto.
Qed.

(** The state [send_file] leaves behind, given the chunks it created. *)
Lemma send_file_result fs path dest a fec_enabled id t self
    (file_data : bytes) chunks :
  fs !! path = Some file_data ->
  send_engine._create_chunks (send_engine.config self)
    (send_engine.fec_config self) file_data id
    (use_fec fec_enabled (send_engine.fec_config self)) = inr chunks ->
  exists self' row s',
    send_engine.send_file fs path dest a fec_enabled id t self = inr (id, self')
    /\ storage.journal (send_engine.storage self')
       = storage.journal (send_engine.storage self)
         ++ [storage.PutBundle row] :: (chunk_commit <$> chunks)
    /\ Bundle.bundle_id row = id
    /\ Bundle.total_chunks row = len chunks
    /\ Bundle.state row = "sending"%string
    /\ send_engine.active_sends self' !! id = Some s'
    /\ SendState.total_chunks s' = len chunks.
Proof.
  intros Hfile Hchunks. unfold send_engine.send_file. rewrite Hfile.
  fold (use_fec fec_enabled (send_engine.fec_config self)). rewrite Hchunks.
  match goal with
  | |- context [send_engine._send_window id a t ?e] => set (self1 := e)
  end.
  assert (H1 : exists s1, send_engine.active_sends self1 !! id = Some s1
                          /\ SendState.total_chunks s1 = len chunks).
  { eexists. split; [apply lookup_insert_eq | reflexivity]. }
  destruct H1 as (s1 & H1 & Ht1).
  destruct (_send_window_same id a t self1 s1 H1)
    as (s' & H' & (_ & _ & _ & _ & Ht & _) & _).
  eexists _, _, s'. split; [reflexivity|].
  rewrite _send_window_storage. subst self1. cbn [send_engine.storage
    send_engine.set_state send_engine.set_storage send_engine.set_cache].
  rewrite save_chunk_loop_journal. cbn [storage.save_bundle storage.commit
    storage.journal]. rewrite <- app_assoc. cbn [app].
  split; [reflexivity|]. cbn [Bundle.bundle_id Bundle.total_chunks Bundle.state].
  repeat split; try done. congruence.
Qed.

Lemma fec_on_use_fec fec_enabled fec :
  use_fec fec_enabled fec && config.enabled fec
  && (0 <? config.k fec) && (0 <? config.r fec)
  = fec_on fec_enabled fec.
Proof.
  unfold use_fec, fec_on. destruct fec_enabled as [[]|]; [|done|done].
  by destruct (config.enabled fec).
Qed.

(** C5. For a file of [S] octets and [chunk_size >= 1], [send_file]
    records [total_chunks = ceil(S / chunk_size) + r * ceil(ceil(S /
    chunk_size) / k)] when FEC is on and [ceil(S / chunk_size)] otherwise,
    in the send state and in the bundle row alike; the chunks it persists
    are that many, the data chunk [i] has id [i], and the parity chunk [j]
    of block [blk] has id [num_data_chunks + blk * r + j]. *)
Theorem send_file_chunk_count (fs : gmap string bytes) (path dest : string)
    (a : addr) (fec_enabled : option bool) (id : string) (t : Q)
    (self : send_engine.SendEngine) (file_data : bytes)
    (Hfile : fs !! path = Some file_data)
    (Hsize : 1 <= config.chunk_size (send_engine.config self)) :
  let fec := send_engine.fec_config self in
  let n := ceil_div (len file_data) (config.chunk_size (send_engine.config self)) in
  let total :=
    if fec_on fec_enabled fec
    then n + config.r fec * ceil_div n (config.k fec) else n in
  exists self' s' row chunks,
    send_engine.send_file fs path dest a fec_enabled id t self = inr (id, self')
    /\ send_engine.active_sends self' !! id = Some s'
    /\ SendState.total_chunks s' = total
    /\ storage.load_bundle id (send_engine.storage self') = Some row
    /\ Bundle.total_chunks row = total
    /\ storage.chunk_rows (send_engine.storage self')
       = storage.chunk_rows (send_engine.storage self) ++ chunks
    /\ len chunks = total
    /\ (forall i, 0 <= i < n ->
        exists c, chunks !! Z.to_nat i = Some c
                  /\ Chunk.chunk_id c = i /\ Chunk.is_parity c = false)
    /\ (fec_on fec_enabled fec = true ->
        forall blk j, 0 <= blk < ceil_div n (config.k fec) ->
                      0 <= j < config.r fec ->
        exists c, chunks !! Z.to_nat (n + blk * config.r fec + j) = Some c
                  /\ Chunk.chunk_id c = n + blk * config.r fec + j
                  /\ Chunk.is_parity c = true
                  /\ Chunk.block_id c = blk).
Proof.
  intros fec n total.
  destruct (create_chunks_layout (send_engine.config self) fec file_data id
              (use_fec fec_enabled fec) Hsize)
    as (chunks & Hchunks & Hlen & Hdata & Hparity).
  rewrite fec_on_use_fec in Hlen, Hparity. fold n in Hlen, Hdata, Hparity.
  fold total in Hlen.
  destruct (send_file_result fs path dest a fec_enabled id t self file_data
              chunks Hfile Hchunks)
    as (self' & row & s' & Hsend & Hj & Hid & Hrow & _ & Hs' & Ht').
  exists self', s', row, chunks.
  split; [exact Hsend|]. split; [exact Hs'|]. split; [congruence|].
  split; [|split; [congruence|]]; [|split; [|done]].
  - unfold storage.load_bundle, storage.view. rewrite Hj, replay_app.
    cbn [fold_left]. rewrite chunk_commits_bundles. cbn.
    rewrite <- Hid. apply lookup_insert_eq.
  - unfold storage.chunk_rows. rewrite Hj, concat_app, omap_app.
    f_equal. cbn [concat]. cbn. apply chunk_commits_rows.
Qed.

Lemma send_file_chunk_count_witness :
  let self := fec_sender_idle in
  let fec := send_engine.fec_config self in
  let n := ceil_div (len (b "AAAABB"))
                    (config.chunk_size (send_engine.config self)) in
  let total :=
    if fec_on (Some true) fec
    then n + config.r fec * ceil_div n (config.k fec) else n in
  exists self' s' row chunks,
    send_engine.send_file fec_files "short.bin" "nodeB" peer (Some true)
                          "b2" 0 self = inr ("b2"%string, self')
    /\ send_engine.active_sends self' !! "b2" = Some s'
    /\ SendState.total_chunks s' = total
    /\ storage.load_bundle "b2" (send_engine.storage self') = Some row
    /\ Bundle.total_chunks row = total
    /\ storage.chunk_rows (send_engine.storage self')
       = storage.chunk_rows (send_engine.storage self) ++ chunks
    /\ len chunks = total
    /\ (forall i, 0 <= i < n ->
        exists c, chunks !! Z.to_nat i = Some c
                  /\ Chunk.chunk_id c = i /\ Chunk.is_parity c = false)
    /\ (fec_on (Some true) fec = true ->
        forall blk j, 0 <= blk < ceil_div n (config.k fec) ->
                      0 <= j < config.r fec ->
        exists c, chunks !! Z.to_nat (n + blk * config.r fec + j) = Some c
                  /\ Chunk.chunk_id c = n + blk * config.r fec + j
                  /\ Chunk.is_parity c = true
                  /\ Chunk.block_id c = blk).
Proof.
  apply (send_file_chunk_count fec_files "short.bin" "nodeB" peer (Some true)
           "b2" 0 fec_sender_idle (b "AAAABB")).
  - vm_compute. reflexivity.
  - vm_compute. discriminate.
Defined.

(** The two ceilings of the example: 6 octets in chunks of 4 make 2 data
    chunks, and with one parity per block of 2 the total is 3. *)
Example chunk_count_example :
  SendState.total_chunks <$> send_engine.active_sends fec_sender !! "b2"
  = Some 3.
Proof. vm_compute. reflexivity. Qed.

(** C4, as stated, fails: [send_file] commits once per chunk.  For the
    8-octet file the journal holds the bundle commit and then one commit
    for each of the two chunks; a process that stops after the second
    commit leaves chunk 0 durable and chunk 1 not: neither all nor none. *)
Lemma send_file_not_atomic :
  exists c0 c1 row,
    storage.journal (send_engine.storage sender_started)
    = [[storage.PutBundle row]; [storage.PutChunk c0]; [storage.PutChunk c1]]
    /\ storage.chunk_rows (send_engine.storage sender_started) = [c0; c1]
    /\ storage.chunk_rows
         (storage.durable_after 2 (send_engine.storage sender_started)) = [c0]
    /\ [c0] <> [] /\ [c0] <> [c0; c1].
Proof.
  eexists _, _, _. split; [vm_compute; reflexivity|].
  split; [reflexivity|]. split; [reflexivity|]. split; discriminate.
Qed.

(** C4, amended. [send_file] persists the chunks of a bundle with one
    [save_chunk] per chunk, in chunk order after the bundle row: each chunk
    row is its own atomic commit.  At whatever commit the process stops,
    the durable chunk rows of the bundle are a prefix of its chunks. *)
Theorem send_file_commits_per_chunk (fs : gmap string bytes)
    (path dest : string) (a : addr) (fec_enabled : option bool) (id : string)
    (t : Q) (self : send_engine.SendEngine) (file_data : bytes)
    (Hfile : fs !! path = Some file_data)
    (Hsize : config.chunk_size (send_engine.config self) <> 0) :
  exists self' row chunks,
    send_engine.send_file fs path dest a fec_enabled id t self = inr (id, self')
    /\ send_engine._create_chunks (send_engine.config self)
         (send_engine.fec_config self) file_data id
         (use_fec fec_enabled (send_engine.fec_config self)) = inr chunks
    /\ storage.journal (send_engine.storage self')
       = storage.journal (send_engine.storage self)
         ++ [storage.PutBundle row] :: (chunk_commit <$> chunks)
    /\ forall j : nat,
         storage.chunk_rows
           (storage.durable_after
              (length (storage.journal (send_engine.storage self)) + 1 + j)
              (send_engine.storage self'))
         = storage.chunk_rows (send_engine.storage self) ++ take j chunks.
Proof.
  destruct (create_chunks_total (send_engine.config self)
              (send_engine.fec_config self) file_data id
              (use_fec fec_enabled (send_engine.fec_config self)) Hsize)
    as (chunks & Hchunks).
  destruct (send_file_result fs path dest a fec_enabled id t self file_data
              chunks Hfile Hchunks)
    as (self' & row & s' & Hsend & Hj & _).
  exists self', row, chunks. split; [exact Hsend|]. split; [exact Hchunks|].
  split; [exact Hj|]. intros j.
  unfold storage.chunk_rows, storage.durable_after. cbn [storage.journal].
  rewrite Hj. rewrite take_app_ge by lia.
  replace (length (storage.journal (send_engine.storage self)) + 1 + j
           - length (storage.journal (send_engine.storage self)))%nat
    with (S j) by lia.
  cbn [take]. rewrite concat_app, omap_app. f_equal.
  cbn [concat app omap]. rewrite <- fmap_take. apply chunk_commits_rows.
Qed.

Lemma send_file_commits_per_chunk_witness :
  exists self' row chunks,
    send_engine.send_file lab_files "timeout.bin" "nodeB" peer (Some false)
                          "b1" 0 sender_idle = inr ("b1"%string, self')
    /\ send_engine._create_chunks (send_engine.config sender_idle)
         (send_engine.fec_config sender_idle) (b "ABCDEFGH") "b1"
         (use_fec (Some false) (send_engine.fec_config sender_idle))
       = inr chunks
    /\ storage.journal (send_engine.storage self')
       = storage.journal (send_engine.storage sender_idle)
         ++ [storage.PutBundle row] :: (chunk_commit <$> chunks)
    /\ forall j : nat,
         storage.chunk_rows
           (storage.durable_after
              (length (storage.journal (send_engine.storage sender_idle)) + 1 + j)
              (send_engine.storage self'))
         = storage.chunk_rows (send_engine.storage sender_idle) ++ take j chunks.
Proof.
  apply (send_file_commits_per_chunk lab_files "timeout.bin" "nodeB" peer
           (Some false) "b1" 0 sender_idle (b "ABCDEFGH")).
  - vm_compute. reflexivity.
  - vm_compute. discriminate.
Defined.

(** ** The receiver and the declared checksum *)

Lemma only_acks_refl w : only_acks w w.
Proof. exists []. by rewrite app_nil_r. Qed.

Lemma only_acks_trans w1 w2 w3 :
  only_acks w1 w2 -> only_acks w2 w3 -> only_acks w1 w3.
Proof.
  intros (n1 & H1 & F1) (n2 & H2 & F2). exists (n1 ++ n2).
  split; [by rewrite H2, H1, app_assoc | by apply Forall_app].
Qed.

Lemma send_only_ack m a w : is_ack m -> only_acks w (receive_engine.send m a w).
Proof.
  intros Hm. exists [(m, a)]. split; [done|]. by apply Forall_singleton.
Qed.

Lemma with_db_only_acks x w : only_acks w (receive_engine.with_db x w).
Proof. exists []. by rewrite app_nil_r. Qed.

Lemma make_sack_is_ack id l : is_ack (protocol.make_sack_msg id l).
Proof.
  unfold protocol.make_sack_msg. by destruct (protocol._compute_sack_window l).
Qed.

Lemma _send_sack_only_acks id state a w :
  only_acks w (receive_engine._send_sack id state a w).
Proof. apply send_only_ack, make_sack_is_ack. Qed.

Lemma _try_fec_reconstruct_keeps state block_id w :
  let '(state', w') := receive_engine._try_fec_reconstruct state block_id w in
  ReceiveState.received_chunks state ⊆ ReceiveState.received_chunks state'
  /\ (forall cid p, ReceiveState.data_chunks state !! cid = Some p ->
                    ReceiveState.data_chunks state' !! cid = Some p)
  /\ ReceiveState.parity_chunks state' = ReceiveState.parity_chunks state
  /\ only_acks w w'.
Proof.
  unfold receive_engine._try_fec_reconstruct.
  assert (Hsame : ReceiveState.received_chunks state
                  ⊆ ReceiveState.received_chunks state
            /\ (forall cid p, ReceiveState.data_chunks state !! cid = Some p ->
                              ReceiveState.data_chunks state !! cid = Some p)
            /\ ReceiveState.parity_chunks state = ReceiveState.parity_chunks state
            /\ only_acks w w)
    by (repeat split; [done..| apply only_acks_refl]).
  destruct (_ || _); [exact Hsame|].
  destruct (ReceiveState.parity_chunks state !! block_id) as [parities|];
    [|exact Hsame].
  set (missing_ids := filter _ _).
  assert (Hmiss : forall cid, cid ∈ missing_ids ->
            ReceiveState.data_chunks state !! cid = None).
  { intros cid Hcid. apply list_elem_of_filter in Hcid as [Hcid _].
    by apply eq_None_not_Some. }
  destruct missing_ids as [|missing_id [|? ?]]; [exact Hsame| |exact Hsame].
  destruct parities as [|parity_payload ?]; [exact Hsame|].
  cbn. split; [apply union_subseteq_l|]. split; [|split; [done|]].
  - intros cid p Hp. rewrite lookup_insert_ne; [done|].
    intros ->. rewrite Hmiss in Hp; [done | apply list_elem_of_here].
  - apply with_db_only_acks.
Qed.

Lemma _maybe_deliver_keeps state a w :
  let '(state', w') := receive_engine._maybe_deliver state a w in
  ReceiveState.received_chunks state' = ReceiveState.received_chunks state
  /\ ReceiveState.data_chunks state' = ReceiveState.data_chunks state
  /\ ReceiveState.parity_chunks state' = ReceiveState.parity_chunks state
  /\ only_acks w w'.
Proof.
  unfold receive_engine._maybe_deliver.
  assert (Hsame : ReceiveState.received_chunks state
                  = ReceiveState.received_chunks state
            /\ ReceiveState.data_chunks state = ReceiveState.data_chunks state
            /\ ReceiveState.parity_chunks state = ReceiveState.parity_chunks state
            /\ only_acks w w)
    by (repeat split; apply only_acks_refl).
  destruct (ReceiveState.delivered state); [exact Hsame|].
  destruct (filter _ _); [|exact Hsame].
  destruct (Disk.write _ _ _) as [fs'|]; [|exact Hsame].
  cbn -[secrets.take_bits]. repeat split.
  exists [(protocol.make_delivered_msg (ReceiveState.bundle_id state), a);
          (CUSTODY_ACK
             {| CustodyAckMsg.bundle_id := ReceiveState.bundle_id state;
                CustodyAckMsg.ranges := [];
                CustodyAckMsg.ack_nonce :=
                  secrets.take_bits (secrets.bits (receive_engine.rnd w))
                                    (secrets.pos (receive_engine.rnd w)) 64 |},
           a)].
  split; [|by repeat constructor].
  unfold receive_engine.send, Net.send. cbn -[secrets.take_bits].
  by rewrite <- app_assoc.
Qed.

(** A chunk that is not a duplicate is stored without a look at its
    checksum. *)
Lemma accept_chunk_stores msg a state w :
  let '(state', w') := receive_engine.accept_chunk msg a state w in
  DataMsg.chunk_id msg ∈ ReceiveState.received_chunks state'
  /\ holds_payload state' (DataMsg.chunk_id msg) (DataMsg.block_id msg)
                   (DataMsg.payload msg)
  /\ only_acks w w'.
Proof.
  unfold receive_engine.accept_chunk.
  set (s1 := ReceiveState.set_received_chunks _ state).
  set (s2 := if _ && _ && _ then _ else _).
  assert (H2 : DataMsg.chunk_id msg ∈ ReceiveState.received_chunks s2
               /\ holds_payload s2 (DataMsg.chunk_id msg) (DataMsg.block_id msg)
                                (DataMsg.payload msg)).
  { subst s2. destruct (_ && _ && _); [destruct (_ <? _)|]; cbn.
    - split; [set_solver|]. left. apply lookup_insert_eq.
    - split; [set_solver|]. right. eexists. split; [apply lookup_insert_eq|].
      apply elem_of_app. right. apply list_elem_of_here.
    - split; [set_solver|]. left. apply lookup_insert_eq. }
  destruct H2 as [Hin Hhold].
  set (s3 := ReceiveState.set_write_buffer _ s2).
  assert (H34 : exists s4 w4,
            (if ReceiveState.fec_enabled s3
             then receive_engine._try_fec_reconstruct s3 (DataMsg.block_id msg) w
             else (s3, w)) = (s4, w4)
            /\ DataMsg.chunk_id msg ∈ ReceiveState.received_chunks s4
            /\ holds_payload s4 (DataMsg.chunk_id msg) (DataMsg.block_id msg)
                             (DataMsg.payload msg)
            /\ only_acks w w4).
  { destruct (ReceiveState.fec_enabled s3).
    - pose proof (_try_fec_reconstruct_keeps s3 (DataMsg.block_id msg) w) as H.
      destruct (receive_engine._try_fec_reconstruct s3 (DataMsg.block_id msg) w)
        as [s4 w4].
      destruct H as (Hr & Hd & Hp & Hw). exists s4, w4. split; [done|].
      split; [by apply Hr|]. split; [|done].
      destruct Hhold as [Hd'|(l & Hl & Hl')]; [left; by apply Hd|].
      right. exists l. by rewrite Hp.
    - exists s3, w. repeat split; try done. apply only_acks_refl. }
  destruct H34 as (s4 & w4 & -> & Hin4 & Hhold4 & Hw4).
  set (complete := bool_decide _).
  set (flushed := if _ || complete then _ else _).
  assert (H5 : exists s5 w5, flushed = (s5, w5)
            /\ ReceiveState.received_chunks s5 = ReceiveState.received_chunks s4
            /\ ReceiveState.data_chunks s5 = ReceiveState.data_chunks s4
            /\ ReceiveState.parity_chunks s5 = ReceiveState.parity_chunks s4
            /\ only_acks w4 w5).
  { subst flushed. destruct (_ || complete); eexists _, _;
      (split; [reflexivity|]); repeat split;
      [apply with_db_only_acks | apply only_acks_refl]. }
  destruct H5 as (s5 & w5 & -> & Hr5 & Hd5 & Hp5 & Hw5).
  set (w6 := if _ || _ || complete then _ else w5).
  assert (Hw6 : only_acks w5 w6).
  { subst w6. destruct (_ || _ || complete);
      [apply _send_sack_only_acks | apply only_acks_refl]. }
  pose proof (_maybe_deliver_keeps s5 a w6) as H7.
  destruct (receive_engine._maybe_deliver s5 a w6) as [s7 w7].
  destruct H7 as (Hr7 & Hd7 & Hp7 & Hw7).
  split; [by rewrite Hr7, Hr5|]. split.
  - unfold holds_payload in *. by rewrite Hd7, Hp7, Hd5, Hp5.
  - eauto using only_acks_trans.
Qed.

Lemma _create_receive_state_fresh self id total k r a w :
  let '(state, w') :=
    receive_engine._create_receive_state self id total k r a w in
  ReceiveState.received_chunks state = ∅ /\ only_acks w w'.
Proof.
  unfold receive_engine._create_receive_state.
  repeat case_match; simplify_eq;
    (split; [reflexivity | apply with_db_only_acks]).
Qed.

(** C1, as stated, fails: the receiver holds chunk 0 of bundle [b3]; a
    DATA message for chunk 1 declares the checksum 0 while the CRC-32 of
    its payload is another number, and still the chunk id joins the
    received set and the payload is stored. *)
Lemma mismatched_chunk_is_stored :
  DataMsg.checksum bad_chunk
  <> Z.land (zlib.crc32 (DataMsg.payload bad_chunk)) 0xFFFFFFFF
  /\ (ReceiveState.received_chunks
        <$> receive_engine.active_receives plain_receiver !! "b3")
     = Some {[0]}
  /\ (ReceiveState.received_chunks
        <$> receive_engine.active_receives
              (receive_engine.handle_data bad_chunk peer plain_receiver) !! "b3")
     = Some {[0; 1]}
  /\ (ReceiveState.data_chunks
        <$> receive_engine.active_receives
              (receive_engine.handle_data bad_chunk peer plain_receiver) !! "b3")
     = Some {[0 := b "good"; 1 := b "evil"]}.
Proof.
  split; [vm_compute; discriminate|].
  repeat split; vm_compute; reflexivity.
Qed.

(** C1, amended. The Receive Engine neither computes nor compares a
    CRC-32: whatever checksum an inbound DATA message declares, if its
    chunk id is not yet in the received set then the chunk id is added to
    the received set and the payload is stored (as a data chunk, or among
    the parity payloads of its block).  What the engine hands to the
    network while doing so are acknowledgements only (SACK, DELIVERED,
    CUSTODY_ACK): there is no negative ack. *)
Theorem handle_data_accepts_unchecked (msg : DataMsg.t) (declared : Z)
    (a : addr) (self : receive_engine.ReceiveEngine)
    (Hnew : forall state,
        receive_engine.active_receives self !! DataMsg.bundle_id msg = Some state ->
        DataMsg.chunk_id msg ∉ ReceiveState.received_chunks state) :
  let self' := receive_engine.handle_data (with_checksum declared msg) a self in
  exists state',
    receive_engine.active_receives self' !! DataMsg.bundle_id msg = Some state'
    /\ DataMsg.chunk_id msg ∈ ReceiveState.received_chunks state'
    /\ holds_payload state' (DataMsg.chunk_id msg) (DataMsg.block_id msg)
                     (DataMsg.payload msg)
    /\ only_acks (receive_engine.env_of self) (receive_engine.env_of self').
Proof.
  cbv zeta. unfold receive_engine.handle_data.
  change (DataMsg.bundle_id (with_checksum declared msg))
    with (DataMsg.bundle_id msg).
  change (DataMsg.chunk_id (with_checksum declared msg))
    with (DataMsg.chunk_id msg).
  assert (Hstart : exists state w,
    match receive_engine.active_receives self !! DataMsg.bundle_id msg with
    | Some state => (state, receive_engine.env_of self)
    | None =>
        receive_engine._create_receive_state self (DataMsg.bundle_id msg)
          (DataMsg.total_chunks (with_checksum declared msg))
          (DataMsg.k (with_checksum declared msg))
          (DataMsg.r (with_checksum declared msg)) a
          (receive_engine.env_of self)
    end = (state, w)
    /\ (DataMsg.chunk_id msg ∉ ReceiveState.received_chunks state)
    /\ only_acks (receive_engine.env_of self) w).
  { destruct (receive_engine.active_receives self !! DataMsg.bundle_id msg)
      as [state|] eqn:E.
    - exists state, (receive_engine.env_of self).
      split; [done|]. split; [by apply Hnew | apply only_acks_refl].
    - pose proof (_create_receive_state_fresh self (DataMsg.bundle_id msg)
        (DataMsg.total_chunks (with_checksum declared msg))
        (DataMsg.k (with_checksum declared msg))
        (DataMsg.r (with_checksum declared msg)) a
        (receive_engine.env_of self)) as H.
      destruct (receive_engine._create_receive_state _ _ _ _ _ _ _)
        as [state w].
      destruct H as [Hempty Hw]. exists state, w. split; [done|].
      split; [|done]. rewrite Hempty. apply not_elem_of_empty. }
  destruct Hstart as (state & w & -> & Hfresh & Hw).
  destruct (decide _) as [Hdup|_]; [done|].
  pose proof (accept_chunk_stores (with_checksum declared msg) a state w) as H.
  destruct (receive_engine.accept_chunk (with_checksum declared msg) a state w)
    as [state' w'].
  destruct H as (Hin & Hhold & Hw').
  exists state'. split; [apply lookup_insert_eq|]. split; [exact Hin|].
  split; [exact Hhold|].
  destruct (only_acks_trans _ _ _ Hw Hw') as (new & Hnew' & Hacks).
  exists new. split; [exact Hnew' | exact Hacks].
Qed.

Lemma handle_data_accepts_unchecked_witness :
  exists state',
    receive_engine.active_receives
      (receive_engine.handle_data (with_checksum 0 bad_chunk) peer plain_receiver)
      !! DataMsg.bundle_id bad_chunk = Some state'
    /\ DataMsg.chunk_id bad_chunk ∈ ReceiveState.received_chunks state'
    /\ holds_payload state' (DataMsg.chunk_id bad_chunk)
                     (DataMsg.block_id bad_chunk) (DataMsg.payload bad_chunk)
    /\ only_acks (receive_engine.env_of plain_receiver)
                 (receive_engine.env_of
                    (receive_engine.handle_data (with_checksum 0 bad_chunk)
                                                peer plain_receiver)).
Proof.
  apply (handle_data_accepts_unchecked bad_chunk 0 peer plain_receiver).
  intros state Hstate. apply (bool_decide_unpack _).
  vm_compute in Hstate. injection Hstate as <-. vm_compute. exact I.
Defined.

(** *** The algebra of the stripe *)

Lemma byte_val_range x : 0 <= byte_val x < 256.
Proof.
  unfold byte_val. pose proof (Byte.to_N_bounded x) as H. lia.
Qed.

Lemma byte_of_val x : byte_of (byte_val x) = x.
Proof.
  unfold byte_of. pose proof (byte_val_range x).
  rewrite Z.mod_small by done. unfold byte_val.
  by rewrite N2Z.id, Byte.of_to_N.
Qed.

Lemma byte_val_of z : 0 <= z < 256 -> byte_val (byte_of z) = z.
Proof.
  intros Hz. unfold byte_of, byte_val. rewrite Z.mod_small by done.
  destruct (Byte.of_N (Z.to_N z)) as [x|] eqn:E.
  - apply Byte.to_of_N in E. rewrite E. lia.
  - apply Byte.of_N_None_iff in E. lia.
Qed.

Lemma byte_val_inj x y : byte_val x = byte_val y -> x = y.
Proof. intros H. by rewrite <- (byte_of_val x), <- (byte_of_val y), H. Qed.

Lemma lxor_byte_range u v : 0 <= u < 256 -> 0 <= v < 256 -> 0 <= Z.lxor u v < 256.
Proof.
  intros Hu Hv. split; [apply Z.lxor_nonneg; lia|].
  destruct (decide (Z.lxor u v = 0)) as [->|Hne]; [lia|].
  assert (0 < Z.lxor u v) by (pose proof (Z.lxor_nonneg u v); lia).
  apply (Z.log2_lt_pow2 _ 8); [done|].
  pose proof (Z.log2_lxor u v ltac:(lia) ltac:(lia)).
  assert (Z.log2 u < 8).
  { destruct (decide (u = 0)) as [->|]; [done|]. apply Z.log2_lt_pow2; lia. }
  assert (Z.log2 v < 8).
  { destruct (decide (v = 0)) as [->|]; [done|]. apply Z.log2_lt_pow2; lia. }
  lia.
Qed.

Lemma byte_val_xor x y : byte_val (byte_xor x y) = Z.lxor (byte_val x) (byte_val y).
Proof.
  unfold byte_xor. apply byte_val_of, lxor_byte_range; apply byte_val_range.
Qed.

Lemma byte_xor_zero_r x : byte_xor x x00 = x.
Proof.
  apply byte_val_inj. rewrite byte_val_xor.
  change (byte_val x00) with 0. apply Z.lxor_0_r.
Qed.

Lemma byte_xor_zero_l x : byte_xor x00 x = x.
Proof.
  apply byte_val_inj. rewrite byte_val_xor.
  change (byte_val x00) with 0. apply Z.lxor_0_l.
Qed.

Lemma byte_xor_assoc x y z : byte_xor (byte_xor x y) z = byte_xor x (byte_xor y z).
Proof. apply byte_val_inj. rewrite !byte_val_xor. apply Z.lxor_assoc. Qed.

Lemma byte_xor_comm x y : byte_xor x y = byte_xor y x.
Proof. apply byte_val_inj. rewrite !byte_val_xor. apply Z.lxor_comm. Qed.

Lemma byte_xor_cancel x : byte_xor x x = x00.
Proof.
  apply byte_val_inj. rewrite byte_val_xor.
  change (byte_val x00) with 0. apply Z.lxor_nilpotent.
Qed.

Lemma xor_into_length p q :
  length (xor_into p q) = Nat.max (length p) (length q).
Proof.
  revert q. induction p as [|x p IH]; intros [|y q]; cbn; try done.
  by rewrite IH.
Qed.

Lemma xor_into_nth p q i :
  nth i (xor_into p q) x00 = byte_xor (nth i p x00) (nth i q x00).
Proof.
  revert q i. induction p as [|x p IH]; intros [|y q] [|i]; cbn;
    rewrite ?byte_xor_zero_l, ?byte_xor_zero_r; try done;
    try apply IH.
Qed.

Lemma xor_fold_length l base :
  length (fold_left xor_into l base) = Nat.max (length base) (longest l).
Proof.
  revert base. induction l as [|p l IH]; intros base; cbn.
  - lia.
  - rewrite IH, xor_into_length. unfold longest. cbn. lia.
Qed.

Lemma xor_fold_nth l base i :
  nth i (fold_left xor_into l base) x00
  = fold_left byte_xor ((fun p => nth i p x00) <$> l) (nth i base x00).
Proof.
  revert base. induction l as [|p l IH]; intros base; cbn; [done|].
  by rewrite IH, xor_into_nth.
Qed.

Lemma byte_fold_shift l a :
  fold_left byte_xor l a = byte_xor a (fold_left byte_xor l x00).
Proof.
  revert a. induction l as [|x l IH]; intros a; cbn.
  - by rewrite byte_xor_zero_r.
  - rewrite (IH (byte_xor a x)), (IH (byte_xor x00 x)).
    by rewrite byte_xor_zero_l, byte_xor_assoc.
Qed.

Lemma byte_fold_app l1 l2 :
  fold_left byte_xor (l1 ++ l2) x00
  = byte_xor (fold_left byte_xor l1 x00) (fold_left byte_xor l2 x00).
Proof. rewrite fold_left_app. apply byte_fold_shift. Qed.

Lemma byte_xor_recover p x q :
  byte_xor (byte_xor p (byte_xor x q)) (byte_xor p q) = x.
Proof.
  rewrite (byte_xor_comm x q), <- (byte_xor_assoc p q x).
  rewrite (byte_xor_comm (byte_xor (byte_xor p q) x)).
  by rewrite <- byte_xor_assoc, byte_xor_cancel, byte_xor_zero_l.
Qed.

Lemma longest_cons p l : longest (p :: l) = Nat.max (length p) (longest l).
Proof. reflexivity. Qed.

Lemma longest_app l1 l2 : longest (l1 ++ l2) = Nat.max (longest l1) (longest l2).
Proof.
  unfold longest. induction l1 as [|p l1 IH]; cbn; [done|].
  rewrite IH. lia.
Qed.

Lemma nth_padding (n j : nat) : nth j (replicate n x00) x00 = x00.
Proof. revert j. induction n as [|n IH]; intros [|j]; cbn; try done. Qed.

(** [_xor_chunks] is the stripe of the payloads. *)
Lemma _xor_chunks_stripe chunks :
  send_engine._xor_chunks chunks = stripe (Chunk.payload <$> chunks).
Proof.
  unfold send_engine._xor_chunks, stripe. destruct chunks as [|c rest]; [done|].
  cbn. generalize (Chunk.payload c). induction rest as [|d rest IH]; [done|].
  intros base. cbn. apply IH.
Qed.

(** What the receiver computes for the one missing chunk of a block: the
    missing payload [x] padded with NUL octets to the length of the longest
    payload of the block. *)
Lemma xor_reconstruction (pre post : list bytes) (x : bytes) :
  receive_engine._xor_bytes (stripe (pre ++ x :: post)) (pre ++ post)
  = x ++ replicate (longest (pre ++ x :: post) - length x) x00.
Proof.
  unfold receive_engine._xor_bytes, stripe.
  assert (Hlong : (length x <= longest (pre ++ x :: post))%nat).
  { rewrite longest_app, longest_cons. lia. }
  apply (nth_ext _ _ x00 x00).
  - rewrite !xor_fold_length, length_app, length_replicate.
    rewrite (longest_app pre post), (longest_app pre (x :: post)).
    rewrite longest_app, longest_cons in Hlong. rewrite longest_cons.
    change (length (A:=byte) []) with 0%nat. lia.
  - intros i _. rewrite !xor_fold_nth.
    replace (nth i [] x00) with x00 by (by destruct i).
    rewrite (byte_fold_shift _ (fold_left _ _ _)).
    rewrite !fmap_app, fmap_cons, !byte_fold_app. cbn [fold_left].
    rewrite (byte_fold_shift _ (byte_xor x00 _)), byte_xor_zero_l.
    rewrite byte_xor_recover.
    destruct (decide (i < length x)%nat) as [Hi|Hi].
    + by rewrite app_nth1.
    + rewrite app_nth2 by lia. rewrite nth_overflow by lia.
      by rewrite nth_padding.
Qed.

(** When no payload of the block is longer than the missing one, the
    reconstruction is the missing payload itself. *)
Lemma xor_reconstruction_exact (pre post : list bytes) (x : bytes) :
  (longest (pre ++ x :: post) <= length x)%nat ->
  receive_engine._xor_bytes (stripe (pre ++ x :: post)) (pre ++ post) = x.
Proof.
  intros H. rewrite xor_reconstruction.
  replace (longest (pre ++ x :: post) - length x)%nat with 0%nat by lia.
  apply app_nil_r.
Qed.

(** ** XOR reconstruction *)

(** C2 at the failing input.  The file [AAAABB] is sent with
    [chunk_size = 4], [k = 2], [r = 1]: data chunks [AAAA] and [BB] and
    the parity chunk of their block.  The receiver gets chunk 0 and the
    parity chunk; chunk 1 alone is missing.  It reconstructs chunk 1 as
    [BB] followed by two NUL octets, the length of the parity stripe:
    not the original payload, with another CRC-32, and the file it writes
    is two octets longer than the file sent. *)
Theorem short_chunk_reconstructed_padded :
  (Chunk.chunk_id <$> storage.chunk_rows (send_engine.storage fec_sender))
  = [0; 1; 2]
  /\ (DataMsg.chunk_id <$> data_sent fec_sender) = [0; 1; 2]
  /\ sent_payload fec_sender "b2" 1 = Some (b "BB")
  /\ (ReceiveState.received_chunks
        <$> receive_engine.active_receives
              (receive_engine.handle_data
                 (default good_chunk (data_sent fec_sender !! 0%nat)) peer
                 fec_receiver_idle) !! "b2")
     = Some {[0]}
  /\ (ReceiveState.data_chunks
        <$> receive_engine.active_receives fec_receiver !! "b2")
     = Some {[0 := b "AAAA"; 1 := b "BB" ++ [x00; x00]]}
  /\ b "BB" ++ [x00; x00] <> b "BB"
  /\ Some (Z.land (zlib.crc32 (b "BB" ++ [x00; x00])) 0xFFFFFFFF)
     <> sent_checksum fec_sender "b2" 1
  /\ Disk.files (receive_engine.disk fec_receiver)
       !! "received/bundle_b2.bin"%string
     = Some (b "AAAABB" ++ [x00; x00]).
Proof.
  repeat split; try (vm_compute; reflexivity); vm_compute; discriminate.
Qed.

(** * Further properties of the code *)

(** ** Timeouts and backoff *)

Lemma pymin_le_r (x y : Q) : (pymin x y <= y)%Q.
Proof.
  unfold pymin, Qlt_bool. destruct (Qle_bool x y) eqn:E; cbn.
  - by apply Qle_bool_iff.
  - apply Qle_refl.
Qed.

Lemma pymin_le_l (x y : Q) : (pymin x y <= x)%Q.
Proof.
  unfold pymin, Qlt_bool. destruct (Qle_bool x y) eqn:E; cbn.
  - apply Qle_refl.
  - destruct (Qlt_le_dec y x) as [H|H]; [by apply Qlt_le_weak|].
    apply Qle_bool_iff in H. congruence.
Qed.

(** The chunks found timed out are the unacked chunks whose deadline has
    passed, each listed once. *)
Lemma timed_out_chunks_spec now s c :
  c ∈ send_engine.timed_out_chunks now s
  <-> (c ∉ SendState.acked_chunks s)
      /\ exists expiry, SendState.chunk_timers s !! c = Some expiry
                        /\ (expiry <= now)%Q.
Proof.
  unfold send_engine.timed_out_chunks. rewrite list_elem_of_omap. split.
  - intros ([c' e] & Hin & Hf). apply elem_of_map_to_list in Hin. cbn in Hf.
    destruct (decide (c' ∈ SendState.acked_chunks s)); [done|].
    destruct (Qle_bool e now) eqn:E; [|done]. simplify_eq.
    split; [done|]. exists e. split; [done|]. by apply Qle_bool_iff.
  - intros (Hna & e & Ht & Hdue). exists (c, e).
    split; [by apply elem_of_map_to_list|]. cbn.
    destruct (decide (c ∈ SendState.acked_chunks s)); [done|].
    apply Qle_bool_iff in Hdue. by rewrite Hdue.
Qed.

Lemma timed_out_chunks_NoDup now s :
  NoDup (send_engine.timed_out_chunks now s).
Proof.
  unfold send_engine.timed_out_chunks.
  pose proof (NoDup_fst_map_to_list (SendState.chunk_timers s)) as Hnd.
  induction (map_to_list (SendState.chunk_timers s)) as [|[c e] l IH]; cbn.
  - constructor.
  - cbn in Hnd. apply NoDup_cons in Hnd as [Hc Hnd].
    destruct (decide (c ∈ SendState.acked_chunks s)); [by apply IH|].
    destruct (Qle_bool e now); [|by apply IH].
    apply NoDup_cons. split; [|by apply IH].
    intros Hin. apply Hc. apply list_elem_of_omap in Hin as ([c' e'] & Hin & Hf).
    cbn in Hf. repeat case_match; simplify_eq.
    apply list_elem_of_fmap. by exists (c, e').
Qed.

Lemma check_timeouts_lookup now self id :
  send_engine.active_sends (send_engine.check_timeouts now self) !! id
  = (fun s => if SendState.completed s then s
              else send_engine.check_timeouts_state (send_engine.config self) now s)
    <$> send_engine.active_sends self !! id.
Proof. unfold send_engine.check_timeouts. cbn. apply lookup_fmap. Qed.

(** X1. Exponential backoff, capped.  When [check_timeouts] finds an
    unacked chunk of a live bundle past its deadline, the bundle's timeout
    becomes [min(2 * timeout, max_rto_ms)]: at most doubled and never above
    [max_rto_ms]; the retransmit counter grows by the number of timed out
    chunks, which is at least one. *)
Theorem check_timeouts_backoff (now : Q) (self : send_engine.SendEngine)
    (id : string) (s : SendState.t) (c : Z) (expiry : Q)
    (Hs : send_engine.active_sends self !! id = Some s)
    (Hlive : SendState.completed s = false)
    (Hunacked : c ∉ SendState.acked_chunks s)
    (Htimer : SendState.chunk_timers s !! c = Some expiry)
    (Hdue : (expiry <= now)%Q) :
  exists s',
    send_engine.active_sends (send_engine.check_timeouts now self) !! id = Some s'
    /\ SendState.timeout_interval s'
       = pymin (SendState.timeout_interval s * 2)
               (inject_Z (config.max_rto_ms (send_engine.config self)))
    /\ (SendState.timeout_interval s'
        <= inject_Z (config.max_rto_ms (send_engine.config self)))%Q
    /\ (SendState.timeout_interval s' <= SendState.timeout_interval s * 2)%Q
    /\ SendState.chunks_retransmitted s'
       = SendState.chunks_retransmitted s
         + len (send_engine.timed_out_chunks now s)
    /\ 1 <= len (send_engine.timed_out_chunks now s).
Proof.
  assert (Hin : c ∈ send_engine.timed_out_chunks now s)
    by (apply timed_out_chunks_spec; eauto).
  rewrite check_timeouts_lookup, Hs. cbn. rewrite Hlive.
  unfold send_engine.check_timeouts_state.
  destruct (send_engine.timed_out_chunks now s) as [|c0 l] eqn:E;
    [by apply elem_of_nil in Hin|].
  eexists. split; [reflexivity|]. cbn -[len].
  split; [reflexivity|]. split; [apply pymin_le_r|]. split; [apply pymin_le_l|].
  split; [reflexivity|]. unfold len. cbn. lia.
Qed.

(** X2. What [check_timeouts] queues and what it leaves alone.  For a live
    bundle the retransmit queue is extended by exactly the unacked chunks
    whose deadline has passed; afterwards no acked chunk and no queued
    chunk has a timer, every other timer is untouched, and the window and
    the acked set are as before.  A completed bundle is not touched. *)
Theorem check_timeouts_queue (now : Q) (self : send_engine.SendEngine)
    (id : string) (s : SendState.t)
    (Hs : send_engine.active_sends self !! id = Some s) :
  exists s',
    send_engine.active_sends (send_engine.check_timeouts now self) !! id = Some s'
    /\ (SendState.completed s = true -> s' = s)
    /\ (SendState.completed s = false ->
        SendState.retransmit_queue s'
        = SendState.retransmit_queue s ++ send_engine.timed_out_chunks now s
        /\ (forall c, c ∈ send_engine.timed_out_chunks now s
                      <-> (c ∉ SendState.acked_chunks s)
                          /\ exists expiry,
                               SendState.chunk_timers s !! c = Some expiry
                               /\ (expiry <= now)%Q)
        /\ (forall c, c ∈ SendState.acked_chunks s
                      \/ c ∈ send_engine.timed_out_chunks now s ->
                      SendState.chunk_timers s' !! c = None)
        /\ (forall c, c ∉ SendState.acked_chunks s ->
                      c ∉ send_engine.timed_out_chunks now s ->
                      SendState.chunk_timers s' !! c
                      = SendState.chunk_timers s !! c)
        /\ same_window s s').
Proof.
  rewrite check_timeouts_lookup, Hs. cbn.
  destruct (SendState.completed s) eqn:Hc.
  { exists s. split; [done|]. split; [done | discriminate]. }
  eexists. split; [reflexivity|]. split; [discriminate|]. intros _.
  unfold send_engine.check_timeouts_state.
  assert (Hfilter : forall c,
    filter (fun item : Z * Q => item.1 ∉ SendState.acked_chunks s)
           (SendState.chunk_timers s) !! c
    = if decide (c ∈ SendState.acked_chunks s) then None
      else SendState.chunk_timers s !! c).
  { intros c. rewrite map_lookup_filter.
    destruct (SendState.chunk_timers s !! c) as [e|]; cbn;
      destruct (decide (c ∈ SendState.acked_chunks s)); try done.
    - by rewrite option_guard_False by (cbn; tauto).
    - by rewrite option_guard_True. }
  destruct (send_engine.timed_out_chunks now s) as [|c0 l] eqn:E.
  - cbn. split; [by rewrite app_nil_r|].
    split; [intros c; rewrite <- timed_out_chunks_spec, E; done|].
    split; [|split; [|by repeat split]].
    + intros c [H|H]; [|by apply elem_of_nil in H].
      rewrite Hfilter. by destruct (decide _).
    + intros c Ha _. rewrite Hfilter. by destruct (decide _).
  - cbn -[foldr]. split; [done|].
    split; [intros c; rewrite <- timed_out_chunks_spec, E; done|].
    split; [|split; [|by repeat split]].
    + intros c [H|H]; [|by apply lookup_foldr_delete].
      destruct (decide (c ∈ c0 :: l)) as [Hin|Hout];
        [by apply lookup_foldr_delete|].
      rewrite lookup_foldr_delete_not_elem_of by done. rewrite Hfilter.
      by destruct (decide _).
    + intros c Ha Hout. rewrite lookup_foldr_delete_not_elem_of by done.
      rewrite Hfilter. by destruct (decide _).
Qed.

Lemma check_timeouts_backoff_witness :
  exists s',
    send_engine.active_sends (send_engine.check_timeouts 100 sender_started) !! "b1"
    = Some s'
    /\ SendState.timeout_interval s'
       = pymin (SendState.timeout_interval started_state * 2)
               (inject_Z (config.max_rto_ms (send_engine.config sender_started)))
    /\ (SendState.timeout_interval s'
        <= inject_Z (config.max_rto_ms (send_engine.config sender_started)))%Q
    /\ (SendState.timeout_interval s'
        <= SendState.timeout_interval started_state * 2)%Q
    /\ SendState.chunks_retransmitted s'
       = SendState.chunks_retransmitted started_state
         + len (send_engine.timed_out_chunks 100 started_state)
    /\ 1 <= len (send_engine.timed_out_chunks 100 started_state).
Proof.
  apply (check_timeouts_backoff 100 sender_started "b1" started_state 0 50).
  - vm_compute. reflexivity.
  - vm_compute. reflexivity.
  - apply (bool_decide_unpack _). vm_compute. exact I.
  - vm_compute. reflexivity.
  - vm_compute. discriminate.
Defined.

Lemma check_timeouts_queue_witness :
  exists s',
    send_engine.active_sends (send_engine.check_timeouts 100 sender_started) !! "b1"
    = Some s'
    /\ (SendState.completed started_state = true -> s' = started_state)
    /\ (SendState.completed started_state = false ->
        SendState.retransmit_queue s'
        = SendState.retransmit_queue started_state
          ++ send_engine.timed_out_chunks 100 started_state
        /\ (forall c, c ∈ send_engine.timed_out_chunks 100 started_state
                      <-> (c ∉ SendState.acked_chunks started_state)
                          /\ exists expiry,
                               SendState.chunk_timers started_state !! c
                               = Some expiry
                               /\ (expiry <= 100)%Q)
        /\ (forall c, c ∈ SendState.acked_chunks started_state
                      \/ c ∈ send_engine.timed_out_chunks 100 started_state ->
                      SendState.chunk_timers s' !! c = None)
        /\ (forall c, c ∉ SendState.acked_chunks started_state ->
                      c ∉ send_engine.timed_out_chunks 100 started_state ->
                      SendState.chunk_timers s' !! c
                      = SendState.chunk_timers started_state !! c)
        /\ same_window started_state s').
Proof.
  apply (check_timeouts_queue 100 sender_started "b1" started_state).
  vm_compute. reflexivity.
Defined.

(** ** Completion, cleanup and restart *)

Lemma view_commit txn db :
  storage.view (storage.commit txn db)
  = fold_left storage.exec txn (storage.view db).
Proof.
  unfold storage.view, storage.commit. cbn [storage.journal].
  by rewrite replay_app.
Qed.

(** Every bundle row sits under its own [bundle_id]. *)
Lemma exec_bundles_keyed t st :
  (forall id row, storage.bundles t !! id = Some row -> Bundle.bundle_id row = id) ->
  forall id row, storage.bundles (storage.exec t st) !! id = Some row ->
                 Bundle.bundle_id row = id.
Proof.
  intros Ht id row. destruct st; cbn; try apply Ht.
  - rewrite lookup_insert. case_decide; [naive_solver | apply Ht].
  - rewrite lookup_alter. case_decide; [|apply Ht]. subst.
    destruct (storage.bundles t !! id) as [row0|] eqn:E; [|done].
    cbn. intros [= <-]. cbn. by apply Ht.
  - rewrite lookup_alter. case_decide; [|apply Ht]. subst.
    destruct (storage.bundles t !! id) as [row0|] eqn:E; [|done].
    cbn. intros [= <-]. cbn. by apply Ht.
  - rewrite lookup_alter. case_decide; [|apply Ht]. subst.
    destruct (storage.bundles t !! id) as [row0|] eqn:E; [|done].
    cbn. intros [= <-]. cbn. by apply Ht.
Qed.

Lemma bundles_keyed db id row :
  storage.load_bundle id db = Some row -> Bundle.bundle_id row = id.
Proof.
  unfold storage.load_bundle, storage.view, storage.replay.
  revert id row. generalize (storage.journal db). intros j.
  induction j as [|txn j IH] using rev_ind; [done|].
  rewrite fold_left_app. cbn [fold_left].
  generalize dependent (fold_left (fun t txn => fold_left storage.exec txn t)
                                  j storage.no_tables).
  intros t Ht. clear j. revert t Ht.
  induction txn as [|st txn IHt]; intros t Ht; [exact Ht|].
  cbn [fold_left]. apply IHt. by apply exec_bundles_keyed.
Qed.

Lemma handle_delivered_other msg self id :
  id <> DeliveredMsg.bundle_id msg ->
  send_engine.active_sends (send_engine.handle_delivered msg self) !! id
  = send_engine.active_sends self !! id.
Proof.
  intros Hne. unfold send_engine.handle_delivered.
  destruct (send_engine.active_sends self !! DeliveredMsg.bundle_id msg); [|done].
  by apply _complete_transfer_other.
Qed.

(** X3. A DELIVERED message for a live bundle marks it completed whatever
    its acked set holds, drops its chunk cache and writes state [delivered]
    with the byte and retransmit counters to the bundle row (a bundle
    without a row gets none).  A second DELIVERED changes nothing at
    all. *)
Theorem handle_delivered_completes (msg : DeliveredMsg.t)
    (self : send_engine.SendEngine) (s : SendState.t)
    (Hs : send_engine.active_sends self !! DeliveredMsg.bundle_id msg = Some s)
    (Hlive : SendState.completed s = false) :
  let id := DeliveredMsg.bundle_id msg in
  let self' := send_engine.handle_delivered msg self in
  send_engine.active_sends self' !! id = Some (SendState.set_completed true s)
  /\ send_engine._chunk_cache self' !! id = None
  /\ storage.load_bundle id (send_engine.storage self')
     = (fun row =>
          Bundle.with_chunks_retransmitted (SendState.chunks_retransmitted s)
            (Bundle.with_bytes_sent (SendState.bytes_sent s)
               (Bundle.with_state "delivered" row)))
       <$> storage.load_bundle id (send_engine.storage self)
  /\ send_engine.handle_delivered msg self' = self'.
Proof.
  cbv zeta.
  assert (H1 : send_engine.active_sends (send_engine.handle_delivered msg self)
               !! DeliveredMsg.bundle_id msg
               = Some (SendState.set_completed true s)).
  { unfold send_engine.handle_delivered. rewrite Hs.
    rewrite (_complete_transfer_same _ _ _ Hs). by rewrite Hlive. }
  split; [exact H1|]. split; [|split].
  - unfold send_engine.handle_delivered, send_engine._complete_transfer.
    rewrite Hs, Hlive. cbn. apply lookup_delete_eq.
  - unfold send_engine.handle_delivered, send_engine._complete_transfer.
    rewrite Hs, Hlive. cbn [send_engine.storage send_engine.set_cache
      send_engine.set_storage].
    unfold storage.load_bundle, storage.update_bundle_stats,
      storage.update_bundle_state. rewrite !view_commit. cbn.
    rewrite !lookup_alter. repeat case_decide; try done.
    by destruct (storage.bundles _ !! _).
  - unfold send_engine.handle_delivered at 1. rewrite H1.
    unfold send_engine._complete_transfer at 1. by rewrite H1.
Qed.

Lemma handle_delivered_completes_witness :
  let msg := {| DeliveredMsg.bundle_id := "b1" |} in
  let id := DeliveredMsg.bundle_id msg in
  let self' := send_engine.handle_delivered msg sender_started in
  send_engine.active_sends self' !! id
  = Some (SendState.set_completed true started_state)
  /\ send_engine._chunk_cache self' !! id = None
  /\ storage.load_bundle id (send_engine.storage self')
     = (fun row =>
          Bundle.with_chunks_retransmitted
            (SendState.chunks_retransmitted started_state)
            (Bundle.with_bytes_sent (SendState.bytes_sent started_state)
               (Bundle.with_state "delivered" row)))
       <$> storage.load_bundle id (send_engine.storage sender_started)
  /\ send_engine.handle_delivered msg self' = self'.
Proof.
  apply (handle_delivered_completes {| DeliveredMsg.bundle_id := "b1" |}
           sender_started started_state).
  - vm_compute. reflexivity.
  - vm_compute. reflexivity.
Defined.

Lemma cleanup_lookup self id :
  send_engine.active_sends (send_engine.cleanup_completed_transfers self) !! id
  = match send_engine.active_sends self !! id with
    | Some s => if SendState.completed s then None else Some s
    | None => None
    end.
Proof.
  unfold send_engine.cleanup_completed_transfers. cbn.
  rewrite map_lookup_filter.
  destruct (send_engine.active_sends self !! id) as [s|]; [|done]. cbn.
  destruct (SendState.completed s).
  - by rewrite option_guard_False.
  - by rewrite option_guard_True.
Qed.

(** X4. Once a bundle is completed by DELIVERED,
    [cleanup_completed_transfers] forgets it: the bundle is no longer among
    the active sends and any SACK that still arrives for it leaves the
    engine as it is; of the other bundles exactly the completed ones go,
    the live ones keep their state. *)
Theorem cleanup_after_delivered (msg : DeliveredMsg.t)
    (self : send_engine.SendEngine) (s : SendState.t)
    (Hs : send_engine.active_sends self !! DeliveredMsg.bundle_id msg = Some s) :
  let id := DeliveredMsg.bundle_id msg in
  let cleaned :=
    send_engine.cleanup_completed_transfers
      (send_engine.handle_delivered msg self) in
  send_engine.active_sends cleaned !! id = None
  /\ (forall sack a t t', SackMsg.bundle_id sack = id ->
        send_engine.handle_sack sack a t t' cleaned = cleaned)
  /\ (forall id' s', id' <> id ->
        send_engine.active_sends self !! id' = Some s' ->
        send_engine.active_sends cleaned !! id'
        = if SendState.completed s' then None else Some s').
Proof.
  cbv zeta.
  assert (Hgone : send_engine.active_sends
            (send_engine.cleanup_completed_transfers
               (send_engine.handle_delivered msg self))
            !! DeliveredMsg.bundle_id msg = None).
  { rewrite cleanup_lookup. unfold send_engine.handle_delivered. rewrite Hs.
    rewrite (_complete_transfer_same _ _ _ Hs).
    destruct (SendState.completed s) eqn:E; cbn; by rewrite ?E. }
  split; [exact Hgone|]. split.
  - intros sack a t t' Hid. apply handle_sack_unknown. by rewrite Hid.
  - intros id' s' Hne Hs'. rewrite cleanup_lookup.
    by rewrite handle_delivered_other, Hs' by done.
Qed.

Lemma cleanup_after_delivered_witness :
  let msg := {| DeliveredMsg.bundle_id := "b1" |} in
  let id := DeliveredMsg.bundle_id msg in
  let cleaned :=
    send_engine.cleanup_completed_transfers
      (send_engine.handle_delivered msg sender_started) in
  send_engine.active_sends cleaned !! id = None
  /\ (forall sack a t t', SackMsg.bundle_id sack = id ->
        send_engine.handle_sack sack a t t' cleaned = cleaned)
  /\ (forall id' s', id' <> id ->
        send_engine.active_sends sender_started !! id' = Some s' ->
        send_engine.active_sends cleaned !! id'
        = if SendState.completed s' then None else Some s').
Proof.
  apply (cleanup_after_delivered {| DeliveredMsg.bundle_id := "b1" |}
           sender_started started_state).
  vm_compute. reflexivity.
Defined.

Lemma list_bundles_by_state_spec st db row :
  row ∈ storage.list_bundles_by_state st db
  <-> storage.load_bundle (Bundle.bundle_id row) db = Some row
      /\ Bundle.state row = st.
Proof.
  unfold storage.list_bundles_by_state, storage.load_bundle.
  rewrite list_elem_of_filter, list_elem_of_fmap. split.
  - intros [Hst ([id row'] & -> & Hin)]. cbn in *.
    apply elem_of_map_to_list in Hin. split; [|done].
    by rewrite (bundles_keyed db id row' Hin).
  - intros [Hrow Hst]. split; [done|].
    exists (Bundle.bundle_id row, row). split; [done|].
    by apply elem_of_map_to_list.
Qed.

Lemma list_bundles_by_state_NoDup st db :
  NoDup (Bundle.bundle_id <$> storage.list_bundles_by_state st db).
Proof.
  unfold storage.list_bundles_by_state.
  pose proof (NoDup_fst_map_to_list (storage.bundles (storage.view db))) as Hnd.
  assert (Hkey : Forall (fun item : string * Bundle.t =>
                           Bundle.bundle_id item.2 = item.1)
                        (map_to_list (storage.bundles (storage.view db)))).
  { apply Forall_forall. intros [id row] Hin.
    apply elem_of_map_to_list in Hin. by apply (bundles_keyed db). }
  induction (map_to_list (storage.bundles (storage.view db))) as [|[id row] l IH];
    [constructor|].
  cbn in Hnd. apply NoDup_cons in Hnd as [Hid Hnd].
  apply Forall_cons in Hkey as [Hrow Hkey]. cbn in Hrow.
  rewrite fmap_cons. cbn [snd]. rewrite filter_cons.
  destruct (decide (Bundle.state row = st)); [|by apply IH].
  rewrite fmap_cons. apply NoDup_cons. split; [|by apply IH].
  intros Hin. apply Hid. apply list_elem_of_fmap in Hin as (row' & Heq & Hin).
  apply list_elem_of_filter in Hin as [_ Hin].
  apply list_elem_of_fmap in Hin as ([id' row''] & -> & Hin). cbn in *.
  apply list_elem_of_fmap. exists (id', row''). split; [|done]. cbn.
  rewrite Forall_forall in Hkey. specialize (Hkey _ Hin). cbn in Hkey.
  congruence.
Qed.

Lemma resume_loop_config rows self :
  send_engine.config
    (fold_left (fun self bundle_data =>
                  send_engine.set_state (Bundle.bundle_id bundle_data)
                    (send_engine.resumed_state (send_engine.config self) bundle_data)
                    (send_engine.network_send self) self) rows self)
  = send_engine.config self.
Proof.
  revert self. induction rows as [|row rows IH]; intros self; [done|].
  cbn [fold_left]. by rewrite IH.
Qed.

Lemma resume_loop_other rows self id :
  id ∉ Bundle.bundle_id <$> rows ->
  send_engine.active_sends
    (fold_left (fun self bundle_data =>
                  send_engine.set_state (Bundle.bundle_id bundle_data)
                    (send_engine.resumed_state (send_engine.config self) bundle_data)
                    (send_engine.network_send self) self) rows self) !! id
  = send_engine.active_sends self !! id.
Proof.
  revert self. induction rows as [|row rows IH]; intros self Hid; [done|].
  cbn [fold_left]. rewrite fmap_cons, not_elem_of_cons in Hid.
  destruct Hid as [Hne Hid]. rewrite IH by done. cbn.
  by rewrite lookup_insert_ne.
Qed.

Lemma resume_loop_row rows self row :
  NoDup (Bundle.bundle_id <$> rows) -> row ∈ rows ->
  send_engine.active_sends
    (fold_left (fun self bundle_data =>
                  send_engine.set_state (Bundle.bundle_id bundle_data)
                    (send_engine.resumed_state (send_engine.config self) bundle_data)
                    (send_engine.network_send self) self) rows self)
    !! Bundle.bundle_id row
  = Some (send_engine.resumed_state (send_engine.config self) row).
Proof.
  revert self. induction rows as [|row0 rows IH]; intros self Hnd Hin.
  - by apply elem_of_nil in Hin.
  - cbn [fold_left]. rewrite fmap_cons in Hnd.
    apply NoDup_cons in Hnd as [Hfresh Hnd].
    apply elem_of_cons in Hin as [->|Hin].
    + rewrite resume_loop_other by done. cbn. apply lookup_insert_eq.
    + by rewrite IH.
Qed.

Lemma resume_transfers_lookup (self : send_engine.SendEngine) (id : string) :
  send_engine.active_sends (send_engine.resume_transfers self) !! id
  = match storage.load_bundle id (send_engine.storage self) with
    | Some row =>
        if String.eqb (Bundle.state row) "sending"
        then Some (send_engine.resumed_state (send_engine.config self) row)
        else send_engine.active_sends self !! id
    | None => send_engine.active_sends self !! id
    end.
Proof.
  unfold send_engine.resume_transfers.
  destruct (storage.load_bundle id (send_engine.storage self)) as [row|] eqn:Hrow.
  - destruct (String.eqb_spec (Bundle.state row) "sending") as [Hst|Hst].
    + rewrite <- (bundles_keyed _ _ _ Hrow) at 1.
      apply resume_loop_row; [apply list_bundles_by_state_NoDup|].
      apply list_bundles_by_state_spec.
      by rewrite (bundles_keyed _ _ _ Hrow).
    + apply resume_loop_other. intros Hin.
      apply list_elem_of_fmap in Hin as (row' & -> & Hin).
      apply list_bundles_by_state_spec in Hin as [Hrow' Hst'].
      congruence.
  - apply resume_loop_other. intros Hin.
    apply list_elem_of_fmap in Hin as (row' & -> & Hin).
    apply list_bundles_by_state_spec in Hin as [Hrow' Hst'].
    congruence.
Qed.

(** X5. [resume_transfers] rebuilds the send state of exactly the bundles
    whose row in the store says [sending], from that row; a bundle with no
    row, or with a row in another state, is left as it was.  A rebuilt
    state starts with an empty acked set, the window at
    [0, min(window_size, total_chunks)), the timeout at [base_rto_ms], the
    counters of the row, and is not completed. *)
Theorem resume_transfers_spec (self : send_engine.SendEngine) (id : string) :
  send_engine.active_sends (send_engine.resume_transfers self) !! id
  = match storage.load_bundle id (send_engine.storage self) with
    | Some row =>
        if String.eqb (Bundle.state row) "sending"
        then Some (send_engine.resumed_state (send_engine.config self) row)
        else send_engine.active_sends self !! id
    | None => send_engine.active_sends self !! id
    end
  /\ forall cfg row,
       let s := send_engine.resumed_state cfg row in
       SendState.acked_chunks s = ∅
       /\ SendState.window_start s = 0
       /\ SendState.window_end s
          = Z.min (config.window_size cfg) (Bundle.total_chunks row)
       /\ SendState.total_chunks s = Bundle.total_chunks row
       /\ SendState.timeout_interval s = inject_Z (config.base_rto_ms cfg)
       /\ SendState.bytes_sent s = Bundle.bytes_sent row
       /\ SendState.chunks_retransmitted s = Bundle.chunks_retransmitted row
       /\ SendState.completed s = false.
Proof.
  split; [apply resume_transfers_lookup | by repeat split].
Qed.

(** X6. Restart in the middle of a transfer.  After [send_file] has
    returned, a fresh engine on the same store that runs
    [resume_transfers] holds the bundle again with the same
    [total_chunks], but with nothing acknowledged and the window back at
    chunk 0: the acked set is not persisted. *)
Theorem resume_after_send_file (fs : gmap string bytes) (path dest : string)
    (a : addr) (fec_enabled : option bool) (id : string) (t : Q)
    (self : send_engine.SendEngine) (file_data : bytes) (net : Net.t)
    (Hfile : fs !! path = Some file_data)
    (Hsize : config.chunk_size (send_engine.config self) <> 0) :
  exists self' s s',
    send_engine.send_file fs path dest a fec_enabled id t self = inr (id, self')
    /\ send_engine.active_sends self' !! id = Some s
    /\ send_engine.active_sends
         (send_engine.resume_transfers
            (send_engine.init (send_engine.config self)
               (send_engine.fec_config self) (send_engine.storage self')
               net (send_engine.src_node_id self))) !! id = Some s'
    /\ SendState.total_chunks s' = SendState.total_chunks s
    /\ SendState.acked_chunks s' = ∅
    /\ SendState.window_start s' = 0
    /\ SendState.window_end s'
       = Z.min (config.window_size (send_engine.config self))
               (SendState.total_chunks s)
    /\ SendState.completed s' = false.
Proof.
  destruct (create_chunks_total (send_engine.config self)
              (send_engine.fec_config self) file_data id
              (use_fec fec_enabled (send_engine.fec_config self)) Hsize)
    as (chunks & Hchunks).
  destruct (send_file_result fs path dest a fec_enabled id t self file_data
              chunks Hfile Hchunks)
    as (self' & row & s & Hsend & Hj & Hid & Hrow & Hst & Hs & Ht).
  assert (Hload : storage.load_bundle id (send_engine.storage self') = Some row).
  { unfold storage.load_bundle, storage.view. rewrite Hj, replay_app.
    cbn [fold_left]. rewrite chunk_commits_bundles. cbn.
    rewrite <- Hid. apply lookup_insert_eq. }
  exists self', s. eexists. split; [exact Hsend|]. split; [exact Hs|].
  split.
  { rewrite (resume_transfers_lookup _ id). cbn [send_engine.init
      send_engine.storage send_engine.config send_engine.active_sends].
    rewrite Hload, Hst. cbn. reflexivity. }
  cbn. rewrite Ht, Hrow. by repeat split.
Qed.

Lemma resume_after_send_file_witness :
  exists self' s s',
    send_engine.send_file lab_files "timeout.bin" "nodeB" peer (Some false)
                          "b1" 0 sender_idle = inr ("b1"%string, self')
    /\ send_engine.active_sends self' !! "b1" = Some s
    /\ send_engine.active_sends
         (send_engine.resume_transfers
            (send_engine.init (send_engine.config sender_idle)
               (send_engine.fec_config sender_idle) (send_engine.storage self')
               Net.reliable (send_engine.src_node_id sender_idle))) !! "b1"
       = Some s'
    /\ SendState.total_chunks s' = SendState.total_chunks s
    /\ SendState.acked_chunks s' = ∅
    /\ SendState.window_start s' = 0
    /\ SendState.window_end s'
       = Z.min (config.window_size (send_engine.config sender_idle))
               (SendState.total_chunks s)
    /\ SendState.completed s' = false.
Proof.
  apply (resume_after_send_file lab_files "timeout.bin" "nodeB" peer
           (Some false) "b1" 0 sender_idle (b "ABCDEFGH") Net.reliable).
  - vm_compute. reflexivity.
  - vm_compute. discriminate.
Defined.

(** ** The window and the estimator after a SACK *)

(** The state [handle_sack] leaves for the bundle it names, up to the
    timers and counters that the newly opened window may touch. *)
Lemma handle_sack_shape msg a t t' self s :
  send_engine.active_sends self !! SackMsg.bundle_id msg = Some s ->
  let sacked : gset Z := list_to_set (SackMsg.acked_chunks msg) in
  let s2 :=
    fold_left (send_engine.ack_one (send_engine.config self) t)
              (elements (sacked ∖ SendState.acked_chunks s))
              (SendState.set_acked_chunks (SendState.acked_chunks s ∪ sacked) s) in
  let ws :=
    send_engine.advance
      (Z.to_nat (SendState.total_chunks s - SendState.window_start s))
      (SendState.acked_chunks s ∪ sacked) (SendState.total_chunks s)
      (SendState.window_start s) in
  exists s',
    send_engine.active_sends (send_engine.handle_sack msg a t t' self)
      !! SackMsg.bundle_id msg = Some s'
    /\ SendState.window_start s' = ws
    /\ SendState.window_end s'
       = Z.min (ws + SendState.window_size s) (SendState.total_chunks s)
    /\ SendState.smoothed_rtt s' = SendState.smoothed_rtt s2
    /\ SendState.rtt_variance s' = SendState.rtt_variance s2.
Proof.
  intros Hs sacked s2 ws. unfold send_engine.handle_sack. rewrite Hs.
  fold sacked. fold s2.
  assert (H12 : same_window
                  (SendState.set_acked_chunks
                     (SendState.acked_chunks s ∪ sacked) s) s2)
    by apply ack_loop_frame.
  set (s3 := match elements (sacked ∖ SendState.acked_chunks s) with
             | [] => s2 | _ => _ end).
  assert (H23 : same_window s2 s3
                /\ SendState.smoothed_rtt s3 = SendState.smoothed_rtt s2
                /\ SendState.rtt_variance s3 = SendState.rtt_variance s2).
  { subst s3. destruct (elements _); by repeat split. }
  destruct H23 as (H23 & Hsr & Hvr).
  pose proof (same_window_trans _ _ _ H12 H23) as (Ha & Hw & He & Hz & Ht & Hc).
  cbn in Ha, Hw, Hz, Ht.
  rewrite Ha, Hw, Ht, Hz. fold ws.
  set (s4 := SendState.set_window ws _ s3).
  set (self1 := send_engine.set_state _ s4 _ self).
  assert (H1 : send_engine.active_sends self1 !! SackMsg.bundle_id msg = Some s4)
    by apply lookup_insert_eq.
  destruct (_ <=? _).
  - rewrite (_complete_transfer_same _ _ _ H1).
    eexists. split; [reflexivity|].
    destruct (SendState.completed s4); cbn; by rewrite Hsr, Hvr.
  - destruct (_ <? _).
    + destruct (_send_window_same _ a t' _ _ H1)
        as (s5 & H5 & (_ & Hw5 & He5 & _) & (_ & Hsr5 & Hv5)).
      exists s5. split; [exact H5|].
      rewrite Hw5, He5, Hsr5, Hv5. cbn. by rewrite Hsr, Hvr.
    + exists s4. split; [exact H1|]. cbn. by rewrite Hsr, Hvr.
Qed.

Lemma advance_acked fuel acked total ws c :
  ws <= c < send_engine.advance fuel acked total ws -> c ∈ acked /\ c < total.
Proof.
  revert ws. induction fuel as [|fuel IH]; intros ws; cbn; [lia|].
  destruct (Z.ltb_spec ws total) as [Hlt|Hge]; cbn [andb]; [|lia].
  destruct (bool_decide_reflect (ws ∈ acked)) as [Hin|Hout]; [|lia].
  intros Hc. destruct (decide (c = ws)) as [->|Hne]; [done|].
  apply (IH (ws + 1)). lia.
Qed.

Lemma advance_le_total fuel acked total ws :
  ws <= total -> send_engine.advance fuel acked total ws <= total.
Proof.
  revert ws. induction fuel as [|fuel IH]; intros ws Hws; cbn; [done|].
  destruct (Z.ltb_spec ws total) as [Hlt|Hge]; cbn [andb]; [|done].
  destruct (bool_decide _); [|done]. apply IH. lia.
Qed.

(** X7. The window after a SACK.  [handle_sack] slides [window_start]
    over acked ids only and stops at the first id that is not acked, or at
    [total_chunks]; it then sets [window_end] to
    [min(window_start + window_size, total_chunks)], so the window never
    reaches past the bundle nor spans more than [window_size] chunks. *)
Theorem handle_sack_window (msg : SackMsg.t) (a : addr) (t t' : Q)
    (self : send_engine.SendEngine) (s : SendState.t)
    (Hs : send_engine.active_sends self !! SackMsg.bundle_id msg = Some s) :
  exists s',
    send_engine.active_sends (send_engine.handle_sack msg a t t' self)
      !! SackMsg.bundle_id msg = Some s'
    /\ (forall c, SendState.window_start s <= c < SendState.window_start s' ->
                  c ∈ SendState.acked_chunks s' /\ c < SendState.total_chunks s')
    /\ ~ (SendState.window_start s' < SendState.total_chunks s'
          /\ SendState.window_start s' ∈ SendState.acked_chunks s')
    /\ SendState.window_end s'
       = Z.min (SendState.window_start s' + SendState.window_size s')
               (SendState.total_chunks s')
    /\ SendState.window_end s' <= SendState.total_chunks s'
    /\ SendState.window_end s' - SendState.window_start s'
       <= SendState.window_size s'
    /\ (SendState.window_start s <= SendState.total_chunks s ->
        SendState.window_start s' <= SendState.total_chunks s').
Proof.
  destruct (handle_sack_same msg a t t' self s Hs)
    as (s' & H' & Ha & Hw & Ht & Hz & _).
  destruct (handle_sack_shape msg a t t' self s Hs)
    as (s'' & H'' & _ & He & _).
  rewrite H' in H''. injection H'' as <-.
  exists s'. split; [exact H'|]. rewrite Ha, Ht, Hz, He, Hw.
  split; [apply advance_acked|]. split; [by apply advance_exit|].
  split; [done|]. split; [lia|]. split; [lia|]. apply advance_le_total.
Qed.

Lemma handle_sack_window_witness :
  exists s',
    send_engine.active_sends
      (send_engine.handle_sack sack_zero peer 10 10 sender_started)
      !! SackMsg.bundle_id sack_zero = Some s'
    /\ (forall c, SendState.window_start started_state <= c
                  < SendState.window_start s' ->
                  c ∈ SendState.acked_chunks s' /\ c < SendState.total_chunks s')
    /\ ~ (SendState.window_start s' < SendState.total_chunks s'
          /\ SendState.window_start s' ∈ SendState.acked_chunks s')
    /\ SendState.window_end s'
       = Z.min (SendState.window_start s' + SendState.window_size s')
               (SendState.total_chunks s')
    /\ SendState.window_end s' <= SendState.total_chunks s'
    /\ SendState.window_end s' - SendState.window_start s'
       <= SendState.window_size s'
    /\ (SendState.window_start started_state
        <= SendState.total_chunks started_state ->
        SendState.window_start s' <= SendState.total_chunks s').
Proof.
  apply (handle_sack_window sack_zero peer 10 10 sender_started started_state).
  vm_compute. reflexivity.
Defined.

Lemma ack_loop_karn cfg t ids s :
  NoDup ids ->
  (forall c, c ∈ ids ->
     c ∈ SendState.retransmitted_chunks s
     \/ SendState.send_timestamps s !! c = None) ->
  same_rtt s (fold_left (send_engine.ack_one cfg t) ids s).
Proof.
  revert s. induction ids as [|cid ids IH]; intros s Hnd Hk.
  - apply same_rtt_refl.
  - cbn [fold_left]. apply NoDup_cons in Hnd as [Hfresh Hnd].
    assert (H1 : send_engine.ack_one cfg t s cid
                 = SendState.set_tracking
                     (delete cid (SendState.chunk_timers s))
                     (delete cid (SendState.send_timestamps s))
                     (SendState.retransmitted_chunks s ∖ {[cid]}) s).
    { unfold send_engine.ack_one.
      destruct (Hk cid) as [Hin|Hnone]; [apply list_elem_of_here| |].
      - destruct (SendState.send_timestamps s !! cid); [|done].
        by destruct (decide _).
      - by rewrite Hnone. }
    rewrite H1. eapply same_rtt_trans; [|apply IH; [done|]].
    + by repeat split.
    + intros c Hc. cbn.
      assert (c <> cid) by (intros ->; done).
      destruct (Hk c) as [Hin|Hnone]; [by apply list_elem_of_further| |].
      * left. set_solver.
      * right. by rewrite lookup_delete_ne.
Qed.

(** X8. Karn's rule.  If every chunk a SACK newly acknowledges has been
    retransmitted (or has no first-send timestamp), [handle_sack] takes no
    round-trip sample: the smoothed RTT and the RTT variance are what they
    were. *)
Theorem handle_sack_karn (msg : SackMsg.t) (a : addr) (t t' : Q)
    (self : send_engine.SendEngine) (s : SendState.t)
    (Hs : send_engine.active_sends self !! SackMsg.bundle_id msg = Some s)
    (Hretx : forall c, c ∈ SackMsg.acked_chunks msg ->
               c ∉ SendState.acked_chunks s ->
               c ∈ SendState.retransmitted_chunks s
               \/ SendState.send_timestamps s !! c = None) :
  exists s',
    send_engine.active_sends (send_engine.handle_sack msg a t t' self)
      !! SackMsg.bundle_id msg = Some s'
    /\ SendState.smoothed_rtt s' = SendState.smoothed_rtt s
    /\ SendState.rtt_variance s' = SendState.rtt_variance s.
Proof.
  destruct (handle_sack_shape msg a t t' self s Hs)
    as (s' & H' & _ & _ & Hsr & Hvr).
  exists s'. split; [exact H'|]. rewrite Hsr, Hvr.
  match goal with
  | |- context [fold_left ?f ?ids ?s0] =>
      pose proof (ack_loop_karn (send_engine.config self) t ids s0) as H
  end.
  destruct H as (_ & Hsr' & Hvr').
  - apply NoDup_elements.
  - intros c Hc. apply elem_of_elements, elem_of_difference in Hc as [Hin Hout].
    apply elem_of_list_to_set in Hin. cbn. by apply Hretx.
  - by rewrite Hsr', Hvr'.
Qed.

Lemma handle_sack_karn_witness :
  exists s',
    send_engine.active_sends
      (send_engine.handle_sack sack_zero peer 300 300 sender_retransmitted)
      !! SackMsg.bundle_id sack_zero = Some s'
    /\ SendState.smoothed_rtt s' = SendState.smoothed_rtt retransmitted_state
    /\ SendState.rtt_variance s' = SendState.rtt_variance retransmitted_state.
Proof.
  apply (handle_sack_karn sack_zero peer 300 300 sender_retransmitted
           retransmitted_state).
  - vm_compute. reflexivity.
  - intros c Hc _. apply list_elem_of_singleton in Hc as ->. left.
    apply (bool_decide_unpack _). vm_compute. exact I.
Defined.

(** ** What the sender puts on the wire *)

Lemma range2_elem lo hi c : c ∈ range2 lo hi <-> lo <= c < hi.
Proof.
  unfold range2. rewrite list_elem_of_fmap. split.
  - intros (i & -> & Hi). apply elem_of_seq in Hi. lia.
  - intros Hc. exists (Z.to_nat (c - lo)). split; [lia|].
    apply elem_of_seq. lia.
Qed.

Lemma range2_NoDup lo hi : NoDup (range2 lo hi).
Proof.
  unfold range2. apply NoDup_fmap_2; [|apply NoDup_seq].
  intros i j Hij. lia.
Qed.

Lemma send_one_step d dest now s net cid :
  let '(s', net') := send_engine.send_one d dest now (s, net) cid in
  (forall c, c <> cid ->
     SendState.chunk_timers s' !! c = SendState.chunk_timers s !! c)
  /\ (Net.calls net' = Net.calls net
      \/ exists call,
           Net.calls net' = Net.calls net ++ [call]
           /\ (cid ∉ SendState.acked_chunks s)
           /\ (forall deadline, SendState.chunk_timers s !! cid = Some deadline ->
                                (deadline <= now)%Q)
           /\ sends_chunk s d dest cid call).
Proof.
  unfold send_engine.send_one.
  destruct (decide (cid ∈ SendState.acked_chunks s)) as [|Hna]; [by auto|].
  destruct (match SendState.chunk_timers s !! cid with
            | Some deadline => Qlt_bool now deadline
            | None => false
            end) eqn:Hwait; [by auto|].
  destruct (d !! cid) as [chunk|] eqn:Hd; [|by auto].
  assert (Hdue : forall deadline,
            SendState.chunk_timers s !! cid = Some deadline ->
            (deadline <= now)%Q).
  { intros dl Hdl. rewrite Hdl in Hwait. unfold Qlt_bool in Hwait.
    apply negb_false_iff in Hwait. by apply Qle_bool_iff. }
  unfold Net.send. destruct (Net.accept net (length (Net.calls net))); cbn.
  - split; [intros c Hc; by rewrite lookup_insert_ne|].
    right. eexists. split; [reflexivity|]. split; [done|]. split; [done|].
    split; [done|]. exists chunk. by split.
  - split; [done|]. right. eexists. split; [reflexivity|].
    split; [done|]. split; [done|]. split; [done|]. exists chunk. by split.
Qed.

Lemma send_loop_calls d dest now ids s net :
  NoDup ids ->
  let '(s', net') := fold_left (send_engine.send_one d dest now) ids (s, net) in
  exists new,
    Net.calls net' = Net.calls net ++ new
    /\ (length new <= length ids)%nat
    /\ Forall (fun call =>
                 exists c, c ∈ ids
                   /\ (c ∉ SendState.acked_chunks s)
                   /\ (forall deadline,
                         SendState.chunk_timers s !! c = Some deadline ->
                         (deadline <= now)%Q)
                   /\ sends_chunk s d dest c call) new.
Proof.
  revert s net. induction ids as [|cid ids IH]; intros s net Hnd.
  - exists []. by rewrite app_nil_r.
  - cbn [fold_left]. apply NoDup_cons in Hnd as [Hfresh Hnd].
    pose proof (send_one_step d dest now s net cid) as H1.
    pose proof (send_one_frame d dest now s net cid) as [Hw _].
    destruct (send_engine.send_one d dest now (s, net) cid) as [s1 net1].
    destruct H1 as [Htimers Hcalls]. cbn in Hw.
    destruct Hw as (Ha & _ & _ & _ & Ht & _).
    specialize (IH s1 net1 Hnd).
    destruct (fold_left _ ids (s1, net1)) as [s' net'].
    destruct IH as (new & Hnew & Hlen & Hall).
    assert (Hall' : Forall (fun call =>
              exists c, c ∈ cid :: ids
                /\ (c ∉ SendState.acked_chunks s)
                /\ (forall deadline,
                      SendState.chunk_timers s !! c = Some deadline ->
                      (deadline <= now)%Q)
                /\ sends_chunk s d dest c call) new).
    { eapply Forall_impl; [exact Hall|]. cbn.
      intros call (c & Hc & Hna & Hdue & Hdest & chunk & Hd & Hmsg).
      exists c. split; [by apply list_elem_of_further|].
      rewrite Ha in Hna. split; [done|]. split.
      - intros dl Hdl. apply Hdue. rewrite Htimers; [done|]. by intros ->.
      - split; [done|]. exists chunk. split; [done|]. by rewrite <- Ht. }
    destruct Hcalls as [Hsame|(call & Hcall & Hna & Hdue & Hsend)].
    + exists new. rewrite Hnew, Hsame. split; [done|]. split; [cbn; lia|done].
    + exists (call :: new). rewrite Hnew, Hcall, <- app_assoc.
      split; [done|]. split; [cbn; lia|]. apply Forall_cons. split; [|done].
      exists cid. split; [apply list_elem_of_here | done].
Qed.

(** X9. [_send_window] puts on the wire only DATA messages of chunks that
    lie in the window [window_start, window_end), are not acked, and whose
    retransmit deadline, if any, has passed; it makes at most one call per
    chunk of the window, each to the given peer and built from the chunk
    dictionary of the bundle. *)
Theorem _send_window_calls (id : string) (dest : addr) (now : Q)
    (self : send_engine.SendEngine) (s : SendState.t)
    (Hs : send_engine.active_sends self !! id = Some s) :
  exists new,
    Net.calls (send_engine.network_send (send_engine._send_window id dest now self))
    = Net.calls (send_engine.network_send self) ++ new
    /\ len new <= Z.max 0 (SendState.window_end s - SendState.window_start s)
    /\ Forall (window_send s (send_engine.chunk_dict_for id self).1 dest now) new.
Proof.
  unfold send_engine._send_window. rewrite Hs.
  pose proof (chunk_dict_for_sends id self) as (_ & Hn & _).
  destruct (send_engine.chunk_dict_for id self) as [d self1]. cbn in Hn.
  pose proof (send_loop_calls d dest now
                (range2 (SendState.window_start s) (SendState.window_end s))
                s (send_engine.network_send self1) (range2_NoDup _ _)) as H.
  destruct (fold_left _ _ _) as [s' net'].
  destruct H as (new & Hnew & Hlen & Hall).
  exists new. cbn. rewrite Hnew, Hn. split; [done|]. split.
  - unfold range2 in Hlen. rewrite length_fmap, length_seq in Hlen.
    unfold len. lia.
  - eapply Forall_impl; [exact Hall|]. cbn.
    intros call (c & Hc & Hrest). exists c. by rewrite <- range2_elem.
Qed.

Lemma _send_window_calls_witness :
  exists new,
    Net.calls (send_engine.network_send
                 (send_engine._send_window "b1" peer 100 sender_started))
    = Net.calls (send_engine.network_send sender_started) ++ new
    /\ len new <= Z.max 0 (SendState.window_end started_state
                           - SendState.window_start started_state)
    /\ Forall (window_send started_state
                 (send_engine.chunk_dict_for "b1" sender_started).1 peer 100) new.
Proof.
  apply (_send_window_calls "b1" peer 100 sender_started started_state).
  vm_compute. reflexivity.
Defined.

Lemma retransmit_loop d dest now queue s net :
  let '(s', net') :=
    fold_left (send_engine.retransmit_one d dest now) queue (s, net) in
  same_window s s' /\ same_rtt s s'
  /\ SendState.retransmit_queue s' = SendState.retransmit_queue s
  /\ SendState.retransmitted_chunks s'
     ⊆ SendState.retransmitted_chunks s ∪ list_to_set queue
  /\ exists new,
       Net.calls net' = Net.calls net ++ new
       /\ Forall (fun call =>
                    exists c, c ∈ queue /\ (c ∉ SendState.acked_chunks s)
                              /\ sends_chunk s d dest c call) new.
Proof.
  revert s net. induction queue as [|cid queue IH]; intros s net.
  - cbn. split; [apply same_window_refl|]. split; [apply same_rtt_refl|].
    split; [done|]. split; [set_solver|]. exists []. by rewrite app_nil_r.
  - cbn [fold_left].
    assert (H1 : exists s1 net1,
      send_engine.retransmit_one d dest now (s, net) cid = (s1, net1)
      /\ same_window s s1 /\ same_rtt s s1
      /\ SendState.retransmit_queue s1 = SendState.retransmit_queue s
      /\ SendState.retransmitted_chunks s1
         ⊆ SendState.retransmitted_chunks s ∪ {[cid]}
      /\ (Net.calls net1 = Net.calls net
          \/ exists call, Net.calls net1 = Net.calls net ++ [call]
                          /\ (cid ∉ SendState.acked_chunks s)
                          /\ sends_chunk s d dest cid call)).
    { unfold send_engine.retransmit_one.
      destruct (decide (cid ∈ SendState.acked_chunks s)) as [|Hna].
      { eexists _, _. split; [reflexivity|]. repeat split; try done.
        - set_solver.
        - by left. }
      destruct (d !! cid) as [chunk|] eqn:Hd.
      2: { eexists _, _. split; [reflexivity|]. repeat split; try done.
           - set_solver.
           - by left. }
      unfold Net.send. destruct (Net.accept net (length (Net.calls net))).
      - eexists _, _. split; [reflexivity|]. cbn. repeat split; try done.
        right. eexists. split; [reflexivity|]. split; [done|].
        split; [done|]. exists chunk. by split.
      - eexists _, _. split; [reflexivity|]. cbn. repeat split; try done.
        + set_solver.
        + right. eexists. split; [reflexivity|]. split; [done|].
          split; [done|]. exists chunk. by split. }
    destruct H1 as (s1 & net1 & -> & Hw1 & Hr1 & Hq1 & Hx1 & Hcalls).
    specialize (IH s1 net1).
    destruct (fold_left _ queue (s1, net1)) as [s' net'].
    destruct IH as (Hw & Hr & Hq & Hx & new & Hnew & Hall).
    split; [by eapply same_window_trans|].
    split; [by eapply same_rtt_trans|].
    split; [congruence|]. split.
    { intros x Hin. apply Hx in Hin. cbn [list_to_set].
      rewrite elem_of_union in Hin.
      rewrite !elem_of_union, elem_of_singleton.
      destruct Hin as [Hin|Hin]; [|tauto].
      apply Hx1 in Hin. rewrite elem_of_union, elem_of_singleton in Hin.
      tauto. }
    destruct Hw1 as (Ha & _ & _ & _ & Ht & _).
    assert (Hall' : Forall (fun call =>
              exists c, c ∈ cid :: queue /\ (c ∉ SendState.acked_chunks s)
                        /\ sends_chunk s d dest c call) new).
    { eapply Forall_impl; [exact Hall|]. cbn.
      intros call (c & Hc & Hna & Hdest & chunk & Hd & Hmsg).
      exists c. split; [by apply list_elem_of_further|].
      rewrite Ha in Hna. split; [done|]. split; [done|].
      exists chunk. split; [done|]. by rewrite <- Ht. }
    destruct Hcalls as [Hsame|(call & Hcall & Hna & Hsend)].
    + exists new. by rewrite Hnew, Hsame.
    + exists (call :: new). rewrite Hnew, Hcall, <- app_assoc.
      split; [done|]. apply Forall_cons. split; [|done].
      exists cid. split; [apply list_elem_of_here | done].
Qed.

(** X10. [retransmit_chunks] drains the retransmit queue of a live bundle:
    the queue is empty afterwards; what went on the wire are DATA messages
    of queued chunks that are not acked, built from the rows of the store;
    a chunk is marked as retransmitted only if it was queued; the window,
    the acked set and the estimator are untouched.  A completed or unknown
    bundle is left alone. *)
Theorem retransmit_chunks_drains (id : string) (dest : addr) (now : Q)
    (self : send_engine.SendEngine) (s : SendState.t)
    (Hs : send_engine.active_sends self !! id = Some s) :
  let self' := send_engine.retransmit_chunks id dest now self in
  (SendState.completed s = true -> self' = self)
  /\ (SendState.completed s = false ->
      exists s' new,
        send_engine.active_sends self' !! id = Some s'
        /\ SendState.retransmit_queue s' = []
        /\ same_window s s' /\ same_rtt s s'
        /\ SendState.retransmitted_chunks s'
           ⊆ SendState.retransmitted_chunks s
             ∪ list_to_set (SendState.retransmit_queue s)
        /\ Net.calls (send_engine.network_send self')
           = Net.calls (send_engine.network_send self) ++ new
        /\ Forall (queue_send s
                     (send_engine.by_chunk_id
                        (storage.load_chunks_for_bundle id
                           (send_engine.storage self))) dest) new).
Proof.
  cbv zeta. unfold send_engine.retransmit_chunks. rewrite Hs.
  destruct (SendState.completed s) eqn:Hc; (split; [done|]); [done|].
  intros _.
  pose proof (retransmit_loop
                (send_engine.by_chunk_id
                   (storage.load_chunks_for_bundle id (send_engine.storage self)))
                dest now (SendState.retransmit_queue s) s
                (send_engine.network_send self)) as H.
  destruct (fold_left _ _ _) as [s' net'].
  destruct H as (Hw & Hr & Hq & Hx & new & Hnew & Hall).
  eexists _, new. split; [apply lookup_insert_eq|]. cbn.
  repeat split; try apply Hw; try apply Hr; try done.
Qed.

Lemma retransmit_chunks_drains_witness :
  let self := send_engine.check_timeouts 100 sender_started in
  let s := default started_state (send_engine.active_sends self !! "b1") in
  let self' := send_engine.retransmit_chunks "b1" peer 100 self in
  (SendState.completed s = true -> self' = self)
  /\ (SendState.completed s = false ->
      exists s' new,
        send_engine.active_sends self' !! "b1" = Some s'
        /\ SendState.retransmit_queue s' = []
        /\ same_window s s' /\ same_rtt s s'
        /\ SendState.retransmitted_chunks s'
           ⊆ SendState.retransmitted_chunks s
             ∪ list_to_set (SendState.retransmit_queue s)
        /\ Net.calls (send_engine.network_send self')
           = Net.calls (send_engine.network_send self) ++ new
        /\ Forall (queue_send s
                     (send_engine.by_chunk_id
                        (storage.load_chunks_for_bundle "b1"
                           (send_engine.storage self))) peer) new).
Proof.
  apply (retransmit_chunks_drains "b1" peer 100
           (send_engine.check_timeouts 100 sender_started)).
  vm_compute. reflexivity.
Defined.

(** ** The receiver's view of the FEC layout *)

(** X11. The receiver recovers the sender's layout.  A sender that cuts a
    file into [n >= 1] data chunks and adds [r] parity chunks to each of
    the [ceil(n / k)] blocks announces [total_chunks = n + r * ceil(n / k)];
    from that number [_infer_block_and_data_count] returns exactly
    [(ceil(n / k), n)].  Whatever it returns, the block count [B] it names
    lies in [1, total_chunks] and satisfies
    [k * (B - 1) < total_chunks - r * B <= k * B]. *)
Theorem _infer_block_and_data_count_layout (n k r : Z)
    (Hn : 1 <= n) (Hk : 1 <= k) (Hr : 0 <= r) :
  receive_engine._infer_block_and_data_count (n + r * ceil_div n k) k r
  = Some (ceil_div n k, n)
  /\ forall total B num_data,
       receive_engine._infer_block_and_data_count total k r = Some (B, num_data) ->
       1 <= B <= total /\ num_data = total - r * B /\ 0 < num_data
       /\ k * (B - 1) < num_data <= k * B.
Proof.
  split.
  - pose proof (ceil_div_spec n k ltac:(lia)) as Hc.
    set (B := ceil_div n k) in *.
    assert (HB : 1 <= B) by nia.
    assert (HBn : B <= n) by nia.
    unfold receive_engine._infer_block_and_data_count.
    destruct (list_find _ _) as [[i B']|] eqn:Hfind.
    + apply list_find_Some in Hfind as (Hi & (Hpos & Hlo & Hhi) & Hfirst).
      unfold range2 in Hi. rewrite list_lookup_fmap in Hi.
      destruct (seq _ _ !! i) as [i'|] eqn:Hseq; [|done].
      apply lookup_seq in Hseq as [-> Hlt]. cbn in Hi. injection Hi as <-.
      cbn in Hpos, Hlo, Hhi.
      assert (Hle : 1 + Z.of_nat i <= B).
      { destruct (Z.le_gt_cases (1 + Z.of_nat i) B) as [|Hgt]; [done|].
        exfalso.
        apply (Hfirst (Z.to_nat (B - 1)) B); [| lia |].
        - unfold range2. rewrite list_lookup_fmap.
          rewrite (lookup_seq_lt _ _ (Z.to_nat (B - 1))) by lia. cbn.
          f_equal. lia.
        - cbn. split; [nia|]. split; nia. }
      assert (Heq : 1 + Z.of_nat i = B) by nia.
      rewrite Heq. f_equal. f_equal. lia.
    + exfalso. apply list_find_None in Hfind.
      rewrite Forall_forall in Hfind. apply (Hfind B).
      * unfold range2. apply list_elem_of_fmap. exists (Z.to_nat (B - 1)).
        split; [lia|]. apply elem_of_seq. nia.
      * cbn. split; [nia|]. split; nia.
  - intros total B num_data Hret.
    unfold receive_engine._infer_block_and_data_count in Hret.
    destruct (list_find _ _) as [[i B']|] eqn:Hfind; [|done].
    injection Hret as <- <-.
    apply list_find_Some in Hfind as (Hi & (Hpos & Hlo & Hhi) & _).
    unfold range2 in Hi. rewrite list_lookup_fmap in Hi.
    destruct (seq _ _ !! i) as [i'|] eqn:Hseq; [|done].
    apply lookup_seq in Hseq as [-> Hlt]. cbn in Hi. injection Hi as <-.
    cbn in Hpos, Hlo, Hhi. repeat split; lia.
Qed.

Lemma _infer_block_and_data_count_layout_witness :
  receive_engine._infer_block_and_data_count (10 + 2 * ceil_div 10 4) 4 2
  = Some (ceil_div 10 4, 10)
  /\ forall total B num_data,
       receive_engine._infer_block_and_data_count total 4 2 = Some (B, num_data) ->
       1 <= B <= total /\ num_data = total - 2 * B /\ 0 < num_data
       /\ 4 * (B - 1) < num_data <= 4 * B.
Proof.
  apply (_infer_block_and_data_count_layout 10 4 2); lia.
Defined.

(** ** Chunking is lossless *)

Lemma slice_take_drop {A} (l : list A) lo hi :
  0 <= lo -> lo <= hi -> hi <= len l ->
  slice l lo hi = take (Z.to_nat (hi - lo)) (drop (Z.to_nat lo) l).
Proof.
  intros Hlo Hle Hhi. unfold slice, slice_index.
  destruct (Z.ltb_spec lo 0); [lia|]. destruct (Z.ltb_spec hi 0); [lia|].
  rewrite (Z.min_r (len l) lo), (Z.max_r 0 lo) by lia.
  rewrite (Z.min_r (len l) hi), (Z.max_r 0 hi) by lia. done.
Qed.

Lemma data_payload_take_drop (file_data : bytes) cs i :
  1 <= cs -> 0 <= i -> i * cs <= len file_data ->
  slice file_data (i * cs) (Z.min (i * cs + cs) (len file_data))
  = take (Z.to_nat cs) (drop (Z.to_nat (i * cs)) file_data).
Proof.
  intros Hcs Hi Hle. rewrite slice_take_drop by lia.
  destruct (Z.le_gt_cases (i * cs + cs) (len file_data)) as [H|H].
  - rewrite Z.min_l by lia. f_equal. lia.
  - rewrite Z.min_r by lia.
    rewrite !take_ge; [done| |]; rewrite length_drop; unfold len in *; lia.
Qed.

Lemma concat_payloads (file_data : bytes) cs (m : nat) :
  1 <= cs -> (Z.of_nat m - 1) * cs < len file_data \/ m = 0%nat ->
  concat ((fun i : nat =>
             slice file_data (Z.of_nat i * cs)
                   (Z.min (Z.of_nat i * cs + cs) (len file_data)))
          <$> seq 0 m)
  = take (Z.to_nat (Z.of_nat m * cs)) file_data.
Proof.
  intros Hcs. induction m as [|m IH]; intros Hm; [done|].
  rewrite seq_S, fmap_app, concat_app. cbn [fmap list_fmap concat Nat.add].
  rewrite app_nil_r, IH by (destruct m; [by right | left; nia]).
  rewrite data_payload_take_drop by nia.
  rewrite take_take_drop. f_equal. nia.
Qed.

Lemma generate_fec_parity fec data id c :
  c ∈ send_engine._generate_fec_chunks fec data id -> Chunk.is_parity c = true.
Proof.
  unfold send_engine._generate_fec_chunks.
  destruct (_ || _); [by intros ?%elem_of_nil|].
  intros Hc. apply list_elem_of_In, in_concat in Hc as (blk & Hblk & Hc).
  apply list_elem_of_In, list_elem_of_fmap in Hblk as (start & -> & _).
  apply list_elem_of_In in Hc.
  unfold send_engine.parity_block in Hc.
  destruct (slice data start _); [by apply elem_of_nil in Hc|].
  by apply list_elem_of_fmap in Hc as (j & -> & _).
Qed.

Lemma filter_all {A} (P : A -> Prop) `{!forall x, Decision (P x)} (l : list A) :
  Forall P l -> filter P l = l.
Proof.
  induction 1 as [|x l Hx _ IH]; [done|].
  by rewrite filter_cons_True, IH.
Qed.

Lemma filter_none {A} (P : A -> Prop) `{!forall x, Decision (P x)} (l : list A) :
  Forall (fun x => ~ P x) l -> filter P l = [].
Proof.
  induction 1 as [|x l Hx _ IH]; [done|].
  by rewrite filter_cons_False, IH.
Qed.

Lemma filter_data_chunks (data parity : list Chunk.t) :
  Forall (fun c => Chunk.is_parity c = false) data ->
  Forall (fun c => Chunk.is_parity c = true) parity ->
  filter (fun c => Chunk.is_parity c = false) (data ++ parity) = data.
Proof.
  intros Hd Hp. rewrite filter_app, (filter_all _ data Hd).
  rewrite (filter_none _ parity); [by rewrite app_nil_r|].
  eapply Forall_impl; [exact Hp|]. cbn. intros c ->. done.
Qed.

(** X12. Chunking loses nothing.  For [chunk_size >= 1] the chunks of
    [_create_chunks] that are not parity chunks are numbered [0, 1, ...]
    in order, carry the bundle id and the CRC-32 of their payload, hold
    between 1 and [chunk_size] octets each (exactly [chunk_size] for all
    but the last), and their payloads concatenated in order are the file,
    with or without FEC. *)
Theorem _create_chunks_lossless (cfg : config.TransferConfig)
    (fec : config.FECConfig) (file_data : bytes) (id : string)
    (fec_enabled : bool)
    (Hsize : 1 <= config.chunk_size cfg) :
  exists chunks,
    send_engine._create_chunks cfg fec file_data id fec_enabled = inr chunks
    /\ let data := filter (fun c => Chunk.is_parity c = false) chunks in
       concat (Chunk.payload <$> data) = file_data
       /\ len data = ceil_div (len file_data) (config.chunk_size cfg)
       /\ forall i c, data !! i = Some c ->
            Chunk.chunk_id c = Z.of_nat i
            /\ Chunk.bundle_id c = id
            /\ Chunk.checksum c = Z.land (zlib.crc32 (Chunk.payload c)) 0xFFFFFFFF
            /\ 1 <= len (Chunk.payload c) <= config.chunk_size cfg
            /\ (Z.of_nat i + 1 < len data ->
                len (Chunk.payload c) = config.chunk_size cfg).
Proof.
  set (cs := config.chunk_size cfg) in *.
  pose proof (ceil_div_spec (len file_data) cs ltac:(lia)) as Hn.
  pose proof (len_nonneg file_data) as Hlen.
  assert (Hn0 : 0 <= ceil_div (len file_data) cs)
    by (apply ceil_div_nonneg; lia).
  set (n := ceil_div (len file_data) cs) in *.
  set (data := send_engine.data_chunk cfg fec file_data id fec_enabled <$> range n).
  assert (Hfilter : forall parity,
            Forall (fun c => Chunk.is_parity c = true) parity ->
            filter (fun c => Chunk.is_parity c = false) (data ++ parity) = data).
  { intros parity Hp. apply filter_data_chunks; [|done].
    apply Forall_fmap, Forall_forall. done. }
  assert (Hdata : concat (Chunk.payload <$> data) = file_data
            /\ len data = n
            /\ forall i c, data !! i = Some c ->
                 Chunk.chunk_id c = Z.of_nat i
                 /\ Chunk.bundle_id c = id
                 /\ Chunk.checksum c
                    = Z.land (zlib.crc32 (Chunk.payload c)) 0xFFFFFFFF
                 /\ 1 <= len (Chunk.payload c) <= cs
                 /\ (Z.of_nat i + 1 < len data -> len (Chunk.payload c) = cs)).
  { assert (Hl : len data = n) by (unfold data; by rewrite len_fmap, len_range).
    split; [|split; [done|]].
    - unfold data, range. rewrite <- !list_fmap_compose.
      assert (Hfull : take (Z.to_nat (Z.of_nat (Z.to_nat n) * cs)) file_data
                      = file_data)
        by (apply take_ge; unfold len in *; lia).
      etrans; [|exact Hfull].
      etrans; [|apply (concat_payloads file_data cs (Z.to_nat n) ltac:(lia))].
      + f_equal.
      + destruct (decide (n = 0)) as [->|]; [by right | left; lia].
    - intros i c Hc. unfold data in Hc. rewrite list_lookup_fmap in Hc.
      destruct (range n !! i) as [i'|] eqn:Hi; [|done].
      assert (Hlt : (i < Z.to_nat n)%nat).
      { apply lookup_lt_Some in Hi. by rewrite range_length in Hi. }
      rewrite range_lookup in Hi by done. injection Hi as <-.
      cbn in Hc. injection Hc as <-. cbn.
      split; [done|]. split; [done|]. split; [done|].
      fold cs. rewrite data_payload_take_drop by nia.
      rewrite Hl.
      assert (Hpl : len (take (Z.to_nat cs)
                      (drop (Z.to_nat (Z.of_nat i * cs)) file_data))
                    = Z.min cs (len file_data - Z.of_nat i * cs)).
      { unfold len. rewrite length_take, length_drop. unfold len in *. nia. }
      rewrite Hpl. split; [nia|]. intros Hnext. nia. }
  unfold send_engine._create_chunks. fold cs.
  destruct (Z.eqb_spec cs 0) as [|_]; [lia|].
  rewrite <- (ceil_div_eq (len file_data) cs) by lia. fold n. fold data.
  destruct (fec_enabled && _ && _ && _).
  - eexists. split; [reflexivity|]. cbv zeta.
    rewrite Hfilter; [exact Hdata|].
    apply Forall_forall. intros c Hc. by eapply generate_fec_parity.
  - eexists. split; [reflexivity|]. cbv zeta.
    rewrite <- (app_nil_r data), Hfilter by done. exact Hdata.
Qed.

Lemma _create_chunks_lossless_witness :
  exists chunks,
    send_engine._create_chunks lab_transfer xor_fec (b "AAAABB") "b2" true
    = inr chunks
    /\ let data := filter (fun c => Chunk.is_parity c = false) chunks in
       concat (Chunk.payload <$> data) = b "AAAABB"
       /\ len data = ceil_div (len (b "AAAABB")) (config.chunk_size lab_transfer)
       /\ forall i c, data !! i = Some c ->
            Chunk.chunk_id c = Z.of_nat i
            /\ Chunk.bundle_id c = "b2"%string
            /\ Chunk.checksum c = Z.land (zlib.crc32 (Chunk.payload c)) 0xFFFFFFFF
            /\ 1 <= len (Chunk.payload c) <= config.chunk_size lab_transfer
            /\ (Z.of_nat i + 1 < len data ->
                len (Chunk.payload c) = config.chunk_size lab_transfer).
Proof.
  apply (_create_chunks_lossless lab_transfer xor_fec (b "AAAABB") "b2" true).
  vm_compute. discriminate.
Defined.

(** ** XOR parity *)

Lemma longest_le (payloads : list bytes) (m : nat) :
  Forall (fun p => (length p <= m)%nat) payloads ->
  (longest payloads <= m)%nat.
Proof.
  unfold longest. induction 1 as [|p l Hp _ IH]; cbn; lia.
Qed.

Lemma parity_recovers_missing_lemma (pre post : list Chunk.t) (x : Chunk.t) :
  (forall c, c ∈ pre ++ post ->
     (length (Chunk.payload c) <= length (Chunk.payload x))%nat) ->
  receive_engine._xor_bytes (send_engine._xor_chunks (pre ++ x :: post))
    (Chunk.payload <$> (pre ++ post))
  = Chunk.payload x
  /\ forall y : Chunk.t,
       receive_engine._xor_bytes (send_engine._xor_chunks (pre ++ y :: post))
         (Chunk.payload <$> (pre ++ post))
       = Chunk.payload y
         ++ replicate (longest (Chunk.payload <$> (pre ++ y :: post))
                       - length (Chunk.payload y)) x00.
Proof.
  intros Hlen. split.
  - rewrite _xor_chunks_stripe, !fmap_app, fmap_cons.
    apply xor_reconstruction_exact.
    rewrite <- fmap_cons, <- fmap_app. apply longest_le.
    apply Forall_fmap, Forall_forall. intros c Hc. cbn.
    apply elem_of_app in Hc as [Hc|Hc].
    + apply Hlen, elem_of_app. by left.
    + apply elem_of_cons in Hc as [->|Hc]; [done|].
      apply Hlen, elem_of_app. by right.
  - intros y. rewrite _xor_chunks_stripe, !fmap_app, fmap_cons.
    apply xor_reconstruction.
Qed.


(** X13. One lost chunk per block is recovered.  The parity the sender
    computes with [_xor_chunks] over a block, XOR-ed by the receiver's
    [_xor_bytes] with the payloads of all chunks of the block but one,
    gives that chunk's payload followed by zero octets up to the length of
    the longest payload of the block; so when no chunk of the block is
    longer than the missing one, the payload is recovered exactly. *)
Theorem parity_recovers_missing (pre post : list Chunk.t) (x : Chunk.t)
    (Hlen : forall c, c ∈ pre ++ post ->
              (length (Chunk.payload c) <= length (Chunk.payload x))%nat) :
  receive_engine._xor_bytes (send_engine._xor_chunks (pre ++ x :: post))
    (Chunk.payload <$> (pre ++ post))
  = Chunk.payload x
  /\ forall y : Chunk.t,
       receive_engine._xor_bytes (send_engine._xor_chunks (pre ++ y :: post))
         (Chunk.payload <$> (pre ++ post))
       = Chunk.payload y
         ++ replicate (longest (Chunk.payload <$> (pre ++ y :: post))
                       - length (Chunk.payload y)) x00.
Proof. by apply parity_recovers_missing_lemma. Qed.

Lemma parity_recovers_missing_witness :
  let c0 := send_engine.data_chunk lab_transfer xor_fec (b "AAAABBBB") "b3" true 0 in
  let c1 := send_engine.data_chunk lab_transfer xor_fec (b "AAAABBBB") "b3" true 1 in
  receive_engine._xor_bytes (send_engine._xor_chunks ([c0] ++ c1 :: []))
    (Chunk.payload <$> ([c0] ++ []))
  = Chunk.payload c1
  /\ forall y : Chunk.t,
       receive_engine._xor_bytes (send_engine._xor_chunks ([c0] ++ y :: []))
         (Chunk.payload <$> ([c0] ++ []))
       = Chunk.payload y
         ++ replicate (longest (Chunk.payload <$> ([c0] ++ y :: []))
                       - length (Chunk.payload y)) x00.
Proof.
  apply (parity_recovers_missing
           [send_engine.data_chunk lab_transfer xor_fec (b "AAAABBBB") "b3" true 0]
           []
           (send_engine.data_chunk lab_transfer xor_fec (b "AAAABBBB") "b3" true 1)).
  intros c Hc. rewrite app_nil_r in Hc.
  apply list_elem_of_singleton in Hc as ->. vm_compute. lia.
Defined.

(** ** Duplicates at the receiver *)

Lemma handle_data_received msg a self :
  exists state,
    receive_engine.active_receives (receive_engine.handle_data msg a self)
      !! DataMsg.bundle_id msg = Some state
    /\ DataMsg.chunk_id msg ∈ ReceiveState.received_chunks state.
Proof.
  unfold receive_engine.handle_data.
  destruct (match receive_engine.active_receives self !! DataMsg.bundle_id msg with
            | Some state => (state, receive_engine.env_of self)
            | None => _
            end) as [state w].
  destruct (decide (DataMsg.chunk_id msg ∈ ReceiveState.received_chunks state))
    as [Hin|Hnew].
  - exists state. split; [apply lookup_insert_eq | done].
  - pose proof (accept_chunk_stores msg a state w) as H.
    destruct (receive_engine.accept_chunk msg a state w) as [state' w'].
    destruct H as (Hin & _). exists state'.
    split; [apply lookup_insert_eq | done].
Qed.

(** X14. A DATA message that arrives a second time changes nothing at the
    receiver but the network: the receive states, the store, the disk and
    the entropy source are as the first arrival left them, and exactly one
    message is sent, the SACK for the set of chunks received so far, to
    the sender of the duplicate. *)
Theorem handle_data_duplicate (msg : DataMsg.t) (a a' : addr)
    (self : receive_engine.ReceiveEngine) :
  let self1 := receive_engine.handle_data msg a self in
  let self2 := receive_engine.handle_data msg a' self1 in
  receive_engine.active_receives self2 = receive_engine.active_receives self1
  /\ receive_engine.storage self2 = receive_engine.storage self1
  /\ receive_engine.disk self2 = receive_engine.disk self1
  /\ receive_engine.entropy self2 = receive_engine.entropy self1
  /\ exists state,
       receive_engine.active_receives self1 !! DataMsg.bundle_id msg = Some state
       /\ Net.calls (receive_engine.network_send self2)
          = Net.calls (receive_engine.network_send self1)
            ++ [(protocol.make_sack_msg (DataMsg.bundle_id msg)
                   (protocol.sorted (ReceiveState.received_chunks state)), a')].
Proof.
  cbv zeta.
  destruct (handle_data_received msg a self) as (state & Hstate & Hin).
  set (self1 := receive_engine.handle_data msg a self) in *.
  unfold receive_engine.handle_data at 1 2 3 4 5. rewrite Hstate.
  destruct (decide (DataMsg.chunk_id msg ∈ ReceiveState.received_chunks state));
    [|done].
  cbn. split; [by apply insert_id|]. split; [done|]. split; [done|].
  split; [done|]. exists state. split; [done|]. done.
Qed.

(** ** Delivery of a whole bundle *)

Lemma load_bundle_save_chunks_bulk id l db :
  storage.load_bundle id (storage.save_chunks_bulk l db)
  = storage.load_bundle id db.
Proof.
  unfold storage.save_chunks_bulk. destruct l as [|c l]; [done|].
  unfold storage.load_bundle. rewrite view_commit.
  generalize (storage.view db). generalize (c :: l). clear.
  intros l. induction l as [|c l IH]; intros t; [done|]. cbn. by rewrite IH.
Qed.

Lemma delivered_calls_send_sack id state a w :
  delivered_calls (receive_engine.net (receive_engine._send_sack id state a w))
  = delivered_calls (receive_engine.net w).
Proof.
  unfold receive_engine._send_sack, receive_engine.send, delivered_calls,
    protocol.make_sack_msg.
  destruct (protocol._compute_sack_window _). cbn.
  by rewrite List.filter_app, app_nil_r.
Qed.

Lemma all_ids_elem n j : j ∈ all_ids n <-> 0 <= j < n.
Proof.
  unfold all_ids, range. rewrite elem_of_list_to_set, list_elem_of_fmap.
  split.
  - intros (i & -> & Hi). apply elem_of_seq in Hi. lia.
  - intros Hj. exists (Z.to_nat j). split; [lia|]. apply elem_of_seq. lia.
Qed.

Lemma omap_all {A B} (f : A -> option B) (g : A -> B) (l : list A) :
  (forall x, x ∈ l -> f x = Some (g x)) -> omap f l = g <$> l.
Proof.
  induction l as [|x l IH]; intros H; [done|]. cbn.
  rewrite (H x) by apply list_elem_of_here. cbn. f_equal.
  apply IH. intros y Hy. apply H. by apply list_elem_of_further.
Qed.

Lemma range_elem n j : j ∈ range n <-> 0 <= j < n.
Proof. rewrite <- all_ids_elem. unfold all_ids. by rewrite elem_of_list_to_set. Qed.

Lemma load_bundle_update_state id st db :
  storage.load_bundle id (storage.update_bundle_state id st db)
  = Bundle.with_state st <$> storage.load_bundle id db.
Proof.
  unfold storage.load_bundle, storage.update_bundle_state.
  rewrite view_commit. cbn. by rewrite lookup_alter_eq.
Qed.

Lemma _maybe_deliver_plain id n payload path a base ids state w :
  1 <= n ->
  receiving id n payload path ids state ->
  ReceiveState.delivered state = false ->
  Disk.writable (receive_engine.fs w) path = true ->
  is_Some (storage.load_bundle id (receive_engine.db w)) ->
  delivered_calls (receive_engine.net w) = base ->
  exists state' w',
    receive_engine._maybe_deliver state a w = (state', w')
    /\ receiving id n payload path ids state'
    /\ delivery id n payload path a base ids (ReceiveState.delivered state') w'.
Proof.
  intros Hn (Hid & Htot & Hnum & Hfec & Hpath & Hrecv & Hsub & Hdata)
    Hdel Hw [row Hrow] Hbase.
  unfold receive_engine._maybe_deliver. rewrite Hdel, Hnum, Htot.
  replace (if n =? 0 then n else n) with n by (by destruct (n =? 0)).
  destruct (decide (ids = all_ids n)) as [Hfull|Hpart].
  - rewrite (filter_none _ (range n)).
    2: { apply Forall_forall. intros j Hj Hmiss. apply Hmiss.
         rewrite Hdata, decide_True; [done|].
         rewrite Hfull. by apply all_ids_elem, range_elem. }
    rewrite (omap_all _ payload).
    2: { intros j Hj. rewrite Hdata, decide_True; [done|].
         rewrite Hfull. by apply all_ids_elem, range_elem. }
    unfold Disk.write. rewrite Hpath, Hw. cbn.
    eexists _, _. split; [reflexivity|]. split.
    { by repeat split. }
    split; [done|]. split; [|done]. intros _. cbn.
    split; [done|]. split; [apply lookup_insert_eq|]. split.
    + rewrite Hid, load_bundle_update_state, Hrow. done.
    + unfold delivered_calls in *. cbn.
      rewrite !List.filter_app, Hbase, Hid. cbn. by rewrite app_nil_r.
  - destruct (filter _ (range n)) as [|j0 rest] eqn:Hmissing.
    + exfalso. apply Hpart. apply set_eq. intros j. split; [apply Hsub|].
      intros Hj. apply all_ids_elem, range_elem in Hj.
      destruct (decide (j ∈ ids)) as [|Hnot]; [done|]. exfalso.
      assert (Hin : j ∈ filter
                (fun cid => ~ is_Some (ReceiveState.data_chunks state !! cid))
                (range n)).
      { apply list_elem_of_filter. split; [|done].
        rewrite Hdata, decide_False by done. by intros [? ?]. }
      rewrite Hmissing in Hin. by apply elem_of_nil in Hin.
    + eexists _, _. split; [reflexivity|]. split.
      { by repeat split. }
      split; [done|]. split; [done|]. intros _.
      split; [done|]. split; [by exists row | done].
Qed.

Lemma receiving_accept enabled id n payload path ids m state state' :
  receiving id n payload path ids state ->
  plain_msg enabled id n payload m ->
  ReceiveState.bundle_id state' = ReceiveState.bundle_id state
  /\ ReceiveState.total_chunks state' = ReceiveState.total_chunks state
  /\ ReceiveState.num_data_chunks state' = ReceiveState.num_data_chunks state
  /\ ReceiveState.fec_enabled state' = ReceiveState.fec_enabled state
  /\ ReceiveState.output_path state' = ReceiveState.output_path state
  /\ ReceiveState.received_chunks state'
     = ReceiveState.received_chunks state ∪ {[DataMsg.chunk_id m]}
  /\ ReceiveState.data_chunks state'
     = <[DataMsg.chunk_id m := DataMsg.payload m]>
         (ReceiveState.data_chunks state) ->
  receiving id n payload path (ids ∪ {[DataMsg.chunk_id m]}) state'.
Proof.
  intros (Hid & Htot & Hnum & Hfec & Hpath & Hrecv & Hsub & Hdata)
    (Hmid & Hmj & Hmtot & Hoff & Hmp)
    (Hid' & Htot' & Hnum' & Hfec' & Hpath' & Hrecv' & Hdata').
  unfold receiving. rewrite Hid', Htot', Hnum', Hfec', Hpath', Hrecv', Hdata'.
  repeat split; try done.
  - by rewrite Hrecv.
  - intros j Hj. apply elem_of_union in Hj as [Hj|Hj]; [by apply Hsub|].
    apply elem_of_singleton in Hj as ->. by apply all_ids_elem.
  - intros j. destruct (decide (j = DataMsg.chunk_id m)) as [->|Hne].
    + rewrite lookup_insert_eq, decide_True, Hmp; [done|].
      apply elem_of_union. right. by apply elem_of_singleton.
    + rewrite lookup_insert_ne, Hdata by done.
      destruct (decide (j ∈ ids)) as [Hin|Hout].
      * rewrite decide_True; [done|]. apply elem_of_union. by left.
      * rewrite decide_False; [done|].
        intros [?|?%elem_of_singleton]%elem_of_union; done.
Qed.

Lemma accept_chunk_plain_pre enabled id n payload path base ids m a state w :
  receiving id n payload path ids state ->
  plain_msg enabled id n payload m ->
  is_Some (storage.load_bundle id (receive_engine.db w)) ->
  delivered_calls (receive_engine.net w) = base ->
  exists state2 w2,
    receive_engine.accept_chunk m a state w
    = receive_engine._maybe_deliver state2 a w2
    /\ receiving id n payload path (ids ∪ {[DataMsg.chunk_id m]}) state2
    /\ ReceiveState.delivered state2 = ReceiveState.delivered state
    /\ receive_engine.fs w2 = receive_engine.fs w
    /\ is_Some (storage.load_bundle id (receive_engine.db w2))
    /\ delivered_calls (receive_engine.net w2) = base.
Proof.
  intros Hrec Hmsg Hrow Hbase.
  pose proof Hrec as (Hid & Htot & Hnum & Hfec & Hpath & Hrecv & Hsub & Hdata).
  unfold receive_engine.accept_chunk.
  cbn [ReceiveState.fec_enabled ReceiveState.set_received_chunks
       ReceiveState.set_data_chunks ReceiveState.set_write_buffer
       ReceiveState.k ReceiveState.num_data_chunks].
  rewrite Hfec. cbn [andb].
  cbn [ReceiveState.fec_enabled ReceiveState.set_received_chunks
       ReceiveState.set_data_chunks ReceiveState.set_write_buffer
       ReceiveState.k ReceiveState.num_data_chunks].
  rewrite Hfec.
  match goal with
  | |- context [let '(_, _) := (if ?c then _ else _) in _] => destruct c
  end;
  match goal with
  | |- context [if ?c then receive_engine._send_sack _ _ _ _ else _] =>
      destruct c
  end;
  (eexists _, _; split; [reflexivity|];
   split; [by eapply receiving_accept|];
   split; [done|]; split; [done|];
   rewrite ?delivered_calls_send_sack; cbn;
   rewrite ?load_bundle_save_chunks_bulk; done).
Qed.

Lemma accept_chunk_plain enabled id n payload path a base ids m state w :
  1 <= n ->
  receiving id n payload path ids state ->
  ReceiveState.delivered state = false ->
  plain_msg enabled id n payload m ->
  Disk.writable (receive_engine.fs w) path = true ->
  is_Some (storage.load_bundle id (receive_engine.db w)) ->
  delivered_calls (receive_engine.net w) = base ->
  exists state' w',
    receive_engine.accept_chunk m a state w = (state', w')
    /\ receiving id n payload path (ids ∪ {[DataMsg.chunk_id m]}) state'
    /\ delivery id n payload path a base (ids ∪ {[DataMsg.chunk_id m]})
         (ReceiveState.delivered state') w'.
Proof.
  intros Hn Hrec Hdel Hmsg Hw Hrow Hbase.
  destruct (accept_chunk_plain_pre enabled id n payload path base ids m a state w
              Hrec Hmsg Hrow Hbase)
    as (state2 & w2 & -> & Hrec2 & Hdel2 & Hfs & Hrow2 & Hbase2).
  apply _maybe_deliver_plain; try done; congruence.
Qed.

Lemma env_of_put id state w self :
  receive_engine.env_of (receive_engine.put id state w self) = w.
Proof. by destruct w. Qed.

Lemma handle_data_plain_step enabled id n payload dir a base ids m self :
  1 <= n ->
  receiver_at enabled id n payload dir a base ids self ->
  plain_msg enabled id n payload m ->
  receiver_at enabled id n payload dir a base (ids ∪ {[DataMsg.chunk_id m]})
    (receive_engine.handle_data m a self).
Proof.
  intros Hn (Hdir & Hswitch & Hat) Hmsg.
  pose proof Hmsg as (Hmid & Hmj & Hmtot & Hoff & Hmp).
  unfold receive_engine.handle_data. rewrite Hmid.
  destruct (receive_engine.active_receives self !! id) as [state|] eqn:Hlook.
  - destruct Hat as [Hrec Hdeliv].
    pose proof Hrec as (_ & _ & _ & _ & _ & Hrecv & _).
    destruct (decide (DataMsg.chunk_id m ∈ ReceiveState.received_chunks state))
      as [Hdup|Hnew].
    + rewrite Hrecv in Hdup.
      replace (ids ∪ {[DataMsg.chunk_id m]}) with ids.
      2: { apply set_eq. intros j. rewrite elem_of_union, elem_of_singleton.
           split; [by left | by intros [?| ->]]. }
      split; [done|]. split; [done|]. rewrite env_of_put.
      cbn [receive_engine.active_receives receive_engine.put].
      rewrite lookup_insert_eq. split; [done|].
      destruct Hdeliv as (Hw & Hfull & Hpart).
      unfold delivery. rewrite delivered_calls_send_sack. done.
    + rewrite Hrecv in Hnew.
      destruct Hdeliv as (Hw & Hfull & Hpart).
      destruct Hpart as (Hdel & Hrow & Hbase).
      { intros ->. apply Hnew. by apply all_ids_elem. }
      destruct (accept_chunk_plain enabled id n payload
                  (receive_engine.output_path_of dir id) a base ids m state
                  (receive_engine.env_of self) Hn Hrec Hdel Hmsg Hw Hrow Hbase)
        as (state' & w' & -> & Hrec' & Hdeliv').
      split; [done|]. split; [done|]. rewrite env_of_put.
      cbn [receive_engine.active_receives receive_engine.put].
      rewrite lookup_insert_eq. done.
  - destruct Hat as (-> & Hw & Hbase).
    rewrite Hmtot.
    assert (Hfec : negb (DataMsg.k m =? 0) && negb (DataMsg.r m =? 0)
                   && config.enabled (receive_engine.fec_config self) = false).
    { rewrite Hswitch. destruct Hoff as [-> | [-> | ->]]; cbn.
      - done.
      - by rewrite andb_false_r.
      - by rewrite andb_false_r. }
    unfold receive_engine._create_receive_state. rewrite Hfec.
    rewrite decide_False by (cbn; apply not_elem_of_empty).
    match goal with
    | |- context [receive_engine.accept_chunk m a ?s ?w0] =>
        destruct (accept_chunk_plain enabled id n payload
                    (receive_engine.output_path_of dir id) a base ∅ m s w0)
          as (state' & w' & -> & Hrec' & Hdeliv')
    end; try done.
    + rewrite Hdir. repeat split; try done.
    + cbn. eexists.
      unfold storage.load_bundle, storage.save_bundle.
      rewrite view_commit. cbn. apply lookup_insert_eq.
    + split; [done|]. split; [done|]. rewrite env_of_put.
      cbn [receive_engine.active_receives receive_engine.put].
      rewrite lookup_insert_eq. done.
Qed.

Lemma handle_data_plain_loop enabled id n payload dir a base msgs ids self :
  1 <= n ->
  receiver_at enabled id n payload dir a base ids self ->
  Forall (plain_msg enabled id n payload) msgs ->
  receiver_at enabled id n payload dir a base
    (ids ∪ list_to_set (DataMsg.chunk_id <$> msgs))
    (fold_left (fun self m => receive_engine.handle_data m a self) msgs self).
Proof.
  intros Hn. revert ids self.
  induction msgs as [|m msgs IH]; intros ids self Hat Hmsgs.
  - cbn. by rewrite (right_id_L ∅ (∪)).
  - apply Forall_cons in Hmsgs as [Hm Hmsgs].
    cbn [fold_left fmap list_fmap list_to_set].
    rewrite (assoc_L (∪)). apply IH; [|done].
    by apply handle_data_plain_step.
Qed.

Lemma concat_data_payloads cfg fec (file_data : bytes) id fec_enabled :
  1 <= config.chunk_size cfg ->
  concat ((fun j => Chunk.payload
                      (send_engine.data_chunk cfg fec file_data id fec_enabled j))
          <$> range (ceil_div (len file_data) (config.chunk_size cfg)))
  = file_data.
Proof.
  intros Hsize. set (cs := config.chunk_size cfg) in *.
  pose proof (ceil_div_spec (len file_data) cs ltac:(lia)) as Hn.
  pose proof (len_nonneg file_data) as Hlen.
  assert (Hn0 : 0 <= ceil_div (len file_data) cs)
    by (apply ceil_div_nonneg; lia).
  set (n := ceil_div (len file_data) cs) in *.
  unfold range. rewrite <- list_fmap_compose.
  assert (Hfull : take (Z.to_nat (Z.of_nat (Z.to_nat n) * cs)) file_data
                  = file_data)
    by (apply take_ge; unfold len in *; lia).
  etrans; [|exact Hfull].
  etrans; [|apply (concat_payloads file_data cs (Z.to_nat n) ltac:(lia))].
  - f_equal.
  - destruct (decide (n = 0)) as [->|]; [by right | left; lia].
Qed.

Lemma concat_payload_at (chunks : list Chunk.t) :
  concat (payload_at chunks <$> range (len chunks))
  = concat (Chunk.payload <$> chunks).
Proof.
  f_equal. unfold range, len. rewrite Nat2Z.id, <- list_fmap_compose.
  apply list_eq. intros i. rewrite !list_lookup_fmap.
  destruct (chunks !! i) as [c|] eqn:Hc.
  - rewrite lookup_seq_lt by (by apply lookup_lt_Some in Hc). cbn.
    unfold payload_at. by rewrite Nat2Z.id, Hc.
  - rewrite lookup_seq_ge; [done|]. by apply lookup_ge_None in Hc.
Qed.

Lemma handle_data_writes_chunks (chunks : list Chunk.t) (msgs : list DataMsg.t)
    (a : addr) (self : receive_engine.ReceiveEngine) (id : string) :
  chunks <> [] ->
  (forall p c, chunks !! p = Some c ->
     Chunk.chunk_id c = Z.of_nat p
     /\ Chunk.bundle_id c = id
     /\ (Chunk.k c = 0 \/ Chunk.r c = 0
         \/ config.enabled (receive_engine.fec_config self) = false)) ->
  (forall m, m ∈ msgs ->
     exists c, c ∈ chunks /\ DATA m = wire_msg (len chunks) c) ->
  (forall c, c ∈ chunks ->
     exists m, m ∈ msgs /\ DATA m = wire_msg (len chunks) c) ->
  receive_engine.active_receives self !! id = None ->
  Disk.writable (receive_engine.disk self)
    (receive_engine.output_path_of (receive_engine.output_dir self) id) = true ->
  let self' :=
    fold_left (fun self m => receive_engine.handle_data m a self) msgs self in
  Disk.files (receive_engine.disk self')
    !! receive_engine.output_path_of (receive_engine.output_dir self) id
  = Some (concat (Chunk.payload <$> chunks))
  /\ (exists state,
        receive_engine.active_receives self' !! id = Some state
        /\ ReceiveState.delivered state = true
        /\ ReceiveState.received_chunks state = all_ids (len chunks))
  /\ Bundle.state <$> storage.load_bundle id (receive_engine.storage self')
     = Some "delivered"%string
  /\ delivered_calls (receive_engine.network_send self')
     = delivered_calls (receive_engine.network_send self)
       ++ [(protocol.make_delivered_msg id, a)].
Proof.
  intros Hne Hpos Hmsgs Hcover Hfresh Hdisk. cbv zeta.
  set (n := len chunks) in *.
  assert (Hn1 : 1 <= n).
  { unfold n, len. destruct chunks; [done | cbn; lia]. }
  set (enabled := config.enabled (receive_engine.fec_config self)) in *.
  set (payload := payload_at chunks).
  assert (Hplain : forall m c, c ∈ chunks -> DATA m = wire_msg n c ->
            plain_msg enabled id n payload m
            /\ DataMsg.chunk_id m = Chunk.chunk_id c).
  { intros m c Hc Hm. apply list_elem_of_lookup in Hc as [p Hp].
    destruct (Hpos p c Hp) as (Hid & Hb & Hoff).
    pose proof (lookup_lt_Some _ _ _ Hp) as Hlt.
    unfold wire_msg, protocol.make_data_msg in Hm. injection Hm as ->.
    unfold plain_msg. cbn. split; [|done].
    split; [done|]. split; [unfold n, len; lia|]. split; [done|].
    split; [done|]. unfold payload, payload_at.
    by rewrite Hid, Nat2Z.id, Hp. }
  assert (Hall : Forall (plain_msg enabled id n payload) msgs).
  { apply Forall_forall. intros m Hm.
    destruct (Hmsgs m Hm) as (c & Hc & Hwire). by apply (Hplain m c). }
  assert (Hids : ∅ ∪ list_to_set (DataMsg.chunk_id <$> msgs) = all_ids n).
  { apply set_eq. intros j.
    rewrite elem_of_union, elem_of_list_to_set, list_elem_of_fmap, all_ids_elem.
    split.
    - intros [?%elem_of_empty|(m & -> & Hm)]; [done|].
      rewrite Forall_forall in Hall. by destruct (Hall m Hm) as (_ & ? & _).
    - intros Hj. right.
      destruct (lookup_lt_is_Some_2 chunks (Z.to_nat j)) as [c Hc];
        [unfold n, len in Hj; lia|].
      destruct (Hcover c) as (m & Hm & Hwire);
        [by eapply list_elem_of_lookup_2|].
      exists m. split; [|done].
      destruct (Hplain m c) as [_ ->]; [by eapply list_elem_of_lookup_2 | done|].
      destruct (Hpos _ _ Hc) as [-> _]. lia. }
  pose proof (handle_data_plain_loop enabled id n payload
                (receive_engine.output_dir self) a
                (delivered_calls (receive_engine.network_send self))
                msgs ∅ self Hn1) as Hloop.
  assert (Hat0 : receiver_at enabled id n payload
                   (receive_engine.output_dir self) a
                   (delivered_calls (receive_engine.network_send self)) ∅ self).
  { split; [done|]. split; [done|]. by rewrite Hfresh. }
  specialize (Hloop Hat0 Hall). rewrite Hids in Hloop.
  unfold receiver_at in Hloop. cbv zeta in Hloop.
  destruct Hloop as (_ & _ & Hat).
  set (self' := fold_left _ msgs self) in *.
  destruct (receive_engine.active_receives self' !! id) as [state|].
  2: { destruct Hat as (Hempty & _). exfalso.
       assert (H0 : 0 ∈ all_ids n) by (apply all_ids_elem; lia).
       rewrite Hempty in H0. by apply elem_of_empty in H0. }
  destruct Hat as (Hrec & _ & Hfull & _).
  destruct (Hfull eq_refl) as (Hdel & Hfiles & Hrow & Hcalls).
  destruct Hrec as (_ & _ & _ & _ & _ & Hrecv & _).
  split.
  { cbn in Hfiles. rewrite Hfiles. f_equal. apply concat_payload_at. }
  split; [by exists state|]. split; [exact Hrow | exact Hcalls].
Qed.

(** X15. A file sent without FEC arrives intact.  Let [chunks] be what
    [_create_chunks] makes of a non-empty file, and let a receiver that
    does not know the bundle and can write its output file be handed DATA
    messages built from these chunks, in any order and with any
    repetition, in which every chunk occurs at least once.  Then the
    output file holds exactly the bytes of the sent file; the bundle is
    marked delivered in memory and in the store, with every chunk id
    received; and exactly one DELIVERED message has been sent. *)
Theorem handle_data_delivers_file (cfg : config.TransferConfig)
    (fec : config.FECConfig) (file_data : bytes) (id : string)
    (chunks : list Chunk.t) (msgs : list DataMsg.t) (a : addr)
    (self : receive_engine.ReceiveEngine)
    (Hsize : 1 <= config.chunk_size cfg)
    (Hfile : file_data <> [])
    (Hchunks : send_engine._create_chunks cfg fec file_data id false = inr chunks)
    (Hmsgs : forall m, m ∈ msgs ->
               exists c, c ∈ chunks /\ DATA m = wire_msg (len chunks) c)
    (Hcover : forall c, c ∈ chunks ->
               exists m, m ∈ msgs /\ DATA m = wire_msg (len chunks) c)
    (Hfresh : receive_engine.active_receives self !! id = None)
    (Hdisk : Disk.writable (receive_engine.disk self)
               (receive_engine.output_path_of (receive_engine.output_dir self) id)
             = true) :
  let self' :=
    fold_left (fun self m => receive_engine.handle_data m a self) msgs self in
  Disk.files (receive_engine.disk self')
    !! receive_engine.output_path_of (receive_engine.output_dir self) id
  = Some file_data
  /\ (exists state,
        receive_engine.active_receives self' !! id = Some state
        /\ ReceiveState.delivered state = true
        /\ ReceiveState.received_chunks state = all_ids (len chunks))
  /\ Bundle.state <$> storage.load_bundle id (receive_engine.storage self')
     = Some "delivered"%string
  /\ delivered_calls (receive_engine.network_send self')
     = delivered_calls (receive_engine.network_send self)
       ++ [(protocol.make_delivered_msg id, a)].
Proof.
  set (cs := config.chunk_size cfg) in *.
  pose proof (ceil_div_spec (len file_data) cs ltac:(lia)) as Hn.
  assert (Hlen : 1 <= len file_data)
    by (destruct file_data; [done | unfold len; cbn; lia]).
  set (n := ceil_div (len file_data) cs) in *.
  assert (Hn1 : 1 <= n) by nia.
  assert (Hcs : chunks
                = send_engine.data_chunk cfg fec file_data id false <$> range n).
  { unfold send_engine._create_chunks in Hchunks. fold cs in Hchunks.
    destruct (Z.eqb_spec cs 0) as [|_]; [lia|].
    rewrite <- (ceil_div_eq (len file_data) cs) in Hchunks by lia.
    cbn [andb] in Hchunks. by injection Hchunks as <-. }
  assert (Hcontent : concat (Chunk.payload <$> chunks) = file_data).
  { rewrite Hcs, <- list_fmap_compose.
    apply (concat_data_payloads cfg fec file_data id false Hsize). }
  cbv zeta. rewrite <- Hcontent.
  apply (handle_data_writes_chunks chunks msgs a self id); try done.
  - intros ->. symmetry in Hcs. apply fmap_nil_inv in Hcs.
    assert (Hr : length (range n) = 0%nat) by (by rewrite Hcs).
    rewrite range_length in Hr. lia.
  - intros p c Hp. rewrite Hcs, list_lookup_fmap in Hp.
    destruct (range n !! p) as [j|] eqn:Hj; [|done].
    pose proof (lookup_lt_Some _ _ _ Hj) as Hlt. rewrite range_length in Hlt.
    rewrite range_lookup in Hj by done. injection Hj as <-.
    cbn in Hp. injection Hp as <-. cbn. split; [done|]. split; [done|]. by left.
Qed.

Lemma handle_data_delivers_file_witness :
  let self' :=
    fold_left (fun self m => receive_engine.handle_data m peer self)
              shuffled_msgs plain_receiver_idle in
  Disk.files (receive_engine.disk self')
    !! receive_engine.output_path_of
         (receive_engine.output_dir plain_receiver_idle) "b1"
  = Some (b "ABCDEFGH")
  /\ (exists state,
        receive_engine.active_receives self' !! "b1"%string = Some state
        /\ ReceiveState.delivered state = true
        /\ ReceiveState.received_chunks state = all_ids (len plain_chunks))
  /\ Bundle.state <$> storage.load_bundle "b1" (receive_engine.storage self')
     = Some "delivered"%string
  /\ delivered_calls (receive_engine.network_send self')
     = delivered_calls (receive_engine.network_send plain_receiver_idle)
       ++ [(protocol.make_delivered_msg "b1", peer)].
Proof.
  apply (handle_data_delivers_file lab_transfer no_fec (b "ABCDEFGH") "b1"
           plain_chunks shuffled_msgs peer plain_receiver_idle).
  - vm_compute. discriminate.
  - discriminate.
  - vm_compute. reflexivity.
  - intros m Hm. apply list_elem_of_omap in Hm as (c & Hc & Hm).
    exists c. split.
    + apply elem_of_app in Hc as [Hc|Hc]; [by apply elem_of_reverse in Hc | done].
    + unfold wire_msg, protocol.make_data_msg in *. by injection Hm as <-.
  - intros c Hc. eexists. split; [|reflexivity].
    apply list_elem_of_omap. exists c. split; [|reflexivity].
    apply elem_of_app. by right.
  - vm_compute. reflexivity.
  - vm_compute. reflexivity.
Defined.

(** ** Custody records *)

Lemma load_custody_commit_put row db id :
  storage.load_custody_record id (storage.save_custody_record row db)
  = if decide (id = CustodyRow.bundle_id row) then Some row
    else storage.load_custody_record id db.
Proof.
  unfold storage.load_custody_record, storage.save_custody_record.
  rewrite view_commit. cbn. case_decide as Hid.
  - subst. apply lookup_insert_eq.
  - by apply lookup_insert_ne.
Qed.

Lemma update_spec k record self :
  CustodyRecord.bundle_id record = k ->
  let self' := custody_manager.update k record self in
  custody_manager.config self' = custody_manager.config self
  /\ custody_manager.network_send self' = custody_manager.network_send self
  /\ custody_manager.entropy self' = custody_manager.entropy self
  /\ custody_manager.node_id self' = custody_manager.node_id self
  /\ custody_manager.active_records self'
     = <[k := record]> (custody_manager.active_records self)
  /\ (forall id,
        storage.load_custody_record id (custody_manager.storage self')
        = if decide (id = k) then Some (row_of record)
          else storage.load_custody_record id (custody_manager.storage self))
  /\ (forall id,
        storage.load_bundle id (custody_manager.storage self')
        = storage.load_bundle id (custody_manager.storage self)).
Proof.
  intros <-. cbv zeta.
  unfold custody_manager.update, custody_manager._save_record.
  cbn. repeat split; try done.
  - apply insert_insert_eq.
  - intros id. by rewrite load_custody_commit_put.
  - intros id. unfold storage.load_bundle, storage.save_custody_record.
    by rewrite view_commit.
Qed.

Lemma checked_bundle_id cfg now record record' :
  custody_manager.checked cfg now record = Some record' ->
  CustodyRecord.bundle_id record' = CustodyRecord.bundle_id record
  /\ CustodyRecord.max_retries record' = CustodyRecord.max_retries record
  /\ CustodyRecord.owner_node record' = CustodyRecord.owner_node record
  /\ CustodyRecord.chunk_ranges record' = CustodyRecord.chunk_ranges record.
Proof.
  unfold custody_manager.checked. repeat case_match; intros; simplify_eq; done.
Qed.

Lemma check_loop now (l : list (string * CustodyRecord.t)) self :
  NoDup l.*1 ->
  (forall k r, (k, r) ∈ l ->
     CustodyRecord.bundle_id r = k
     /\ custody_manager.active_records self !! k = Some r) ->
  let self' := fold_left (custody_manager.check_record now) l self in
  custody_manager.config self' = custody_manager.config self
  /\ custody_manager.network_send self' = custody_manager.network_send self
  /\ custody_manager.entropy self' = custody_manager.entropy self
  /\ custody_manager.node_id self' = custody_manager.node_id self
  /\ (forall id, storage.load_bundle id (custody_manager.storage self')
                 = storage.load_bundle id (custody_manager.storage self))
  /\ (forall id, id ∉ l.*1 ->
        custody_manager.active_records self' !! id
        = custody_manager.active_records self !! id
        /\ storage.load_custody_record id (custody_manager.storage self')
           = storage.load_custody_record id (custody_manager.storage self))
  /\ (forall k r, (k, r) ∈ l ->
        custody_manager.active_records self' !! k
        = Some (default r (custody_manager.checked
                             (custody_manager.config self) now r))
        /\ storage.load_custody_record k (custody_manager.storage self')
           = match custody_manager.checked (custody_manager.config self) now r with
             | Some r' => Some (row_of r')
             | None => storage.load_custody_record k (custody_manager.storage self)
             end).
Proof.
  cbv zeta. revert self. induction l as [|[k r] l' IH]; intros self Hnd Hsnap.
  - cbn. repeat split; try done;
      match goal with H : _ ∈ [] |- _ => by apply elem_of_nil in H end.
  - cbn [fold_left]. rewrite fmap_cons in Hnd. cbn in Hnd.
    apply NoDup_cons in Hnd as [Hk Hnd].
    destruct (Hsnap k r) as [Hkr Hlook]; [apply list_elem_of_here|].
    set (self1 := custody_manager.check_record now self (k, r)).
    assert (H1 : custody_manager.config self1 = custody_manager.config self
      /\ custody_manager.network_send self1 = custody_manager.network_send self
      /\ custody_manager.entropy self1 = custody_manager.entropy self
      /\ custody_manager.node_id self1 = custody_manager.node_id self
      /\ (forall id, storage.load_bundle id (custody_manager.storage self1)
                     = storage.load_bundle id (custody_manager.storage self))
      /\ custody_manager.active_records self1
         = <[k := default r (custody_manager.checked
                               (custody_manager.config self) now r)]>
             (custody_manager.active_records self)
      /\ (forall id,
            storage.load_custody_record id (custody_manager.storage self1)
            = match custody_manager.checked (custody_manager.config self) now r with
              | Some r' => if decide (id = k) then Some (row_of r')
                           else storage.load_custody_record id
                                  (custody_manager.storage self)
              | None => storage.load_custody_record id
                          (custody_manager.storage self)
              end)).
    { unfold self1, custody_manager.check_record. cbn [fst snd].
      destruct (custody_manager.checked _ now r) as [r'|] eqn:Hch.
      - apply checked_bundle_id in Hch as (Hid' & _).
        destruct (update_spec k r' self) as (? & ? & ? & ? & ? & ? & ?);
          [congruence|]. done.
      - cbn. repeat split; try done. by rewrite insert_id. }
    destruct H1 as (Hc1 & Hn1 & He1 & Hi1 & Hb1 & Ha1 & Hs1).
    destruct (IH self1 Hnd) as (Hc & Hn & He & Hi & Hb & Hout & Hin).
    { intros k' r' Hin'. destruct (Hsnap k' r') as [Hk' Hl'];
        [by apply list_elem_of_further|].
      split; [done|]. rewrite Ha1, lookup_insert_ne; [done|].
      intros ->. apply Hk. apply list_elem_of_fmap. by exists (k', r'). }
    rewrite Hc, Hn, He, Hi, Hc1, Hn1, He1, Hi1.
    repeat split; try done.
    + intros id. by rewrite Hb, Hb1.
    + destruct (Hout id) as [-> _]; [by intros ?; apply H; right|].
      rewrite Ha1, lookup_insert_ne; [done|]. intros ->. apply H. by left.
    + destruct (Hout id) as [_ ->]; [by intros ?; apply H; right|].
      rewrite Hs1. destruct (custody_manager.checked _ now r); [|done].
      rewrite decide_False; [done|]. intros ->. apply H. by left.
    + apply elem_of_cons in H as [Heq|Hl].
      * injection Heq as -> ->. destruct (Hout k Hk) as [-> _].
        by rewrite Ha1, lookup_insert_eq.
      * rewrite <- Hc1. by apply Hin.
    + apply elem_of_cons in H as [Heq|Hl].
      * injection Heq as -> ->. destruct (Hout k Hk) as [_ ->].
        rewrite Hs1. destruct (custody_manager.checked _ now r); [|done].
        by rewrite decide_True.
      * destruct (Hin k0 r0 Hl) as [_ ->]. rewrite Hc1.
        destruct (custody_manager.checked _ now r0); [done|].
        rewrite Hs1. destruct (custody_manager.checked _ now r); [|done].
        rewrite decide_False; [done|].
        intros ->. apply Hk. apply list_elem_of_fmap. by exists (k, r0).
Qed.

Lemma check_retry_timers_lookup now self :
  custody_keyed self ->
  let self' := custody_manager.check_retry_timers now self in
  custody_manager.config self' = custody_manager.config self
  /\ custody_manager.network_send self' = custody_manager.network_send self
  /\ custody_manager.entropy self' = custody_manager.entropy self
  /\ (forall id, storage.load_bundle id (custody_manager.storage self')
                 = storage.load_bundle id (custody_manager.storage self))
  /\ (forall id,
        custody_manager.active_records self' !! id
        = (fun r => default r (custody_manager.checked
                                 (custody_manager.config self) now r))
          <$> custody_manager.active_records self !! id)
  /\ (forall id,
        storage.load_custody_record id (custody_manager.storage self')
        = match custody_manager.active_records self !! id
                ≫= custody_manager.checked (custody_manager.config self) now with
          | Some r' => Some (row_of r')
          | None => storage.load_custody_record id (custody_manager.storage self)
          end).
Proof.
  intros Hkeyed. cbv zeta. unfold custody_manager.check_retry_timers.
  destruct (check_loop now (map_to_list (custody_manager.active_records self)) self)
    as (Hc & Hn & He & _ & Hb & Hout & Hin).
  { apply NoDup_fst_map_to_list. }
  { intros k r Hkr. apply elem_of_map_to_list in Hkr. split; [|done].
    by apply Hkeyed. }
  split; [done|]. split; [done|]. split; [done|]. split; [done|].
  split; intros id;
    destruct (custody_manager.active_records self !! id) as [r|] eqn:Hr; cbn.
  - apply Hin. by apply elem_of_map_to_list.
  - destruct (Hout id) as [-> _]; [|done].
    intros Hid. apply list_elem_of_fmap in Hid as ([k r] & -> & Hkr).
    apply elem_of_map_to_list in Hkr. cbn in Hr. congruence.
  - destruct (Hin id r) as [_ ->]; [by apply elem_of_map_to_list|].
    by destruct (custody_manager.checked _ now r).
  - destruct (Hout id) as [_ ->]; [|done].
    intros Hid. apply list_elem_of_fmap in Hid as ([k r] & -> & Hkr).
    apply elem_of_map_to_list in Hkr. cbn in Hr. congruence.
Qed.

(** X16. One tick of the custody timer.  [check_retry_timers] leaves a
    record alone when it is complete or failed or its retry timer has not
    expired.  A live record whose timer has expired is marked [failed] if
    it has used up its retries ([retry_count >= max_retries]); otherwise
    its [retry_count] grows by one and its timer is set to
    [now + 2 ** retry_count * backoff_base_sec] with the new count.  The
    row in the store is rewritten to match, and nothing is sent. *)
Theorem check_retry_timers_record (now : Q)
    (self : custody_manager.CustodyManager) (id : string)
    (r : CustodyRecord.t)
    (Hkeyed : custody_keyed self)
    (Hr : custody_manager.active_records self !! id = Some r) :
  let self' := custody_manager.check_retry_timers now self in
  let base := config.backoff_base_sec (custody_manager.config self) in
  exists r',
    custody_manager.active_records self' !! id = Some r'
    /\ custody_manager.network_send self' = custody_manager.network_send self
    /\ (CustodyRecord.terminal r = true \/ ~ (CustodyRecord.retry_timer r <= now)%Q ->
        r' = r
        /\ storage.load_custody_record id (custody_manager.storage self')
           = storage.load_custody_record id (custody_manager.storage self))
    /\ (CustodyRecord.terminal r = false ->
        (CustodyRecord.retry_timer r <= now)%Q ->
        (CustodyRecord.max_retries r <= CustodyRecord.retry_count r ->
         r' = CustodyRecord.set_state "failed" r)
        /\ (CustodyRecord.retry_count r < CustodyRecord.max_retries r ->
            r' = CustodyRecord.set_retry (CustodyRecord.retry_count r + 1)
                   (now + 2 ^ (CustodyRecord.retry_count r + 1) * inject_Z base)%Q
                   r)
        /\ storage.load_custody_record id (custody_manager.storage self')
           = Some (row_of r')).
Proof.
  cbv zeta.
  destruct (check_retry_timers_lookup now self Hkeyed)
    as (_ & Hn & _ & _ & Ha & Hs).
  rewrite Ha, Hs, Hr. cbn. eexists. split; [reflexivity|]. split; [done|].
  unfold custody_manager.checked.
  destruct (CustodyRecord.terminal r) eqn:Hterm.
  { cbn. split; [done|]. intros ?. discriminate. }
  destruct (Qle_bool (CustodyRecord.retry_timer r) now) eqn:Hdue.
  - apply Qle_bool_iff in Hdue. split.
    { intros [?|Hnot]; [discriminate | by destruct Hnot]. }
    intros _ _.
    destruct (Z.leb_spec (CustodyRecord.max_retries r) (CustodyRecord.retry_count r));
      cbn; (split; [intros; try done; lia|]); (split; [intros; try done; lia|]);
      done.
  - cbn. split; [done|]. intros _ Hle. apply Qle_bool_iff in Hle. congruence.
Qed.

Lemma custodian_keyed : custody_keyed custodian.
Proof.
  intros id record. unfold custodian. cbn.
  destruct (decide (id = "b9"%string)) as [->|Hne].
  - rewrite lookup_insert_eq. by intros [= <-].
  - rewrite lookup_insert_ne by done. by rewrite lookup_empty.
Qed.

Lemma check_retry_timers_record_witness :
  let self' := custody_manager.check_retry_timers 13 custodian in
  let base := config.backoff_base_sec (custody_manager.config custodian) in
  exists r',
    custody_manager.active_records self' !! "b9"%string = Some r'
    /\ custody_manager.network_send self' = custody_manager.network_send custodian
    /\ (CustodyRecord.terminal custodian_record = true
        \/ ~ (CustodyRecord.retry_timer custodian_record <= 13)%Q ->
        r' = custodian_record
        /\ storage.load_custody_record "b9" (custody_manager.storage self')
           = storage.load_custody_record "b9" (custody_manager.storage custodian))
    /\ (CustodyRecord.terminal custodian_record = false ->
        (CustodyRecord.retry_timer custodian_record <= 13)%Q ->
        (CustodyRecord.max_retries custodian_record
         <= CustodyRecord.retry_count custodian_record ->
         r' = CustodyRecord.set_state "failed" custodian_record)
        /\ (CustodyRecord.retry_count custodian_record
            < CustodyRecord.max_retries custodian_record ->
            r' = CustodyRecord.set_retry
                   (CustodyRecord.retry_count custodian_record + 1)
                   (13 + 2 ^ (CustodyRecord.retry_count custodian_record + 1)
                         * inject_Z base)%Q
                   custodian_record)
        /\ storage.load_custody_record "b9" (custody_manager.storage self')
           = Some (row_of r')).
Proof.
  apply (check_retry_timers_record 13 custodian "b9" custodian_record).
  - exact custodian_keyed.
  - vm_compute. reflexivity.
Defined.

Lemma handle_custody_req_records msg a now self :
  let self' := custody_manager.handle_custody_req msg a now self in
  exists record,
    CustodyRecord.bundle_id record = CustodyReqMsg.bundle_id msg
    /\ CustodyRecord.retry_count record = 0
    /\ CustodyRecord.max_retries record
       = config.max_retries (custody_manager.config self)
    /\ CustodyRecord.state record = "accepted"%string
    /\ custody_manager.active_records self'
       = <[CustodyReqMsg.bundle_id msg := record]>
           (custody_manager.active_records self)
    /\ forall id,
         storage.load_custody_record id (custody_manager.storage self')
         = if decide (id = CustodyReqMsg.bundle_id msg) then Some (row_of record)
           else storage.load_custody_record id (custody_manager.storage self).
Proof.
  cbv zeta. unfold custody_manager.handle_custody_req.
  unfold protocol.make_custody_ack_msg. cbn.
  eexists. split; [|split; [|split; [|split; [|split; [reflexivity|]]]]];
    try reflexivity.
  intros id. by rewrite load_custody_commit_put.
Qed.

Lemma handle_delivered_records msg self :
  custody_keyed self ->
  let self' := custody_manager.handle_delivered msg self in
  let id := DeliveredMsg.bundle_id msg in
  custody_manager.network_send self' = custody_manager.network_send self
  /\ custody_manager.config self' = custody_manager.config self
  /\ (forall id', id' <> id ->
        custody_manager.active_records self' !! id'
        = custody_manager.active_records self !! id'
        /\ storage.load_custody_record id' (custody_manager.storage self')
           = storage.load_custody_record id' (custody_manager.storage self))
  /\ match custody_manager.active_records self !! id with
     | Some r =>
         if CustodyRecord.terminal r then self' = self
         else custody_manager.active_records self' !! id
              = Some (CustodyRecord.set_state "complete" r)
              /\ storage.load_custody_record id (custody_manager.storage self')
                 = Some (row_of (CustodyRecord.set_state "complete" r))
     | None => self' = self
     end.
Proof.
  intros Hkeyed. cbv zeta. unfold custody_manager.handle_delivered.
  destruct (custody_manager.active_records self !! DeliveredMsg.bundle_id msg)
    as [r|] eqn:Hr; [|done].
  destruct (CustodyRecord.terminal r); [done|].
  destruct (update_spec (DeliveredMsg.bundle_id msg)
              (CustodyRecord.set_state "complete" r) self)
    as (Hc & Hn & _ & _ & Ha & Hs & _).
  { cbn. by apply Hkeyed. }
  split; [done|]. split; [done|]. split.
  - intros id' Hne. rewrite Ha, Hs, lookup_insert_ne, decide_False; done.
  - rewrite Ha, Hs, lookup_insert_eq, decide_True; done.
Qed.

Lemma load_custody_update_bundle_state id id' st db :
  storage.load_custody_record id (storage.update_bundle_state id' st db)
  = storage.load_custody_record id db.
Proof.
  unfold storage.load_custody_record, storage.update_bundle_state.
  by rewrite view_commit.
Qed.

(** X17. Memory and store agree.  If every custody record in memory is
    filed under its own bundle id and equals its row in the custody table,
    the same holds after [handle_custody_req], [handle_custody_ack],
    [handle_delivered] and [check_retry_timers]; it holds of a fresh
    manager. *)
Theorem custody_synced_preserved (self : custody_manager.CustodyManager)
    (Hsync : custody_synced self) :
  (forall msg a now,
     custody_synced (custody_manager.handle_custody_req msg a now self))
  /\ (forall msg, custody_synced (custody_manager.handle_custody_ack msg self))
  /\ (forall msg, custody_synced (custody_manager.handle_delivered msg self))
  /\ (forall now, custody_synced (custody_manager.check_retry_timers now self))
  /\ (forall cfg db net node e,
        custody_synced (custody_manager.init cfg db net node e)).
Proof.
  assert (Hkeyed : custody_keyed self).
  { intros id r Hr. by destruct (Hsync id r Hr). }
  split; [|split; [|split; [|split]]].
  - intros msg a now id r.
    destruct (handle_custody_req_records msg a now self)
      as (rec & Hid & _ & _ & _ & Ha & Hs).
    cbv zeta in Ha, Hs. rewrite Ha, Hs.
    destruct (decide (id = CustodyReqMsg.bundle_id msg)) as [->|Hne].
    + rewrite lookup_insert_eq. by intros [= <-].
    + rewrite lookup_insert_ne by done. apply Hsync.
  - intros msg id r Hr. cbn in Hr. destruct (Hsync id r Hr) as [Hid Hrow].
    split; [done|]. cbn. by rewrite load_custody_update_bundle_state.
  - intros msg id r.
    destruct (handle_delivered_records msg self Hkeyed)
      as (_ & _ & Hother & Hsame). cbv zeta in Hother, Hsame.
    destruct (decide (id = DeliveredMsg.bundle_id msg)) as [->|Hne].
    + destruct (custody_manager.active_records self !! DeliveredMsg.bundle_id msg)
        as [r0|] eqn:Hr0.
      * destruct (CustodyRecord.terminal r0).
        -- rewrite Hsame. apply Hsync.
        -- destruct Hsame as [-> ->]. intros [= <-]. split; [|done].
           cbn. by apply Hkeyed.
      * rewrite Hsame. apply Hsync.
    + destruct (Hother id Hne) as [-> ->]. apply Hsync.
  - intros now id r.
    destruct (check_retry_timers_lookup now self Hkeyed)
      as (_ & _ & _ & _ & Ha & Hs). cbv zeta in Ha, Hs.
    rewrite Ha, Hs.
    destruct (custody_manager.active_records self !! id) as [r0|] eqn:Hr0;
      [|done]. cbn. intros [= <-].
    destruct (Hsync id r0 Hr0) as [Hid Hrow].
    destruct (custody_manager.checked _ now r0) as [r1|] eqn:Hch; cbn.
    + apply checked_bundle_id in Hch as (Hid1 & _). split; [congruence | done].
    + done.
  - intros cfg db net node e id r Hr. cbn in Hr. by rewrite lookup_empty in Hr.
Qed.

Lemma custodian_synced : custody_synced custodian.
Proof.
  intros id record. unfold custodian.
  destruct (handle_custody_req_records
              {| CustodyReqMsg.bundle_id := "b9"; CustodyReqMsg.ranges := [(0, 3)];
                 CustodyReqMsg.ttl_remaining := 60 |} peer 10
              (custody_manager.init config.default_custody storage.empty
                 Net.reliable "nodeB"
                 {| secrets.bits := fun _ => false; secrets.pos := 0 |}))
    as (rec & Hid & _ & _ & _ & Ha & Hs).
  cbv zeta in Ha, Hs. rewrite Ha, Hs. cbn.
  destruct (decide (id = "b9"%string)) as [->|Hne].
  - rewrite lookup_insert_eq. by intros [= <-].
  - rewrite lookup_insert_ne by done. by rewrite lookup_empty.
Qed.

Lemma custody_synced_preserved_witness :
  (forall msg a now,
     custody_synced (custody_manager.handle_custody_req msg a now custodian))
  /\ (forall msg, custody_synced (custody_manager.handle_custody_ack msg custodian))
  /\ (forall msg, custody_synced (custody_manager.handle_delivered msg custodian))
  /\ (forall now, custody_synced (custody_manager.check_retry_timers now custodian))
  /\ (forall cfg db net node e,
        custody_synced (custody_manager.init cfg db net node e)).
Proof.
  apply (custody_synced_preserved custodian). exact custodian_synced.
Defined.

Lemma custody_progress_refl r : custody_progress r r.
Proof. unfold custody_progress. repeat split; try done; lia. Qed.

Lemma custody_progress_trans r1 r2 r3 :
  custody_progress r1 r2 -> custody_progress r2 r3 -> custody_progress r1 r3.
Proof.
  intros (Hb & Ho & Hc & Hm & Hle & Hmax & Ht)
         (Hb' & Ho' & Hc' & Hm' & Hle' & Hmax' & Ht').
  rewrite Hm in Hmax'.
  unfold custody_progress. repeat split; try congruence; try lia.
  intros H. specialize (Ht H). subst r2. by apply Ht'.
Qed.

Lemma terminal_set_state_false r s :
  CustodyRecord.terminal r = false ->
  custody_progress r (CustodyRecord.set_state s r).
Proof.
  intros Hterm. unfold custody_progress. cbn.
  repeat split; try done; try lia. congruence.
Qed.

Lemma checked_progress cfg now r r' :
  custody_manager.checked cfg now r = Some r' -> custody_progress r r'.
Proof.
  unfold custody_manager.checked.
  destruct (CustodyRecord.terminal r) eqn:Hterm; [done|].
  destruct (Qle_bool _ now); [|done].
  destruct (Z.leb_spec (CustodyRecord.max_retries r) (CustodyRecord.retry_count r));
    intros [= <-].
  - by apply terminal_set_state_false.
  - unfold custody_progress. cbn. repeat split; try done; try lia. congruence.
Qed.

Lemma custody_step_progress self e id r :
  custody_keyed self ->
  custody_manager.active_records self !! id = Some r ->
  custody_keyed (custody_step self e)
  /\ Net.calls (custody_manager.network_send (custody_step self e))
     = Net.calls (custody_manager.network_send self)
  /\ exists r',
       custody_manager.active_records (custody_step self e) !! id = Some r'
       /\ custody_progress r r'.
Proof.
  intros Hkeyed Hr. destruct e as [now|msg|msg]; cbn [custody_step].
  - destruct (check_retry_timers_lookup now self Hkeyed)
      as (_ & Hn & _ & _ & Ha & _). cbv zeta in Hn, Ha.
    split; [|split; [by rewrite Hn|]].
    + intros id' r'. rewrite Ha.
      destruct (custody_manager.active_records self !! id') as [r0|] eqn:Hr0;
        [|done]. cbn. intros [= <-].
      destruct (custody_manager.checked _ now r0) as [r1|] eqn:Hch; cbn.
      * apply checked_bundle_id in Hch as (-> & _). by apply Hkeyed.
      * by apply Hkeyed.
    + rewrite Ha, Hr. cbn. eexists. split; [reflexivity|].
      destruct (custody_manager.checked _ now r) as [r1|] eqn:Hch; cbn.
      * by eapply checked_progress.
      * apply custody_progress_refl.
  - destruct (handle_delivered_records msg self Hkeyed)
      as (Hn & _ & Hother & Hsame). cbv zeta in Hn, Hother, Hsame.
    split; [|split; [by rewrite Hn|]].
    + intros id' r'.
      destruct (decide (id' = DeliveredMsg.bundle_id msg)) as [->|Hne].
      * destruct (custody_manager.active_records self !! DeliveredMsg.bundle_id msg)
          as [r0|] eqn:Hr0.
        -- destruct (CustodyRecord.terminal r0).
           ++ rewrite Hsame. apply Hkeyed.
           ++ destruct Hsame as [-> _]. intros [= <-]. cbn. by apply Hkeyed.
        -- rewrite Hsame. apply Hkeyed.
      * destruct (Hother id' Hne) as [-> _]. apply Hkeyed.
    + destruct (decide (id = DeliveredMsg.bundle_id msg)) as [->|Hne].
      * rewrite Hr in Hsame.
        destruct (CustodyRecord.terminal r) eqn:Hterm.
        -- rewrite Hsame. exists r. split; [done | apply custody_progress_refl].
        -- destruct Hsame as [-> _]. eexists. split; [reflexivity|].
           by apply terminal_set_state_false.
      * destruct (Hother id Hne) as [-> _]. exists r.
        split; [done | apply custody_progress_refl].
  - split; [done|]. split; [done|]. exists r.
    split; [done | apply custody_progress_refl].
Qed.

Lemma custody_events_progress events self id r :
  custody_keyed self ->
  custody_manager.active_records self !! id = Some r ->
  Net.calls (custody_manager.network_send (fold_left custody_step events self))
  = Net.calls (custody_manager.network_send self)
  /\ exists r',
       custody_manager.active_records (fold_left custody_step events self) !! id
       = Some r'
       /\ custody_progress r r'.
Proof.
  revert self r. induction events as [|e events IH]; intros self r Hkeyed Hr.
  - cbn. split; [done|]. exists r. split; [done | apply custody_progress_refl].
  - cbn [fold_left].
    destruct (custody_step_progress self e id r Hkeyed Hr)
      as (Hkeyed1 & Hn1 & r1 & Hr1 & Hp1).
    destruct (IH _ r1 Hkeyed1 Hr1) as (Hn & r' & Hr' & Hp).
    split; [congruence|]. exists r'. split; [done|].
    by eapply custody_progress_trans.
Qed.

(** X18. Retries are bounded and the end states are final.  Under any
    sequence of timer ticks, DELIVERED and CUSTODY_ACK messages, a custody
    record keeps its bundle id, owner, chunk ranges and [max_retries]; its
    [retry_count] never decreases and, if it was within [max_retries],
    never exceeds it; a record that is [complete] or [failed] never
    changes again; and the manager sends nothing. *)
Theorem custody_retries_bounded (events : list custody_event)
    (self : custody_manager.CustodyManager) (id : string)
    (r : CustodyRecord.t)
    (Hkeyed : custody_keyed self)
    (Hr : custody_manager.active_records self !! id = Some r) :
  let self' := fold_left custody_step events self in
  Net.calls (custody_manager.network_send self')
  = Net.calls (custody_manager.network_send self)
  /\ exists r',
       custody_manager.active_records self' !! id = Some r'
       /\ CustodyRecord.bundle_id r' = id
       /\ CustodyRecord.owner_node r' = CustodyRecord.owner_node r
       /\ CustodyRecord.chunk_ranges r' = CustodyRecord.chunk_ranges r
       /\ CustodyRecord.max_retries r' = CustodyRecord.max_retries r
       /\ CustodyRecord.retry_count r <= CustodyRecord.retry_count r'
       /\ (CustodyRecord.retry_count r <= CustodyRecord.max_retries r ->
           CustodyRecord.retry_count r' <= CustodyRecord.max_retries r)
       /\ (CustodyRecord.terminal r = true -> r' = r).
Proof.
  cbv zeta.
  destruct (custody_events_progress events self id r Hkeyed Hr)
    as (Hn & r' & Hr' & Hb & Ho & Hc & Hm & Hle & Hmax & Ht).
  split; [done|]. exists r'. split; [done|].
  split; [rewrite Hb; by apply Hkeyed|]. done.
Qed.

Lemma custody_retries_bounded_witness :
  let self' :=
    fold_left custody_step
      [tick 13; tick 20; got_delivered {| DeliveredMsg.bundle_id := "b9" |}; tick 99]
      custodian in
  Net.calls (custody_manager.network_send self')
  = Net.calls (custody_manager.network_send custodian)
  /\ exists r',
       custody_manager.active_records self' !! "b9"%string = Some r'
       /\ CustodyRecord.bundle_id r' = "b9"%string
       /\ CustodyRecord.owner_node r' = CustodyRecord.owner_node custodian_record
       /\ CustodyRecord.chunk_ranges r' = CustodyRecord.chunk_ranges custodian_record
       /\ CustodyRecord.max_retries r' = CustodyRecord.max_retries custodian_record
       /\ CustodyRecord.retry_count custodian_record <= CustodyRecord.retry_count r'
       /\ (CustodyRecord.retry_count custodian_record
           <= CustodyRecord.max_retries custodian_record ->
           CustodyRecord.retry_count r'
           <= CustodyRecord.max_retries custodian_record)
       /\ (CustodyRecord.terminal custodian_record = true -> r' = custodian_record).
Proof.
  apply (custody_retries_bounded
           [tick 13; tick 20; got_delivered {| DeliveredMsg.bundle_id := "b9" |};
            tick 99]
           custodian "b9" custodian_record).
  - exact custodian_keyed.
  - vm_compute. reflexivity.
Defined.

(** X19. DELIVERED ends custody for good.  For a record that is neither
    complete nor failed, [handle_delivered] sets its state to [complete]
    in memory and in the custody table and changes nothing else of it;
    whatever ticks and messages follow, the record in memory stays exactly
    that.  A DELIVERED for a bundle without a record, or with a record
    already complete or failed, changes nothing. *)
Theorem custody_handle_delivered (msg : DeliveredMsg.t)
    (events : list custody_event) (self : custody_manager.CustodyManager)
    (Hkeyed : custody_keyed self) :
  let id := DeliveredMsg.bundle_id msg in
  let self' := custody_manager.handle_delivered msg self in
  match custody_manager.active_records self !! id with
  | Some r =>
      if CustodyRecord.terminal r then self' = self
      else
        let completed := CustodyRecord.set_state "complete" r in
        custody_manager.active_records self' !! id = Some completed
        /\ storage.load_custody_record id (custody_manager.storage self')
           = Some (row_of completed)
        /\ custody_manager.active_records (fold_left custody_step events self')
             !! id = Some completed
  | None => self' = self
  end.
Proof.
  cbv zeta.
  destruct (handle_delivered_records msg self Hkeyed)
    as (_ & _ & Hother & Hsame). cbv zeta in Hother, Hsame.
  destruct (custody_manager.active_records self !! DeliveredMsg.bundle_id msg)
    as [r|] eqn:Hr; [|done].
  destruct (CustodyRecord.terminal r) eqn:Hterm; [done|].
  destruct Hsame as [Ha Hs]. split; [done|]. split; [done|].
  destruct (custody_step_progress self (got_delivered msg)
              (DeliveredMsg.bundle_id msg) r Hkeyed Hr) as (Hkeyed' & _).
  cbn [custody_step] in Hkeyed'.
  destruct (custody_events_progress events _ _ _ Hkeyed' Ha)
    as (_ & r' & Hr' & Hp).
  rewrite Hr'. f_equal. by apply Hp.
Qed.

Lemma custody_handle_delivered_witness :
  let msg := {| DeliveredMsg.bundle_id := "b9" |} in
  let events := [tick 13; tick 99] in
  let id := DeliveredMsg.bundle_id msg in
  let self' := custody_manager.handle_delivered msg custodian in
  match custody_manager.active_records custodian !! id with
  | Some r =>
      if CustodyRecord.terminal r then self' = custodian
      else
        let completed := CustodyRecord.set_state "complete" r in
        custody_manager.active_records self' !! id = Some completed
        /\ storage.load_custody_record id (custody_manager.storage self')
           = Some (row_of completed)
        /\ custody_manager.active_records (fold_left custody_step events self')
             !! id = Some completed
  | None => self' = custodian
  end.
Proof.
  apply (custody_handle_delivered {| DeliveredMsg.bundle_id := "b9" |}
           [tick 13; tick 99] custodian).
  exact custodian_keyed.
Defined.

(** ** The wire format *)

Lemma slice_all {A} (l : list A) : slice l 0 (len l) = l.
Proof.
  rewrite slice_take_drop by (pose proof (len_nonneg l); lia).
  cbn. apply take_ge. unfold len. lia.
Qed.

Lemma slice_app_l {A} (l1 l2 : list A) lo hi :
  0 <= lo -> lo <= hi -> hi <= len l1 ->
  slice (l1 ++ l2) lo hi = slice l1 lo hi.
Proof.
  intros Hlo Hle Hhi.
  rewrite !slice_take_drop by (rewrite ?len_app; pose proof (len_nonneg l2); lia).
  unfold len in Hhi.
  rewrite drop_app_le by lia. rewrite take_app_le; [done|].
  rewrite length_drop. lia.
Qed.

Lemma slice_app_r {A} (l1 l2 : list A) lo hi :
  len l1 <= lo -> lo <= hi -> hi <= len l1 + len l2 ->
  slice (l1 ++ l2) lo hi = slice l2 (lo - len l1) (hi - len l1).
Proof.
  intros Hlo Hle Hhi. pose proof (len_nonneg l1).
  rewrite !slice_take_drop by (rewrite ?len_app; lia).
  unfold len in *.
  rewrite drop_app_ge by lia. f_equal; [lia|]. f_equal. lia.
Qed.

Lemma slice_clip {A} (l : list A) lo hi :
  0 <= lo -> lo <= len l -> len l <= hi ->
  slice l lo hi = slice l lo (len l).
Proof.
  intros Hlo Hle Hhi. unfold slice, slice_index.
  destruct (Z.ltb_spec lo 0); [lia|]. destruct (Z.ltb_spec hi 0); [lia|].
  destruct (Z.ltb_spec (len l) 0); [lia|].
  by rewrite (Z.min_l (len l) hi), (Z.min_l (len l) (len l)) by lia.
Qed.

Lemma be_bytes_length n z : length (network_io.be_bytes n z) = n.
Proof. induction n as [|n IH]; cbn; [done | by rewrite IH]. Qed.

Lemma len_be_bytes n z : len (network_io.be_bytes n z) = Z.of_nat n.
Proof. unfold len. by rewrite be_bytes_length. Qed.

Lemma be_uint_acc n z acc :
  fold_left (fun acc x => acc * 256 + byte_val x) (network_io.be_bytes n z) acc
  = acc * 256 ^ Z.of_nat n + z mod 256 ^ Z.of_nat n.
Proof.
  revert acc. induction n as [|n IH]; intros acc.
  - cbn. rewrite Z.mod_1_r. lia.
  - cbn [network_io.be_bytes fold_left]. rewrite IH.
    rewrite Z.shiftr_div_pow2 by lia.
    replace (2 ^ (8 * Z.of_nat n)) with (256 ^ Z.of_nat n)
      by (rewrite Z.pow_mul_r by lia; done).
    replace (Z.of_nat (S n)) with (Z.of_nat n + 1) by lia.
    rewrite Z.pow_add_r by lia. rewrite Z.pow_1_r.
    rewrite (Z.rem_mul_r z (256 ^ Z.of_nat n) 256) by lia.
    assert (Hb : byte_val (byte_of (z / 256 ^ Z.of_nat n))
                 = (z / 256 ^ Z.of_nat n) mod 256).
    { unfold byte_of, byte_val.
      pose proof (Z.mod_pos_bound (z / 256 ^ Z.of_nat n) 256 ltac:(lia)) as Hm.
      destruct (Byte.of_N _) as [x|] eqn:Hx.
      - apply Byte.to_of_N in Hx. rewrite Hx. lia.
      - exfalso. apply Byte.of_N_None_iff in Hx. lia. }
    rewrite Hb. lia.
Qed.

Lemma be_uint_be_bytes n z :
  0 <= z < 256 ^ Z.of_nat n ->
  network_io.be_uint (network_io.be_bytes n z) = z.
Proof.
  intros Hz. unfold network_io.be_uint. rewrite be_uint_acc.
  rewrite Z.mod_small by done. lia.
Qed.

Lemma len_singleton {A} (x : A) : len [x] = 1.
Proof. reflexivity. Qed.

Lemma pad16_length id : length (network_io.pad16 id) = 16%nat.
Proof.
  unfold network_io.pad16. rewrite length_app, length_replicate, length_take. lia.
Qed.

Lemma len_pad16 id : len (network_io.pad16 id) = 16.
Proof. unfold len. by rewrite pad16_length. Qed.

Lemma slice_exact {A} (l : list A) lo hi :
  lo = 0 -> hi = len l -> slice l lo hi = l.
Proof. intros -> ->. apply slice_all. Qed.

Lemma lstrip_nul_zeros n bs :
  network_io.lstrip_nul (replicate n x00 ++ bs) = network_io.lstrip_nul bs.
Proof. induction n as [|n IH]; [done|]. cbn. exact IH. Qed.

Lemma lstrip_nul_id bs :
  Forall (fun x => 1 <= byte_val x < 128) bs -> network_io.lstrip_nul bs = bs.
Proof.
  destruct 1 as [|x l Hx _]; [done|]. cbn.
  destruct (Z.eqb_spec (byte_val x) 0); [lia | done].
Qed.

Lemma replicate_snoc {A} n (x : A) : replicate n x ++ [x] = x :: replicate n x.
Proof. induction n as [|n IH]; [done|]. cbn. by rewrite IH. Qed.

Lemma rev_replicate {A} n (x : A) : rev (replicate n x) = replicate n x.
Proof.
  induction n as [|n IH]; [done|]. cbn. by rewrite IH, replicate_snoc.
Qed.

Lemma rstrip_nul_pad16 id :
  wire_id id -> network_io.rstrip_nul (network_io.pad16 id) = b id.
Proof.
  intros [Hlen Hascii]. unfold network_io.rstrip_nul, network_io.pad16.
  rewrite take_ge by done.
  rewrite rev_app_distr, rev_replicate.
  rewrite lstrip_nul_zeros, lstrip_nul_id, rev_involutive; [done|].
  apply Forall_forall. intros x Hx.
  rewrite Forall_forall in Hascii. apply Hascii.
  apply list_elem_of_In. apply in_rev. by apply list_elem_of_In.
Qed.

Lemma utf8_valid_ascii bs :
  Forall (fun x => 1 <= byte_val x < 128) bs -> network_io.utf8_valid bs = true.
Proof.
  induction 1 as [|x l Hx _ IH]; [done|].
  cbn [network_io.utf8_valid]. cbv zeta.
  destruct (Z.ltb_spec (byte_val x) 128); [done | lia].
Qed.

Lemma decode_utf8_pad16 id :
  wire_id id ->
  network_io.decode_utf8 (network_io.rstrip_nul (network_io.pad16 id)) = Some id.
Proof.
  intros Hid. rewrite rstrip_nul_pad16 by done.
  unfold network_io.decode_utf8. rewrite utf8_valid_ascii by apply Hid.
  unfold str, b. by rewrite String.string_of_list_byte_of_string.
Qed.

Ltac len_norm :=
  rewrite ?len_app, ?len_pad16, ?len_be_bytes, ?len_singleton.

Ltac field_of :=
  repeat (rewrite slice_app_r by (len_norm; lia));
  try (rewrite slice_app_l by (len_norm; lia));
  apply slice_exact; len_norm; lia.

Lemma data_wire (m : DataMsg.t) (extra : bytes)
    (Hm : wire_data m) :
  network_io._deserialize_message (network_io._serialize_data_message m ++ extra)
  = Some (DATA m).
Proof.
  destruct Hm as (Hid & Hc & Ht & Hb & Hk & Hr & Hck & Hp).
  pose proof (len_nonneg (DataMsg.payload m)) as Hp0.
  unfold network_io._serialize_data_message.
  set (pad := network_io.pad16 (DataMsg.bundle_id m)).
  set (fc := network_io.be_bytes 4 (DataMsg.chunk_id m)).
  set (ft := network_io.be_bytes 4 (DataMsg.total_chunks m)).
  set (fb := network_io.be_bytes 4 (DataMsg.block_id m)).
  set (fk := network_io.be_bytes 2 (DataMsg.k m)).
  set (fr := network_io.be_bytes 2 (DataMsg.r m)).
  set (fck := network_io.be_bytes 4 (DataMsg.checksum m)).
  set (fl := network_io.be_bytes 2 (len (DataMsg.payload m))).
  set (hdr := [byte_of 1] ++ pad ++ fc ++ ft ++ fb ++ fk ++ fr ++ fck
              ++ [byte_of 0] ++ fl).
  assert (Hdata : ([byte_of 1] ++ pad ++ fc ++ ft ++ fb ++ fk ++ fr ++ fck
                   ++ [byte_of 0] ++ fl ++ DataMsg.payload m) ++ extra
                  = hdr ++ DataMsg.payload m ++ extra).
  { unfold hdr. by rewrite <- !app_assoc. }
  assert (Hhdr : len hdr = 40).
  { unfold hdr, pad, fc, ft, fb, fk, fr, fck, fl. len_norm. reflexivity. }
  rewrite Hdata.
  unfold network_io._deserialize_message.
  assert (Hcons : hdr ++ DataMsg.payload m ++ extra
                  = byte_of 1 :: (pad ++ fc ++ ft ++ fb ++ fk ++ fr ++ fck
                                  ++ [byte_of 0] ++ fl)
                    ++ DataMsg.payload m ++ extra) by done.
  rewrite Hcons at 1. change (byte_val (byte_of 1) =? 1) with true. cbv iota.
  unfold network_io._deserialize_data_message, network_io.header.
  destruct (Z.ltb_spec (len (hdr ++ DataMsg.payload m ++ extra)) 40) as [Hshort|_].
  { rewrite !len_app, Hhdr in Hshort. pose proof (len_nonneg extra). lia. }
  assert (Hh : slice (hdr ++ DataMsg.payload m ++ extra) 0 40 = hdr).
  { rewrite slice_app_l by lia. apply slice_exact; [done|]. by rewrite Hhdr. }
  cbn [mbind option_bind]. rewrite Hh.
  assert (F1 : slice hdr 1 17 = pad) by (unfold hdr, pad, fc, ft, fb, fk, fr, fck, fl; field_of).
  assert (F2 : slice hdr 17 21 = fc) by (unfold hdr, pad, fc, ft, fb, fk, fr, fck, fl; field_of).
  assert (F3 : slice hdr 21 25 = ft) by (unfold hdr, pad, fc, ft, fb, fk, fr, fck, fl; field_of).
  assert (F4 : slice hdr 25 29 = fb) by (unfold hdr, pad, fc, ft, fb, fk, fr, fck, fl; field_of).
  assert (F5 : slice hdr 29 31 = fk) by (unfold hdr, pad, fc, ft, fb, fk, fr, fck, fl; field_of).
  assert (F6 : slice hdr 31 33 = fr) by (unfold hdr, pad, fc, ft, fb, fk, fr, fck, fl; field_of).
  assert (F7 : slice hdr 33 37 = fck) by (unfold hdr, pad, fc, ft, fb, fk, fr, fck, fl; field_of).
  assert (F8 : slice hdr 38 40 = fl) by (unfold hdr, pad, fc, ft, fb, fk, fr, fck, fl; field_of).
  rewrite F1. unfold pad. rewrite decode_utf8_pad16 by done. cbn [mbind option_bind].
  unfold network_io.field. rewrite F2, F3, F4, F5, F6, F7, F8.
  unfold fc, ft, fb, fk, fr, fck, fl.
  rewrite !be_uint_be_bytes by (cbn; lia).
  assert (Hpay : slice (hdr ++ DataMsg.payload m ++ extra) 40
                       (40 + len (DataMsg.payload m)) = DataMsg.payload m).
  { rewrite slice_app_r by (rewrite ?len_app; pose proof (len_nonneg extra); lia).
    rewrite slice_app_l by lia. apply slice_exact; lia. }
  rewrite Hpay. by destruct m.
Qed.

(** X20. DATA messages survive the wire.  For a DATA message whose fields
    fit the 40-octet header (bundle id of at most 16 ASCII characters
    without NUL, 32-bit ids and checksum, 16-bit [k], [r] and payload
    length), decoding what [_serialize_data_message] produced gives the
    message back, field by field and payload included, even when octets
    follow the payload in the datagram. *)
Theorem data_wire_roundtrip (m : DataMsg.t) (extra : bytes)
    (Hm : wire_data m) :
  network_io._deserialize_message (network_io._serialize_data_message m ++ extra)
  = Some (DATA m).
Proof. exact (data_wire m extra Hm). Qed.

Lemma data_wire_roundtrip_witness :
  network_io._deserialize_message
    (network_io._serialize_data_message good_chunk ++ b "trailing")
  = Some (DATA good_chunk).
Proof.
  apply (data_wire_roundtrip good_chunk (b "trailing")).
  unfold wire_data, wire_id.
  split; [split; [vm_compute; lia | repeat constructor; vm_compute; done]|].
  vm_compute. repeat split; congruence.
Defined.

(** ** The SACK digest *)

Lemma sorted_elem (s : gset Z) c : c ∈ protocol.sorted s <-> c ∈ s.
Proof.
  unfold protocol.sorted. rewrite merge_sort_Permutation. apply elem_of_elements.
Qed.

Lemma sorted_strict (s : gset Z) : StronglySorted Z.lt (protocol.sorted s).
Proof.
  assert (Hs : StronglySorted Z.le (protocol.sorted s)).
  { apply StronglySorted_merge_sort; [intros x y z; lia | intros x y; lia]. }
  assert (Hnd : NoDup (protocol.sorted s)).
  { unfold protocol.sorted. rewrite merge_sort_Permutation. apply NoDup_elements. }
  induction Hs as [|x l Hs IH Hall]; [constructor|].
  apply NoDup_cons in Hnd as [Hx Hnd]. constructor; [by apply IH|].
  rewrite Forall_forall in *. intros y Hy.
  assert (x <> y) by (by intros ->). specialize (Hall y Hy). lia.
Qed.

Lemma watermark_stopped l w nx :
  fold_left protocol.watermark_step l (w, nx, true) = (w, nx, true).
Proof. induction l as [|c l IH]; [done|]. cbn. exact IH. Qed.

Lemma watermark_loop l w :
  StronglySorted Z.lt l ->
  Forall (fun c => w < c) l ->
  exists w' nx st,
    fold_left protocol.watermark_step l (w, w + 1, false) = (w', nx, st)
    /\ w <= w'
    /\ (forall c, w < c <= w' -> c ∈ l)
    /\ (w' + 1) ∉ l.
Proof.
  intros Hs. revert w. induction Hs as [|c l Hs IH Hall]; intros w Hw.
  - cbn. eexists _, _, _. split; [reflexivity|]. split; [lia|].
    split; [intros; lia | apply not_elem_of_nil].
  - apply Forall_cons in Hw as [Hc Hw]. cbn [fold_left protocol.watermark_step].
    destruct (Z.eqb_spec c (w + 1)) as [->|Hne].
    + destruct (IH (w + 1)) as (w' & nx & st & Hfold & Hle & Hin & Hout).
      { eapply Forall_impl; [exact Hall|]. cbn. lia. }
      rewrite Hfold. eexists _, _, _. split; [reflexivity|]. split; [lia|].
      split.
      * intros c [Hlo Hhi]. destruct (decide (c = w + 1)) as [->|].
        -- apply list_elem_of_here.
        -- apply list_elem_of_further, Hin. lia.
      * intros [Heq|Hin']%elem_of_cons; [lia | done].
    + destruct (Z.ltb_spec (w + 1) c) as [Hgt|]; [|lia].
      rewrite watermark_stopped. eexists _, _, _. split; [reflexivity|].
      split; [lia|]. split; [intros; lia|].
      intros [Heq|Hin']%elem_of_cons; [lia|].
      rewrite Forall_forall in Hall. specialize (Hall _ Hin'). lia.
Qed.

Lemma max_of_spec (l : list Z) :
  l <> [] -> protocol.max_of l ∈ l /\ Forall (fun c => c <= protocol.max_of l) l.
Proof.
  destruct l as [|x l]; [done|]. intros _. unfold protocol.max_of.
  assert (H : forall acc,
            (fold_left Z.max l acc = acc \/ fold_left Z.max l acc ∈ l)
            /\ acc <= fold_left Z.max l acc
            /\ Forall (fun c => c <= fold_left Z.max l acc) l).
  { induction l as [|y l IH]; intros acc; cbn.
    - split; [by left|]. split; [lia | constructor].
    - destruct (IH (Z.max acc y)) as ([Heq|Hin] & Hle & Hall).
      + split.
        * destruct (Z.max_spec acc y) as [[_ Hm]|[_ Hm]]; rewrite Heq, Hm.
          -- right. apply list_elem_of_here.
          -- by left.
        * split; [lia|]. constructor; [lia | done].
      + split; [right; by apply list_elem_of_further|].
        split; [lia|]. constructor; [lia | done]. }
  destruct (H x) as ([Heq|Hin] & Hle & Hall).
  - rewrite Heq in *. split; [apply list_elem_of_here|].
    constructor; [lia | done].
  - split; [by apply list_elem_of_further|]. constructor; [lia | done].
Qed.

Lemma byte_val_of_mod z : byte_val (byte_of z) = z mod 256.
Proof.
  unfold byte_of, byte_val.
  pose proof (Z.mod_pos_bound z 256 ltac:(lia)) as Hm.
  destruct (Byte.of_N _) as [x|] eqn:Hx.
  - apply Byte.to_of_N in Hx. rewrite Hx. lia.
  - exfalso. apply Byte.of_N_None_iff in Hx. lia.
Qed.

Lemma testbit_byte_of z i :
  0 <= i < 8 -> Z.testbit (byte_val (byte_of z)) i = Z.testbit z i.
Proof.
  intros Hi. rewrite byte_val_of_mod. change 256 with (2 ^ 8).
  apply Z.mod_pow2_bits_low. lia.
Qed.

Lemma testbit_byte_or_mask x k i :
  0 <= k -> 0 <= i < 8 ->
  Z.testbit (byte_val (protocol.byte_or x (byte_of (Z.shiftl 1 k)))) i
  = Z.testbit (byte_val x) i || (k =? i).
Proof.
  intros Hk Hi. unfold protocol.byte_or.
  rewrite testbit_byte_of, Z.lor_spec, testbit_byte_of by done.
  by rewrite Z.shiftl_1_l, Z.pow2_bits_eqb.
Qed.

Lemma bit_at_zeros n j : bit_at (replicate n x00) j = false.
Proof.
  unfold bit_at. destruct (replicate n x00 !! _) as [x|] eqn:Hx; [|done].
  apply lookup_replicate in Hx as [-> _]. apply Z.testbit_0_l.
Qed.

Lemma set_bit_length w mh bm c :
  length (protocol.set_bit w mh bm c) = length bm.
Proof.
  unfold protocol.set_bit. repeat case_match; try done.
  apply length_alter.
Qed.

Lemma set_bit_spec w mh bm c j :
  0 <= j ->
  (w < c <= mh -> (Z.to_nat ((c - (w + 1)) / 8) < length bm)%nat) ->
  bit_at (protocol.set_bit w mh bm c) j
  = bit_at bm j || ((w <? c) && (c <=? mh) && (j =? c - (w + 1))).
Proof.
  intros Hj Hlen. unfold protocol.set_bit.
  destruct (Z.leb_spec c w) as [Hlow|Hlow].
  { destruct (Z.ltb_spec w c); [lia|]. by rewrite orb_false_r. }
  destruct (Z.ltb_spec mh c) as [Hhigh|Hhigh].
  { destruct (Z.leb_spec c mh); [lia|]. by rewrite andb_false_r, orb_false_r. }
  destruct (Z.ltb_spec w c); [|lia]. destruct (Z.leb_spec c mh); [|lia].
  cbn [andb]. specialize (Hlen ltac:(lia)).
  set (j0 := c - (w + 1)) in *. assert (Hj0 : 0 <= j0) by (unfold j0; lia).
  unfold bit_at.
  destruct (decide (Z.to_nat (j / 8) = Z.to_nat (j0 / 8))) as [Heq|Hne].
  - rewrite Heq, list_lookup_alter_eq.
    destruct (bm !! Z.to_nat (j0 / 8)) as [x|] eqn:Hx.
    2: { apply lookup_ge_None in Hx. lia. }
    cbn. pose proof (Z.mod_pos_bound j 8 ltac:(lia)).
    pose proof (Z.mod_pos_bound j0 8 ltac:(lia)).
    rewrite testbit_byte_or_mask by lia. f_equal.
    assert (Hq : j / 8 = j0 / 8).
    { pose proof (Z.div_pos j 8 Hj ltac:(lia)).
      pose proof (Z.div_pos j0 8 Hj0 ltac:(lia)). lia. }
    pose proof (Z.div_mod j 8 ltac:(lia)).
    pose proof (Z.div_mod j0 8 ltac:(lia)).
    destruct (Z.eqb_spec j j0) as [->|Hdiff].
    + by apply Z.eqb_eq.
    + apply Z.eqb_neq. lia.
  - rewrite list_lookup_alter_ne by done.
    destruct (Z.eqb_spec j j0) as [->|_]; [done|]. by rewrite orb_false_r.
Qed.

Lemma set_bit_loop w mh (l : list Z) bm j :
  0 <= j ->
  (forall c, c ∈ l -> w < c <= mh ->
             (Z.to_nat ((c - (w + 1)) / 8) < length bm)%nat) ->
  bit_at (fold_left (protocol.set_bit w mh) l bm) j = true
  <-> bit_at bm j = true
      \/ exists c, c ∈ l /\ w < c <= mh /\ j = c - (w + 1).
Proof.
  intros Hj. revert bm. induction l as [|c l IH]; intros bm Hlen.
  - cbn. split; [by left|]. intros [?|(c & Hc & _)]; [done|].
    by apply elem_of_nil in Hc.
  - cbn [fold_left]. rewrite IH.
    2: { intros c' Hc' Hr. rewrite set_bit_length.
         apply Hlen; [by apply list_elem_of_further | done]. }
    rewrite set_bit_spec by (try done; apply Hlen; apply list_elem_of_here).
    rewrite orb_true_iff, !andb_true_iff, Z.ltb_lt, Z.leb_le, Z.eqb_eq.
    split.
    + intros [[?|((? & ?) & ?)]|(c' & Hc' & Hr & ->)].
      * by left.
      * right. exists c. split; [apply list_elem_of_here | done].
      * right. exists c'. split; [by apply list_elem_of_further | done].
    + intros [?|(c' & Hc' & Hr & ->)]; [by left; left|].
      apply elem_of_cons in Hc' as [->|Hc'].
      * left. right. done.
      * right. exists c'. done.
Qed.

Lemma set_bit_loop_length w mh (l : list Z) bm :
  length (fold_left (protocol.set_bit w mh) l bm) = length bm.
Proof.
  revert bm. induction l as [|c l IH]; intros bm; [done|].
  cbn. by rewrite IH, set_bit_length.
Qed.

Lemma bitmap_ids_elem base (bitmap : bytes) c :
  c ∈ network_io.bitmap_ids base bitmap
  <-> base <= c /\ bit_at bitmap (c - base) = true.
Proof.
  unfold network_io.bitmap_ids, bit_at. rewrite list_elem_of_In, in_concat.
  split.
  - intros (ids & Hids & Hc).
    apply list_elem_of_In, elem_of_lookup_imap in Hids as (i & x & -> & Hx).
    apply list_elem_of_In in Hc. unfold network_io.bitmap_byte_ids in Hc.
    apply list_elem_of_omap in Hc as (p & Hp & Hbit).
    apply range_elem in Hp.
    destruct (Z.testbit (byte_val x) (7 - p)) eqn:Htest; [|done].
    injection Hbit as <-.
    replace (base + Z.of_nat i * 8 + p - base) with (p + Z.of_nat i * 8) by lia.
    rewrite Z.div_add, Z.mod_add, Z.div_small, Z.mod_small by lia.
    rewrite Z.add_0_l, Nat2Z.id, Hx. split; [lia | done].
  - intros [Hbase Hbit].
    destruct (bitmap !! Z.to_nat ((c - base) / 8)) as [x|] eqn:Hx; [|done].
    pose proof (Z.mod_pos_bound (c - base) 8 ltac:(lia)) as Hp.
    pose proof (Z.div_mod (c - base) 8 ltac:(lia)) as Hdm.
    pose proof (Z.div_pos (c - base) 8 ltac:(lia) ltac:(lia)) as Hq.
    exists (network_io.bitmap_byte_ids base
              (Z.of_nat (Z.to_nat ((c - base) / 8))) x).
    split.
    + apply list_elem_of_In, elem_of_lookup_imap. by eexists _, _.
    + apply list_elem_of_In. unfold network_io.bitmap_byte_ids.
      apply list_elem_of_omap. exists ((c - base) mod 8).
      split; [by apply range_elem|]. rewrite Hbit. f_equal. lia.
Qed.

Lemma sack_digest (acked : list Z) :
  let '(w, bitmap) := protocol._compute_sack_window acked in
  -1 <= w
  /\ (forall c, 0 <= c <= w -> c ∈ acked)
  /\ ((w + 1) ∉ acked)
  /\ len bitmap <= 256
  /\ forall c, c ∈ network_io.bitmap_ids (w + 1) bitmap
               <-> c ∈ acked /\ w < c <= w + protocol.MAX_SACK_WINDOW_BITS.
Proof.
  unfold protocol._compute_sack_window, protocol.MAX_SACK_WINDOW_BITS.
  set (S := list_to_set (filter (fun c => 0 <= c) acked) : gset Z).
  assert (HS : forall c, c ∈ S <-> c ∈ acked /\ 0 <= c).
  { intros c. unfold S. rewrite elem_of_list_to_set, list_elem_of_filter. tauto. }
  destruct (decide (S = ∅)) as [Hempty|Hne].
  { assert (Hno : forall c, c ∈ acked -> 0 <= c -> False).
    { intros c Hc H0. assert (Hin : c ∈ S) by (by apply HS).
      rewrite Hempty in Hin. by apply elem_of_empty in Hin. }
    split; [lia|]. split; [intros; lia|]. split; [intros H; by apply (Hno 0)|].
    split; [done|]. intros c. rewrite bitmap_ids_elem. cbn.
    split; [by intros [_ ?] | intros [Hc ?]; exfalso; apply (Hno c); [done|lia]]. }
  destruct (watermark_loop (protocol.sorted S) (-1)) as (w & nx & st & Hfold & Hw & Hin & Hout).
  { apply sorted_strict. }
  { apply Forall_forall. intros c Hc. apply sorted_elem, HS in Hc. lia. }
  change (-1 + 1) with 0 in Hfold. rewrite Hfold.
  destruct (max_of_spec (elements S)) as [Hmax Hall].
  { intros Hnil. apply Hne. by apply elements_empty_inv in Hnil as ->%leibniz_equiv. }
  apply elem_of_elements, HS in Hmax as [Hmax Hmax0].
  rewrite Forall_forall in Hall.
  assert (Hle : forall c, c ∈ acked -> 0 <= c -> c <= protocol.max_of (elements S)).
  { intros c Hc H0. apply Hall, elem_of_elements, HS. done. }
  assert (Hnext : (w + 1) ∉ acked).
  { intros Hc. apply Hout, sorted_elem, HS. split; [done | lia]. }
  assert (Hbelow : forall c, 0 <= c <= w -> c ∈ acked).
  { intros c Hc. apply HS, sorted_elem, Hin. lia. }
  set (mx := protocol.max_of (elements S)) in *.
  destruct (Z.leb_spec mx w) as [Hdone|Hmore].
  { split; [done|]. split; [done|]. split; [done|]. split; [done|].
    intros c. rewrite bitmap_ids_elem. cbn.
    split; [by intros [_ ?] | intros [Hc ?]; specialize (Hle c Hc); lia]. }
  set (mh := Z.min mx (w + 2048)).
  set (nbytes := (mh - (w + 1) + 1 + 7) / 8).
  assert (Hn : 0 <= nbytes <= 256
               /\ forall c, w < c <= mh -> (c - (w + 1)) / 8 < nbytes).
  { unfold nbytes, mh. split.
    - split; [apply Z.div_pos; lia|].
      enough ((Z.min mx (w + 2048) - (w + 1) + 1 + 7) / 8 < 257) by lia.
      apply Z.div_lt_upper_bound; lia.
    - intros c Hc.
      apply Z.div_lt_upper_bound; [lia|].
      pose proof (Z.mul_div_le (Z.min mx (w + 2048) - (w + 1) + 1 + 7) 8 ltac:(lia)).
      pose proof (Z.mod_pos_bound (Z.min mx (w + 2048) - (w + 1) + 1 + 7) 8 ltac:(lia)).
      pose proof (Z.div_mod (Z.min mx (w + 2048) - (w + 1) + 1 + 7) 8 ltac:(lia)).
      lia. }
  destruct Hn as [Hn Hfit].
  split; [done|]. split; [done|]. split; [done|]. split.
  { unfold len. rewrite set_bit_loop_length, length_replicate. lia. }
  intros c. rewrite bitmap_ids_elem. split.
  - intros [Hc Hbit].
    apply set_bit_loop in Hbit as [Hz|(c' & Hc' & Hr & Heq)]; [| |lia|].
    + by rewrite bit_at_zeros in Hz.
    + assert (c' = c) as -> by lia.
      apply elem_of_elements, HS in Hc' as [Hc' _]. unfold mh in Hr. split; [done|lia].
    + intros c' _ Hr. rewrite length_replicate.
      specialize (Hfit c' Hr).
      pose proof (Z.div_pos (c' - (w + 1)) 8 ltac:(lia) ltac:(lia)). lia.
  - intros [Hc Hr]. split; [lia|].
    apply set_bit_loop; [lia| |].
    + intros c' _ Hr'. rewrite length_replicate.
      specialize (Hfit c' Hr').
      pose proof (Z.div_pos (c' - (w + 1)) 8 ltac:(lia) ltac:(lia)). lia.
    + right. exists c. split; [apply elem_of_elements, HS; split; [done|lia]|].
      split; [|done]. unfold mh. specialize (Hle c Hc). lia.
Qed.

(** X21. What a SACK digest says.  [_compute_sack_window] returns a
    watermark [w >= -1] such that every id in [0, w] is acked and [w + 1]
    is not, and a bitmap of at most 256 octets in which, read as the
    decoder reads it, exactly those acked ids are marked that lie in
    [(w, w + 2048]]: no id is acknowledged that was not acked, and acked
    ids further than 2048 beyond the watermark are left out. *)
Theorem _compute_sack_window_spec (acked : list Z) :
  let '(w, bitmap) := protocol._compute_sack_window acked in
  -1 <= w
  /\ (forall c, 0 <= c <= w -> c ∈ acked)
  /\ ((w + 1) ∉ acked)
  /\ len bitmap <= 256
  /\ forall c, c ∈ network_io.bitmap_ids (w + 1) bitmap
               <-> c ∈ acked /\ w < c <= w + protocol.MAX_SACK_WINDOW_BITS.
Proof. apply sack_digest. Qed.

Lemma sack_wire_decode (m : SackMsg.t) (extra : bytes) :
  wire_id (SackMsg.bundle_id m) ->
  -1 <= SackMsg.recv_watermark m < 2 ^ 32 - 1 ->
  len (SackMsg.sack_bitmap m) <= 256 ->
  network_io._deserialize_message (network_io._serialize_sack_message m ++ extra)
  = Some (SACK {| SackMsg.bundle_id := SackMsg.bundle_id m;
                  SackMsg.recv_watermark := SackMsg.recv_watermark m;
                  SackMsg.sack_bitmap := SackMsg.sack_bitmap m;
                  SackMsg.acked_chunks :=
                    protocol.sorted
                      ((if 0 <=? SackMsg.recv_watermark m
                        then list_to_set (range (SackMsg.recv_watermark m + 1))
                        else ∅)
                       ∪ list_to_set
                           (network_io.bitmap_ids (SackMsg.recv_watermark m + 1)
                              (SackMsg.sack_bitmap m))) |}).
Proof.
  intros Hid Hw Hlen.
  pose proof (len_nonneg (SackMsg.sack_bitmap m)) as Hlen0.
  unfold network_io._serialize_sack_message, protocol.MAX_SACK_WINDOW_BITS.
  rewrite take_ge by (unfold len in Hlen; change (2048 / 8) with 256; lia).
  set (raw := if SackMsg.recv_watermark m <? 0 then 4294967295
              else SackMsg.recv_watermark m).
  assert (Hraw : 0 <= raw < 2 ^ 32
                 /\ (if raw =? 4294967295 then -1 else raw)
                    = SackMsg.recv_watermark m).
  { unfold raw. destruct (Z.ltb_spec (SackMsg.recv_watermark m) 0).
    - split; [lia|]. cbn. lia.
    - split; [lia|].
      destruct (Z.eqb_spec (SackMsg.recv_watermark m) 4294967295); lia. }
  destruct Hraw as [Hraw Hdec].
  set (pad := network_io.pad16 (SackMsg.bundle_id m)).
  set (fw := network_io.be_bytes 4 raw).
  set (fl := network_io.be_bytes 2 (len (SackMsg.sack_bitmap m))).
  set (hdr := [byte_of 2] ++ pad ++ fw ++ fl).
  assert (Hdata : ([byte_of 2] ++ pad ++ fw ++ fl ++ SackMsg.sack_bitmap m) ++ extra
                  = hdr ++ SackMsg.sack_bitmap m ++ extra).
  { unfold hdr. by rewrite <- !app_assoc. }
  assert (Hhdr : len hdr = 23).
  { unfold hdr, pad, fw, fl. len_norm. reflexivity. }
  rewrite Hdata. unfold network_io._deserialize_message.
  assert (Hcons : hdr ++ SackMsg.sack_bitmap m ++ extra
                  = byte_of 2 :: (pad ++ fw ++ fl)
                    ++ SackMsg.sack_bitmap m ++ extra) by done.
  rewrite Hcons at 1.
  change (byte_val (byte_of 2) =? 1) with false.
  change (byte_val (byte_of 2) =? 2) with true. cbv iota.
  unfold network_io._deserialize_sack_message, network_io.header.
  destruct (Z.ltb_spec (len (hdr ++ SackMsg.sack_bitmap m ++ extra)) 23) as [Hshort|_].
  { rewrite !len_app, Hhdr in Hshort. pose proof (len_nonneg extra). lia. }
  assert (Hh : slice (hdr ++ SackMsg.sack_bitmap m ++ extra) 0 23 = hdr).
  { rewrite slice_app_l by lia. apply slice_exact; [done|]. by rewrite Hhdr. }
  cbn [mbind option_bind]. rewrite Hh.
  assert (F1 : slice hdr 1 17 = pad) by (unfold hdr, pad, fw, fl; field_of).
  assert (F2 : slice hdr 17 21 = fw) by (unfold hdr, pad, fw, fl; field_of).
  assert (F3 : slice hdr 21 23 = fl) by (unfold hdr, pad, fw, fl; field_of).
  rewrite F1. unfold pad. rewrite decode_utf8_pad16 by done. cbn [mbind option_bind].
  unfold network_io.field. rewrite F2, F3. unfold fw, fl.
  rewrite !be_uint_be_bytes by (cbn; lia).
  assert (Hpay : slice (hdr ++ SackMsg.sack_bitmap m ++ extra) 23
                       (23 + len (SackMsg.sack_bitmap m)) = SackMsg.sack_bitmap m).
  { rewrite slice_app_r by (rewrite ?len_app; pose proof (len_nonneg extra); lia).
    rewrite slice_app_l by lia. apply slice_exact; lia. }
  rewrite Hpay. cbv zeta. rewrite Hdec. done.
Qed.

(** X22. Acknowledgements survive the wire.  For a bundle id that fits
    the wire and acked ids below [2 ** 32 - 1], the SACK that
    [make_sack_msg] builds, once serialized and decoded again, names the
    same bundle, watermark and bitmap, and its [acked_chunks] are, in
    strictly increasing order, exactly the acked ids from 0 up to 2048
    beyond the watermark; octets after the bitmap in the datagram are
    ignored. *)
Theorem sack_survives_wire (id : string) (acked : list Z) (extra : bytes)
    (Hid : wire_id id)
    (Hrange : forall c, c ∈ acked -> c < 2 ^ 32 - 1) :
  exists m m',
    protocol.make_sack_msg id acked = SACK m
    /\ network_io._deserialize_message
         (network_io._serialize_sack_message m ++ extra) = Some (SACK m')
    /\ SackMsg.bundle_id m' = id
    /\ SackMsg.recv_watermark m' = SackMsg.recv_watermark m
    /\ SackMsg.sack_bitmap m' = SackMsg.sack_bitmap m
    /\ StronglySorted Z.lt (SackMsg.acked_chunks m')
    /\ forall c, c ∈ SackMsg.acked_chunks m'
                 <-> c ∈ acked
                     /\ 0 <= c <= SackMsg.recv_watermark m
                                  + protocol.MAX_SACK_WINDOW_BITS.
Proof.
  pose proof (sack_digest acked) as Hdigest.
  unfold protocol.make_sack_msg.
  destruct (protocol._compute_sack_window acked) as [w bitmap].
  destruct Hdigest as (Hw & Hbelow & Hnext & Hlen & Hbits).
  assert (Hw32 : w < 2 ^ 32 - 1).
  { destruct (decide (w = -1)) as [->|]; [lia|].
    apply Hrange, Hbelow. lia. }
  eexists _, _. split; [reflexivity|]. split.
  { apply sack_wire_decode; cbn; [done | lia | done]. }
  cbn. split; [done|]. split; [done|]. split; [done|].
  split; [apply sorted_strict|].
  intros c. rewrite sorted_elem, elem_of_union, elem_of_list_to_set, Hbits.
  unfold protocol.MAX_SACK_WINDOW_BITS in *.
  destruct (Z.leb_spec 0 w).
  - rewrite elem_of_list_to_set, range_elem. split.
    + intros [Hc|[Hc ?]]; [|split; [done|lia]].
      split; [apply Hbelow; lia | lia].
    + intros [Hc Hr]. destruct (Z.le_gt_cases c w); [left; lia | right].
      split; [done | lia].
  - split.
    + intros [Hc|[Hc ?]]; [by apply elem_of_empty in Hc|]. split; [done|lia].
    + intros [Hc Hr]. right. split; [done | lia].
Qed.

Lemma sack_survives_wire_witness :
  exists m m',
    protocol.make_sack_msg "bundleS" [0; 1; 2; 5; 7; 10] = SACK m
    /\ network_io._deserialize_message
         (network_io._serialize_sack_message m ++ []) = Some (SACK m')
    /\ SackMsg.bundle_id m' = "bundleS"%string
    /\ SackMsg.recv_watermark m' = SackMsg.recv_watermark m
    /\ SackMsg.sack_bitmap m' = SackMsg.sack_bitmap m
    /\ StronglySorted Z.lt (SackMsg.acked_chunks m')
    /\ forall c, c ∈ SackMsg.acked_chunks m'
                 <-> c ∈ [0; 1; 2; 5; 7; 10]
                     /\ 0 <= c <= SackMsg.recv_watermark m
                                  + protocol.MAX_SACK_WINDOW_BITS.
Proof.
  apply (sack_survives_wire "bundleS" [0; 1; 2; 5; 7; 10] []).
  - split; [vm_compute; lia | repeat constructor; vm_compute; done].
  - intros c Hc. repeat (apply elem_of_cons in Hc as [->|Hc]; [lia|]).
    by apply elem_of_nil in Hc.
Defined.

(** ** Reconstruction of a lost chunk *)

Lemma omap_lookup_run (d : gmap Z bytes) (start : Z) (l : list bytes) (a : nat) :
  (forall i p, l !! i = Some p -> d !! (start + Z.of_nat (a + i)) = Some p) ->
  omap (fun cid => d !! cid) ((fun i : nat => start + Z.of_nat i) <$> seq a (length l))
  = l.
Proof.
  revert a. induction l as [|p l IH]; intros a H; [done|].
  cbn. rewrite <- (Nat.add_0_r a) at 1. rewrite (H 0%nat p) by done. cbn.
  f_equal. apply IH. intros i q Hq.
  replace (S a + i)%nat with (a + S i)%nat by lia. by apply H.
Qed.

Lemma filter_present_run (d : gmap Z bytes) (start : Z) (l : list bytes) (a : nat) :
  (forall i p, l !! i = Some p -> d !! (start + Z.of_nat (a + i)) = Some p) ->
  filter (fun cid => is_Some (d !! cid))
         ((fun i : nat => start + Z.of_nat i) <$> seq a (length l))
  = (fun i : nat => start + Z.of_nat i) <$> seq a (length l)
  /\ filter (fun cid => ~ is_Some (d !! cid))
            ((fun i : nat => start + Z.of_nat i) <$> seq a (length l))
     = [].
Proof.
  intros H.
  assert (Hall : Forall (fun cid => is_Some (d !! cid))
                   ((fun i : nat => start + Z.of_nat i) <$> seq a (length l))).
  { apply Forall_fmap, Forall_forall. intros i Hi. cbn.
    apply elem_of_seq in Hi.
    destruct (lookup_lt_is_Some_2 l (i - a)) as [p Hp]; [lia|].
    exists p. replace i with (a + (i - a))%nat by lia. by apply H. }
  split; [by apply filter_all|].
  apply filter_none. eapply Forall_impl; [exact Hall|]. cbn. tauto.
Qed.

(** X23. A lost data chunk comes back as it was sent.  Let block
    [block_id] of a FEC bundle consist of the chunks [pre ++ x :: post],
    let the receiver hold the payloads of all of them but [x] together
    with the parity the sender computed over the block with
    [_xor_chunks], and let no chunk of the block be longer than [x].
    Then [_try_fec_reconstruct] files the payload of [x] under the missing
    id, marks the id as received and saves one chunk row whose payload is
    that of [x] and whose checksum is its CRC-32; it sends nothing. *)
Theorem _try_fec_reconstruct_recovers (state : ReceiveState.t) (block_id : Z)
    (w : receive_engine.env) (pre post : list Chunk.t) (x : Chunk.t)
    (parities : list bytes)
    (Hfec : ReceiveState.fec_enabled state = true)
    (Hk : 0 < ReceiveState.k state)
    (Hr : 0 < ReceiveState.r state)
    (Hblock : Z.min (block_id * ReceiveState.k state + ReceiveState.k state)
                    (ReceiveState.num_data_chunks state)
              - block_id * ReceiveState.k state
              = len (pre ++ x :: post))
    (Hparity : ReceiveState.parity_chunks state !! block_id
               = Some (send_engine._xor_chunks (pre ++ x :: post) :: parities))
    (Hpre : forall i c, pre !! i = Some c ->
              ReceiveState.data_chunks state
                !! (block_id * ReceiveState.k state + Z.of_nat i)
              = Some (Chunk.payload c))
    (Hmissing : ReceiveState.data_chunks state
                  !! (block_id * ReceiveState.k state + len pre) = None)
    (Hpost : forall i c, post !! i = Some c ->
               ReceiveState.data_chunks state
                 !! (block_id * ReceiveState.k state + len pre + 1 + Z.of_nat i)
               = Some (Chunk.payload c))
    (Hlen : forall c, c ∈ pre ++ post ->
              (length (Chunk.payload c) <= length (Chunk.payload x))%nat) :
  let missing_id := block_id * ReceiveState.k state + len pre in
  let row :=
    {| Chunk.bundle_id := ReceiveState.bundle_id state;
       Chunk.chunk_id := missing_id;
       Chunk.is_parity := false;
       Chunk.block_id := block_id;
       Chunk.k := ReceiveState.k state;
       Chunk.r := ReceiveState.r state;
       Chunk.payload := Chunk.payload x;
       Chunk.checksum := Z.land (zlib.crc32 (Chunk.payload x)) 0xFFFFFFFF;
       Chunk.flags := 0 |} in
  receive_engine._try_fec_reconstruct state block_id w
  = (ReceiveState.set_received_chunks
       (ReceiveState.received_chunks state ∪ {[missing_id]})
       (ReceiveState.set_data_chunks
          (<[missing_id := Chunk.payload x]> (ReceiveState.data_chunks state))
          state),
     receive_engine.with_db (storage.save_chunk row (receive_engine.db w)) w).
Proof.
  cbv zeta. unfold receive_engine._try_fec_reconstruct.
  rewrite Hfec, Hparity.
  destruct (Z.leb_spec (ReceiveState.k state) 0); [lia|].
  destruct (Z.leb_spec (ReceiveState.r state) 0); [lia|].
  cbn [negb orb].
  set (start := block_id * ReceiveState.k state) in *.
  set (d := ReceiveState.data_chunks state) in *.
  assert (Hids : range2 start
                   (Z.min (start + ReceiveState.k state)
                      (ReceiveState.num_data_chunks state))
                 = ((fun i : nat => start + Z.of_nat i) <$> seq 0 (length pre))
                   ++ [start + len pre]
                   ++ ((fun i : nat => start + Z.of_nat i)
                       <$> seq (S (length pre)) (length post))).
  { unfold range2. rewrite Hblock. unfold len.
    rewrite Nat2Z.id, length_app. cbn [length].
    replace (length pre + S (length post))%nat
      with (length pre + (1 + length post))%nat by lia.
    rewrite !seq_app, !fmap_app. cbn.
    by replace (length pre + 1)%nat with (S (length pre)) by lia. }
  rewrite Hids.
  destruct (filter_present_run d start (Chunk.payload <$> pre) 0) as [Hp1 Hm1].
  { intros i p Hp. rewrite list_lookup_fmap in Hp.
    destruct (pre !! i) as [c|] eqn:Hc; [|done]. injection Hp as <-.
    by apply Hpre. }
  destruct (filter_present_run d start (Chunk.payload <$> post) (S (length pre)))
    as [Hp2 Hm2].
  { intros i p Hp. rewrite list_lookup_fmap in Hp.
    destruct (post !! i) as [c|] eqn:Hc; [|done]. injection Hp as <-.
    replace (start + Z.of_nat (S (length pre) + i))
      with (start + len pre + 1 + Z.of_nat i) by (unfold len; lia).
    by apply Hpost. }
  rewrite !length_fmap in Hp1, Hm1, Hp2, Hm2.
  rewrite !filter_app, Hp1, Hm1, Hp2, Hm2.
  rewrite (filter_none (fun cid => is_Some (d !! cid)) [start + len pre]).
  2: { constructor; [|constructor]. rewrite Hmissing. by intros [? ?]. }
  rewrite (filter_all (fun cid => ~ is_Some (d !! cid)) [start + len pre]).
  2: { constructor; [|constructor]. rewrite Hmissing. by intros [? ?]. }
  cbn [app]. rewrite !omap_app.
  pose proof (omap_lookup_run d start (Chunk.payload <$> pre) 0) as Ho1.
  pose proof (omap_lookup_run d start (Chunk.payload <$> post) (S (length pre)))
    as Ho2.
  rewrite !length_fmap in Ho1, Ho2. rewrite Ho1, Ho2.
  - rewrite <- fmap_app.
    destruct (parity_recovers_missing_lemma pre post x Hlen) as [-> _]. done.
  - intros i p Hp. rewrite list_lookup_fmap in Hp.
    destruct (post !! i) as [c|] eqn:Hc; [|done]. injection Hp as <-.
    replace (start + Z.of_nat (S (length pre) + i))
      with (start + len pre + 1 + Z.of_nat i) by (unfold len; lia).
    by apply Hpost.
  - intros i p Hp. rewrite list_lookup_fmap in Hp.
    destruct (pre !! i) as [c|] eqn:Hc; [|done]. injection Hp as <-.
    by apply Hpre.
Qed.

Lemma _try_fec_reconstruct_recovers_witness :
  let w := receive_engine.env_of plain_receiver_idle in
  let missing_id := 0 * ReceiveState.k lossy_state + len [even_chunk 0] in
  let row :=
    {| Chunk.bundle_id := ReceiveState.bundle_id lossy_state;
       Chunk.chunk_id := missing_id;
       Chunk.is_parity := false;
       Chunk.block_id := 0;
       Chunk.k := ReceiveState.k lossy_state;
       Chunk.r := ReceiveState.r lossy_state;
       Chunk.payload := Chunk.payload (even_chunk 1);
       Chunk.checksum := Z.land (zlib.crc32 (Chunk.payload (even_chunk 1))) 0xFFFFFFFF;
       Chunk.flags := 0 |} in
  receive_engine._try_fec_reconstruct lossy_state 0 w
  = (ReceiveState.set_received_chunks
       (ReceiveState.received_chunks lossy_state ∪ {[missing_id]})
       (ReceiveState.set_data_chunks
          (<[missing_id := Chunk.payload (even_chunk 1)]>
             (ReceiveState.data_chunks lossy_state))
          lossy_state),
     receive_engine.with_db (storage.save_chunk row (receive_engine.db w)) w).
Proof.
  apply (_try_fec_reconstruct_recovers lossy_state 0
           (receive_engine.env_of plain_receiver_idle)
           [even_chunk 0] [] (even_chunk 1) []).
  - reflexivity.
  - cbn. lia.
  - cbn. lia.
  - vm_compute. reflexivity.
  - vm_compute. reflexivity.
  - intros [|i] c Hc; [|done]. injection Hc as <-. vm_compute. reflexivity.
  - vm_compute. reflexivity.
  - intros i c Hc. done.
  - intros c Hc. apply list_elem_of_singleton in Hc as ->. vm_compute. lia.
Defined.

(** ** The first flight *)

Lemma by_chunk_id_snoc l c :
  send_engine.by_chunk_id (l ++ [c])
  = <[Chunk.chunk_id c := c]> (send_engine.by_chunk_id l).
Proof. unfold send_engine.by_chunk_id. by rewrite fold_left_app. Qed.

Lemma by_chunk_id_positions (chunks : list Chunk.t) :
  (forall p c, chunks !! p = Some c -> Chunk.chunk_id c = Z.of_nat p) ->
  forall p, send_engine.by_chunk_id chunks !! Z.of_nat p = chunks !! p.
Proof.
  induction chunks as [|c l IH] using rev_ind; intros Hpos p.
  - cbn. by rewrite lookup_empty.
  - rewrite by_chunk_id_snoc.
    assert (Hc : Chunk.chunk_id c = Z.of_nat (length l)).
    { apply Hpos. by rewrite lookup_app_r, Nat.sub_diag. }
    rewrite Hc. destruct (decide (p = length l)) as [->|Hne].
    + by rewrite lookup_insert_eq, lookup_app_r, Nat.sub_diag.
    + rewrite lookup_insert_ne by lia. rewrite IH.
      * destruct (decide (p < length l)%nat).
        -- by rewrite lookup_app_l.
        -- rewrite !lookup_ge_None_2; [done | |lia].
           rewrite length_app. cbn. lia.
      * intros q c' Hq. apply Hpos. rewrite lookup_app_l; [done|].
        by apply lookup_lt_Some in Hq.
Qed.

Lemma create_chunks_positions cfg fec (file_data : bytes) id use_fec chunks :
  1 <= config.chunk_size cfg ->
  send_engine._create_chunks cfg fec file_data id use_fec = inr chunks ->
  forall p c, chunks !! p = Some c -> Chunk.chunk_id c = Z.of_nat p.
Proof.
  intros Hsize Hchunks p c Hp.
  destruct (create_chunks_layout cfg fec file_data id use_fec Hsize)
    as (chunks' & Hc' & Hlen & Hdata & Hparity). cbv zeta in *.
  rewrite Hchunks in Hc'. injection Hc' as <-.
  pose proof (lookup_lt_Some _ _ _ Hp) as Hlt.
  set (n := ceil_div (len file_data) (config.chunk_size cfg)) in *.
  assert (Hn0 : 0 <= n).
  { apply ceil_div_nonneg; [lia | apply len_nonneg]. }
  destruct (Z.lt_ge_cases (Z.of_nat p) n) as [Hd|Hd].
  - destruct (Hdata (Z.of_nat p)) as (c' & Hc' & Hid & _); [lia|].
    rewrite Nat2Z.id in Hc'. congruence.
  - destruct (use_fec && config.enabled fec && (0 <? config.k fec)
              && (0 <? config.r fec)) eqn:Hfec.
    2: { unfold len in Hlen. lia. }
    assert (Hr : 0 < config.r fec).
    { apply andb_true_iff in Hfec as [_ Hr]. by apply Z.ltb_lt in Hr. }
    set (q := Z.of_nat p - n).
    destruct (Hparity eq_refl (q / config.r fec) (q mod config.r fec))
      as (c' & Hc' & Hid & _).
    + split; [apply Z.div_pos; unfold q; lia|].
      apply Z.div_lt_upper_bound; [done|]. unfold q, len in *. lia.
    + apply Z.mod_pos_bound. done.
    + pose proof (Z.div_mod q (config.r fec) ltac:(lia)) as Hq.
      replace (n + q / config.r fec * config.r fec + q mod config.r fec)
        with (Z.of_nat p) in * by (unfold q in *; lia).
      rewrite Nat2Z.id in Hc'. congruence.
Qed.

Lemma send_one_sends d dest now s net cid chunk :
  cid ∉ SendState.acked_chunks s ->
  SendState.chunk_timers s !! cid = None ->
  d !! cid = Some chunk ->
  let '(s', net') := send_engine.send_one d dest now (s, net) cid in
  Net.calls net' = Net.calls net ++ [(wire_msg (SendState.total_chunks s) chunk, dest)]
  /\ SendState.acked_chunks s' = SendState.acked_chunks s
  /\ SendState.total_chunks s' = SendState.total_chunks s
  /\ forall c, c <> cid ->
       SendState.chunk_timers s' !! c = SendState.chunk_timers s !! c.
Proof.
  intros Hna Htimer Hd. unfold send_engine.send_one.
  rewrite decide_False, Htimer, Hd by done.
  unfold Net.send. destruct (Net.accept net _); cbn; repeat split; try done.
  intros c Hc. by rewrite lookup_insert_ne.
Qed.

Lemma send_loop_first_flight d dest now (chunks : list Chunk.t) (a : nat) s net :
  (forall i c, chunks !! i = Some c ->
     (Z.of_nat (a + i) ∉ SendState.acked_chunks s)
     /\ SendState.chunk_timers s !! Z.of_nat (a + i) = None
     /\ d !! Z.of_nat (a + i) = Some c) ->
  Net.calls (fold_left (send_engine.send_one d dest now)
               ((fun i : nat => 0 + Z.of_nat i) <$> seq a (length chunks))
               (s, net)).2
  = Net.calls net
    ++ ((fun c => (wire_msg (SendState.total_chunks s) c, dest)) <$> chunks).
Proof.
  revert a s net. induction chunks as [|c l IH]; intros a s net H.
  - cbn. by rewrite app_nil_r.
  - cbn [length seq fmap list_fmap fold_left].
    destruct (H 0%nat c eq_refl) as (Hna & Ht & Hd).
    rewrite Nat.add_0_r in Hna, Ht, Hd.
    pose proof (send_one_sends d dest now s net (0 + Z.of_nat a) c Hna Ht Hd) as H1.
    destruct (send_engine.send_one d dest now (s, net) (0 + Z.of_nat a))
      as [s1 net1].
    destruct H1 as (Hcalls & Hacked & Htotal & Htimers).
    rewrite IH.
    + rewrite Hcalls, Htotal, <- app_assoc. done.
    + intros i c' Hi. destruct (H (S i) c' Hi) as (Hna' & Ht' & Hd').
      replace (S a + i)%nat with (a + S i)%nat by lia.
      rewrite Hacked, Htimers by lia. done.
Qed.

(** X24. The first flight.  [send_file] on an existing file with
    [chunk_size >= 1] hands the network, after whatever was sent before,
    exactly the DATA messages of the first [window_size] chunks of the
    bundle (all of them if there are fewer), in chunk order, once each,
    addressed to [dest_addr] and announcing the total number of chunks;
    this does not depend on whether the link accepts them. *)
Theorem send_file_first_flight (fs : gmap string bytes) (path dest : string)
    (a : addr) (fec_enabled : option bool) (id : string) (t : Q)
    (self : send_engine.SendEngine) (file_data : bytes)
    (Hfile : fs !! path = Some file_data)
    (Hsize : 1 <= config.chunk_size (send_engine.config self)) :
  exists self' chunks,
    send_engine.send_file fs path dest a fec_enabled id t self = inr (id, self')
    /\ send_engine._create_chunks (send_engine.config self)
         (send_engine.fec_config self) file_data id
         (use_fec fec_enabled (send_engine.fec_config self)) = inr chunks
    /\ Net.calls (send_engine.network_send self')
       = Net.calls (send_engine.network_send self)
         ++ ((fun c => (wire_msg (len chunks) c, a))
             <$> take (Z.to_nat (config.window_size (send_engine.config self)))
                      chunks).
Proof.
  destruct (create_chunks_total (send_engine.config self)
              (send_engine.fec_config self) file_data id
              (use_fec fec_enabled (send_engine.fec_config self)))
    as (chunks & Hchunks); [lia|].
  pose proof (create_chunks_positions _ _ _ _ _ _ Hsize Hchunks) as Hpos.
  unfold send_engine.send_file. rewrite Hfile.
  change (match fec_enabled with
          | Some true => config.enabled (send_engine.fec_config self)
          | _ => false
          end) with (use_fec fec_enabled (send_engine.fec_config self)).
  rewrite Hchunks. eexists _, chunks. split; [reflexivity|]. split; [done|].
  unfold send_engine._send_window.
  cbn [send_engine.active_sends send_engine.set_state send_engine.set_storage
       send_engine.set_cache].
  rewrite lookup_insert_eq.
  unfold send_engine.chunk_dict_for.
  cbn [send_engine._chunk_cache send_engine.set_state send_engine.set_storage
       send_engine.set_cache].
  rewrite lookup_insert_eq.
  set (ws := config.window_size (send_engine.config self)).
  set (s0 := SendState.set_window _ _ _).
  assert (Hs0 : SendState.acked_chunks s0 = ∅
                /\ SendState.chunk_timers s0 = ∅
                /\ SendState.total_chunks s0 = len chunks
                /\ SendState.window_start s0 = 0
                /\ SendState.window_end s0 = Z.min ws (len chunks)) by done.
  destruct Hs0 as (Hacked & Htimers & Htotal & Hstart & Hend).
  rewrite Hstart, Hend.
  assert (Hrange : range2 0 (Z.min ws (len chunks))
                   = (fun i : nat => 0 + Z.of_nat i)
                     <$> seq 0 (length (take (Z.to_nat ws) chunks))).
  { unfold range2. rewrite length_take. do 2 f_equal. unfold len. lia. }
  rewrite Hrange.
  assert (Hloop : forall d net,
            (forall p, d !! Z.of_nat p = chunks !! p) ->
            Net.calls (fold_left (send_engine.send_one d a t)
                         ((fun i : nat => 0 + Z.of_nat i)
                          <$> seq 0 (length (take (Z.to_nat ws) chunks)))
                         (s0, net)).2
            = Net.calls net
              ++ ((fun c => (wire_msg (len chunks) c, a))
                  <$> take (Z.to_nat ws) chunks)).
  { intros d net Hd. rewrite send_loop_first_flight; [by rewrite Htotal|].
    intros i c Hi. rewrite Hacked, Htimers, lookup_empty, Hd. cbn.
    split; [apply not_elem_of_empty|]. split; [done|].
    apply lookup_take_Some in Hi. by destruct Hi. }
  destruct (map_to_list (send_engine.by_chunk_id chunks)) as [|item rest] eqn:Hlist.
  - apply map_to_list_empty_iff in Hlist.
    assert (Hnil : take (Z.to_nat ws) chunks = []).
    { destruct chunks as [|c0 chunks']; [by rewrite take_nil|]. exfalso.
      pose proof (by_chunk_id_positions _ Hpos 0) as H0.
      by rewrite Hlist, lookup_empty in H0. }
    rewrite Hnil. cbn. by rewrite app_nil_r.
  - match goal with
    | |- context [fold_left ?f ?l (?s, ?n)] =>
        pose proof (Hloop (send_engine.by_chunk_id chunks) n
                      (by_chunk_id_positions chunks Hpos)) as Hfinal;
        destruct (fold_left f l (s, n)) as [s' net']
    end.
    exact Hfinal.
Qed.

Lemma send_file_first_flight_witness :
  exists self' chunks,
    send_engine.send_file lab_files "timeout.bin" "nodeB" peer None "b1" 0
      sender_idle = inr ("b1"%string, self')
    /\ send_engine._create_chunks (send_engine.config sender_idle)
         (send_engine.fec_config sender_idle) (b "ABCDEFGH") "b1"
         (use_fec None (send_engine.fec_config sender_idle)) = inr chunks
    /\ Net.calls (send_engine.network_send self')
       = Net.calls (send_engine.network_send sender_idle)
         ++ ((fun c => (wire_msg (len chunks) c, peer))
             <$> take (Z.to_nat (config.window_size (send_engine.config sender_idle)))
                      chunks).
Proof.
  apply (send_file_first_flight lab_files "timeout.bin" "nodeB" peer None "b1" 0
           sender_idle (b "ABCDEFGH")).
  - vm_compute. reflexivity.
  - vm_compute. discriminate.
Defined.

(** ** The chunk table *)

Lemma exec_chunks_keyed t st :
  (forall key c, storage.chunks t !! key = Some c ->
                 key = (Chunk.bundle_id c, Chunk.chunk_id c)) ->
  forall key c, storage.chunks (storage.exec t st) !! key = Some c ->
                key = (Chunk.bundle_id c, Chunk.chunk_id c).
Proof.
  intros Ht key c. destruct st; cbn; try apply Ht.
  rewrite lookup_insert. case_decide; [naive_solver | apply Ht].
Qed.

Lemma chunks_keyed db key c :
  storage.chunks (storage.view db) !! key = Some c ->
  key = (Chunk.bundle_id c, Chunk.chunk_id c).
Proof.
  unfold storage.view, storage.replay. revert key c.
  generalize (storage.journal db). intros j.
  induction j as [|txn j IH] using rev_ind; intros key c.
  - cbn. by rewrite lookup_empty.
  - rewrite fold_left_app. cbn [fold_left].
    generalize dependent (fold_left (fun t txn => fold_left storage.exec txn t)
                            j storage.no_tables).
    intros t IHt. revert t IHt key c.
    induction txn as [|st txn IHtxn]; intros t IHt key c; [apply IHt|].
    cbn [fold_left]. apply IHtxn. by apply exec_chunks_keyed.
Qed.

Lemma load_chunks_elem id db c :
  c ∈ storage.load_chunks_for_bundle id db
  <-> storage.chunks (storage.view db) !! (id, Chunk.chunk_id c) = Some c.
Proof.
  unfold storage.load_chunks_for_bundle.
  rewrite merge_sort_Permutation, list_elem_of_filter, list_elem_of_fmap.
  split.
  - intros (Hid & [key c'] & -> & Hin). apply elem_of_map_to_list in Hin.
    cbn in *. pose proof (chunks_keyed _ _ _ Hin) as ->. by rewrite <- Hid.
  - intros Hc. pose proof (chunks_keyed _ _ _ Hc) as Hkey.
    split; [congruence|]. exists ((id, Chunk.chunk_id c), c).
    split; [done|]. by apply elem_of_map_to_list.
Qed.

Lemma load_chunks_NoDup id db :
  NoDup (Chunk.chunk_id <$> storage.load_chunks_for_bundle id db).
Proof.
  unfold storage.load_chunks_for_bundle. rewrite merge_sort_Permutation.
  apply NoDup_fmap_2_strong.
  - intros c1 c2 H1 H2 Hid.
    apply list_elem_of_filter in H1 as [Hb1 H1], H2 as [Hb2 H2].
    apply list_elem_of_fmap in H1 as ([k1 c1'] & -> & H1).
    apply list_elem_of_fmap in H2 as ([k2 c2'] & -> & H2).
    apply elem_of_map_to_list in H1, H2. cbn in *.
    pose proof (chunks_keyed _ _ _ H1) as ->.
    pose proof (chunks_keyed _ _ _ H2) as ->.
    rewrite Hb1, Hid, <- Hb2 in H1. congruence.
  - apply NoDup_filter.
    apply (NoDup_fmap_2_strong snd).
    + intros [k1 c1] [k2 c2] H1 H2 Heq. cbn in Heq. subst c2.
      apply elem_of_map_to_list in H1, H2.
      pose proof (chunks_keyed _ _ _ H1) as ->.
      by pose proof (chunks_keyed _ _ _ H2) as ->.
    + apply NoDup_map_to_list.
Qed.

Lemma by_chunk_id_NoDup (l : list Chunk.t) k :
  NoDup (Chunk.chunk_id <$> l) ->
  forall c, send_engine.by_chunk_id l !! k = Some c
            <-> c ∈ l /\ Chunk.chunk_id c = k.
Proof.
  induction l as [|x l IH] using rev_ind; intros Hnd c.
  - cbn. rewrite lookup_empty. split; [done|]. by intros [?%elem_of_nil _].
  - rewrite fmap_app in Hnd. apply NoDup_app in Hnd as (Hnd & Hdisj & _).
    rewrite by_chunk_id_snoc, elem_of_app, list_elem_of_singleton.
    destruct (decide (k = Chunk.chunk_id x)) as [->|Hne].
    + rewrite lookup_insert_eq. split.
      * intros [= <-]. split; [by right | done].
      * intros [[Hin| ->] Hid]; [|done]. exfalso.
        apply (Hdisj (Chunk.chunk_id x)).
        -- apply list_elem_of_fmap. by exists c.
        -- cbn. apply list_elem_of_here.
    + rewrite lookup_insert_ne by done. rewrite IH by done.
      split; [intros [? ?]; split; [by left | done]|].
      intros [[Hin| ->] Hid]; [done | congruence].
Qed.

Lemma chunk_dict_of_store id db k :
  send_engine.by_chunk_id (storage.load_chunks_for_bundle id db) !! k
  = storage.chunks (storage.view db) !! (id, k).
Proof.
  apply option_eq. intros c.
  rewrite by_chunk_id_NoDup by apply load_chunks_NoDup.
  rewrite load_chunks_elem. split.
  - by intros [Hc <-].
  - intros Hc. pose proof (chunks_keyed _ _ _ Hc) as [= _ Hk].
    split; [congruence | done].
Qed.

Lemma put_chunks_lookup id (chunks : list Chunk.t) (t : storage.tables)
    (d : gmap Z Chunk.t) :
  (forall k, d !! k = storage.chunks t !! (id, k)) ->
  forall k,
    fold_left (fun d c => if decide (Chunk.bundle_id c = id)
                          then <[Chunk.chunk_id c := c]> d else d) chunks d !! k
    = storage.chunks (fold_left storage.exec (storage.PutChunk <$> chunks) t)
        !! (id, k).
Proof.
  revert t d. induction chunks as [|c l IH]; intros t d Hd k; [apply Hd|].
  cbn [fold_left fmap list_fmap]. apply IH. intros k'. cbn.
  destruct (decide (Chunk.bundle_id c = id)) as [Hb|Hb].
  - destruct (decide (k' = Chunk.chunk_id c)) as [->|Hne].
    + by rewrite Hb, !lookup_insert_eq.
    + rewrite !lookup_insert_ne by congruence. apply Hd.
  - rewrite lookup_insert_ne by congruence. apply Hd.
Qed.

(** X25. The chunk table replaces, never duplicates.  The dictionary the
    sender builds from [load_chunks_for_bundle] after
    [save_chunks_bulk chunks] is the one it would build before, updated in
    list order with those of [chunks] that belong to the bundle: a later
    chunk with the same id replaces an earlier one, chunks of other
    bundles do not show.  The loaded rows are all of the bundle and come
    in strictly increasing [chunk_id] order, and the bundle and custody
    tables are not touched. *)
Theorem save_chunks_bulk_load (chunks : list Chunk.t) (db : storage.t)
    (id : string) :
  let db' := storage.save_chunks_bulk chunks db in
  send_engine.by_chunk_id (storage.load_chunks_for_bundle id db')
  = fold_left (fun d c => if decide (Chunk.bundle_id c = id)
                          then <[Chunk.chunk_id c := c]> d else d)
              chunks
              (send_engine.by_chunk_id (storage.load_chunks_for_bundle id db))
  /\ StronglySorted (fun x y => Chunk.chunk_id x < Chunk.chunk_id y)
       (storage.load_chunks_for_bundle id db')
  /\ Forall (fun c => Chunk.bundle_id c = id)
       (storage.load_chunks_for_bundle id db')
  /\ (forall id', storage.load_bundle id' db' = storage.load_bundle id' db)
  /\ (forall id', storage.load_custody_record id' db'
                  = storage.load_custody_record id' db).
Proof.
  cbv zeta. split; [|split; [|split; [|split]]].
  - apply map_eq. intros k. rewrite chunk_dict_of_store.
    rewrite (put_chunks_lookup id chunks (storage.view db)).
    + unfold storage.save_chunks_bulk. destruct chunks as [|c l]; [done|].
      by rewrite view_commit.
    + intros k'. apply chunk_dict_of_store.
  - pose proof (load_chunks_NoDup id (storage.save_chunks_bulk chunks db)) as Hnd.
    assert (Hs : StronglySorted storage.chunk_le
                   (storage.load_chunks_for_bundle id
                      (storage.save_chunks_bulk chunks db))).
    { apply StronglySorted_merge_sort.
      - intros x y z. unfold storage.chunk_le. lia.
      - intros x y. unfold storage.chunk_le. lia. }
    induction Hs as [|x l Hs IH Hall]; [constructor|].
    rewrite fmap_cons in Hnd. apply NoDup_cons in Hnd as [Hx Hnd].
    constructor; [by apply IH|].
    rewrite Forall_forall in *. intros y Hy. specialize (Hall y Hy).
    unfold storage.chunk_le in Hall.
    assert (Chunk.chunk_id x <> Chunk.chunk_id y).
    { intros Heq. apply Hx. rewrite Heq. apply list_elem_of_fmap. by exists y. }
    lia.
  - apply Forall_forall. intros c Hc. apply load_chunks_elem in Hc.
    pose proof (chunks_keyed _ _ _ Hc) as Hkey. congruence.
  - intros id'. apply load_bundle_save_chunks_bulk.
  - intros id'. unfold storage.save_chunks_bulk.
    destruct chunks as [|c l]; [done|].
    unfold storage.load_custody_record. rewrite view_commit.
    generalize (storage.view db). generalize (c :: l). clear.
    intros l. induction l as [|c l IH]; intros t; [done|]. cbn. by rewrite IH.
Qed.

(** ** A receiver with FEC switched off *)

Lemma create_chunks_split cfg fec (file_data : bytes) id fec_enabled chunks :
  1 <= config.chunk_size cfg ->
  send_engine._create_chunks cfg fec file_data id fec_enabled = inr chunks ->
  let n := ceil_div (len file_data) (config.chunk_size cfg) in
  let data := send_engine.data_chunk cfg fec file_data id fec_enabled <$> range n in
  let fec_on :=
    fec_enabled && config.enabled fec && (0 <? config.k fec) && (0 <? config.r fec) in
  chunks = data ++ (if fec_on then send_engine._generate_fec_chunks fec data id
                    else [])
  /\ filter (fun c => Chunk.is_parity c = true) chunks
     = (if fec_on then send_engine._generate_fec_chunks fec data id else [])
  /\ Forall (fun c => Chunk.bundle_id c = id) chunks.
Proof.
  intros Hsize Hchunks. cbv zeta.
  unfold send_engine._create_chunks in Hchunks.
  destruct (Z.eqb_spec (config.chunk_size cfg) 0) as [|_]; [lia|].
  rewrite <- (ceil_div_eq (len file_data) (config.chunk_size cfg)) in Hchunks by lia.
  set (data := send_engine.data_chunk cfg fec file_data id fec_enabled
               <$> range (ceil_div (len file_data) (config.chunk_size cfg))) in *.
  assert (Hd : Forall (fun c => Chunk.is_parity c = false) data).
  { apply Forall_fmap, Forall_forall. done. }
  assert (Hp : Forall (fun c => Chunk.is_parity c = true)
                 (send_engine._generate_fec_chunks fec data id)).
  { apply Forall_forall. intros c Hc. by eapply generate_fec_parity. }
  assert (Hb : Forall (fun c => Chunk.bundle_id c = id)
                 (send_engine._generate_fec_chunks fec data id)).
  { apply Forall_forall. intros c Hc.
    unfold send_engine._generate_fec_chunks in Hc.
    destruct (_ || _); [by apply elem_of_nil in Hc|].
    apply list_elem_of_In, in_concat in Hc as (blk & Hblk & Hc).
    apply list_elem_of_In, list_elem_of_fmap in Hblk as (start & -> & _).
    apply list_elem_of_In in Hc. unfold send_engine.parity_block in Hc.
    destruct (slice data start _); [by apply elem_of_nil in Hc|].
    by apply list_elem_of_fmap in Hc as (j & -> & _). }
  assert (Hbd : Forall (fun c => Chunk.bundle_id c = id) data).
  { apply Forall_fmap, Forall_forall. done. }
  assert (Hfd : filter (fun c => Chunk.is_parity c = true) data = []).
  { apply filter_none. eapply Forall_impl; [exact Hd|]. cbn. intros c ->. done. }
  destruct (fec_enabled && _ && _ && _); injection Hchunks as <-.
  - split; [done|]. split; [|by apply Forall_app].
    by rewrite filter_app, Hfd, (filter_all _ _ Hp).
  - rewrite app_nil_r. split; [done|]. split; [done|]. done.
Qed.

Lemma generate_fec_nonempty cfg fec (file_data : bytes) id fec_enabled :
  1 <= config.chunk_size cfg -> file_data <> [] ->
  0 < config.k fec -> 0 < config.r fec ->
  concat (Chunk.payload
          <$> send_engine._generate_fec_chunks fec
                (send_engine.data_chunk cfg fec file_data id fec_enabled
                 <$> range (ceil_div (len file_data) (config.chunk_size cfg)))
                id)
  <> [].
Proof.
  intros Hsize Hfile Hk Hr.
  set (cs := config.chunk_size cfg) in *.
  pose proof (ceil_div_spec (len file_data) cs ltac:(lia)) as Hn.
  assert (Hlen : 1 <= len file_data)
    by (destruct file_data; [done | unfold len; cbn; lia]).
  set (n := ceil_div (len file_data) cs) in *.
  assert (Hn1 : 1 <= n) by nia.
  set (data := send_engine.data_chunk cfg fec file_data id fec_enabled <$> range n).
  assert (Hdn : len data = n) by (unfold data; rewrite len_fmap, len_range; lia).
  pose proof (ceil_div_spec n (config.k fec) Hk) as HB.
  rewrite generate_fec_blocks by done. rewrite Hdn.
  destruct (Z.to_nat (ceil_div n (config.k fec))) as [|B] eqn:HBn; [nia|].
  cbn [seq fmap list_fmap concat].
  change (Z.of_nat 0 * config.k fec) with (0 * config.k fec).
  rewrite parity_block_full by lia.
  destruct (Z.to_nat (config.r fec)) as [|r'] eqn:Hrn; [lia|].
  unfold range at 1. rewrite Hrn. cbn [seq fmap list_fmap app concat].
  set (block := slice data (0 * config.k fec) (0 * config.k fec + config.k fec)).
  assert (Hblock : exists c rest, block = c :: rest
                                  /\ (1 <= length (Chunk.payload c))%nat).
  { assert (Hdata : exists rest,
              data = send_engine.data_chunk cfg fec file_data id fec_enabled 0
                     :: rest).
    { unfold data, range. destruct (Z.to_nat n) as [|n'] eqn:Hnn; [lia|].
      cbn. by eexists. }
    destruct Hdata as [drest Hdata].
    exists (send_engine.data_chunk cfg fec file_data id fec_enabled 0).
    unfold block, slice, slice_index. rewrite Hdn.
    change (0 * config.k fec) with 0.
    destruct (Z.ltb_spec (0 + config.k fec) 0); [lia|].
    change (0 <? 0) with false. cbv iota.
    rewrite (Z.min_r n 0), (Z.max_l 0 0) by lia.
    destruct (Z.to_nat (Z.max 0 (Z.min n (0 + config.k fec)) - 0)) as [|m] eqn:Hm;
      [lia|].
    rewrite Hdata. cbn [Z.to_nat drop take]. eexists. split; [reflexivity|].
    cbn [Chunk.payload send_engine.data_chunk]. fold cs.
    rewrite (data_payload_take_drop file_data cs 0) by lia.
    rewrite length_take, length_drop. unfold len in *. lia. }
  intros Hnil. destruct Hblock as (c & rest & Hb & Hc).
  apply (f_equal (@length byte)) in Hnil.
  rewrite length_app, _xor_chunks_stripe, Hb in Hnil.
  cbn [Chunk.payload] in Hnil. unfold stripe in Hnil.
  rewrite xor_fold_length, fmap_cons, longest_cons in Hnil. cbn in Hnil. lia.
Qed.

(** X26. A receiver with FEC switched off files parity as data.  Let
    [chunks] be what [_create_chunks] makes of a non-empty file, parity
    chunks included, and let a receiver whose [fec_config.enabled] is off,
    that does not know the bundle and can write its output file, be handed
    the DATA messages of all these chunks, in any order and with any
    repetition.  It then treats all [total_chunks] chunks as data: the
    output file is the sent file followed by the payloads of the parity
    chunks in chunk order, which is longer than the sent file whenever the
    sender did add parity; the bundle is nevertheless marked delivered and
    one DELIVERED message is sent. *)
Theorem handle_data_fec_switched_off (cfg : config.TransferConfig)
    (fec : config.FECConfig) (file_data : bytes) (id : string)
    (fec_enabled : bool) (chunks : list Chunk.t) (msgs : list DataMsg.t)
    (a : addr) (self : receive_engine.ReceiveEngine)
    (Hsize : 1 <= config.chunk_size cfg)
    (Hfile : file_data <> [])
    (Hchunks : send_engine._create_chunks cfg fec file_data id fec_enabled
               = inr chunks)
    (Hoff : config.enabled (receive_engine.fec_config self) = false)
    (Hmsgs : forall m, m ∈ msgs ->
               exists c, c ∈ chunks /\ DATA m = wire_msg (len chunks) c)
    (Hcover : forall c, c ∈ chunks ->
               exists m, m ∈ msgs /\ DATA m = wire_msg (len chunks) c)
    (Hfresh : receive_engine.active_receives self !! id = None)
    (Hdisk : Disk.writable (receive_engine.disk self)
               (receive_engine.output_path_of (receive_engine.output_dir self) id)
             = true) :
  let self' :=
    fold_left (fun self m => receive_engine.handle_data m a self) msgs self in
  let parity := filter (fun c => Chunk.is_parity c = true) chunks in
  Disk.files (receive_engine.disk self')
    !! receive_engine.output_path_of (receive_engine.output_dir self) id
  = Some (file_data ++ concat (Chunk.payload <$> parity))
  /\ (fec_enabled && config.enabled fec && (0 <? config.k fec)
      && (0 <? config.r fec) = true ->
      concat (Chunk.payload <$> parity) <> [])
  /\ (exists state,
        receive_engine.active_receives self' !! id = Some state
        /\ ReceiveState.delivered state = true
        /\ ReceiveState.received_chunks state = all_ids (len chunks))
  /\ delivered_calls (receive_engine.network_send self')
     = delivered_calls (receive_engine.network_send self)
       ++ [(protocol.make_delivered_msg id, a)].
Proof.
  cbv zeta.
  destruct (create_chunks_split cfg fec file_data id fec_enabled chunks
              Hsize Hchunks) as (Hsplit & Hparity & Hbundle).
  cbv zeta in Hsplit, Hparity.
  pose proof (create_chunks_positions _ _ _ _ _ _ Hsize Hchunks) as Hpos.
  set (cs := config.chunk_size cfg) in *.
  pose proof (ceil_div_spec (len file_data) cs ltac:(lia)) as Hn.
  assert (Hlen : 1 <= len file_data)
    by (destruct file_data; [done | unfold len; cbn; lia]).
  set (n := ceil_div (len file_data) cs) in *.
  assert (Hn1 : 1 <= n) by nia.
  destruct (handle_data_writes_chunks chunks msgs a self id)
    as (Hfiles & Hstate & _ & Hcalls); try done.
  { intros ->. symmetry in Hsplit. apply app_eq_nil in Hsplit as [Hd _].
    apply fmap_nil_inv in Hd.
    assert (Hr : length (range n) = 0%nat) by (by rewrite Hd).
    rewrite range_length in Hr. lia. }
  { intros p c Hp. split; [by eapply Hpos|]. split.
    - rewrite Forall_forall in Hbundle. apply Hbundle.
      by eapply list_elem_of_lookup_2.
    - by right; right. }
  cbv zeta in Hfiles, Hstate, Hcalls.
  split; [|split; [|split; [exact Hstate | exact Hcalls]]].
  - rewrite Hfiles, Hparity. f_equal. rewrite Hsplit at 1.
    rewrite fmap_app, concat_app. f_equal.
    rewrite <- list_fmap_compose.
    apply (concat_data_payloads cfg fec file_data id fec_enabled Hsize).
  - intros Hon. rewrite Hparity, Hon.
    apply andb_true_iff in Hon as [Hon Hr]. apply andb_true_iff in Hon as [_ Hk].
    apply Z.ltb_lt in Hk, Hr.
    by apply generate_fec_nonempty.
Qed.

Lemma handle_data_fec_switched_off_witness :
  let self' :=
    fold_left (fun self m => receive_engine.handle_data m peer self)
              striped_msgs plain_receiver_idle in
  let parity := filter (fun c => Chunk.is_parity c = true) striped_chunks in
  Disk.files (receive_engine.disk self')
    !! receive_engine.output_path_of
         (receive_engine.output_dir plain_receiver_idle) "b3"
  = Some (b "AAAABBBB" ++ concat (Chunk.payload <$> parity))
  /\ (true && config.enabled xor_fec && (0 <? config.k xor_fec)
      && (0 <? config.r xor_fec) = true ->
      concat (Chunk.payload <$> parity) <> [])
  /\ (exists state,
        receive_engine.active_receives self' !! "b3"%string = Some state
        /\ ReceiveState.delivered state = true
        /\ ReceiveState.received_chunks state = all_ids (len striped_chunks))
  /\ delivered_calls (receive_engine.network_send self')
     = delivered_calls (receive_engine.network_send plain_receiver_idle)
       ++ [(protocol.make_delivered_msg "b3", peer)].
Proof.
  apply (handle_data_fec_switched_off lab_transfer xor_fec (b "AAAABBBB") "b3"
           true striped_chunks striped_msgs peer plain_receiver_idle).
  - vm_compute. discriminate.
  - discriminate.
  - vm_compute. reflexivity.
  - reflexivity.
  - intros m Hm. apply list_elem_of_omap in Hm as (c & Hc & Hm).
    exists c. split; [done|].
    unfold wire_msg, protocol.make_data_msg in *. by injection Hm as <-.
  - intros c Hc. eexists. split; [|reflexivity].
    apply list_elem_of_omap. exists c. by split.
  - vm_compute. reflexivity.
  - vm_compute. reflexivity.
Defined.

(** ** JSON ranges and the control messages *)

Lemma digit_byte d :
  0 <= d < 10 ->
  byte_val (byte_of (48 + d)) = 48 + d
  /\ json.is_digit (byte_of (48 + d)) = true.
Proof.
  intros Hd. assert (Hv : byte_val (byte_of (48 + d)) = 48 + d)
    by (apply byte_val_of; lia).
  split; [done|]. unfold json.is_digit. rewrite Hv.
  apply andb_true_iff. split; [apply Z.leb_le | apply Z.leb_le]; lia.
Qed.

Lemma nat_digits_spec fuel n acc :
  0 <= n < 10 ^ Z.of_nat fuel -> fuel <> 0%nat ->
  exists ds,
    json.nat_digits fuel n acc = ds ++ acc
    /\ ds <> []
    /\ Forall (fun c => json.is_digit c = true) ds
    /\ (forall rest a, json.digits (ds ++ rest) a
                       = json.digits rest (a * 10 ^ len ds + n))
    /\ (forall c ds', ds = c :: ds' -> byte_val c = 48 -> n = 0 /\ ds' = []).
Proof.
  revert n acc. induction fuel as [|fuel IH]; intros n acc Hn Hfuel; [done|].
  cbn [json.nat_digits]. cbv zeta.
  pose proof (Z.mod_pos_bound n 10 ltac:(lia)) as Hm.
  pose proof (Z.div_mod n 10 ltac:(lia)) as Hdm.
  destruct (digit_byte (n mod 10) Hm) as [Hv Hdig].
  destruct (Z.eqb_spec (n / 10) 0) as [Hq|Hq].
  - exists [byte_of (48 + n mod 10)]. split; [done|]. split; [done|].
    split; [by constructor|]. split.
    + intros rest a. cbn [app json.digits]. rewrite Hdig, Hv. f_equal.
      unfold len. cbn. lia.
    + intros c ds' [= <- <-] Hc. rewrite Hv in Hc. split; [lia | done].
  - assert (Hq1 : 1 <= n / 10).
    { pose proof (Z.div_pos n 10 ltac:(lia) ltac:(lia)). lia. }
    destruct (IH (n / 10) (byte_of (48 + n mod 10) :: acc))
      as (ds & Heq & Hne & Hall & Hdigits & Hlead).
    { split; [lia|]. apply Z.div_lt_upper_bound; [lia|].
      replace (Z.of_nat (S fuel)) with (Z.of_nat fuel + 1) in Hn by lia.
      rewrite Z.pow_add_r in Hn by lia. lia. }
    { intros ->. cbn in Hn. lia. }
    exists (ds ++ [byte_of (48 + n mod 10)]).
    split; [by rewrite Heq, <- app_assoc|].
    split; [by destruct ds|].
    split; [apply Forall_app; split; [done | by constructor]|]. split.
    + intros rest a. rewrite <- app_assoc, Hdigits. cbn [app json.digits].
      rewrite Hdig, Hv. f_equal. rewrite len_app, len_singleton.
      rewrite Z.pow_add_r by (pose proof (len_nonneg ds); lia). lia.
    + intros c ds' Hcons Hc. destruct ds as [|c0 ds0]; [done|].
      injection Hcons as -> <-. destruct (Hlead c ds0 eq_refl Hc). lia.
Qed.

Lemma pow10_gt (n : nat) : Z.of_nat n < 10 ^ Z.of_nat n.
Proof. apply Z.pow_gt_lin_r; lia. Qed.

Lemma digits_stop rest a :
  (forall d r, rest = d :: r -> json.is_digit d = false) ->
  json.digits rest a = (a, rest).
Proof.
  intros Hstop. destruct rest as [|d r]; [done|].
  cbn [json.digits]. by rewrite (Hstop d r eq_refl).
Qed.

Lemma number_nat_digits fuel n rest :
  0 <= n < 10 ^ Z.of_nat fuel -> fuel <> 0%nat ->
  (forall d r, rest = d :: r -> json.is_digit d = false) ->
  exists c ds,
    json.nat_digits fuel n [] = c :: ds
    /\ json.is_digit c = true
    /\ Forall (fun c => json.is_digit c = true) (c :: ds)
    /\ json.number ((c :: ds) ++ rest) = Some (n, rest).
Proof.
  intros Hn Hfuel Hstop.
  destruct (nat_digits_spec fuel n [] Hn Hfuel)
    as (ds & Heq & Hne & Hall & Hdigits & Hlead).
  rewrite app_nil_r in Heq. destruct ds as [|c ds]; [done|].
  exists c, ds. split; [done|].
  pose proof (Forall_inv Hall) as Hc. cbn beta in Hc.
  split; [done|]. split; [done|].
  assert (Hval : json.digits ((c :: ds) ++ rest) 0 = (n, rest)).
  { rewrite Hdigits, digits_stop by done. f_equal; lia. }
  cbn [app json.number]. rewrite Hc.
  destruct (Z.eqb_spec (byte_val c) 48) as [H48|H48].
  - destruct (Hlead c ds eq_refl H48) as [_ ->]. cbn [app andb].
    destruct rest as [|d r]; [by rewrite <- Hval|].
    rewrite (Hstop d r eq_refl). by rewrite <- Hval.
  - cbn [andb]. by rewrite <- Hval.
Qed.

Lemma digit_plain c :
  json.is_digit c = true ->
  json.is_ws c = false /\ 48 <= byte_val c <= 57.
Proof.
  unfold json.is_digit, json.is_ws. cbv zeta. intros H.
  apply andb_true_iff in H as [H1 H2].
  apply Z.leb_le in H1. apply Z.leb_le in H2. split; [|lia].
  repeat (apply orb_false_iff; split); apply Z.eqb_neq; lia.
Qed.

Lemma parse_value_digit fuel c r :
  json.is_digit c = true ->
  json.parse_value (S fuel) (c :: r)
  = match json.number (c :: r) with
    | Some (n, r') => Some (json.JInt n, r')
    | None => None
    end.
Proof.
  intros Hc. destruct (digit_plain c Hc) as [Hws Hv].
  cbn [json.parse_value json.skip_ws]. rewrite Hws. cbv zeta.
  destruct (Z.eqb_spec (byte_val c) 91); [lia|].
  destruct (Z.eqb_spec (byte_val c) 123); [lia|].
  destruct (Z.eqb_spec (byte_val c) 34); [lia|].
  destruct (Z.eqb_spec (byte_val c) 45); [lia|].
  by rewrite Hc.
Qed.

Lemma parse_value_minus fuel r :
  json.parse_value (S fuel) (x2d :: r)
  = match json.number r with
    | Some (n, r') => Some (json.JInt (- n), r')
    | None => None
    end.
Proof. reflexivity. Qed.

(** The first character of a printed integer. *)
Lemma dumps_int_head z rest :
  exists c r, json.dumps_int z ++ rest = c :: r
              /\ json.is_ws c = false /\ byte_val c <> 93
              /\ 1 <= byte_val c < 128.
Proof.
  unfold json.dumps_int. destruct (Z.ltb_spec z 0) as [Hz|Hz].
  - exists x2d, (json.nat_digits (Z.to_nat (- z)) (- z) [] ++ rest).
    repeat split; done.
  - destruct (number_nat_digits (S (Z.to_nat z)) z [])
      as (c & ds & Heq & Hc & _); [|done|done|].
    { pose proof (pow10_gt (S (Z.to_nat z))). lia. }
    exists c, (ds ++ rest). rewrite Heq.
    destruct (digit_plain c Hc). repeat split; [done|lia|lia|lia].
Qed.

Lemma dumps_int_parse fuel z rest :
  fuel <> 0%nat ->
  (forall d r, rest = d :: r -> json.is_digit d = false) ->
  json.parse_value fuel (json.dumps_int z ++ rest) = Some (json.JInt z, rest).
Proof.
  intros Hfuel Hstop. destruct fuel as [|fuel]; [done|].
  unfold json.dumps_int. destruct (Z.ltb_spec z 0) as [Hz|Hz].
  - destruct (number_nat_digits (Z.to_nat (- z)) (- z) rest)
      as (c & ds & Heq & Hc & _ & Hnum); [| |done|].
    { pose proof (pow10_gt (Z.to_nat (- z))). lia. }
    { lia. }
    rewrite Heq. change (b "-" ++ c :: ds) with (x2d :: c :: ds).
    change ((x2d :: c :: ds) ++ rest) with (x2d :: ((c :: ds) ++ rest)).
    rewrite parse_value_minus, Hnum. do 2 f_equal. f_equal. lia.
  - destruct (number_nat_digits (S (Z.to_nat z)) z rest)
      as (c & ds & Heq & Hc & _ & Hnum); [|done|done|].
    { pose proof (pow10_gt (S (Z.to_nat z))). lia. }
    rewrite Heq. change ((c :: ds) ++ rest) with (c :: (ds ++ rest)).
    rewrite parse_value_digit by done.
    change (c :: (ds ++ rest)) with ((c :: ds) ++ rest). by rewrite Hnum.
Qed.

Lemma dumps_int_ascii z :
  Forall (fun x => 1 <= byte_val x < 128) (json.dumps_int z).
Proof.
  assert (Hd : forall l, Forall (fun c => json.is_digit c = true) l ->
                         Forall (fun x => 1 <= byte_val x < 128) l).
  { intros l Hl. eapply Forall_impl; [exact Hl|].
    intros c Hc. cbn beta in Hc. destruct (digit_plain c Hc). lia. }
  unfold json.dumps_int. destruct (Z.ltb_spec z 0) as [Hz|Hz].
  - destruct (number_nat_digits (Z.to_nat (- z)) (- z) [])
      as (c & ds & Heq & _ & Hall & _); [| |done|].
    { pose proof (pow10_gt (Z.to_nat (- z))). lia. }
    { lia. }
    rewrite Heq. apply Forall_app. split; [|by apply Hd].
    constructor; [done | constructor].
  - destruct (number_nat_digits (S (Z.to_nat z)) z [])
      as (c & ds & Heq & _ & Hall & _); [|done|done|].
    { pose proof (pow10_gt (S (Z.to_nat z))). lia. }
    rewrite Heq. by apply Hd.
Qed.

Lemma parse_value_space fuel s :
  json.parse_value fuel (x20 :: s) = json.parse_value fuel s.
Proof. by destruct fuel. Qed.

Lemma parse_items_space fuel s acc :
  json.parse_items fuel (x20 :: s) acc = json.parse_items fuel s acc.
Proof.
  destruct fuel as [|fuel]; [done|].
  cbn [json.parse_items]. by rewrite parse_value_space.
Qed.

Lemma parse_value_arr fuel r d r' :
  d :: r' = r -> json.is_ws d = false -> byte_val d <> 93 ->
  json.parse_value (S fuel) (x5b :: r) = json.parse_items fuel r [].
Proof.
  intros <- Hws Hd. cbn [json.parse_value json.skip_ws].
  change (json.is_ws x5b) with false. cbv iota zeta.
  change (byte_val x5b =? 91) with true. cbv iota.
  cbn [json.skip_ws]. rewrite Hws.
  by destruct (Z.eqb_spec (byte_val d) 93).
Qed.

Lemma parse_items_comma fuel s acc x r :
  json.parse_value fuel s = Some (x, x2c :: r) ->
  json.parse_items (S fuel) s acc = json.parse_items fuel r (x :: acc).
Proof. intros H. cbn [json.parse_items]. by rewrite H. Qed.

Lemma parse_items_close fuel s acc x r :
  json.parse_value fuel s = Some (x, x5d :: r) ->
  json.parse_items (S fuel) s acc = Some (json.JArr (rev (x :: acc)), r).
Proof. intros H. cbn [json.parse_items]. by rewrite H. Qed.

Lemma dumps_pair_eq p rest :
  json.dumps_pair p ++ rest
  = x5b :: (json.dumps_int p.1 ++ x2c :: x20 :: (json.dumps_int p.2 ++ x5d :: rest)).
Proof.
  unfold json.dumps_pair.
  change (b "[") with [x5b]. change (b ", ") with [x2c; x20].
  change (b "]") with [x5d]. by rewrite <- !app_assoc.
Qed.

Lemma dumps_pair_parse fuel p rest :
  (4 <= fuel)%nat ->
  json.parse_value fuel (json.dumps_pair p ++ rest) = Some (json_pair p, rest).
Proof.
  intros Hfuel. do 4 (destruct fuel as [|fuel]; [lia|]).
  rewrite dumps_pair_eq.
  destruct (dumps_int_head p.1
              (x2c :: x20 :: (json.dumps_int p.2 ++ x5d :: rest)))
    as (c & r & Hhead & Hws & Hc & _).
  rewrite (parse_value_arr _ _ c r) by done.
  rewrite (parse_items_comma _ _ _ (json.JInt p.1)
             (x20 :: (json.dumps_int p.2 ++ x5d :: rest))).
  2:{ apply dumps_int_parse; [done|]. by intros d r0 [= <- _]. }
  rewrite parse_items_space.
  rewrite (parse_items_close _ _ _ (json.JInt p.2) rest); [done|].
  apply dumps_int_parse; [done|]. by intros d r0 [= <- _].
Qed.

Lemma dumps_pairs_parse l : forall fuel p acc rest,
  (length l + 5 <= fuel)%nat ->
  json.parse_items fuel (json.dumps_pair p ++ json.dumps_pairs_tail l ++ rest) acc
  = Some (json.JArr (rev acc ++ (json_pair <$> p :: l)), rest).
Proof.
  induction l as [|q l IH]; intros fuel p acc rest Hfuel;
    (destruct fuel as [|fuel]; [lia|]); cbn [json.dumps_pairs_tail].
  - change (b "]" ++ rest) with (x5d :: rest).
    rewrite (parse_items_close _ _ _ (json_pair p) rest).
    2:{ apply dumps_pair_parse. cbn in Hfuel. lia. }
    done.
  - change (b ", ") with [x2c; x20]. rewrite <- !app_assoc.
    change ([x2c; x20] ++ json.dumps_pair q ++ json.dumps_pairs_tail l ++ rest)
      with (x2c :: x20 :: (json.dumps_pair q ++ json.dumps_pairs_tail l ++ rest)).
    rewrite (parse_items_comma _ _ _ (json_pair p)
               (x20 :: (json.dumps_pair q ++ json.dumps_pairs_tail l ++ rest))).
    2:{ apply dumps_pair_parse. cbn in Hfuel. lia. }
    rewrite parse_items_space, IH by (cbn in Hfuel; lia).
    cbn [rev fmap list_fmap]. by rewrite <- app_assoc.
Qed.

Lemma dumps_pair_length p : (4 <= length (json.dumps_pair p))%nat.
Proof.
  pose proof (f_equal length (dumps_pair_eq p [])) as H.
  rewrite app_nil_r in H. rewrite H. cbn [length].
  rewrite length_app. cbn [length]. rewrite length_app. cbn [length]. lia.
Qed.

Lemma dumps_pairs_tail_length l :
  (length l <= length (json.dumps_pairs_tail l))%nat.
Proof.
  induction l as [|p l IH]; [cbn; lia|].
  cbn [json.dumps_pairs_tail]. rewrite !length_app.
  change (length (b ", ")) with 2%nat. cbn [length]. lia.
Qed.

(** What [json.dumps] wrote for a list of ranges, [json.loads] reads back. *)
Lemma loads_dumps_ranges l :
  json.loads (json.dumps_ranges l) = Some (json_ranges l).
Proof.
  destruct l as [|p l]; [done|]. unfold json.loads.
  set (data := json.dumps_ranges (p :: l)).
  assert (Hlen : (length l + 5 <= length data)%nat).
  { unfold data, json.dumps_ranges. rewrite !length_app.
    pose proof (dumps_pair_length p). pose proof (dumps_pairs_tail_length l).
    change (length (b "[")) with 1%nat. lia. }
  assert (Hparse : json.parse_value (S (length data)) data
                   = Some (json_ranges (p :: l), [])).
  { unfold data at 2, json.dumps_ranges.
    change (b "[" ++ json.dumps_pair p ++ json.dumps_pairs_tail l)
      with (x5b :: (json.dumps_pair p ++ json.dumps_pairs_tail l)).
    rewrite (parse_value_arr _ _ x5b
               (json.dumps_int p.1 ++ x2c :: x20
                :: (json.dumps_int p.2 ++ x5d :: json.dumps_pairs_tail l)))
      by first [done | symmetry; apply dumps_pair_eq].
    rewrite <- (app_nil_r (json.dumps_pairs_tail l)).
    by rewrite dumps_pairs_parse by lia. }
  by rewrite Hparse.
Qed.

Lemma ranges_of_json_ranges l :
  network_io.ranges_of_json (json_ranges l) = Some l.
Proof.
  unfold network_io.ranges_of_json, json_ranges.
  induction l as [|[lo hi] l IH]; [done|].
  cbn [fmap list_fmap mapM json_pair fst snd]. cbn [mbind option_bind].
  rewrite IH. done.
Qed.

Ltac ascii_lit := repeat (constructor; [done|]); constructor.

Lemma dumps_pair_ascii p :
  Forall (fun x => 1 <= byte_val x < 128) (json.dumps_pair p).
Proof.
  unfold json.dumps_pair.
  repeat (apply Forall_app; split);
    first [apply dumps_int_ascii | ascii_lit].
Qed.

Lemma dumps_ranges_ascii l :
  Forall (fun x => 1 <= byte_val x < 128) (json.dumps_ranges l).
Proof.
  destruct l as [|p l]; [ascii_lit|].
  unfold json.dumps_ranges. apply Forall_app. split; [ascii_lit|].
  apply Forall_app. split; [apply dumps_pair_ascii|].
  induction l as [|q l IH]; [ascii_lit|].
  cbn [json.dumps_pairs_tail].
  repeat (apply Forall_app; split);
    first [apply dumps_pair_ascii | apply dumps_int_ascii | exact IH | ascii_lit].
Qed.

Lemma loads_utf8_dumps_ranges l :
  network_io.loads_utf8 (json.dumps_ranges l) = Some (json_ranges l).
Proof.
  unfold network_io.loads_utf8.
  rewrite utf8_valid_ascii by apply dumps_ranges_ascii.
  apply loads_dumps_ranges.
Qed.

(** X27. CUSTODY_ACK messages survive the wire.  For an acknowledgement
    whose bundle id fits the 16-octet field, whose nonce is a 64-bit
    number and whose ranges, written as JSON, fit the 16-bit length field,
    decoding what [_serialize_custody_ack_message] produced gives the
    message back: same id, same nonce and the same list of ranges, negative
    bounds included, even when octets follow the JSON text in the
    datagram. *)
Theorem custody_ack_wire_roundtrip (m : CustodyAckMsg.t) (extra : bytes)
    (Hm : wire_ranges (CustodyAckMsg.bundle_id m) (CustodyAckMsg.ranges m))
    (Hnonce : 0 <= CustodyAckMsg.ack_nonce m < 2 ^ 64) :
  network_io._deserialize_message
    (network_io._serialize_custody_ack_message m ++ extra)
  = Some (CUSTODY_ACK m).
Proof.
  destruct Hm as [Hid Hlen].
  unfold network_io._serialize_custody_ack_message. cbv zeta.
  set (rdata := json.dumps_ranges (CustodyAckMsg.ranges m)) in *.
  pose proof (len_nonneg rdata) as Hr0. pose proof (len_nonneg extra) as He0.
  set (pad := network_io.pad16 (CustodyAckMsg.bundle_id m)).
  set (fn := network_io.be_bytes 8 (CustodyAckMsg.ack_nonce m)).
  set (fl := network_io.be_bytes 2 (len rdata)).
  set (hdr := [byte_of 4] ++ pad ++ fn ++ fl).
  assert (Hdata : ([byte_of 4] ++ pad ++ fn ++ fl ++ rdata) ++ extra
                  = hdr ++ rdata ++ extra).
  { unfold hdr. by rewrite <- !app_assoc. }
  assert (Hhdr : len hdr = 27).
  { unfold hdr, pad, fn, fl. len_norm. reflexivity. }
  rewrite Hdata.
  unfold network_io._deserialize_message.
  assert (Hcons : hdr ++ rdata ++ extra
                  = byte_of 4 :: (pad ++ fn ++ fl) ++ rdata ++ extra) by done.
  rewrite Hcons at 1.
  change (byte_val (byte_of 4) =? 1) with false.
  change (byte_val (byte_of 4) =? 2) with false.
  change (byte_val (byte_of 4) =? 3) with false.
  change (byte_val (byte_of 4) =? 4) with true. cbv iota.
  unfold network_io._deserialize_custody_ack_message, network_io.header.
  destruct (Z.ltb_spec (len (hdr ++ rdata ++ extra)) 27) as [Hshort|_].
  { rewrite !len_app, Hhdr in Hshort. lia. }
  assert (Hh : slice (hdr ++ rdata ++ extra) 0 27 = hdr).
  { rewrite slice_app_l by lia. apply slice_exact; [done|]. by rewrite Hhdr. }
  cbn [mbind option_bind]. rewrite Hh.
  assert (F1 : slice hdr 1 17 = pad) by (unfold hdr, pad, fn, fl; field_of).
  assert (F2 : slice hdr 17 25 = fn) by (unfold hdr, pad, fn, fl; field_of).
  assert (F3 : slice hdr 25 27 = fl) by (unfold hdr, pad, fn, fl; field_of).
  rewrite F1. unfold pad. rewrite decode_utf8_pad16 by done.
  cbn [mbind option_bind].
  unfold network_io.field. rewrite F2, F3. unfold fn, fl.
  rewrite !be_uint_be_bytes by (cbn; lia).
  assert (Hpay : slice (hdr ++ rdata ++ extra) 27 (27 + len rdata) = rdata).
  { rewrite slice_app_r by (rewrite ?len_app; lia).
    rewrite slice_app_l by lia. apply slice_exact; lia. }
  rewrite Hpay. unfold rdata. rewrite loads_utf8_dumps_ranges.
  cbn [mbind option_bind]. rewrite ranges_of_json_ranges.
  cbn [mbind option_bind]. by destruct m.
Qed.

Lemma custody_ack_wire_roundtrip_witness :
  network_io._deserialize_message
    (network_io._serialize_custody_ack_message
       {| CustodyAckMsg.bundle_id := "0123456789abcdef";
          CustodyAckMsg.ranges := [(0, 10); (-3, 2048)];
          CustodyAckMsg.ack_nonce := 2 ^ 63 + 5 |} ++ b "trailing")
  = Some (CUSTODY_ACK
            {| CustodyAckMsg.bundle_id := "0123456789abcdef";
               CustodyAckMsg.ranges := [(0, 10); (-3, 2048)];
               CustodyAckMsg.ack_nonce := 2 ^ 63 + 5 |}).
Proof.
  apply (custody_ack_wire_roundtrip
           {| CustodyAckMsg.bundle_id := "0123456789abcdef";
              CustodyAckMsg.ranges := [(0, 10); (-3, 2048)];
              CustodyAckMsg.ack_nonce := 2 ^ 63 + 5 |} (b "trailing")).
  - unfold wire_ranges, wire_id.
    split; [split; [vm_compute; lia | repeat constructor; vm_compute; done]|].
    vm_compute. reflexivity.
  - vm_compute. split; congruence.
Defined.

(** X28. CUSTODY_REQ messages keep their id and ranges on the wire, and
    their time to live in whole seconds.  For a request whose bundle id
    fits the 16-octet field, whose time to live, truncated to an integer,
    is a 32-bit number and whose ranges, written as JSON, fit the 16-bit
    length field, decoding what [_serialize_custody_req_message] produced
    gives a CUSTODY_REQ with the same id and the same ranges; its
    [ttl_remaining] is [int(ttl_remaining)] of the original, so the
    fraction of a second is lost. *)
Theorem custody_req_wire_roundtrip (m : CustodyReqMsg.t) (extra : bytes)
    (Hm : wire_ranges (CustodyReqMsg.bundle_id m) (CustodyReqMsg.ranges m))
    (Httl : 0 <= network_io.int_of (CustodyReqMsg.ttl_remaining m) < 2 ^ 32) :
  network_io._deserialize_message
    (network_io._serialize_custody_req_message m ++ extra)
  = Some (CUSTODY_REQ
            {| CustodyReqMsg.bundle_id := CustodyReqMsg.bundle_id m;
               CustodyReqMsg.ranges := CustodyReqMsg.ranges m;
               CustodyReqMsg.ttl_remaining :=
                 inject_Z (network_io.int_of (CustodyReqMsg.ttl_remaining m)) |}).
Proof.
  destruct Hm as [Hid Hlen].
  unfold network_io._serialize_custody_req_message. cbv zeta.
  set (rdata := json.dumps_ranges (CustodyReqMsg.ranges m)) in *.
  set (ttl := network_io.int_of (CustodyReqMsg.ttl_remaining m)) in *.
  pose proof (len_nonneg rdata) as Hr0. pose proof (len_nonneg extra) as He0.
  set (pad := network_io.pad16 (CustodyReqMsg.bundle_id m)).
  set (ft := network_io.be_bytes 4 ttl).
  set (fl := network_io.be_bytes 2 (len rdata)).
  set (hdr := [byte_of 3] ++ pad ++ ft ++ fl).
  assert (Hdata : ([byte_of 3] ++ pad ++ ft ++ fl ++ rdata) ++ extra
                  = hdr ++ rdata ++ extra).
  { unfold hdr. by rewrite <- !app_assoc. }
  assert (Hhdr : len hdr = 23).
  { unfold hdr, pad, ft, fl. len_norm. reflexivity. }
  rewrite Hdata.
  unfold network_io._deserialize_message.
  assert (Hcons : hdr ++ rdata ++ extra
                  = byte_of 3 :: (pad ++ ft ++ fl) ++ rdata ++ extra) by done.
  rewrite Hcons at 1.
  change (byte_val (byte_of 3) =? 1) with false.
  change (byte_val (byte_of 3) =? 2) with false.
  change (byte_val (byte_of 3) =? 3) with true. cbv iota.
  unfold network_io._deserialize_custody_req_message, network_io.header.
  destruct (Z.ltb_spec (len (hdr ++ rdata ++ extra)) 23) as [Hshort|_].
  { rewrite !len_app, Hhdr in Hshort. lia. }
  assert (Hh : slice (hdr ++ rdata ++ extra) 0 23 = hdr).
  { rewrite slice_app_l by lia. apply slice_exact; [done|]. by rewrite Hhdr. }
  cbn [mbind option_bind]. rewrite Hh.
  assert (F1 : slice hdr 1 17 = pad) by (unfold hdr, pad, ft, fl; field_of).
  assert (F2 : slice hdr 17 21 = ft) by (unfold hdr, pad, ft, fl; field_of).
  assert (F3 : slice hdr 21 23 = fl) by (unfold hdr, pad, ft, fl; field_of).
  rewrite F1. unfold pad. rewrite decode_utf8_pad16 by done.
  cbn [mbind option_bind].
  unfold network_io.field. rewrite F2, F3. unfold ft, fl.
  rewrite !be_uint_be_bytes by (cbn; lia).
  assert (Hpay : slice (hdr ++ rdata ++ extra) 23 (23 + len rdata) = rdata).
  { rewrite slice_app_r by (rewrite ?len_app; lia).
    rewrite slice_app_l by lia. apply slice_exact; lia. }
  rewrite Hpay. unfold rdata. rewrite loads_utf8_dumps_ranges.
  cbn [mbind option_bind]. rewrite ranges_of_json_ranges.
  by cbn [mbind option_bind].
Qed.

Lemma custody_req_wire_roundtrip_witness :
  network_io._deserialize_message
    (network_io._serialize_custody_req_message
       {| CustodyReqMsg.bundle_id := "0123456789abcdef";
          CustodyReqMsg.ranges := [(0, 7)];
          CustodyReqMsg.ttl_remaining := 7 # 2 |} ++ b "trailing")
  = Some (CUSTODY_REQ
            {| CustodyReqMsg.bundle_id := "0123456789abcdef";
               CustodyReqMsg.ranges := [(0, 7)];
               CustodyReqMsg.ttl_remaining := inject_Z 3 |}).
Proof.
  apply (custody_req_wire_roundtrip
           {| CustodyReqMsg.bundle_id := "0123456789abcdef";
              CustodyReqMsg.ranges := [(0, 7)];
              CustodyReqMsg.ttl_remaining := 7 # 2 |} (b "trailing")).
  - unfold wire_ranges, wire_id.
    split; [split; [vm_compute; lia | repeat constructor; vm_compute; done]|].
    vm_compute. reflexivity.
  - vm_compute. split; congruence.
Defined.

(** X29. DELIVERED messages survive the wire.  For a bundle id of at most
    16 ASCII characters without NUL, decoding what
    [_serialize_delivered_message] produced gives the DELIVERED message
    of that bundle back, whatever octets follow the 17 of the message. *)
Theorem delivered_wire_roundtrip (m : DeliveredMsg.t) (extra : bytes)
    (Hid : wire_id (DeliveredMsg.bundle_id m)) :
  network_io._deserialize_message
    (network_io._serialize_delivered_message m ++ extra)
  = Some (DELIVERED m).
Proof.
  unfold network_io._serialize_delivered_message.
  pose proof (len_nonneg extra) as He0.
  set (pad := network_io.pad16 (DeliveredMsg.bundle_id m)).
  set (hdr := [byte_of 5] ++ pad).
  assert (Hhdr : len hdr = 17).
  { unfold hdr, pad. len_norm. reflexivity. }
  unfold network_io._deserialize_message.
  assert (Hcons : hdr ++ extra = byte_of 5 :: pad ++ extra) by done.
  rewrite Hcons at 1.
  change (byte_val (byte_of 5) =? 1) with false.
  change (byte_val (byte_of 5) =? 2) with false.
  change (byte_val (byte_of 5) =? 3) with false.
  change (byte_val (byte_of 5) =? 4) with false.
  change (byte_val (byte_of 5) =? 5) with true. cbv iota.
  unfold network_io._deserialize_delivered_message, network_io.header.
  destruct (Z.ltb_spec (len (hdr ++ extra)) 17) as [Hshort|_].
  { rewrite !len_app, Hhdr in Hshort. lia. }
  assert (Hh : slice (hdr ++ extra) 0 17 = hdr).
  { rewrite slice_app_l by lia. apply slice_exact; [done|]. by rewrite Hhdr. }
  cbn [mbind option_bind]. rewrite Hh.
  assert (F1 : slice hdr 1 17 = pad) by (unfold hdr, pad; field_of).
  rewrite F1. unfold pad. rewrite decode_utf8_pad16 by done.
  cbn [mbind option_bind]. by destruct m.
Qed.

Lemma delivered_wire_roundtrip_witness :
  network_io._deserialize_message
    (network_io._serialize_delivered_message
       {| DeliveredMsg.bundle_id := "0123456789abcdef" |} ++ b "trailing")
  = Some (DELIVERED {| DeliveredMsg.bundle_id := "0123456789abcdef" |}).
Proof.
  apply (delivered_wire_roundtrip
           {| DeliveredMsg.bundle_id := "0123456789abcdef" |} (b "trailing")).
  unfold wire_id.
  split; [vm_compute; lia | repeat constructor; vm_compute; done].
Defined.

(** ** The sender's chunks on the wire *)

Lemma slice_length_le {A} (l : list A) lo hi :
  0 <= lo -> 0 <= hi -> len (slice l lo hi) <= Z.max 0 (hi - lo).
Proof.
  intros Hlo Hhi. unfold slice, slice_index, len. rewrite length_take.
  destruct (Z.ltb_spec lo 0); [lia|]. destruct (Z.ltb_spec hi 0); lia.
Qed.

Lemma slice_Forall {A} (P : A -> Prop) (l : list A) lo hi :
  Forall P l -> Forall P (slice l lo hi).
Proof. intros H. unfold slice. by apply Forall_take, Forall_drop. Qed.

Lemma _xor_chunks_length chunks (m : nat) :
  Forall (fun c => (length (Chunk.payload c) <= m)%nat) chunks ->
  (length (send_engine._xor_chunks chunks) <= m)%nat.
Proof.
  intros H. rewrite _xor_chunks_stripe. unfold stripe.
  rewrite xor_fold_length. cbn [length].
  pose proof (longest_le (Chunk.payload <$> chunks) m) as Hl.
  rewrite Forall_fmap in Hl. specialize (Hl H). lia.
Qed.

Lemma checksum_range z : 0 <= Z.land z 0xFFFFFFFF < 2 ^ 32.
Proof.
  change 0xFFFFFFFF with (Z.ones 32). rewrite Z.land_ones by lia.
  apply Z.mod_pos_bound. lia.
Qed.

Lemma data_chunk_payload_length cfg fec (file_data : bytes) id use_fec i :
  1 <= config.chunk_size cfg -> 0 <= i ->
  len (Chunk.payload (send_engine.data_chunk cfg fec file_data id use_fec i))
  <= config.chunk_size cfg.
Proof.
  intros Hcs Hi. cbn [send_engine.data_chunk Chunk.payload]. cbv zeta.
  pose proof (len_nonneg file_data).
  pose proof (slice_length_le file_data (i * config.chunk_size cfg)
                (Z.min (i * config.chunk_size cfg + config.chunk_size cfg)
                       (len file_data))) as Hs.
  assert (0 <= i * config.chunk_size cfg) by nia. lia.
Qed.

(** The header fields of the DATA message of any chunk of a bundle. *)
Lemma created_chunk_wire_data cfg fec (file_data : bytes) id use_fec chunks c :
  1 <= config.chunk_size cfg < 2 ^ 16 ->
  0 <= config.k fec < 2 ^ 16 -> 0 <= config.r fec < 2 ^ 16 ->
  wire_id id ->
  send_engine._create_chunks cfg fec file_data id use_fec = inr chunks ->
  len chunks < 2 ^ 32 ->
  c ∈ chunks ->
  wire_data {| DataMsg.bundle_id := Chunk.bundle_id c;
               DataMsg.chunk_id := Chunk.chunk_id c;
               DataMsg.total_chunks := len chunks;
               DataMsg.block_id := Chunk.block_id c;
               DataMsg.k := Chunk.k c;
               DataMsg.r := Chunk.r c;
               DataMsg.checksum := Chunk.checksum c;
               DataMsg.payload := Chunk.payload c |}.
Proof.
  intros Hcs Hk Hr Hid Hchunks Htotal Hc.
  destruct (create_chunks_split cfg fec file_data id use_fec chunks
              ltac:(lia) Hchunks) as (Hsplit & _ & Hb).
  cbv zeta in Hsplit.
  set (n := ceil_div (len file_data) (config.chunk_size cfg)) in *.
  assert (Hn0 : 0 <= n).
  { apply ceil_div_nonneg; [lia | apply len_nonneg]. }
  set (data := send_engine.data_chunk cfg fec file_data id use_fec <$> range n) in *.
  assert (Hdn : len data = n) by (unfold data; rewrite len_fmap, len_range; lia).
  assert (Hnt : n <= len chunks).
  { rewrite Hsplit, len_app, Hdn. pose proof (len_nonneg
      (if use_fec && config.enabled fec && (0 <? config.k fec) && (0 <? config.r fec)
       then send_engine._generate_fec_chunks fec data id else [])). lia. }
  pose proof Hc as Hc0.
  apply list_elem_of_lookup in Hc0 as [p Hp].
  pose proof (create_chunks_positions cfg fec file_data id use_fec chunks
                ltac:(lia) Hchunks p c Hp) as Hpos.
  pose proof (lookup_lt_Some _ _ _ Hp) as Hplt.
  rewrite Forall_forall in Hb. specialize (Hb c Hc).
  assert (Hdata : Forall (fun c => (length (Chunk.payload c)
                                    <= Z.to_nat (config.chunk_size cfg))%nat) data).
  { unfold data. apply Forall_fmap, Forall_forall. intros i Hi.
    apply range_elem in Hi. cbn beta.
    pose proof (data_chunk_payload_length cfg fec file_data id use_fec i
                  ltac:(lia) ltac:(lia)) as Hl.
    unfold len in Hl. unfold compose. lia. }
  unfold wire_data. cbn [DataMsg.bundle_id DataMsg.chunk_id DataMsg.total_chunks
                         DataMsg.block_id DataMsg.k DataMsg.r DataMsg.checksum
                         DataMsg.payload].
  rewrite Hb. split; [done|]. split; [unfold len in *; lia|].
  split; [pose proof (len_nonneg chunks); lia|].
  rewrite Hsplit in Hc. apply elem_of_app in Hc as [Hc|Hc].
  - unfold data in Hc. apply list_elem_of_fmap in Hc as (i & -> & Hi).
    apply range_elem in Hi.
    cbn [send_engine.data_chunk Chunk.block_id Chunk.k Chunk.r Chunk.checksum
         Chunk.payload]. cbv zeta.
    split.
    { destruct (use_fec && (0 <? config.k fec)) eqn:Hon; [|lia].
      apply andb_true_iff in Hon as [_ Hk0]. apply Z.ltb_lt in Hk0.
      pose proof (Z.div_pos i (config.k fec) ltac:(lia) ltac:(lia)).
      assert (i / config.k fec <= i)
        by (apply Z.div_le_upper_bound; [lia | nia]).
      lia. }
    split; [destruct use_fec; lia|]. split; [destruct use_fec; lia|].
    split; [apply checksum_range|].
    pose proof (data_chunk_payload_length cfg fec file_data id use_fec i
                  ltac:(lia) ltac:(lia)) as Hl.
    cbn [send_engine.data_chunk Chunk.payload] in Hl. cbv zeta in Hl. lia.
  - destruct (use_fec && config.enabled fec && (0 <? config.k fec)
              && (0 <? config.r fec)) eqn:Hon; [|by apply elem_of_nil in Hc].
    apply andb_true_iff in Hon as [Hon Hr0]. apply Z.ltb_lt in Hr0.
    apply andb_true_iff in Hon as [_ Hk0]. apply Z.ltb_lt in Hk0.
    unfold send_engine._generate_fec_chunks in Hc. cbv zeta in Hc.
    destruct (Z.leb_spec (config.k fec) 0) as [|_]; [lia|].
    destruct (Z.leb_spec (config.r fec) 0) as [|_]; [lia|].
    cbn [orb] in Hc.
    apply list_elem_of_In, in_concat in Hc as (blk & Hblk & Hc).
    apply list_elem_of_In, list_elem_of_fmap in Hblk as (start & -> & Hstart).
    apply list_elem_of_In in Hc.
    unfold range3 in Hstart.
    apply list_elem_of_fmap in Hstart as (j & -> & Hj). apply elem_of_seq in Hj.
    unfold send_engine.parity_block in Hc. cbv zeta in Hc.
    set (blkc := slice data (0 + Z.of_nat j * config.k fec)
                   (0 + Z.of_nat j * config.k fec + config.k fec)) in *.
    assert (Hblkc : Forall (fun c => (length (Chunk.payload c)
                              <= Z.to_nat (config.chunk_size cfg))%nat) blkc)
      by (by apply slice_Forall).
    pose proof (_xor_chunks_length blkc _ Hblkc) as Hxl.
    destruct blkc as [|c0 rest] eqn:Hblk; [by apply elem_of_nil in Hc|].
    apply list_elem_of_fmap in Hc as (q & -> & _).
    cbn [Chunk.block_id Chunk.k Chunk.r Chunk.checksum Chunk.payload].
    split.
    { replace (0 + Z.of_nat j * config.k fec) with (Z.of_nat j * config.k fec)
        by lia.
      rewrite Z.div_mul by lia.
      pose proof (Z.mul_div_le (len data - 0 + config.k fec - 1) (config.k fec)
                    ltac:(lia)) as Hq.
      assert (Z.of_nat j
              < (len data - 0 + config.k fec - 1) / config.k fec) by lia.
      nia. }
    split; [lia|]. split; [lia|]. split; [apply checksum_range|].
    unfold len. lia.
Qed.

(** X30. What the sender cuts a file into fits the wire.  With a chunk
    size between 1 and 65535, FEC parameters [k] and [r] below [2 ** 16], a
    bundle id of at most 16 ASCII characters and fewer than [2 ** 32]
    chunks in all, every chunk that [_create_chunks] produces, data or
    parity, gives a DATA message (built by [make_data_msg] with
    [total_chunks] the number of chunks, as [_send_window] and
    [retransmit_chunks] do) that carries the chunk's id and payload and
    that [_deserialize_message] reads back unchanged from the octets of
    [_serialize_data_message], whatever follows them in the datagram. *)
Theorem created_chunks_survive_wire (cfg : config.TransferConfig)
    (fec : config.FECConfig) (file_data : bytes) (id : string) (use_fec : bool)
    (chunks : list Chunk.t) (c : Chunk.t) (extra : bytes)
    (Hsize : 1 <= config.chunk_size cfg < 2 ^ 16)
    (Hk : 0 <= config.k fec < 2 ^ 16) (Hr : 0 <= config.r fec < 2 ^ 16)
    (Hid : wire_id id)
    (Hchunks : send_engine._create_chunks cfg fec file_data id use_fec = inr chunks)
    (Htotal : len chunks < 2 ^ 32)
    (Hc : c ∈ chunks) :
  exists m,
    wire_msg (len chunks) c = DATA m
    /\ DataMsg.chunk_id m = Chunk.chunk_id c
    /\ DataMsg.payload m = Chunk.payload c
    /\ network_io._deserialize_message
         (network_io._serialize_data_message m ++ extra)
       = Some (DATA m).
Proof.
  eexists. split; [reflexivity|]. split; [reflexivity|]. split; [reflexivity|].
  apply data_wire.
  by apply (created_chunk_wire_data cfg fec file_data id use_fec chunks c).
Qed.

Lemma created_chunks_survive_wire_witness :
  exists m,
    wire_msg (len striped_chunks)
      (send_engine.data_chunk lab_transfer xor_fec (b "AAAABBBB") "b3" true 1)
    = DATA m
    /\ DataMsg.chunk_id m
       = Chunk.chunk_id
           (send_engine.data_chunk lab_transfer xor_fec (b "AAAABBBB") "b3" true 1)
    /\ DataMsg.payload m
       = Chunk.payload
           (send_engine.data_chunk lab_transfer xor_fec (b "AAAABBBB") "b3" true 1)
    /\ network_io._deserialize_message
         (network_io._serialize_data_message m ++ b "trailing")
       = Some (DATA m).
Proof.
  apply (created_chunks_survive_wire lab_transfer xor_fec (b "AAAABBBB") "b3"
           true striped_chunks
           (send_engine.data_chunk lab_transfer xor_fec (b "AAAABBBB") "b3" true 1)
           (b "trailing")).
  - vm_compute. split; congruence.
  - vm_compute. split; congruence.
  - vm_compute. split; congruence.
  - unfold wire_id.
    split; [vm_compute; lia | repeat constructor; vm_compute; done].
  - vm_compute. reflexivity.
  - vm_compute. reflexivity.
  - vm_compute. apply list_elem_of_further, list_elem_of_here.
Defined.
